(* ===== verification/_CoqProject ===== *)
-Q . S2P
Prelude.v
Bytes.v
StripeSplitter.v
Message.v
TaskArgs.v
Factory.v
Dispatcher.v
Sockets.v
Logger.v
Ticket.v
IMinionProxy.v
MinionProxy.v
NBD.v
NBDProxy.v
ResponseManager.v
World.v
MinionManager.v
Commands.v
Framework.v
Master.v
Protocol.v
Raid.v
Service.v
FileManager.v
MasterProxy.v
Minion.v
Mirror.v
Scheduler.v
AsyncInjection.v
ThreadPool.v
LoggerThread.v
Reactor.v
DirMonitor.v
DLLLoader.v
Shutdown.v
Handleton.v
Descriptors.v
NBDDevice.v
Watch.v
Lifetime.v
Plugin.v
Tasks.v
Singleton.v
Tests.v
Work.v
Resize.v
Stopping.v
Drive.v
System.v
Flight.v
Degraded.v
Ordering.v
Integrity.v
Discipline.v
Linear.v
Linearizable.v
Progress.v
Programs.v
Threads.v
Locks.v
Queues.v
TestLogger.v
TestPool.v
TestQueue.v
