(* ===== verification/Prelude.v ===== *)
(** * A verification of IoTBasedRAID01

    The program is a network RAID-01: the kernel of the master host sees a block
    device; the master cuts its requests at the borders of chunks and sends each
    part to two minions over UDP, of which the second holds a mirror; a minion
    keeps its chunk in a file.  Master and minions are built on a small framework
    for event loops, thread pools, timers, loggers and plugins.

    ** The way of a request

    [NBD] (device) -> [NBDProxy] (decodes, keeps a reply) -> [Framework], [Reactor]
    -> [ThreadPool] -> [FW_TPTask] -> [ReadCommand] or [WriteCommand] ->
    [MinionManager] -> [StripeSplitter], [Ticket] -> [MinionProxy] -> UDP ->
    [MasterProxy] -> the minion's command -> [FileManager] -> UDP ->
    [MinionProxy] -> [Ticket] -> [ResponseManager] -> [NBDProxy] -> the kernel.

    ** Files

    This file: results of C++ code ([res]: a value, an exception, undefined
    behaviour, waiting for ever), code over a state ([prog], with its notation from
    stdpp's [MBind] and [MRet], [try] for catch clauses, [zoom] for code that runs on
    a part of the state), machine integers, memory cells, the rewrite database
    [raid] and the tactics [run_prog] and [wrap].
    [Bytes.v]: little-endian and big-endian integers in memory.

    The data path (paths are below [concrete/src] unless given):
    - [StripeSplitter.v]: [StripeSplitter.cpp].
    - [Message.v]: [AMessage.cpp], [MessageSend.cpp], [MessageReceive.cpp]; a Module
      per class, a sum type for the virtual dispatch.
    - [TaskArgs.v]: [UID.cpp], [ATaskArgs.cpp], [NBDReadArgs.cpp], [NBDWriteArgs.cpp],
      [MinionArgs.cpp].
    - [Sockets.v]: send and receive of [UdpSocket.cpp] and [TcpClientSocket.cpp];
      [Descriptors.v]: their constructors, and [include/SocketBase.hpp].
    - [NBD.v], [NBDProxy.v]: wire format and [NBDProxy.cpp]; [NBDDevice.v]: [NBD.cpp].
    - [Ticket.v]: [Ticket.cpp]; [ResponseManager.v]: [ResponseManager.cpp], [Response.cpp].
    - [IMinionProxy.v]: the interface [IMinionProxy.hpp] as a class with its laws;
      [MinionProxy.v]: [MinionProxy.cpp] and the instance; [MinionManager.v]:
      [MinionManager.cpp], against the interface only.
    - [Commands.v]: [Commands.cpp]; [FileManager.v]: [FileManager.cpp];
      [MasterProxy.v]: [MasterProxy.cpp]; [Minion.v]: [MinionCommands.cpp] and the
      program of a minion, [framework/test/TestFirstMinion.cpp].

    The framework (below [framework/src] and [framework/include]):
    - [Factory.v]: [factory.hpp]; [Dispatcher.v]: [dispatcher.hpp], with the lifetimes
      of dispatchers and callbacks; [Handleton.v]: [handleton.hpp];
      [Singleton.v]: [singleton.hpp].
    - [Framework.v]: the constructor of [Framework.cpp] and [FW_TPTask.cpp];
      [Lifetime.v]: [Run], [Stop] and the destructor of a framework, with the thread
      of its monitor.
    - [Reactor.v]: [reactor.cpp], and [listener.cpp] as an instance of [IListener];
      [Stopping.v]: [Run] and [Stop] in two threads, and the destructor of
      [MinionManager].
    - [ThreadPool.v]: [thread_pool.cpp], [waitable_queue.hpp]; [Queues.v]: the queues
      with their mutex and condition variable; [Shutdown.v]: the pool's destructor;
      [Work.v]: what it does with the tasks; [Resize.v]: [Pause] and the destructor
      in a pool whose number of threads changes; [Tasks.v]: [tp_task.hpp].
    - [Scheduler.v]: [scheduler.cpp]; [AsyncInjection.v]: [AsyncInjection.cpp].
    - [Logger.v]: the logger as others see it; [LoggerThread.v]: [logger.cpp] from the
      inside.
    - [DirMonitor.v]: what the thread of [dir_monitor.cpp] does with events;
      [Watch.v]: the life of the monitor and its thread; [DLLLoader.v]:
      [dll_loader.cpp] over the class [Linker]; [Plugin.v]: [FrameworkPlugin.cpp] in
      the program that loads it.

    The whole:
    - [World.v], [Master.v]: the objects of the master put together as
      [framework/test/TestFramework.cpp] does; a handler is one step there.
    - [Protocol.v], [Raid.v], [Service.v]: theorems about the running master;
      [Mirror.v]: what a pair of minions does with overlapping ranges.
    - [Drive.v]: the disk that the whole is for its kernel, as an array of bytes;
      [System.v]: the master, its minions and the datagrams between them;
      [Degraded.v]: when disks fail; [Ordering.v]: runs with requests in flight;
      [Flight.v]: what one step does to a request in flight; [Integrity.v]: an
      invariant of all runs; [Discipline.v], [Linear.v], [Linearizable.v], [Progress.v]:
      runs in which the kernel orders what conflicts.
    - [Threads.v]: the threads of the master, cut where others can run in between:
      the reader, the pool of [Work.v] with its commands, the receiver.
    - [Locks.v]: the mutexes that the handlers of both programs take.
    - [Programs.v]: the four programs with their hosts, ports, files and chunk size;
      the table of the master against the ports that the minions bind.
    - [Tests.v]: test programs of the repository, run on the definitions;
      [TestLogger.v], [TestPool.v], [TestQueue.v]: those of the logger, the pool and the
      queue, whose threads run in any order.

    A class of the code is a Record (its members, with their names where two files
    do not clash), a member function is a Definition over that Record with the name
    of the function; where several threads run the same object, a function is cut
    into the steps between which others can run, and the threads are an Inductive
    relation ([tstep], [pstep], [rstep], [hstep], [mstep] and the like).

    ** Theorems

    - What a client sees.  [System.system_is_a_disk]: for requests inside of chunks of
      which no two share a minion, and inside packets, over a network that delivers,
      with disks that do not fail, master and minions are an array of bytes;
      [Programs.programs_serve] says it of the programs as they are shipped, and that
      the master's table has the ports that the minions bind;
      [Degraded.survives_disk_failures] of minions whose disks fail, one of the two of
      a chunk at most: but for a read that the failed backup answers first.
      [Linearizable.disk_linearizable]: with requests in flight together and over a
      network that loses and reorders, it still is such an array, if the kernel keeps
      conflicting requests apart and no request arrives twice; and then both copies
      of what was acknowledged are in the files ([Linearizable.copies_agree]).
      [Progress.requests_answerable]: under the same conditions no request gets stuck,
      whatever state the system is in, as long as what is on the way arrives; nothing
      is sent a second time, and [lost_request_unanswered] says what that means for a
      write.
      [Integrity.reads_are_writes]: with any requests in flight inside such chunks,
      over a network that loses, copies and reorders, what is read was written there;
      [Ordering.mirrors_diverge] and [acknowledged_write_undone] are runs that break
      the order of the kernel and the single delivery: the copies differ for good.
      [Protocol.replies_conform]: replies are well-formed, at
      most one for each request, under every behaviour of the network;
      [Threads.threads_conform]: and for every interleaving of the threads.
      [Service.write_served], [Service.read_served]: a request inside a chunk is
      answered with the right bytes. [Minion.minion_serves]: a minion serves any
      sequence of requests.
    - Specifications and refinements.  A ticket implements a history of answers
      ([Ticket.Ticket_refines]); the file of a minion implements an array of bytes
      ([FileManager.FileManager_refines]); the queues of the threads are linearizable
      ([Queues.queue_linearizable]) and lose no wakeup ([Queues.no_lost_wakeup]); the steps
      of a command together are the function of the code ([Threads.command_alone]),
      which connects [Threads.v] with [Master.v]; the loop of [Split] equals a closed form
      ([StripeSplitter.Split_is_chunks]) and an assignment of single bytes
      ([Split_bytes]).
    - Round trips of messages, kernel requests and inotify events.
    - Invariants of the concurrent parts: registry, singleton, logger, pool, reactor,
      plugins, dispatcher; no task of the pool is lost or run twice
      ([Work.runs_every_task_once]), a future gives its value
      ([Tasks.future_delivers]).
    - No deadlock: the order in which mutexes are taken ([Locks.no_deadlock]); the
      thread of the answers does not wait in [recvfrom]
      ([Threads.receiver_never_waits]).
    - Errors of the disk: a minion answers rightly up to the first, and with failures
      after it ([FileManager.fail_stop], [Minion.minion_fail_stop]).
    - Termination: [TestPool.simple_clients_pass] (programs that use the pool),
      [Resize.shutdown_terminates] (at most three steps for each thread of a pool that
      is not paused), [Watch.Stop_terminates] (at most seven steps, unless a function
      that the monitor calls throws or hangs).
    - Ownership: descriptors, sockets, processes and plugins are released on every
      path that the code takes care of ([NBDDevice.NBD_releases],
      [Lifetime.framework_released], [DLLLoader.plugins_balanced]).
    - Where the code does not do what it means to, a theorem says so: requests that
      cross a chunk or lie outside of the drive are never answered ([Raid.v]), the
      mirror of a chunk overwrites the neighbour's data ([Mirror.v]), a full disk
      disables a minion ([FileManager.full_disk_disables]), a test of the pool may
      hang ([TestPool.EvilTest_hangs]), a paused pool is not destroyed
      ([Resize.paused_destruction_hangs]), a registry entry stays null after a
      constructor has thrown ([Handleton.null_for_ever]), and others that are named
      as such in their comments.

    ** Bounds and fuel

    - [StripeSplitter.Split_loop]: [length / chunkSize + 3] iterations; [Split_returns]
      proves that they are enough for all arguments in range.
    - [DirMonitor.events_loop]: the number of bytes read; an event has 16 at least.
    - [Reactor.Run_loop] and [Framework_Run]: the loop of the code has no bound; the
      fuel is the number of rounds, and the theorems are about one round.
    - [Threads.run_alone]: the steps of a command; [sending_alone] shows that one for
      each call of a proxy and one more are enough.
    - The loops over sockets recurse over the results of the system calls.
    - Sizes are 64 bits wide ([u64]), message sizes 32 ([u32]); every addition that
      can wrap around is written with it.

    ** What is assumed

    - The calls of the kernel are scripted: a socket carries the results of its next
      calls, a descriptor table says which calls fail.  Theorems quantify over the
      script.  Numbers of descriptors are not used again, so that a stale one shows.
    - [select] ([Reactor.v]), the dynamic linker ([DLLLoader.Linker] with
      [LinkerLaws]), [localtime], the constants of [linux/nbd.h] ([NBD.v]) and the type
      of the callbacks are parameters; each is instantiated in the witnesses.
    - [read] of an inotify descriptor gives whole events
      ([DirMonitor.MonitorRun_reports] only).
    - A mutex makes what it protects one step ([Queues.v] proves it for the queues),
      and system calls under it return.
      [Threads.v] leaves in one step what runs under mutexes that are released
      together, and the reading of one request, of which there is one thread. Atomics are sequentially consistent.
      A lookup in a map without a lock is undefined in the states in which another
      thread inserts into it ([Handleton.step], [lookup_races]).
    - A datagram can arrive at any moment after it was sent, or never; a network
      that delivers brings it to the socket with the address that it was sent to,
      and a socket bound to the wildcard address has that of its host
      ([Programs.programs_serve]).
    - Functions that a thread calls may throw and may not come back where the code
      does not prevent it ([Watch.v], [Lifetime.v]); the functions of a pool's tasks
      return.
    - The disk of a minion may fail when it reads or writes, by a script as for
      sockets; seeking succeeds. [timer_settime] may fail
      ([Scheduler.failed_add_stays]); the theorems on idle schedulers and on
      injections ([AsyncInjection.v]) are about calls that succeed. Memory does not
      run out.
    - Texts of exceptions are without the line feed at their end. Memory is a list of
      cells that may be indeterminate; reading such a cell as an integer, an index
      outside of a vector, a deleted object and the like are [Undefined].

    ** Not modelled

    - [scheduler_task.hpp]: its constructor does not compile, and nothing uses it.
    - The delivery of signals, [fork] beyond the two processes of [NBD.cpp], real
      time.
    - The functions [ToString] of the messages, which print for a test.
    - Programs that need a person or other files to run ([test_handleton.cpp],
      [test_dir_monitor.cpp], [test_reactor.cpp]) and [test_singleton.cpp], whose
      threads race on a string; [test_factory.cpp], which does not compile;
      [TestFile.cpp].
    - The shared objects that only print when they are loaded.
    - The destruction of the registry's objects at the end of the program, whose
      order between shared objects is not fixed. *)

From Stdlib Require Export ZArith Lia.
From Stdlib.Strings Require Import Byte.
From stdpp Require Export base list list_numbers gmap strings pretty.

#[global] Open Scope Z_scope.

(** ** Results of C++ code

    A call returns, throws an exception of the standard library, runs into
    undefined behaviour, or never returns because it waits for an event that
    does not happen. *)

Inductive exn : Set :=
  | runtime_error (what : string)
  | out_of_range (what : string)
  | invalid_argument (what : string)
  | bad_optional_access
  | bad_array_new_length.

(** [std::exception::what]. *)
Definition what (e : exn) : string :=
  match e with
  | runtime_error w | out_of_range w | invalid_argument w => w
  | bad_optional_access => "bad optional access"
  | bad_array_new_length => "std::bad_array_new_length"
  end.

Inductive res (A : Type) : Type :=
  | Ok (a : A)
  | Throw (e : exn)
  | Undefined
  | Blocked.
Arguments Ok {A} a.
Arguments Throw {A} e.
Arguments Undefined {A}.
Arguments Blocked {A}.

#[export] Instance exn_eq_dec : EqDecision exn.
Proof. solve_decision. Defined.

#[export] Instance res_ret : MRet res := @Ok.
#[export] Instance res_bind : MBind res := fun A B f m =>
  match m with
  | Ok a => f a
  | Throw e => Throw e
  | Undefined => Undefined
  | Blocked => Blocked
  end.

#[export] Instance res_fmap : FMap res := fun A B f m => m ≫= (fun a => mret (f a)).

(** [require b] is undefined behaviour unless [b]. *)
Definition require (b : bool) : res unit := if b then Ok tt else Undefined.

(** ** Code with state

    [prog S A] is code that runs over a state [S].  The state is kept when
    the code throws: a handler can change its object before the call that
    throws. *)

Definition prog (S A : Type) : Type := S -> res A * S.

Section prog.
Context {S : Type}.

#[export] Instance prog_ret : MRet (prog S) := fun A a s => (Ok a, s).
#[export] Instance prog_bind : MBind (prog S) := fun A B f m s =>
  match m s with
  | (Ok a, s') => f a s'
  | (Throw e, s') => (Throw e, s')
  | (Undefined, s') => (Undefined, s')
  | (Blocked, s') => (Blocked, s')
  end.

Definition throw {A} (e : exn) : prog S A := fun s => (Throw e, s).
Definition gets {A} (f : S -> A) : prog S A := fun s => (Ok (f s), s).
Definition modify (f : S -> S) : prog S unit := fun s => (Ok tt, f s).
Definition lift {A} (r : res A) : prog S A := fun s => (r, s).

(** [try m handler]: a [catch] clause for the exceptions of the standard
    library. Undefined behaviour and waiting are not caught. *)
Definition try {A} (m : prog S A) (handler : exn -> prog S A) : prog S A :=
  fun s => match m s with
           | (Throw e, s') => handler e s'
           | r => r
           end.

Fixpoint for_each {A} (f : A -> prog S unit) (l : list A) : prog S unit :=
  match l with
  | [] => mret tt
  | x :: l => f x ;; for_each f l
  end.
End prog.

(** [zoom get put m] runs [m] on the part [get s] of a larger state [s]. *)
Definition zoom {S T A} (get : S -> T) (put : T -> S -> S) (m : prog T A) : prog S A :=
  fun s => let '(r, t) := m (get s) in (r, put t s).

(** Code that runs on one half of a pair of states. *)
Definition on_fst {S T A} (m : prog S A) : prog (S * T) A :=
  zoom fst (fun s st => (s, st.2)) m.
Definition on_snd {S T A} (m : prog T A) : prog (S * T) A :=
  zoom snd (fun t st => (st.1, t)) m.

Section prog_laws.
Context {S : Type}.
Implicit Types s : S.

Lemma bind_ok {A B} (m : prog S A) (f : A -> prog S B) s a s' :
  m s = (Ok a, s') -> (m ≫= f) s = f a s'.
Proof. intros H. unfold mbind, prog_bind. by rewrite H. Qed.

Lemma bind_ok_inv {A B} (m : prog S A) (f : A -> prog S B) s b s'' :
  (m ≫= f) s = (Ok b, s'') -> exists a s', m s = (Ok a, s') /\ f a s' = (Ok b, s'').
Proof.
  unfold mbind, prog_bind. destruct (m s) as [[a|e| |] s'] eqn:E; try done.
  intros H. by exists a, s'.
Qed.

Lemma bind_throw {A B} (m : prog S A) (f : A -> prog S B) s e s' :
  m s = (Throw e, s') -> (m ≫= f) s = (Throw e, s').
Proof. intros H. unfold mbind, prog_bind. by rewrite H. Qed.

Lemma bind_undefined {A B} (m : prog S A) (f : A -> prog S B) s s' :
  m s = (Undefined, s') -> (m ≫= f) s = (Undefined, s').
Proof. intros H. unfold mbind, prog_bind. by rewrite H. Qed.

Lemma for_each_app {A} (f : A -> prog S unit) (l1 l2 : list A) s s' :
  for_each f l1 s = (Ok tt, s') -> for_each f (l1 ++ l2) s = for_each f l2 s'.
Proof.
  revert s. induction l1 as [|x l1 IH]; intros s; simpl.
  - intros [= <-]. done.
  - intros ([] & s1 & H1 & H2)%bind_ok_inv.
    rewrite (bind_ok _ _ _ _ _ H1). by apply IH.
Qed.

Lemma for_each_seq {A} (f : A -> prog S unit) (l1 l2 : list A) s :
  for_each f (l1 ++ l2) s = (for_each f l1 ;; for_each f l2) s.
Proof.
  revert s. induction l1 as [|x l1 IH]; intros s; [done|]. cbn [app for_each].
  unfold mbind, prog_bind in *. destruct (f x s) as [[[]|e| |] s2]; [apply IH|done|done|done].
Qed.

(** A property that every iteration keeps is kept by the loop, however it
    ends. *)
Lemma for_each_inv {A} (P : S -> Prop) (f : A -> prog S unit) (l : list A) :
  (forall x s, x ∈ l -> P s -> P (f x s).2) ->
  forall s, P s -> P (for_each f l s).2.
Proof.
  intros Hf. induction l as [|x l IH]; intros s Hs; simpl; [done|].
  pose proof (Hf x s ltac:(set_solver) Hs) as Hx.
  unfold mbind, prog_bind. destruct (f x s) as [[[]|e| |] s'] eqn:E; simpl in *; try done.
  apply IH; [|done]. intros y s2 Hy. apply Hf. set_solver.
Qed.
End prog_laws.

(** [run_prog] unfolds the monad operations, down to the state. *)
Ltac run_prog :=
  cbv beta iota zeta delta
    [mbind prog_bind res_bind mret prog_ret res_ret throw gets modify lift zoom on_fst on_snd try].

(** ** Lists *)

Lemma forallb_ext_in {A} (f g : A -> bool) (l : list A) :
  (forall x, In x l -> f x = g x) -> forallb f l = forallb g l.
Proof.
  induction l as [|x l IH]; intros H; [done|]. simpl in *.
  rewrite H by auto. f_equal. auto.
Qed.

(** One summand changes. *)
Lemma sum_insert {A} (f : A -> nat) l i old new :
  l !! i = Some old -> (sum_list (f <$> <[i := new]> l) + f old = sum_list (f <$> l) + f new)%nat.
Proof.
  revert i. induction l as [|x l IH]; intros [|i]; cbn; [done..| |].
  - intros [= ->]. lia.
  - intros Hi. specialize (IH i Hi). rewrite <-!Nat.add_assoc. f_equal. exact IH.
Qed.

Lemma sum_list_fmap_zero {A} (f : A -> nat) l :
  (forall i x, l !! i = Some x -> f x = 0%nat) -> sum_list (f <$> l) = 0%nat.
Proof.
  induction l as [|x l IH]; intros Hf; [done|].
  change (f x + sum_list (f <$> l) = 0)%nat. rewrite (Hf 0%nat x eq_refl), IH; [done|].
  intros i. apply (Hf (S i)).
Qed.

Lemma filter_all {A} (P : A -> Prop) `{forall x, Decision (P x)} (l : list A) :
  Forall P l -> filter P l = l.
Proof.
  induction 1 as [|x l Hx _ IH]; [done|]. by rewrite filter_cons, decide_True, IH by done.
Qed.

Lemma filter_none {A} (P : A -> Prop) `{forall x, Decision (P x)} (l : list A) :
  Forall (fun x => ~ P x) l -> filter P l = [].
Proof.
  induction 1 as [|x l Hx _ IH]; [done|]. by rewrite filter_cons, decide_False, IH by done.
Qed.

Lemma list_lookup_alter_Some {A} (f : A -> A) (i j : nat) (l : list A) y :
  alter f i l !! j = Some y ->
  (i = j /\ exists x, l !! j = Some x /\ y = f x) \/ (i <> j /\ l !! j = Some y).
Proof.
  rewrite list_lookup_alter. case_decide; [|by right]. left. split; [done|]. subst.
  destruct (l !! _) as [x|]; [|done]. exists x. split; [done|]. by injection H0.
Qed.

(** ** Machine integers

    Unsigned integers are [Z] in their range; arithmetic wraps explicitly.
    [size_t] is 64 bits wide. *)

Definition u8 (z : Z) : Z := z `mod` 2 ^ 8.
Definition u32 (z : Z) : Z := z `mod` 2 ^ 32.
Definition u64 (z : Z) : Z := z `mod` 2 ^ 64.

Abbreviation in_u8 z := (0 <= z < 2 ^ 8).
Abbreviation in_u32 z := (0 <= z < 2 ^ 32).
Abbreviation in_u64 z := (0 <= z < 2 ^ 64).

Lemma u8_small z : in_u8 z -> u8 z = z.
Proof. apply Z.mod_small. Qed.
Lemma u32_small z : in_u32 z -> u32 z = z.
Proof. apply Z.mod_small. Qed.
Lemma u64_small z : in_u64 z -> u64 z = z.
Proof. apply Z.mod_small. Qed.
Lemma u32_range z : in_u32 (u32 z).
Proof. by apply Z.mod_pos_bound. Qed.
Lemma u64_range z : in_u64 (u64 z).
Proof. by apply Z.mod_pos_bound. Qed.

Create HintDb raid.
Create Rewrite HintDb raid.

#[export] Hint Rewrite u8_small u32_small u64_small using lia : raid.
#[export] Hint Resolve u32_range u64_range : raid.

(** [wrap] removes the wrap-around of an operation whose result is in range. *)
Ltac wrap := autorewrite with raid in *.

(** An element that is changed and then replaced. *)
Lemma insert_alter {A} (l : list A) i f x : <[i := x]> (alter f i l) = <[i := x]> l.
Proof.
  revert i. induction l as [|y l IH]; intros [|i]; simpl; [done..|].
  f_equal. apply IH.
Qed.

Lemma elem_of_snoc {A} (l : list A) x y : y ∈ l ++ [x] <-> y ∈ l \/ y = x.
Proof. by rewrite elem_of_app, list_elem_of_singleton. Qed.

Lemma alter_lookup {A} (l : list A) i f x : l !! i = Some x -> alter f i l = <[i := f x]> l.
Proof.
  intros Hi. rewrite <-(list_insert_id (alter f i l) i (f x)); [apply insert_alter|].
  by rewrite list_lookup_alter_eq, Hi.
Qed.

(** ** Memory

    A [char[]] is a list of cells.  A cell is [None] while its value is
    indeterminate: it was never written, or it lies past the end of the
    allocation it is read from. *)

Abbreviation byte := Byte.byte.
Abbreviation cell := (option byte).
Abbreviation cells := (list (option byte)).

(** The [n] cells that a copy of [n] bytes from the start of [buf] reads. *)
Definition read_cells (n : nat) (buf : cells) : cells :=
  take n buf ++ replicate (n - length buf) None.

Lemma length_read_cells n buf : length (read_cells n buf) = n.
Proof. unfold read_cells. rewrite length_app, length_take, length_replicate. lia. Qed.

Lemma read_cells_app n (l rest : cells) :
  length l = n -> read_cells n (l ++ rest) = l.
Proof.
  intros <-. unfold read_cells.
  rewrite take_app_length, length_app.
  replace (_ - _)%nat with 0%nat by lia. apply app_nil_r.
Qed.

Lemma read_cells_exact n (l : cells) : length l = n -> read_cells n l = l.
Proof. intros H. rewrite <-(app_nil_r l) at 1. by apply read_cells_app. Qed.

Lemma read_cells_twice n m (l : cells) :
  (n <= m)%nat -> read_cells n (read_cells m l) = read_cells n l.
Proof.
  intros Hnm. unfold read_cells at 1. rewrite length_read_cells.
  replace (n - m)%nat with 0%nat by lia. rewrite app_nil_r. unfold read_cells.
  rewrite take_app, take_take, length_take, take_replicate. f_equal; [|f_equal]; f_equal; lia.
Qed.

#[export] Hint Rewrite length_read_cells : raid.

(** [memcpy(buf + off, data, n)] with [n] the length of [data]; writing past the
    end of the destination is undefined behaviour. *)
Definition write_cells (off : nat) (data buf : cells) : res cells :=
  require (bool_decide (off + length data <= length buf)%nat) ;;
  mret (take off buf ++ data ++ drop (off + length data) buf).

Lemma write_cells_ok off data buf :
  (off + length data <= length buf)%nat ->
  write_cells off data buf = Ok (take off buf ++ data ++ drop (off + length data) buf).
Proof. intros H. unfold write_cells. by rewrite bool_decide_eq_true_2. Qed.

Lemma write_cells_append n data done :
  (length data <= n)%nat ->
  write_cells (length done) data (done ++ replicate n None)
  = Ok ((done ++ data) ++ replicate (n - length data) None).
Proof.
  intros H. rewrite write_cells_ok.
  2:{ rewrite length_app, length_replicate. lia. }
  rewrite take_app_length, drop_app_add, drop_replicate. by rewrite <-app_assoc.
Qed.
