(* ===== verification/Bytes.v ===== *)
(** * Bytes

    The wire representation of integers.  The code stores and loads integers
    through casts such as [*(uint32_t* )(buffer)] on little-endian 64-bit
    machines (x86-64 and aarch64), and converts the big-endian fields of the
    NBD protocol with [ntohl], [htonl] and [NBD::Ntohll]. *)

From Stdlib.Strings Require Import Byte.
From S2P Require Import Prelude.

#[export] Instance byte_eq_dec : EqDecision byte := Byte.byte_eq_dec.

Definition Z_of_byte (b : byte) : Z := Z.of_N (Byte.to_N b).
Definition byte_of_Z (z : Z) : byte := default Byte.x00 (Byte.of_N (Z.to_N (u8 z))).

Lemma Z_of_byte_range b : in_u8 (Z_of_byte b).
Proof. unfold Z_of_byte. pose proof (Byte.to_N_bounded b). lia. Qed.

Lemma Z_of_byte_of_Z z : Z_of_byte (byte_of_Z z) = u8 z.
Proof.
  unfold Z_of_byte, byte_of_Z, u8.
  pose proof (Z.mod_pos_bound z (2 ^ 8) eq_refl).
  destruct (Byte.of_N (Z.to_N (z `mod` 2 ^ 8))) as [b|] eqn:E; simpl.
  - apply Byte.to_of_N in E. lia.
  - apply Byte.of_N_None_iff in E. lia.
Qed.

Lemma byte_of_Z_of_byte b : byte_of_Z (Z_of_byte b) = b.
Proof.
  unfold byte_of_Z. rewrite (u8_small _ (Z_of_byte_range b)).
  unfold Z_of_byte. rewrite N2Z.id. by rewrite Byte.of_to_N.
Qed.

(** ** Little-endian integers *)

Fixpoint le_bytes (n : nat) (z : Z) : list byte :=
  match n with
  | O => []
  | S n => byte_of_Z z :: le_bytes n (z `div` 2 ^ 8)
  end.

Fixpoint le_value (bs : list byte) : Z :=
  match bs with
  | [] => 0
  | b :: bs => Z_of_byte b + 2 ^ 8 * le_value bs
  end.

Lemma length_le_bytes n z : length (le_bytes n z) = n.
Proof. revert z. induction n; intros; simpl; auto. Qed.

Lemma le_value_bytes n z : le_value (le_bytes n z) = z `mod` 2 ^ (8 * Z.of_nat n).
Proof.
  revert z. induction n as [|n IH]; intros z; cbn [le_bytes le_value].
  - by rewrite Z.mod_1_r.
  - rewrite Z_of_byte_of_Z, IH. unfold u8.
    replace (8 * Z.of_nat (S n)) with (8 + 8 * Z.of_nat n) by lia.
    rewrite Z.pow_add_r, Z.rem_mul_r by lia. lia.
Qed.

Lemma le_value_range bs : 0 <= le_value bs < 2 ^ (8 * Z.of_nat (length bs)).
Proof.
  induction bs as [|b bs IH]; cbn [le_value length]; [lia|].
  pose proof (Z_of_byte_range b).
  replace (8 * Z.of_nat (S (length bs))) with (8 + 8 * Z.of_nat (length bs)) by lia.
  rewrite Z.pow_add_r by lia. lia.
Qed.

Lemma le_bytes_value bs : le_bytes (length bs) (le_value bs) = bs.
Proof.
  induction bs as [|b bs IH]; cbn [le_bytes le_value length]; [done|].
  pose proof (Z_of_byte_range b).
  rewrite Z.mul_comm, Z.div_add, Z.div_small, Z.add_0_l, IH by lia.
  f_equal. rewrite <-(byte_of_Z_of_byte b) at 2.
  unfold byte_of_Z, u8. by rewrite Z.mod_add by lia.
Qed.

(** ** Stores and loads *)

(** [store n z]: the cells of an [n]-byte integer. *)
Definition store (n : nat) (z : Z) : cells := Some <$> le_bytes n z.

(** [load n buf] reads an [n]-byte integer at the start of [buf] and returns
    the rest; reading an indeterminate cell is undefined behaviour. *)
Definition load (n : nat) (buf : cells) : res (Z * cells) :=
  match mapM id (read_cells n buf) with
  | Some bs => Ok (le_value bs, drop n buf)
  | None => Undefined
  end.

Lemma length_store n z : length (store n z) = n.
Proof. unfold store. by rewrite length_fmap, length_le_bytes. Qed.

Lemma mapM_id_Some (l : list byte) : mapM id (Some <$> l) = Some l.
Proof. apply mapM_fmap_Some. done. Qed.

Lemma load_bytes (l : list byte) rest :
  load (length l) ((Some <$> l) ++ rest) = Ok (le_value l, rest).
Proof.
  unfold load. rewrite read_cells_app by apply length_fmap.
  rewrite mapM_id_Some, drop_app_length'; [done|]. by rewrite length_fmap.
Qed.

Lemma load_store n z rest :
  0 <= z < 2 ^ (8 * Z.of_nat n) -> load n (store n z ++ rest) = Ok (z, rest).
Proof.
  intros Hz. pose proof (load_bytes (le_bytes n z) rest) as H.
  rewrite length_le_bytes, le_value_bytes, Z.mod_small in H by done. done.
Qed.

Lemma load_short n buf : (length buf < n)%nat -> load n buf = Undefined.
Proof.
  intros H. unfold load, read_cells.
  destruct (mapM id _) as [bs|] eqn:E; [|done].
  apply mapM_Some_1, Forall2_app_inv_l in E as (l1 & l2 & _ & E & _).
  destruct (n - length buf)%nat eqn:Hn; [lia|].
  simpl in E. by apply Forall2_cons_inv_l in E as (? & ? & ? & _).
Qed.

Lemma load_indeterminate n (l : cells) k :
  (length l < n)%nat -> load n (l ++ replicate k None) = Undefined.
Proof.
  intros Hl. unfold load, read_cells.
  assert (Hk : take n (l ++ replicate k None) ++ replicate (n - length (l ++ replicate k None)) None
    = l ++ (None : cell) :: replicate (n - length l - 1) None).
  { rewrite take_app_ge, take_replicate, length_app, length_replicate, <-app_assoc,
      <-replicate_add by lia.
    replace (_ + _)%nat with (S (n - length l - 1)) by lia. done. }
  rewrite Hk. destruct (mapM id _) as [bs|] eqn:E; [|done].
  apply mapM_Some_1, Forall2_app_inv_l in E as (l1 & l2 & _ & E & _).
  by apply Forall2_cons_inv_l in E as (? & ? & ? & _).
Qed.

#[export] Hint Rewrite length_store length_le_bytes : raid.
#[export] Hint Resolve le_value_range Z_of_byte_range : raid.

(** ** Network byte order *)

(** The 32-bit byte swap that [htonl] and [ntohl] perform on a little-endian
    machine. *)
Definition ntohl (z : Z) : Z := le_value (rev (le_bytes 4 z)).
Definition htonl (z : Z) : Z := ntohl z.

(** The value of a big-endian field. *)
Definition be_value (bs : list byte) : Z := le_value (rev bs).

Lemma ntohl_range z : in_u32 (ntohl z).
Proof.
  unfold ntohl. pose proof (le_value_range (rev (le_bytes 4 z))) as H.
  by rewrite length_rev, length_le_bytes in H.
Qed.

Lemma ntohl_le_value bs : length bs = 4%nat -> ntohl (le_value bs) = be_value bs.
Proof. intros H. unfold ntohl, be_value. by rewrite <-H, le_bytes_value. Qed.

Lemma ntohl_htonl z : in_u32 z -> ntohl (htonl z) = z.
Proof.
  intros Hz. unfold htonl. unfold ntohl at 2.
  rewrite ntohl_le_value by by rewrite length_rev, length_le_bytes.
  unfold be_value. rewrite rev_involutive, le_value_bytes. by apply Z.mod_small.
Qed.

(** The cells of a big-endian field. *)
Definition be (n : nat) (z : Z) : cells := Some <$> rev (le_bytes n z).

Lemma length_be n z : length (be n z) = n.
Proof. unfold be. by rewrite length_fmap, length_rev, length_le_bytes. Qed.

Lemma store_htonl z : store 4 (htonl z) = be 4 z.
Proof.
  unfold store, htonl, ntohl, be. f_equal.
  pose proof (le_bytes_value (rev (le_bytes 4 z))) as H.
  by rewrite length_rev, length_le_bytes in H.
Qed.

Lemma load_be n z rest :
  load n (be n z ++ rest) = Ok (le_value (rev (le_bytes n z)), rest).
Proof.
  unfold be. pose proof (load_bytes (rev (le_bytes n z)) rest) as H.
  by rewrite length_rev, length_le_bytes in H.
Qed.

Lemma be_value_rev n z : 0 <= z < 2 ^ (8 * Z.of_nat n) -> be_value (rev (le_bytes n z)) = z.
Proof.
  intros Hz. unfold be_value. rewrite rev_involutive, le_value_bytes. by apply Z.mod_small.
Qed.

#[export] Hint Rewrite length_be : raid.
#[export] Hint Resolve ntohl_range : raid.

(** Reasoning goes through the lemmas above. *)
#[global] Opaque store load ntohl be.
