(* ===== verification/StripeSplitter.v ===== *)
(** * StripeSplitter

    [concrete/src/StripeSplitter.cpp]: the cut of an I/O range of the drive
    into segments that each lie in one chunk, with the index of the minion
    that holds the chunk and of the minion that mirrors it. *)

From S2P Require Import Prelude.

Record StripeSegment : Set := mk_StripeSegment {
  localOffset : Z;
  seg_length : Z;
  bufferOffset : Z;
  primaryMinionIndex : Z;
  backupMinionIndex : Z;
}.

#[export] Instance StripeSegment_eq_dec : EqDecision StripeSegment.
Proof. solve_decision. Defined.

(** [offset / chunkSize] and [(primaryIndex + 1) % numMinions]; a zero divisor
    is undefined behaviour. *)
Definition GetPrimaryIndex (offset chunkSize : Z) : res Z :=
  require (negb (chunkSize =? 0)) ;; mret (offset `div` chunkSize).

Definition GetBackupIndex (primaryIndex numMinions : Z) : res Z :=
  require (negb (numMinions =? 0)) ;; mret (u64 (primaryIndex + 1) `mod` numMinions).

(** The loop of [Split].  [fuel] bounds the number of iterations; a loop that
    runs out of it has not returned ([Blocked]). *)
Fixpoint Split_loop (fuel : nat) (chunkSize numMinions : Z)
    (remaining currentOffset bufferOffset : Z) : res (list StripeSegment) :=
  if 0 <? remaining then
    match fuel with
    | O => Blocked
    | S fuel =>
      primaryIndex ← GetPrimaryIndex currentOffset chunkSize;
      let localOffset := currentOffset `mod` chunkSize in
      let spaceInChunk := u64 (chunkSize - localOffset) in
      let segLen := Z.min remaining spaceInChunk in
      backupIndex ← GetBackupIndex primaryIndex numMinions;
      segments ← Split_loop fuel chunkSize numMinions (u64 (remaining - segLen))
        (u64 (currentOffset + segLen)) (u64 (bufferOffset + segLen));
      mret (mk_StripeSegment localOffset segLen bufferOffset primaryIndex backupIndex
        :: segments)
    end
  else mret [].

(** Every iteration after the first starts at a chunk boundary, except for one
    more when the 64-bit offset wraps around, so [length / chunkSize + 3]
    iterations are enough ([Split_returns]). *)
Definition Split (offset length chunkSize numMinions : Z) : res (list StripeSegment) :=
  Split_loop (Z.to_nat (length `div` chunkSize) + 3) chunkSize numMinions length offset 0.

Example Split_single :
  Split 100 50 4194304 3 = Ok [mk_StripeSegment 100 50 0 0 1].
Proof. vm_compute. reflexivity. Qed.

Example Split_cross :
  Split (4194304 - 10) 20 4194304 3
  = Ok [mk_StripeSegment 4194294 10 0 0 1; mk_StripeSegment 0 10 10 1 2].
Proof. vm_compute. reflexivity. Qed.

(** ** One iteration *)

Section loop.
Context (chunkSize numMinions : Z).
Hypothesis Hchunk : 0 < chunkSize < 2 ^ 64.
Hypothesis Hminions : 0 < numMinions < 2 ^ 64.

Definition first_len (remaining currentOffset : Z) : Z :=
  Z.min remaining (chunkSize - currentOffset `mod` chunkSize).

Definition first_segment (remaining currentOffset bufferOffset : Z) : StripeSegment :=
  mk_StripeSegment (currentOffset `mod` chunkSize) (first_len remaining currentOffset)
    bufferOffset (currentOffset `div` chunkSize)
    (u64 (currentOffset `div` chunkSize + 1) `mod` numMinions).

Lemma first_len_bounds remaining currentOffset :
  0 < remaining ->
  0 < first_len remaining currentOffset <= remaining
  /\ currentOffset `mod` chunkSize + first_len remaining currentOffset <= chunkSize.
Proof.
  intros. unfold first_len.
  pose proof (Z.mod_pos_bound currentOffset chunkSize). lia.
Qed.

Lemma Split_loop_step fuel remaining currentOffset bufferOffset :
  0 < remaining < 2 ^ 64 ->
  let len := first_len remaining currentOffset in
  Split_loop (S fuel) chunkSize numMinions remaining currentOffset bufferOffset
  = segments ← Split_loop fuel chunkSize numMinions (remaining - len)
      (u64 (currentOffset + len)) (u64 (bufferOffset + len));
    mret (first_segment remaining currentOffset bufferOffset :: segments).
Proof.
  intros Hr len. cbn [Split_loop].
  rewrite (proj2 (Z.ltb_lt 0 remaining)) by lia.
  unfold GetPrimaryIndex, GetBackupIndex, require.
  rewrite !(proj2 (Z.eqb_neq _ 0)) by lia. cbn.
  pose proof (Z.mod_pos_bound currentOffset chunkSize).
  rewrite (u64_small (chunkSize - _)) by lia.
  pose proof (first_len_bounds remaining currentOffset).
  change (Z.min remaining (chunkSize - currentOffset `mod` chunkSize)) with len.
  rewrite (u64_small (remaining - len)) by (unfold len; lia).
  done.
Qed.

Lemma Split_loop_done fuel currentOffset bufferOffset :
  Split_loop fuel chunkSize numMinions 0 currentOffset bufferOffset = Ok [].
Proof. by destruct fuel. Qed.

(** The offset after an iteration that is not the last one: the next chunk
    boundary, before the wrap-around. *)
Lemma next_boundary remaining currentOffset :
  first_len remaining currentOffset <> remaining ->
  currentOffset + first_len remaining currentOffset
  = chunkSize * (currentOffset `div` chunkSize + 1).
Proof.
  unfold first_len. intros H.
  pose proof (Z.div_mod currentOffset chunkSize ltac:(lia)). lia.
Qed.

(** Enough fuel.  The second case is that of an offset that does not wrap
    around any more. *)
Lemma Split_loop_total fuel remaining currentOffset bufferOffset :
  0 <= remaining < 2 ^ 64 ->
  in_u64 currentOffset ->
  currentOffset `mod` chunkSize + remaining <= chunkSize * (Z.of_nat fuel - 1)
  \/ (currentOffset + remaining <= 2 ^ 64
      /\ currentOffset `mod` chunkSize + remaining <= chunkSize * Z.of_nat fuel) ->
  exists segments,
    Split_loop fuel chunkSize numMinions remaining currentOffset bufferOffset = Ok segments.
Proof.
  revert remaining currentOffset bufferOffset.
  induction fuel as [|fuel IH]; intros r c b Hr Hc Hf;
    (destruct (decide (r = 0)) as [->|Hr0]; [eexists; apply Split_loop_done|]);
    pose proof (Z.mod_pos_bound c chunkSize ltac:(lia)); [lia|].
  rewrite Split_loop_step by lia. cbv zeta.
  pose proof (first_len_bounds r c ltac:(lia)) as Hlen.
  destruct (decide (first_len r c = r)) as [E|Hne].
  { rewrite E, Z.sub_diag, Split_loop_done. by eexists. }
  pose proof (next_boundary r c Hne) as Hb.
  assert (Hl : first_len r c = chunkSize - c `mod` chunkSize)
    by (unfold first_len in *; lia).
  destruct (IH (r - first_len r c) (u64 (c + first_len r c)) (u64 (b + first_len r c)))
    as [segs ->]; [lia | apply u64_range | | by eexists].
  destruct (Z.lt_ge_cases (c + first_len r c) (2 ^ 64)) as [Hw|Hw].
  - assert ((c + first_len r c) `mod` chunkSize = 0)
      by (rewrite Hb, Z.mul_comm; apply Z.mod_mul; lia).
    rewrite u64_small by lia. lia.
  - right. unfold u64.
    replace ((c + first_len r c) `mod` 2 ^ 64) with (c + first_len r c - 2 ^ 64)
      by (rewrite <-(Z.mod_small (c + first_len r c - 2 ^ 64) (2 ^ 64)) by lia;
          rewrite <-(Z.mod_add _ 1) by lia; f_equal; lia).
    pose proof (Z.mod_pos_bound (c + first_len r c - 2 ^ 64) chunkSize). lia.
Qed.

(** Induction over the iterations of a loop whose offsets do not wrap
    around. *)
Lemma Split_loop_ind (P : Z -> Z -> Z -> list StripeSegment -> Prop) :
  (forall c b, P 0 c b []) ->
  (forall r c b segs,
    0 < r -> 0 <= c -> c + r <= 2 ^ 64 -> 0 <= b -> b + r < 2 ^ 64 ->
    P (r - first_len r c) (c + first_len r c) (b + first_len r c) segs ->
    P r c b (first_segment r c b :: segs)) ->
  forall fuel r c b segs,
    0 <= r -> 0 <= c -> c + r <= 2 ^ 64 -> 0 <= b -> b + r < 2 ^ 64 ->
    Split_loop fuel chunkSize numMinions r c b = Ok segs ->
    P r c b segs.
Proof.
  intros Hnil Hcons. induction fuel as [|fuel IH]; intros r c b segs Hr Hc Hcr Hb Hbr;
    (destruct (decide (r = 0)) as [->|Hr0];
     [rewrite Split_loop_done; intros [= <-]; apply Hnil|]).
  { simpl. by rewrite (proj2 (Z.ltb_lt 0 r)) by lia. }
  rewrite Split_loop_step by lia. cbv zeta.
  pose proof (first_len_bounds r c ltac:(lia)) as Hlen.
  destruct (Split_loop fuel _ _ _ _ _) as [segs'|?| |] eqn:E; try done.
  intros [= <-]. apply Hcons; try lia.
  destruct (decide (first_len r c = r)) as [El|Hne].
  - rewrite El, Z.sub_diag, Split_loop_done in E. injection E as <-.
    rewrite El, Z.sub_diag. apply Hnil.
  - rewrite !u64_small in E by lia. apply (IH (r - first_len r c)); (done || lia).
Qed.
End loop.

(** ** What [Split] promises *)

(** The bytes that a segment stands for: byte of the caller's buffer, minion,
    byte of the minion's chunk. *)
Definition segment_bytes (seg : StripeSegment) : list (Z * Z * Z) :=
  (fun j => (bufferOffset seg + j, primaryMinionIndex seg, localOffset seg + j))
  <$> seqZ 0 (seg_length seg).

(** The reference definition, byte by byte: byte [i] of the buffer is byte
    [offset + i] of the drive, which minion [(offset + i) / chunkSize] holds. *)
Definition range_bytes (offset length chunkSize : Z) : list (Z * Z * Z) :=
  (fun i => (i, (offset + i) `div` chunkSize, (offset + i) `mod` chunkSize))
  <$> seqZ 0 length.

(** A segment of a drive of [numMinions] chunks, for a buffer of [length]
    bytes. *)
Definition segment_ok (length chunkSize numMinions : Z) (seg : StripeSegment) : Prop :=
  0 <= localOffset seg
  /\ 0 < seg_length seg
  /\ localOffset seg + seg_length seg <= chunkSize
  /\ 0 <= bufferOffset seg
  /\ bufferOffset seg + seg_length seg <= length
  /\ 0 <= primaryMinionIndex seg < numMinions
  /\ 0 <= backupMinionIndex seg < numMinions
  /\ backupMinionIndex seg = (primaryMinionIndex seg + 1) `mod` numMinions.

Section properties.
Context (offset length chunkSize numMinions : Z).
Hypothesis Hchunk : 0 < chunkSize < 2 ^ 64.
Hypothesis Hminions : 0 < numMinions < 2 ^ 64.
Hypothesis Hoffset : in_u64 offset.
Hypothesis Hlength : in_u64 length.

Lemma Split_returns : exists segs, Split offset length chunkSize numMinions = Ok segs.
Proof.
  apply Split_loop_total; [done..|]. left.
  pose proof (Z.mod_pos_bound offset chunkSize).
  pose proof (Z.mod_pos_bound length chunkSize).
  pose proof (Z.div_mod length chunkSize). pose proof (Z.div_pos length chunkSize). lia.
Qed.
End properties.

(** The loop invariants behind the properties. *)
Section invariants.
Context (chunkSize numMinions : Z).
Hypothesis Hchunk : 0 < chunkSize < 2 ^ 64.
Hypothesis Hminions : 0 < numMinions < 2 ^ 64.

Definition bytes_from (r c b : Z) : list (Z * Z * Z) :=
  (fun i => (b + i, (c + i) `div` chunkSize, (c + i) `mod` chunkSize)) <$> seqZ 0 r.

Lemma bytes_from_split r1 r2 c b :
  0 <= r1 -> 0 <= r2 ->
  bytes_from (r1 + r2) c b = bytes_from r1 c b ++ bytes_from r2 (c + r1) (b + r1).
Proof.
  intros H1 H2. unfold bytes_from.
  rewrite seqZ_app, fmap_app by done. f_equal.
  rewrite Z.add_0_l, <-(Z.add_0_r r1) at 1.
  rewrite <-fmap_add_seqZ, <-list_fmap_compose.
  apply list_fmap_ext. intros k x _. simpl. by rewrite !Z.add_assoc.
Qed.

Lemma segment_bytes_first r c b :
  0 < r -> segment_bytes (first_segment chunkSize numMinions r c b)
           = bytes_from (first_len chunkSize r c) c b.
Proof.
  intros Hr. unfold segment_bytes, bytes_from, first_segment. simpl.
  apply list_fmap_ext. intros k x [-> Hx]%lookup_seqZ.
  pose proof (first_len_bounds chunkSize Hchunk r c Hr).
  pose proof (Z.div_mod c chunkSize ltac:(lia)).
  pose proof (Z.mod_pos_bound c chunkSize ltac:(lia)).
  set (q := c `div` chunkSize) in *. set (m := c `mod` chunkSize) in *.
  replace (c + (0 + Z.of_nat k)) with (m + Z.of_nat k + q * chunkSize) by lia.
  rewrite Z.div_add, Z.mod_add, Z.div_small, Z.mod_small by lia.
  repeat f_equal; lia.
Qed.

Lemma Split_loop_bytes fuel r c b segs :
  0 <= r -> 0 <= c -> c + r <= 2 ^ 64 -> 0 <= b -> b + r < 2 ^ 64 ->
  Split_loop fuel chunkSize numMinions r c b = Ok segs ->
  (segs ≫= segment_bytes) = bytes_from r c b.
Proof.
  refine (Split_loop_ind _ _ Hchunk Hminions
    (fun r c b segs => (segs ≫= segment_bytes) = bytes_from r c b) _ _ fuel r c b segs);
    [done|].
  clear fuel r c b segs. intros r c b segs Hr _ _ _ _ IH. cbn. rewrite IH, segment_bytes_first by done.
  pose proof (first_len_bounds chunkSize Hchunk r c Hr).
  rewrite <-bytes_from_split by lia. f_equal. lia.
Qed.

Lemma Split_loop_ok fuel r c b segs :
  0 <= r -> 0 <= c -> c + r <= 2 ^ 64 -> 0 <= b -> b + r < 2 ^ 64 ->
  Split_loop fuel chunkSize numMinions r c b = Ok segs ->
  c + r <= numMinions * chunkSize ->
  Forall (segment_ok (b + r) chunkSize numMinions) segs.
Proof.
  refine (Split_loop_ind _ _ Hchunk Hminions (fun r c b segs =>
    c + r <= numMinions * chunkSize ->
    Forall (segment_ok (b + r) chunkSize numMinions) segs) _ _ fuel r c b segs);
    [by constructor|].
  clear fuel r c b segs. intros r c b segs Hr Hc Hcr Hb Hbr IH Hdrive.
  pose proof (first_len_bounds chunkSize Hchunk r c Hr).
  pose proof (Z.mod_pos_bound c chunkSize ltac:(lia)).
  assert (Hq : 0 <= c `div` chunkSize < numMinions)
    by (split; [apply Z.div_pos | apply Z.div_lt_upper_bound]; lia).
  constructor.
  - unfold segment_ok, first_segment. simpl. rewrite u64_small by lia.
    pose proof (Z.mod_pos_bound (c `div` chunkSize + 1) numMinions). lia.
  - replace (b + r) with (b + first_len chunkSize r c + (r - first_len chunkSize r c))
      by lia.
    apply IH. lia.
Qed.

(** Chunks touched by a range. *)
Definition chunks_touched (r c : Z) : Z :=
  if 0 <? r then (c + r - 1) `div` chunkSize - c `div` chunkSize + 1 else 0.

Lemma chunks_touched_step r c :
  0 < r -> 0 <= c ->
  chunks_touched r c
  = 1 + chunks_touched (r - first_len chunkSize r c) (c + first_len chunkSize r c).
Proof.
  intros Hr Hc. unfold chunks_touched. rewrite (proj2 (Z.ltb_lt 0 r)) by done.
  replace (c + first_len chunkSize r c + (r - first_len chunkSize r c) - 1)
    with (c + r - 1) by lia.
  pose proof (first_len_bounds chunkSize Hchunk r c Hr).
  pose proof (Z.div_mod c chunkSize ltac:(lia)).
  destruct (decide (first_len chunkSize r c = r)) as [E|Hne].
  - rewrite E, Z.sub_diag, Z.ltb_irrefl.
    assert ((c + r - 1) `div` chunkSize = c `div` chunkSize); [|lia].
    symmetry. apply (Z.div_unique_pos _ _ _ (c `mod` chunkSize + r - 1)); [|lia].
    pose proof (Z.mod_pos_bound c chunkSize ltac:(lia)). lia.
  - rewrite (proj2 (Z.ltb_lt 0 (r - _))) by lia.
    rewrite (next_boundary chunkSize Hchunk r c Hne), (Z.mul_comm chunkSize), Z.div_mul; lia.
Qed.

Lemma Split_loop_count fuel r c b segs :
  0 <= r -> 0 <= c -> c + r <= 2 ^ 64 -> 0 <= b -> b + r < 2 ^ 64 ->
  Split_loop fuel chunkSize numMinions r c b = Ok segs ->
  Z.of_nat (length segs) = chunks_touched r c.
Proof.
  refine (Split_loop_ind _ _ Hchunk Hminions (fun r c b segs =>
    Z.of_nat (length segs) = chunks_touched r c) _ _ fuel r c b segs); [done|].
  clear fuel r c b segs. intros r c b segs Hr Hc _ _ _ IH. cbn [length].
  rewrite Nat2Z.inj_succ, IH, (chunks_touched_step r c) by done. lia.
Qed.

(** The part of the range [c, c + r) that lies in chunk [i]. *)
Definition chunk_segment (r c b i : Z) : StripeSegment :=
  let start := Z.max c (i * chunkSize) in
  let stop := Z.min (c + r) ((i + 1) * chunkSize) in
  mk_StripeSegment (start - i * chunkSize) (stop - start) (b + (start - c)) i
    (u64 (i + 1) `mod` numMinions).

Lemma first_chunk_segment r c b :
  0 < r -> 0 <= c ->
  first_segment chunkSize numMinions r c b = chunk_segment r c b (c `div` chunkSize).
Proof.
  intros Hr Hc. unfold chunk_segment, first_segment, first_len.
  pose proof (Z.div_mod c chunkSize ltac:(lia)).
  pose proof (Z.mod_pos_bound c chunkSize ltac:(lia)).
  set (q := c `div` chunkSize) in *. set (m := c `mod` chunkSize) in *.
  rewrite (Z.max_l c) by lia. f_equal; lia.
Qed.

(** The later chunks are the same for the rest of the range. *)
Lemma later_chunk_segment r c b i :
  0 < r -> 0 <= c -> c `div` chunkSize < i ->
  chunk_segment (r - first_len chunkSize r c) (c + first_len chunkSize r c)
    (b + first_len chunkSize r c) i = chunk_segment r c b i.
Proof.
  intros Hr Hc Hi. unfold chunk_segment.
  pose proof (first_len_bounds chunkSize Hchunk r c Hr).
  pose proof (Z.div_mod c chunkSize ltac:(lia)).
  set (q := c `div` chunkSize) in *. set (m := c `mod` chunkSize) in *.
  set (len := first_len chunkSize r c) in *.
  assert (c + len <= i * chunkSize) by nia.
  rewrite !Z.max_r by lia. f_equal; lia.
Qed.

Lemma Split_loop_chunks fuel r c b segs :
  0 <= r -> 0 <= c -> c + r <= 2 ^ 64 -> 0 <= b -> b + r < 2 ^ 64 ->
  Split_loop fuel chunkSize numMinions r c b = Ok segs ->
  segs = chunk_segment r c b <$> seqZ (c `div` chunkSize) (chunks_touched r c).
Proof.
  refine (Split_loop_ind _ _ Hchunk Hminions (fun r c b segs =>
    segs = chunk_segment r c b <$> seqZ (c `div` chunkSize) (chunks_touched r c)) _ _ fuel r c b segs);
    [done|].
  clear fuel r c b segs. intros r c b segs Hr Hc _ _ _ IH.
  pose proof (chunks_touched_step r c Hr Hc) as Hstep.
  set (r' := r - first_len chunkSize r c) in *. set (c' := c + first_len chunkSize r c) in *.
  assert (Hn : 0 <= chunks_touched r' c').
  { unfold chunks_touched. destruct (Z.ltb_spec 0 r'); [|done].
    pose proof (Z.div_le_mono c' (c' + r' - 1) chunkSize ltac:(lia)). lia. }
  rewrite Hstep, seqZ_cons, fmap_cons, <-first_chunk_segment by lia. f_equal.
  replace (Z.pred (1 + chunks_touched r' c')) with (chunks_touched r' c') by lia.
  rewrite IH. destruct (decide (r' = 0)) as [Hz|Hnz].
  { by rewrite Hz. }
  assert (Hq : c' `div` chunkSize = Z.succ (c `div` chunkSize)).
  { unfold c'. rewrite (next_boundary chunkSize Hchunk r c) by (unfold r' in Hnz; lia).
    rewrite (Z.mul_comm chunkSize), Z.div_mul; lia. }
  rewrite Hq. apply list_fmap_ext. intros k i Hi. apply lookup_seqZ in Hi as [-> Hk].
  apply later_chunk_segment; [done|done|lia].
Qed.
End invariants.

(** C13: [Split] always returns, and for a range that ends below [2 ^ 64] its
    segments, in order, stand for exactly the bytes that the byte-by-byte
    reference mapping of the drive gives: every byte of the buffer once, at
    minion [(offset + i) / chunkSize] and chunk offset
    [(offset + i) mod chunkSize]. *)
Theorem Split_bytes (offset length chunkSize numMinions : Z)
    (Hchunk : 0 < chunkSize < 2 ^ 64) (Hminions : 0 < numMinions < 2 ^ 64)
    (Hoffset : in_u64 offset) (Hlength : in_u64 length)
    (Hrange : offset + length <= 2 ^ 64) :
  exists segs, Split offset length chunkSize numMinions = Ok segs
    /\ (segs ≫= segment_bytes) = range_bytes offset length chunkSize.
Proof.
  destruct (Split_returns offset length chunkSize numMinions) as [segs E]; [done..|].
  exists segs. split; [done|].
  rewrite (Split_loop_bytes _ _ Hchunk Hminions _ length offset 0 segs)
    by (exact E || lia).
  apply list_fmap_ext. intros k x _. simpl. by rewrite Z.add_0_l.
Qed.

Lemma Split_bytes_witness :
  exists segs, Split 6 9 8 3 = Ok segs /\ (segs ≫= segment_bytes) = range_bytes 6 9 8.
Proof. apply (Split_bytes 6 9 8 3); lia. Defined.

(** Every segment of a range of the drive lies inside one chunk, inside the
    caller's buffer, and names minions that exist: the primary and, cyclically
    next to it, the backup, which is another minion as soon as there are two. *)
Theorem Split_segments_ok (offset length chunkSize numMinions : Z) segs seg
    (Hchunk : 0 < chunkSize) (Hminions : 0 < numMinions)
    (Hsize : numMinions * chunkSize < 2 ^ 64)
    (Hoffset : 0 <= offset) (Hlength : 0 <= length)
    (Hrange : offset + length <= numMinions * chunkSize)
    (Hsplit : Split offset length chunkSize numMinions = Ok segs)
    (Hseg : seg ∈ segs) :
  segment_ok length chunkSize numMinions seg
  /\ (1 < numMinions -> backupMinionIndex seg <> primaryMinionIndex seg).
Proof.
  assert (Hok : Forall (segment_ok (0 + length) chunkSize numMinions) segs)
    by (eapply Split_loop_ok; [.. | exact Hsplit |]; nia).
  rewrite Forall_forall in Hok. specialize (Hok seg Hseg). simpl in Hok.
  split; [done|]. destruct Hok as (_ & _ & _ & _ & _ & Hp & _ & ->). intros Hn E.
  destruct (decide (primaryMinionIndex seg + 1 < numMinions)).
  - rewrite Z.mod_small in E; lia.
  - replace (primaryMinionIndex seg + 1) with numMinions in E by lia.
    rewrite Z.mod_same in E; lia.
Qed.

Lemma Split_segments_ok_witness :
  let seg := mk_StripeSegment 0 7 2 1 2 in
  segment_ok 9 8 3 seg /\ (1 < 3 -> backupMinionIndex seg <> primaryMinionIndex seg).
Proof.
  apply (Split_segments_ok 6 9 8 3 [mk_StripeSegment 6 2 0 0 1; mk_StripeSegment 0 7 2 1 2]);
    try lia; [reflexivity | set_solver].
Defined.

(** The number of segments is the number of chunks that the range touches,
    so a request is cut no finer than the drive's layout asks for. *)
Theorem Split_count (offset length chunkSize numMinions : Z) segs
    (Hchunk : 0 < chunkSize < 2 ^ 64) (Hminions : 0 < numMinions < 2 ^ 64)
    (Hoffset : 0 <= offset) (Hlength : 0 <= length < 2 ^ 64)
    (Hrange : offset + length <= 2 ^ 64)
    (Hsplit : Split offset length chunkSize numMinions = Ok segs) :
  Z.of_nat (List.length segs) = chunks_touched chunkSize length offset.
Proof. eapply Split_loop_count; [.. | exact Hsplit]; lia. Qed.

Lemma Split_count_witness :
  Z.of_nat (List.length [mk_StripeSegment 6 2 0 0 1; mk_StripeSegment 0 7 2 1 2])
  = chunks_touched 8 9 6.
Proof. apply (Split_count 6 9 8 3); try lia. reflexivity. Defined.

(** The loop of [Split] is equivalent to a closed form: one segment for every
    chunk that the range touches, in order, which is the intersection of the range
    with the chunk. *)
Theorem Split_is_chunks (offset length chunkSize numMinions : Z)
    (Hchunk : 0 < chunkSize < 2 ^ 64) (Hminions : 0 < numMinions < 2 ^ 64)
    (Hoffset : in_u64 offset) (Hlength : in_u64 length)
    (Hrange : offset + length <= 2 ^ 64) :
  Split offset length chunkSize numMinions
  = Ok (chunk_segment chunkSize numMinions length offset 0
        <$> seqZ (offset `div` chunkSize) (chunks_touched chunkSize length offset)).
Proof.
  destruct (Split_returns offset length chunkSize numMinions) as [segs E]; [done..|].
  rewrite E. f_equal. by eapply Split_loop_chunks; [..|exact E]; lia.
Qed.

Lemma Split_is_chunks_witness :
  Split 6 9 8 3 = Ok (chunk_segment 8 3 9 6 0 <$> seqZ (6 `div` 8) (chunks_touched 8 9 6))
  /\ (chunk_segment 8 3 9 6 0 <$> seqZ (6 `div` 8) (chunks_touched 8 9 6))
     = [mk_StripeSegment 6 2 0 0 1; mk_StripeSegment 0 7 2 1 2].
Proof. split; [apply (Split_is_chunks 6 9 8 3); lia|by vm_compute]. Defined.

(** The segments' parts of the buffer follow each other without a gap. *)
Fixpoint tiles (b : Z) (segments : list StripeSegment) (total : Z) : Prop :=
  match segments with
  | [] => b = total
  | seg :: segments =>
      bufferOffset seg = b /\ 0 <= b /\ 0 <= seg_length seg /\ tiles (b + seg_length seg) segments total
  end.

Lemma Split_tiles offset length chunkSize numMinions segs :
  0 < chunkSize < 2 ^ 64 -> 0 < numMinions < 2 ^ 64 ->
  0 <= offset -> 0 <= length < 2 ^ 64 -> offset + length <= 2 ^ 64 ->
  Split offset length chunkSize numMinions = Ok segs ->
  tiles 0 segs length.
Proof.
  intros Hc Hm Ho Hl Hr Hs.
  assert (H : tiles 0 segs (0 + length)); [|done].
  refine (Split_loop_ind _ _ Hc Hm (fun r c b segs => 0 <= b -> tiles b segs (b + r)) _ _ _
    length offset 0 segs _ _ _ _ _ Hs _); try lia.
  - intros c b _. simpl. lia.
  - clear - Hc. intros r c b segs Hr _ _ _ _ IH Hb. simpl.
    pose proof (first_len_bounds chunkSize Hc r c Hr) as [Hf _].
    repeat split; [done | lia |].
    replace (b + r) with (b + first_len chunkSize r c + (r - first_len chunkSize r c)) by lia.
    apply IH. lia.
Qed.

(** The segments name consecutive chunks. *)
Lemma Split_primary offset length chunkSize numMinions segs i seg :
  0 < chunkSize < 2 ^ 64 -> 0 < numMinions < 2 ^ 64 ->
  0 <= offset -> 0 <= length < 2 ^ 64 -> offset + length <= 2 ^ 64 ->
  Split offset length chunkSize numMinions = Ok segs -> segs !! i = Some seg ->
  primaryMinionIndex seg = offset `div` chunkSize + Z.of_nat i.
Proof.
  intros Hc Hm Ho Hl Hr Hs. revert i seg.
  refine (proj2 (Split_loop_ind _ _ Hc Hm (fun r c b segs =>
    (r = 0 -> segs = []) /\ forall i seg, segs !! i = Some seg ->
      primaryMinionIndex seg = c `div` chunkSize + Z.of_nat i) _ _ _
    length offset 0 segs _ _ _ _ _ Hs)); try lia.
  { intros c b. split; [done|]. intros i seg. by rewrite lookup_nil. }
  clear - Hc. intros r c b segs Hr _ _ _ _ [Hnil IH]. split; [lia|].
  intros [|i] seg; simpl.
  { intros [= <-]. simpl. lia. }
  intros Hi. destruct (decide (first_len chunkSize r c = r)) as [E|Hne].
  { rewrite Hnil in Hi by lia. by rewrite lookup_nil in Hi. }
  rewrite (IH i seg Hi), (next_boundary chunkSize Hc r c Hne), (Z.mul_comm chunkSize), Z.div_mul by lia.
  lia.
Qed.

(** The segments of a range of the drive are sound. *)
Lemma Split_ok offset length chunkSize numMinions segs :
  0 < chunkSize -> 0 < numMinions -> numMinions * chunkSize < 2 ^ 64 ->
  0 <= offset -> 0 <= length -> offset + length <= numMinions * chunkSize ->
  Split offset length chunkSize numMinions = Ok segs ->
  Forall (segment_ok length chunkSize numMinions) segs.
Proof.
  intros Hc Hm Hsize Ho Hl Hr Hs.
  replace length with (0 + length) at 1 by lia.
  eapply Split_loop_ok; [.. | exact Hs |]; nia.
Qed.

(** Where the next segment's primary is the backup of a segment. *)
Lemma Split_next offset length chunkSize numMinions segs i seg seg' :
  0 < chunkSize -> 0 < numMinions -> numMinions * chunkSize < 2 ^ 64 ->
  0 <= offset -> 0 <= length -> offset + length <= numMinions * chunkSize ->
  Split offset length chunkSize numMinions = Ok segs ->
  segs !! i = Some seg -> segs !! S i = Some seg' ->
  backupMinionIndex seg = primaryMinionIndex seg'.
Proof.
  intros Hc Hm Hsize Ho Hl Hr Hs Hi Hi'.
  pose proof (Split_ok _ _ _ _ _ Hc Hm Hsize Ho Hl Hr Hs) as Hok.
  rewrite Forall_forall in Hok.
  destruct (Hok seg (list_elem_of_lookup_2 _ _ _ Hi)) as (_ & _ & _ & _ & _ & _ & _ & ->).
  destruct (Hok seg' (list_elem_of_lookup_2 _ _ _ Hi')) as (_ & _ & _ & _ & _ & Hp & _ & _).
  assert (Hprim : forall i seg, segs !! i = Some seg ->
    primaryMinionIndex seg = offset `div` chunkSize + Z.of_nat i)
    by (intros; eapply Split_primary; [.. | exact Hs | done]; nia).
  rewrite (Hprim _ _ Hi). rewrite (Hprim _ _ Hi') in Hp |- *.
  pose proof (Z.div_pos offset chunkSize). rewrite Z.mod_small; lia.
Qed.
