(* ===== verification/Message.v ===== *)
(** * Message

    The UDP messages between the master and the minions:
    [concrete/src/AMessage.cpp], [MessageSend.cpp] and [MessageReceive.cpp].
    One Module per message class; the sum type [AMessage] and the functions on
    it stand for the virtual dispatch through [shared_ptr<AMessage>].

    A packet is [size:4][type:4][uid:8][fields], little-endian.  [ToBuffer]
    gives the cells written from the start of the packet, [FromBuffer] starts
    behind the type, as the callers do, and returns the rest of the buffer. *)

From S2P Require Import Prelude Bytes.

Inductive MESSAGE_TYPE : Set := READ_SEND | WRITE_SEND | READ_RECEIVE | WRITE_RECEIVE.

#[export] Instance MESSAGE_TYPE_eq_dec : EqDecision MESSAGE_TYPE.
Proof. solve_decision. Defined.

(** The enumerators' values. *)
Definition type_value (t : MESSAGE_TYPE) : Z :=
  match t with READ_SEND => 0 | WRITE_SEND => 1 | READ_RECEIVE => 2 | WRITE_RECEIVE => 3 end.

(** [std::copy(b, b + n, ...)] from a [shared_ptr<char[]>]. *)
Definition copy_from (b : option cells) (n : Z) : res cells :=
  match b with
  | Some l => Ok (read_cells (Z.to_nat n) l)
  | None => require (n =? 0) ;; mret []
  end.

(** ** The base class *)

Module Base.
Definition sizeof_uid : Z := 8.
Definition GetSize : Z := 4 + 4 + sizeof_uid.
Definition ToBuffer (m_uid : Z) : cells := store 8 m_uid.
Definition FromBuffer (buffer : cells) : res (Z * cells) := load 8 buffer.
Definition GetOffset : Z := 0.
Definition GetLength : Z := 0.
Definition GetResult : bool := true.
Definition GetData : option cells := None.
End Base.

(** ** Requests *)

Module MessageReadSend.
Record t : Set := mk { m_uid : Z; m_offset : Z; m_length : Z }.

Definition GetMessageType (m : t) : MESSAGE_TYPE := READ_SEND.
Definition GetSize (m : t) : Z := u32 (Base.GetSize + 8 + 8).

Definition ToBuffer (m : t) : res cells :=
  mret (store 4 (GetSize m) ++ store 4 (type_value (GetMessageType m))
    ++ Base.ToBuffer (m_uid m) ++ store 8 (m_offset m) ++ store 8 (m_length m)).

Definition FromBuffer (buffer : cells) : res (t * cells) :=
  '(uid, buffer) ← Base.FromBuffer buffer;
  '(offset, buffer) ← load 8 buffer;
  '(length, buffer) ← load 8 buffer;
  mret (mk uid offset length, buffer).
End MessageReadSend.

Module MessageWriteSend.
Record t : Set := mk { m_uid : Z; m_offset : Z; m_length : Z; m_buffer : option cells }.

Definition GetMessageType (m : t) : MESSAGE_TYPE := WRITE_SEND.
Definition GetSize (m : t) : Z := u32 (Base.GetSize + 8 + 8 + m_length m + 1).

(** [m_length + 1] bytes are copied. *)
Definition ToBuffer (m : t) : res cells :=
  data ← copy_from (m_buffer m) (u64 (m_length m + 1));
  mret (store 4 (GetSize m) ++ store 4 (type_value (GetMessageType m))
    ++ Base.ToBuffer (m_uid m) ++ store 8 (m_offset m) ++ store 8 (m_length m) ++ data).

Definition FromBuffer (buffer : cells) : res (t * cells) :=
  '(uid, buffer) ← Base.FromBuffer buffer;
  '(offset, buffer) ← load 8 buffer;
  '(length, buffer) ← load 8 buffer;
  let n := Z.to_nat (u64 (length + 1)) in
  mret (mk uid offset length (Some (read_cells n buffer)), drop n buffer).
End MessageWriteSend.

(** ** Responses *)

Module MessageReadReceive.
Record t : Set := mk { m_uid : Z; m_result : Z; m_length : Z; m_buffer : option cells }.

(** The constructor; [bool] converts to [uint8_t]. *)
Definition make (uid : Z) (result : bool) (length : Z) (buffer : option cells) : t :=
  mk uid (Z.b2z result) length buffer.

Definition GetMessageType (m : t) : MESSAGE_TYPE := READ_RECEIVE.
Definition GetSize (m : t) : Z := u32 (Base.GetSize + 1 + 8 + m_length m).

Definition ToBuffer (m : t) : res cells :=
  data ← copy_from (m_buffer m) (m_length m);
  mret (store 4 (GetSize m) ++ store 4 (type_value (GetMessageType m))
    ++ Base.ToBuffer (m_uid m) ++ store 1 (m_result m) ++ store 8 (m_length m) ++ data).

Definition FromBuffer (buffer : cells) : res (t * cells) :=
  '(uid, buffer) ← Base.FromBuffer buffer;
  '(result, buffer) ← load 1 buffer;
  '(length, buffer) ← load 8 buffer;
  let n := Z.to_nat length in
  mret (mk uid result length (Some (read_cells n buffer)), drop n buffer).

Definition GetResult (m : t) : bool := negb (m_result m =? 0).
End MessageReadReceive.

Module MessageWriteReceive.
Record t : Set := mk { m_uid : Z; m_result : Z }.

Definition make (uid : Z) (result : bool) : t := mk uid (Z.b2z result).

Definition GetMessageType (m : t) : MESSAGE_TYPE := WRITE_RECEIVE.
Definition GetSize (m : t) : Z := u32 (Base.GetSize + 1).

Definition ToBuffer (m : t) : res cells :=
  mret (store 4 (GetSize m) ++ store 4 (type_value (GetMessageType m))
    ++ Base.ToBuffer (m_uid m) ++ store 1 (m_result m)).

Definition FromBuffer (buffer : cells) : res (t * cells) :=
  '(uid, buffer) ← Base.FromBuffer buffer;
  '(result, buffer) ← load 1 buffer;
  mret (mk uid result, buffer).

Definition GetResult (m : t) : bool := negb (m_result m =? 0).
End MessageWriteReceive.

(** ** Virtual dispatch *)

Inductive AMessage : Set :=
  | ReadSend (m : MessageReadSend.t)
  | WriteSend (m : MessageWriteSend.t)
  | ReadReceive (m : MessageReadReceive.t)
  | WriteReceive (m : MessageWriteReceive.t).

Definition GetMessageType (m : AMessage) : MESSAGE_TYPE :=
  match m with
  | ReadSend m => MessageReadSend.GetMessageType m
  | WriteSend m => MessageWriteSend.GetMessageType m
  | ReadReceive m => MessageReadReceive.GetMessageType m
  | WriteReceive m => MessageWriteReceive.GetMessageType m
  end.

Definition GetSize (m : AMessage) : Z :=
  match m with
  | ReadSend m => MessageReadSend.GetSize m
  | WriteSend m => MessageWriteSend.GetSize m
  | ReadReceive m => MessageReadReceive.GetSize m
  | WriteReceive m => MessageWriteReceive.GetSize m
  end.

Definition ToBuffer (m : AMessage) : res cells :=
  match m with
  | ReadSend m => MessageReadSend.ToBuffer m
  | WriteSend m => MessageWriteSend.ToBuffer m
  | ReadReceive m => MessageReadReceive.ToBuffer m
  | WriteReceive m => MessageWriteReceive.ToBuffer m
  end.

(** [FromBuffer] of an object of the class that [t] names, as the factory
    creates it. *)
Definition FromBuffer (t : MESSAGE_TYPE) (buffer : cells) : res (AMessage * cells) :=
  match t with
  | READ_SEND => prod_map ReadSend id <$> MessageReadSend.FromBuffer buffer
  | WRITE_SEND => prod_map WriteSend id <$> MessageWriteSend.FromBuffer buffer
  | READ_RECEIVE => prod_map ReadReceive id <$> MessageReadReceive.FromBuffer buffer
  | WRITE_RECEIVE => prod_map WriteReceive id <$> MessageWriteReceive.FromBuffer buffer
  end.

Definition GetUID (m : AMessage) : Z :=
  match m with
  | ReadSend m => MessageReadSend.m_uid m
  | WriteSend m => MessageWriteSend.m_uid m
  | ReadReceive m => MessageReadReceive.m_uid m
  | WriteReceive m => MessageWriteReceive.m_uid m
  end.

Definition GetOffset (m : AMessage) : Z :=
  match m with
  | ReadSend m => MessageReadSend.m_offset m
  | WriteSend m => MessageWriteSend.m_offset m
  | ReadReceive _ | WriteReceive _ => Base.GetOffset
  end.

Definition GetLength (m : AMessage) : Z :=
  match m with
  | ReadSend m => MessageReadSend.m_length m
  | WriteSend m => MessageWriteSend.m_length m
  | ReadReceive m => MessageReadReceive.m_length m
  | WriteReceive _ => Base.GetLength
  end.

Definition GetResult (m : AMessage) : bool :=
  match m with
  | ReadSend _ | WriteSend _ => Base.GetResult
  | ReadReceive m => MessageReadReceive.GetResult m
  | WriteReceive m => MessageWriteReceive.GetResult m
  end.

Definition GetData (m : AMessage) : option cells :=
  match m with
  | ReadSend _ => Base.GetData
  | WriteSend m => MessageWriteSend.m_buffer m
  | ReadReceive m => MessageReadReceive.m_buffer m
  | WriteReceive _ => Base.GetData
  end.

(** The allocation of a packet and the call that fills it, as both proxies write
    it: [new char[m.GetSize()]], then [m.ToBuffer]. *)
Definition make_packet (m : AMessage) : res cells :=
  data ← ToBuffer m;
  write_cells 0 data (replicate (Z.to_nat (GetSize m)) None).

(** [BUFSIZ] of the GNU C library. *)
Definition BUFSIZ : Z := 8192.

(** [char buffer[BUFSIZ]] after [ReceiveFrom(buffer, BUFSIZ - 1)]. *)
Definition receive_buffer (packet : cells) : cells :=
  packet ++ replicate (Z.to_nat BUFSIZ - length packet) None.

(** ** The wire format

    What a message class promises to the two proxies. [wire_seen m] is the
    object that the receiver rebuilds from the packet of [m]. *)

Class Wire (M : Type) := {
  wire_type : M -> MESSAGE_TYPE;
  wire_size : M -> Z;
  wire_put : M -> res cells;
  wire_get : MESSAGE_TYPE -> cells -> res (M * cells);
  wire_wf : M -> Prop;
  wire_payload : M -> cells;
  wire_seen : M -> M;
  wire_put_ok m : wire_wf m ->
    wire_put m = Ok (store 4 (wire_size m) ++ store 4 (type_value (wire_type m))
                     ++ wire_payload m);
  wire_get_ok m rest : wire_wf m ->
    wire_get (wire_type m) (wire_payload m ++ rest) = Ok (wire_seen m, rest);
  wire_size_ok m : wire_wf m ->
    wire_size m = u32 (8 + Z.of_nat (length (wire_payload m)));
}.

(** The cells of a [char[]] argument that the copy reads. *)
Definition data_cells (b : option cells) (n : Z) : cells :=
  match b with Some l => read_cells (Z.to_nat n) l | None => [] end.

Definition data_wf (b : option cells) (n : Z) : Prop := is_Some b \/ n = 0.

Lemma copy_from_ok b n : data_wf b n -> copy_from b n = Ok (data_cells b n).
Proof. intros [[l ->]| ->]; [done|]. by destruct b. Qed.

Lemma length_data_cells b n : 0 <= n -> data_wf b n -> Z.of_nat (length (data_cells b n)) = n.
Proof.
  intros Hn [[l ->]| ->]; [simpl; rewrite length_read_cells; lia|].
  destruct b; done.
Qed.

(** Evaluates the loads of a [FromBuffer] over the stores it reads. *)
Ltac run_loads :=
  repeat match goal with
  | |- context [load ?n (store ?n ?z ++ ?rest)] =>
      rewrite (load_store n z rest) by (simpl; lia); cbn [mbind res_bind fmap res_fmap mret res_ret]
  end.

Lemma take_drop_data b n rest :
  0 <= n -> data_wf b n ->
  read_cells (Z.to_nat n) (data_cells b n ++ rest) = data_cells b n
  /\ drop (Z.to_nat n) (data_cells b n ++ rest) = rest.
Proof.
  intros Hn Hb. pose proof (length_data_cells b n Hn Hb).
  split; [apply read_cells_app | apply drop_app_length']; lia.
Qed.

#[local] Obligation Tactic := try done.

#[export] Program Instance ReadSend_wire : Wire MessageReadSend.t := {|
  wire_type := MessageReadSend.GetMessageType;
  wire_size := MessageReadSend.GetSize;
  wire_put := MessageReadSend.ToBuffer;
  wire_get _ := MessageReadSend.FromBuffer;
  wire_wf m := in_u64 (MessageReadSend.m_uid m) /\ in_u64 (MessageReadSend.m_offset m)
               /\ in_u64 (MessageReadSend.m_length m);
  wire_payload m := store 8 (MessageReadSend.m_uid m)
    ++ store 8 (MessageReadSend.m_offset m) ++ store 8 (MessageReadSend.m_length m);
  wire_seen m := m;
|}.
Next Obligation.
  intros [uid off len] rest (H1 & H2 & H3); simpl in *.
  unfold MessageReadSend.FromBuffer, Base.FromBuffer. rewrite <-!app_assoc.
  by run_loads.
Qed.

#[export] Program Instance WriteSend_wire : Wire MessageWriteSend.t := {|
  wire_type := MessageWriteSend.GetMessageType;
  wire_size := MessageWriteSend.GetSize;
  wire_put := MessageWriteSend.ToBuffer;
  wire_get _ := MessageWriteSend.FromBuffer;
  wire_wf m := in_u64 (MessageWriteSend.m_uid m) /\ in_u64 (MessageWriteSend.m_offset m)
               /\ 0 <= MessageWriteSend.m_length m < 2 ^ 64 - 1
               /\ is_Some (MessageWriteSend.m_buffer m);
  wire_payload m := store 8 (MessageWriteSend.m_uid m)
    ++ store 8 (MessageWriteSend.m_offset m) ++ store 8 (MessageWriteSend.m_length m)
    ++ data_cells (MessageWriteSend.m_buffer m) (MessageWriteSend.m_length m + 1);
  wire_seen m := MessageWriteSend.mk (MessageWriteSend.m_uid m) (MessageWriteSend.m_offset m)
    (MessageWriteSend.m_length m)
    (Some (data_cells (MessageWriteSend.m_buffer m) (MessageWriteSend.m_length m + 1)));
|}.
Next Obligation.
  intros [uid off len b] (H1 & H2 & H3 & H4); simpl in *.
  unfold MessageWriteSend.ToBuffer. cbn [MessageWriteSend.m_buffer MessageWriteSend.m_length].
  rewrite u64_small by lia. by rewrite copy_from_ok by (left; done).
Qed.
Next Obligation.
  intros [uid off len b] rest (H1 & H2 & H3 & H4); simpl in *.
  unfold MessageWriteSend.FromBuffer, Base.FromBuffer. rewrite <-!app_assoc.
  run_loads. rewrite u64_small by lia.
  destruct (take_drop_data b (len + 1) rest) as [-> ->]; [lia | by left | done].
Qed.
Next Obligation.
  intros [uid off len b] (H1 & H2 & H3 & H4); simpl in *.
  rewrite !length_app, !length_store. unfold MessageWriteSend.GetSize, Base.GetSize. simpl.
  pose proof (length_data_cells b (len + 1) ltac:(lia) (or_introl H4)).
  f_equal. unfold Base.sizeof_uid. lia.
Qed.

#[export] Program Instance ReadReceive_wire : Wire MessageReadReceive.t := {|
  wire_type := MessageReadReceive.GetMessageType;
  wire_size := MessageReadReceive.GetSize;
  wire_put := MessageReadReceive.ToBuffer;
  wire_get _ := MessageReadReceive.FromBuffer;
  wire_wf m := in_u64 (MessageReadReceive.m_uid m) /\ in_u8 (MessageReadReceive.m_result m)
               /\ in_u64 (MessageReadReceive.m_length m)
               /\ data_wf (MessageReadReceive.m_buffer m) (MessageReadReceive.m_length m);
  wire_payload m := store 8 (MessageReadReceive.m_uid m)
    ++ store 1 (MessageReadReceive.m_result m) ++ store 8 (MessageReadReceive.m_length m)
    ++ data_cells (MessageReadReceive.m_buffer m) (MessageReadReceive.m_length m);
  wire_seen m := MessageReadReceive.mk (MessageReadReceive.m_uid m)
    (MessageReadReceive.m_result m) (MessageReadReceive.m_length m)
    (Some (data_cells (MessageReadReceive.m_buffer m) (MessageReadReceive.m_length m)));
|}.
Next Obligation.
  intros [uid r len b] (H1 & H2 & H3 & H4); simpl in *.
  unfold MessageReadReceive.ToBuffer. simpl. by rewrite copy_from_ok.
Qed.
Next Obligation.
  intros [uid r len b] rest (H1 & H2 & H3 & H4); simpl in *.
  unfold MessageReadReceive.FromBuffer, Base.FromBuffer. rewrite <-!app_assoc.
  run_loads. destruct (take_drop_data b len rest) as [-> ->]; [lia | done | done].
Qed.
Next Obligation.
  intros [uid r len b] (H1 & H2 & H3 & H4); simpl in *.
  rewrite !length_app, !length_store. unfold MessageReadReceive.GetSize, Base.GetSize. simpl.
  pose proof (length_data_cells b len ltac:(lia) H4).
  f_equal. unfold Base.sizeof_uid. lia.
Qed.

#[export] Program Instance WriteReceive_wire : Wire MessageWriteReceive.t := {|
  wire_type := MessageWriteReceive.GetMessageType;
  wire_size := MessageWriteReceive.GetSize;
  wire_put := MessageWriteReceive.ToBuffer;
  wire_get _ := MessageWriteReceive.FromBuffer;
  wire_wf m := in_u64 (MessageWriteReceive.m_uid m) /\ in_u8 (MessageWriteReceive.m_result m);
  wire_payload m := store 8 (MessageWriteReceive.m_uid m)
    ++ store 1 (MessageWriteReceive.m_result m);
  wire_seen m := m;
|}.
Next Obligation.
  intros [uid r] rest (H1 & H2); simpl in *.
  unfold MessageWriteReceive.FromBuffer, Base.FromBuffer. rewrite <-!app_assoc.
  by run_loads.
Qed.

(** The dynamic type: the interface of whatever class the object has. *)
Definition message_wf (m : AMessage) : Prop :=
  match m with
  | ReadSend m => wire_wf m
  | WriteSend m => wire_wf m
  | ReadReceive m => wire_wf m
  | WriteReceive m => wire_wf m
  end.

Definition message_payload (m : AMessage) : cells :=
  match m with
  | ReadSend m => wire_payload m
  | WriteSend m => wire_payload m
  | ReadReceive m => wire_payload m
  | WriteReceive m => wire_payload m
  end.

Definition message_seen (m : AMessage) : AMessage :=
  match m with
  | ReadSend m => ReadSend (wire_seen m)
  | WriteSend m => WriteSend (wire_seen m)
  | ReadReceive m => ReadReceive (wire_seen m)
  | WriteReceive m => WriteReceive (wire_seen m)
  end.

#[export] Program Instance AMessage_wire : Wire AMessage := {|
  wire_type := GetMessageType;
  wire_size := GetSize;
  wire_put := ToBuffer;
  wire_get := FromBuffer;
  wire_wf := message_wf;
  wire_payload := message_payload;
  wire_seen := message_seen;
|}.
Next Obligation. intros [m|m|m|m] H; exact (wire_put_ok m H). Qed.
Next Obligation.
  intros [m|m|m|m] rest Hwf;
    pose proof (wire_get_ok m rest Hwf) as H; simpl in H |- *; by rewrite H.
Qed.
Next Obligation. intros [m|m|m|m] H; exact (wire_size_ok m H). Qed.

(** The packet header. *)
Definition header (m : AMessage) : cells :=
  store 4 (GetSize m) ++ store 4 (type_value (GetMessageType m)).

Lemma type_value_range t : in_u32 (type_value t).
Proof. destruct t; simpl; lia. Qed.

Lemma GetSize_range (m : AMessage) : in_u32 (GetSize m).
Proof. destruct m; apply u32_range. Qed.

Lemma ToBuffer_ok (m : AMessage) :
  message_wf m -> ToBuffer m = Ok (header m ++ message_payload m).
Proof. intros H. unfold header. rewrite <-app_assoc. exact (wire_put_ok (Wire := AMessage_wire) m H). Qed.

Lemma load_header (m : AMessage) rest :
  load 4 (header m ++ rest)
    = Ok (GetSize m, store 4 (type_value (GetMessageType m)) ++ rest)
  /\ load 4 (store 4 (type_value (GetMessageType m)) ++ rest)
    = Ok (type_value (GetMessageType m), rest).
Proof.
  unfold header. rewrite <-app_assoc.
  split; apply load_store; [apply GetSize_range | apply type_value_range].
Qed.

Lemma length_packet (m : AMessage) :
  message_wf m -> GetSize m = u32 (Z.of_nat (length (header m ++ message_payload m))).
Proof.
  intros H. etrans; [exact (wire_size_ok (Wire := AMessage_wire) m H)|].
  unfold header. rewrite !length_app, !length_store. simpl. f_equal. lia.
Qed.

Definition packet_of (m : AMessage) : cells := header m ++ message_payload m.

(** A packet of less than 4 GB is built as it should be. *)
Lemma make_packet_ok (m : AMessage) :
  message_wf m -> Z.of_nat (length (header m ++ message_payload m)) < 2 ^ 32 ->
  make_packet m = Ok (header m ++ message_payload m).
Proof.
  intros Hwf Hlen. unfold make_packet. rewrite ToBuffer_ok by done. cbn [mbind res_bind].
  pose proof (length_packet m Hwf) as Hs. rewrite u32_small in Hs by lia.
  rewrite write_cells_ok by (rewrite length_replicate; lia).
  rewrite drop_ge by (rewrite length_replicate; lia). by rewrite take_0, app_nil_r.
Qed.

(** What the receiver finds in its buffer, when the packet fits. *)
Lemma packet_parse (m : AMessage) (packet := packet_of m) :
  message_wf m -> Z.of_nat (length packet) <= BUFSIZ - 1 ->
  exists runner runner' rest,
    load 4 (receive_buffer packet) = Ok (GetSize m, runner)
    /\ load 4 runner = Ok (type_value (GetMessageType m), runner')
    /\ FromBuffer (GetMessageType m) runner' = Ok (message_seen m, rest)
    /\ (u32 (Z.of_nat (length packet)) <? GetSize m) = false
    /\ (Z.of_nat (length packet) <? 4 * 2) = false.
Proof.
  intros Hwf Hlen. unfold BUFSIZ in Hlen.
  pose proof (length_packet m Hwf) as Hs. fold (packet_of m) in Hs. fold packet in Hs.
  rewrite u32_small in Hs |- * by lia.
  set (rest := replicate (Z.to_nat BUFSIZ - length packet) (None : cell)).
  destruct (load_header m (message_payload m ++ rest)) as [H1 H2].
  exists (store 4 (type_value (GetMessageType m)) ++ message_payload m ++ rest),
    (message_payload m ++ rest), rest.
  split; [unfold receive_buffer, packet, packet_of in *; by rewrite <-app_assoc|].
  split; [done|]. split; [exact (wire_get_ok (Wire := AMessage_wire) m rest Hwf)|].
  split; [apply Z.ltb_ge; lia|]. apply Z.ltb_ge. unfold packet, packet_of, header.
  rewrite !length_app, !length_store. lia.
Qed.

(** A packet that is longer than what the receiver takes of it. *)
Lemma packet_oversized (m : AMessage) (packet := take (Z.to_nat (BUFSIZ - 1)) (packet_of m)) :
  message_wf m -> BUFSIZ - 1 < Z.of_nat (length (packet_of m)) < 2 ^ 32 ->
  exists runner, load 4 (receive_buffer packet) = Ok (GetSize m, runner)
    /\ (u32 (Z.of_nat (length packet)) <? GetSize m) = true
    /\ (Z.of_nat (length packet) <? 4 * 2) = false.
Proof.
  intros Hwf Hlen.
  pose proof (length_packet m Hwf) as Hs. fold (packet_of m) in Hs. rewrite u32_small in Hs by lia.
  assert (Hp : length packet = Z.to_nat (BUFSIZ - 1))
    by (unfold packet; rewrite length_take; unfold BUFSIZ in *; lia).
  assert (Hsplit : exists rest, packet = store 4 (GetSize m) ++ rest).
  { unfold packet, packet_of, header. rewrite <-!app_assoc, take_app, take_ge; [by eexists|].
    rewrite length_store. unfold BUFSIZ. lia. }
  destruct Hsplit as [rest Hsplit]. exists (rest ++ replicate (Z.to_nat BUFSIZ - length packet) None).
  split; [|split].
  - unfold receive_buffer. rewrite Hsplit at 1. by rewrite <-app_assoc, load_store by (simpl; lia).
  - rewrite Hp. unfold BUFSIZ in *. rewrite u32_small by lia. apply Z.ltb_lt. lia.
  - rewrite Hp. unfold BUFSIZ. apply Z.ltb_ge. lia.
Qed.

Lemma GetUID_seen m : GetUID (message_seen m) = GetUID m.
Proof. by destruct m. Qed.

(** The data that the receiver has, from the data of the sender. *)
Definition data_seen (m : AMessage) : option cells :=
  match m with
  | ReadSend _ | WriteReceive _ => None
  | WriteSend m =>
      Some (data_cells (MessageWriteSend.m_buffer m) (MessageWriteSend.m_length m + 1))
  | ReadReceive m =>
      Some (data_cells (MessageReadReceive.m_buffer m) (MessageReadReceive.m_length m))
  end.

(** C14: a packet that a proxy builds is read back by the other side: the header
    gives the size of the packet (as long as it fits in 32 bits) and the type of
    the message, and an object of that type takes from the rest of the packet
    the identity, offset, length, result and data of the message and stops at
    the end of the packet, whatever follows it in the receive buffer. *)
Theorem message_roundtrip (m : AMessage) (rest : cells) (Hwf : message_wf m) :
  exists payload m',
    ToBuffer m = Ok (header m ++ payload)
    /\ GetSize m = u32 (Z.of_nat (length (header m ++ payload)))
    /\ load 4 (header m ++ payload ++ rest)
       = Ok (GetSize m, store 4 (type_value (GetMessageType m)) ++ payload ++ rest)
    /\ load 4 (store 4 (type_value (GetMessageType m)) ++ payload ++ rest)
       = Ok (type_value (GetMessageType m), payload ++ rest)
    /\ FromBuffer (GetMessageType m) (payload ++ rest) = Ok (m', rest)
    /\ GetUID m' = GetUID m /\ GetOffset m' = GetOffset m /\ GetLength m' = GetLength m
    /\ GetResult m' = GetResult m /\ GetData m' = data_seen m.
Proof.
  exists (message_payload m), (message_seen m).
  destruct (load_header m (message_payload m ++ rest)) as [H1 H2].
  repeat split; try done;
    [by apply ToBuffer_ok | by apply length_packet | exact (wire_get_ok (Wire := AMessage_wire) m rest Hwf) | ..];
    by destruct m.
Qed.

Lemma message_roundtrip_witness :
  let m := ReadReceive (MessageReadReceive.make 7 true 2 (Some [Some Byte.x61; Some Byte.x62])) in
  exists payload m',
    ToBuffer m = Ok (header m ++ payload)
    /\ GetSize m = u32 (Z.of_nat (length (header m ++ payload)))
    /\ load 4 (header m ++ payload ++ [None])
       = Ok (GetSize m, store 4 (type_value (GetMessageType m)) ++ payload ++ [None])
    /\ load 4 (store 4 (type_value (GetMessageType m)) ++ payload ++ [None])
       = Ok (type_value (GetMessageType m), payload ++ [None])
    /\ FromBuffer (GetMessageType m) (payload ++ [None]) = Ok (m', [None])
    /\ GetUID m' = GetUID m /\ GetOffset m' = GetOffset m /\ GetLength m' = GetLength m
    /\ GetResult m' = GetResult m /\ GetData m' = data_seen m.
Proof.
  intros m. apply (message_roundtrip m [None]).
  repeat split; try (simpl; lia). left. by eexists.
Defined.

(** The packet of a write request whose buffer has exactly the length that
    the message states, as [MinionManager] allocates it, has one byte more than
    header and data: it is read past the end of the buffer. *)
Theorem write_request_overread (uid offset length : Z) (data : cells)
    (Huid : in_u64 uid) (Hoffset : in_u64 offset) (Hlength : 0 <= length < 2 ^ 64 - 1)
    (Hdata : Z.of_nat (List.length data) = length) :
  let m := WriteSend (MessageWriteSend.mk uid offset length (Some data)) in
  ToBuffer m = Ok (header m ++ store 8 uid ++ store 8 offset ++ store 8 length
                   ++ data ++ [None]).
Proof.
  intros m. rewrite ToBuffer_ok.
  2:{ unfold message_wf. simpl. eauto 6. }
  unfold m. simpl. do 5 f_equal. unfold read_cells.
  rewrite take_ge by lia. f_equal.
  by replace (Z.to_nat (length + 1) - List.length data)%nat with 1%nat by lia.
Qed.

Lemma write_request_overread_witness :
  let m := WriteSend (MessageWriteSend.mk 1 0 2 (Some [Some Byte.x61; Some Byte.x62])) in
  ToBuffer m = Ok (header m ++ store 8 1 ++ store 8 0 ++ store 8 2
                   ++ [Some Byte.x61; Some Byte.x62] ++ [None]).
Proof. apply (write_request_overread 1 0 2); done || lia. Defined.
