(* ===== verification/TaskArgs.v ===== *)
(** * TaskArgs

    [concrete/src/UID.cpp], [ATaskArgs.cpp], [NBDReadArgs.cpp],
    [NBDWriteArgs.cpp], [MinionArgs.cpp]: the identities of requests and the
    arguments that an input proxy hands to a command. *)

From S2P Require Import Prelude.

(** [UID::UID()]: [m_id(s_counter++)].  The static counter is the state. *)
Definition UID_new : prog Z Z := fun s_counter => (Ok s_counter, u64 (s_counter + 1)).

(** [UID::operator<] orders the keys of the [std::map]s. *)
Definition UID_lt (a b : Z) : bool := a <? b.

Record TaskArgs : Set := mk_TaskArgs {
  m_offset : Z;
  m_length : Z;
  m_buffer : option cells;
}.

(** [IListener::Mode] and [FDMODE] have the same enumerators. *)
Inductive FDMODE : Set := FD_WRITE | FD_READ.

#[export] Instance FDMODE_eq_dec : EqDecision FDMODE.
Proof. solve_decision. Defined.
#[export] Instance FDMODE_countable : Countable FDMODE.
Proof.
  refine (inj_countable' (fun m => match m with FD_WRITE => false | FD_READ => true end)
    (fun b : bool => if b then FD_READ else FD_WRITE) _).
  by intros [].
Defined.

Definition fdmode_value (m : FDMODE) : Z := match m with FD_WRITE => 0 | FD_READ => 1 end.

(** The classes derived from [ATaskArgs]; the first argument is [m_uid]. *)
Inductive ATaskArgs : Set :=
  | NBDReadArgs (uid : Z) (args : TaskArgs)
  | NBDWriteArgs (uid : Z) (args : TaskArgs)
  | MinionReadArgs (uid : Z) (args : TaskArgs)
  | MinionWriteArgs (uid : Z) (args : TaskArgs).

Definition args_uid (a : ATaskArgs) : Z :=
  match a with
  | NBDReadArgs uid _ | NBDWriteArgs uid _
  | MinionReadArgs uid _ | MinionWriteArgs uid _ => uid
  end.

Definition args_task (a : ATaskArgs) : TaskArgs :=
  match a with
  | NBDReadArgs _ args | NBDWriteArgs _ args
  | MinionReadArgs _ args | MinionWriteArgs _ args => args
  end.

(** [GetKey]: the key of the command that runs the task. *)
Definition GetKey (a : ATaskArgs) : FDMODE :=
  match a with
  | NBDReadArgs _ _ | MinionReadArgs _ _ => FD_READ
  | NBDWriteArgs _ _ | MinionWriteArgs _ _ => FD_WRITE
  end.

(** The constructors used on the master take a fresh identity from
    [ATaskArgs()]; those used on a minion keep the identity of the message. *)
Definition make_NBDReadArgs (args : TaskArgs) : prog Z ATaskArgs :=
  uid ← UID_new; mret (NBDReadArgs uid args).
Definition make_NBDWriteArgs (args : TaskArgs) : prog Z ATaskArgs :=
  uid ← UID_new; mret (NBDWriteArgs uid args).

(** [n] requests in a row. *)
Fixpoint take_uids (n : nat) : prog Z (list Z) :=
  match n with
  | O => mret []
  | S n => uid ← UID_new; uids ← take_uids n; mret (uid :: uids)
  end.

Lemma take_uids_spec n c :
  0 <= c -> c + Z.of_nat n < 2 ^ 64 ->
  take_uids n c = (Ok (seqZ c (Z.of_nat n)), c + Z.of_nat n).
Proof.
  revert c. induction n as [|n IH]; intros c Hc Hn; cbn [take_uids].
  - unfold mret, prog_ret. do 2 f_equal. lia.
  - unfold mbind, prog_bind, UID_new. rewrite u64_small by lia.
    rewrite IH by lia. unfold mret, prog_ret.
    rewrite (seqZ_cons c) by lia.
    replace (Z.pred (Z.of_nat (S n))) with (Z.of_nat n) by lia.
    replace (c + Z.of_nat (S n)) with (c + 1 + Z.of_nat n) by lia. done.
Qed.
