(* ===== verification/Factory.v ===== *)
(** * Factory

    [framework/include/factory.hpp]: creators registered by key. *)

From S2P Require Import Prelude.

Section Factory.
Context {KEY : Type} `{Countable KEY} {CREATOR : Type}.
Implicit Types m_umap : gmap KEY CREATOR.

(** [m_umap[key] = creator]: a later registration replaces an earlier one. *)
Definition Register (key : KEY) (creator : CREATOR) m_umap : gmap KEY CREATOR :=
  <[key := creator]> m_umap.

(** The lookup of [Create]; its caller runs the creator it returns. *)
Definition Create (key : KEY) m_umap : res CREATOR :=
  match m_umap !! key with
  | None => Throw (out_of_range "Key doesn't exist.")
  | Some creator => Ok creator
  end.

Lemma Create_Register key key' creator m_umap :
  Create key' (Register key creator m_umap)
  = if decide (key = key') then Ok creator else Create key' m_umap.
Proof.
  unfold Create, Register. rewrite lookup_insert. by case_decide.
Qed.

Lemma Create_ok key m_umap creator : m_umap !! key = Some creator -> Create key m_umap = Ok creator.
Proof. intros H1. unfold Create. by rewrite H1. Qed.
End Factory.
