(* ===== verification/Dispatcher.v ===== *)
(** * Dispatcher

    [framework/include/dispatcher.hpp].  The first part is the list of
    callbacks that the dispatchers of the master use; the second part adds
    what the destructors do: callbacks point back to a dispatcher, and both can
    die first. *)

From S2P Require Import Prelude.

Section Dispatcher.
Context {CB : Type} `{EqDecision CB}.
Implicit Types m_reg_list : list CB.

Definition Register (callback : CB) m_reg_list : list CB := m_reg_list ++ [callback].

(** [std::list::remove] removes every occurrence. *)
Definition Unregister (callback : CB) m_reg_list : list CB :=
  filter (fun c => c <> callback) m_reg_list.

(** [Notify] walks a copy of the list, so what the callbacks do to the list
    does not change the walk. *)
Definition Notify {S} (call : CB -> prog S unit) m_reg_list : prog S unit :=
  for_each call m_reg_list.
End Dispatcher.

(** ** Lifetimes *)

(** [ACallback::m_dispatcher].  No constructor initialises it. *)
Inductive back_pointer : Set := Indeterminate | Null | To (d : nat).

#[export] Instance back_pointer_eq_dec : EqDecision back_pointer.
Proof. solve_decision. Defined.

(** What the object behind a [Callback] is told: an event, or the death of the
    dispatcher. *)
Inductive news : Set := Event | Death.

(** The live dispatchers with their lists, the live callbacks with their back
    pointers, those that have an [m_notify_death], and what the callbacks' objects
    were told. *)
Record heap : Set := mk_heap {
  dispatchers : gmap nat (list nat);
  callbacks : gmap nat back_pointer;
  deaths : gset nat;
  heard : list (nat * news);
}.

Definition live_dispatcher (d : nat) : prog heap (list nat) := fun h =>
  match dispatchers h !! d with Some l => (Ok l, h) | None => (Undefined, h) end.

Definition live_callback (c : nat) : prog heap back_pointer := fun h =>
  match callbacks h !! c with Some p => (Ok p, h) | None => (Undefined, h) end.

Definition set_list (d : nat) (l : list nat) (h : heap) : heap :=
  mk_heap (<[d := l]> (dispatchers h)) (callbacks h) (deaths h) (heard h).

Definition set_callbacks (cbs : gmap nat back_pointer) (h : heap) : heap :=
  mk_heap (dispatchers h) cbs (deaths h) (heard h).

Definition hear (l : list (nat * news)) (h : heap) : heap :=
  mk_heap (dispatchers h) (callbacks h) (deaths h) (heard h ++ l).

(** [Callback::Notify], [Callback::NotifyDeath]. *)
Definition Callback_Notify (c : nat) : prog heap unit :=
  live_callback c ;; modify (hear [(c, Event)]).

Definition Callback_NotifyDeath (c : nat) : prog heap unit :=
  live_callback c ;; modify (fun h => if decide (c ∈ deaths h) then hear [(c, Death)] h else h).

(** [ACallback::SetDispatcher]. *)
Definition SetDispatcher (c : nat) (p : back_pointer) : prog heap unit :=
  live_callback c ;; modify (fun h => set_callbacks (<[c := p]> (callbacks h)) h).

Definition register (d c : nat) : prog heap unit :=
  SetDispatcher c (To d) ;;
  l ← live_dispatcher d;
  modify (set_list d (Register c l)).

Definition unregister (d c : nat) : prog heap unit :=
  SetDispatcher c Null ;;
  l ← live_dispatcher d;
  modify (set_list d (Unregister c l)).

(** [Notify]: every callback of the copy must still be alive. *)
Definition notify (d : nat) : prog heap unit :=
  l ← live_dispatcher d;
  Notify Callback_Notify l.

(** [Callback::Callback], with a function for deaths or without; the constructor
    of [Dispatcher]. *)
Definition new_callback (c : nat) (notify_death : bool) : prog heap unit := modify (fun h =>
  mk_heap (dispatchers h) (<[c := Indeterminate]> (callbacks h))
    (if notify_death then {[c]} ∪ deaths h else deaths h ∖ {[c]}) (heard h)).
Definition new_dispatcher (d : nat) : prog heap unit := modify (set_list d []).

(** [Dispatcher::~Dispatcher]. *)
Definition delete_dispatcher (d : nat) : prog heap unit :=
  l ← live_dispatcher d;
  for_each (fun c => Callback_NotifyDeath c ;; SetDispatcher c Null) l ;;
  modify (fun h => mk_heap (delete d (dispatchers h)) (callbacks h) (deaths h) (heard h)).

(** [ACallback::~ACallback]: branching on an indeterminate pointer is undefined
    behaviour. *)
Definition delete_callback (c : nat) : prog heap unit :=
  p ← live_callback c;
  match p with
  | Indeterminate => lift Undefined
  | Null => mret tt
  | To d => unregister d c
  end ;;
  modify (fun h => set_callbacks (delete c (callbacks h)) h).

(** The invariant: a callback is in the list of a live dispatcher exactly when
    it points to that dispatcher, and then it is there once. *)
Record agree (lists : gmap nat (list nat)) (pointers : gmap nat back_pointer) : Prop := {
  ag_nodup : forall d l, lists !! d = Some l -> NoDup l;
  ag_pointers : forall c d, pointers !! c = Some (To d) <-> exists l, lists !! d = Some l /\ c ∈ l;
}.

Definition coherent (h : heap) : Prop := agree (dispatchers h) (callbacks h).

(** The operations with the discipline that keeps the invariant: objects are
    created once, a callback is registered with one dispatcher at a time and is
    registered at least once before it dies. *)
Inductive op : Set :=
  | NewDispatcher (d : nat)
  | NewCallback (c : nat) (notify_death : bool)
  | RegisterOp (d c : nat)
  | UnregisterOp (d c : nat)
  | NotifyOp (d : nat)
  | DeleteDispatcher (d : nat)
  | DeleteCallback (c : nat).

Definition run_op (o : op) : prog heap unit :=
  match o with
  | NewDispatcher d => new_dispatcher d
  | NewCallback c death => new_callback c death
  | RegisterOp d c => register d c
  | UnregisterOp d c => unregister d c
  | NotifyOp d => notify d
  | DeleteDispatcher d => delete_dispatcher d
  | DeleteCallback c => delete_callback c
  end.

Definition allowed (o : op) (h : heap) : Prop :=
  match o with
  | NewDispatcher d => dispatchers h !! d = None
  | NewCallback c _ => callbacks h !! c = None
  | RegisterOp d c => is_Some (dispatchers h !! d)
      /\ (callbacks h !! c = Some Indeterminate \/ callbacks h !! c = Some Null)
  | UnregisterOp d c => callbacks h !! c = Some (To d)
  | NotifyOp d | DeleteDispatcher d => is_Some (dispatchers h !! d)
  | DeleteCallback c => exists p, callbacks h !! c = Some p /\ p <> Indeterminate
  end.

(** Whom an operation tells what. *)
Definition told (o : op) (h : heap) : list (nat * news) :=
  match o with
  | NotifyOp d => (fun c => (c, Event)) <$> default [] (dispatchers h !! d)
  | DeleteDispatcher d => (fun c => (c, Death)) <$> filter (fun c => c ∈ deaths h) (default [] (dispatchers h !! d))
  | _ => []
  end.

Lemma SetDispatcher_ok c p q h :
  callbacks h !! c = Some q ->
  SetDispatcher c p h = (Ok tt, set_callbacks (<[c := p]> (callbacks h)) h).
Proof. intros H. unfold SetDispatcher, live_callback. run_prog. by rewrite H. Qed.

Lemma coherent_live h d l c :
  coherent h -> dispatchers h !! d = Some l -> c ∈ l -> callbacks h !! c = Some (To d).
Proof. intros [_ H] Hd Hc. apply H. eauto. Qed.

Lemma hear_app l1 l2 h : hear l2 (hear l1 h) = hear (l1 ++ l2) h.
Proof. unfold hear. cbn. by rewrite app_assoc. Qed.

Lemma hear_nil h : hear [] h = h.
Proof. destruct h. unfold hear. cbn. by rewrite app_nil_r. Qed.

Lemma notify_live l h :
  (forall c, c ∈ l -> is_Some (callbacks h !! c)) ->
  for_each Callback_Notify l h = (Ok tt, hear ((fun c => (c, Event)) <$> l) h).
Proof.
  revert h. induction l as [|c l IH]; intros h H; [by rewrite hear_nil|]. cbn [for_each].
  destruct (H c ltac:(set_solver)) as [p Hp].
  assert (E : Callback_Notify c h = (Ok tt, hear [(c, Event)] h))
    by (unfold Callback_Notify, live_callback; run_prog; by rewrite Hp).
  rewrite (bind_ok _ _ _ _ _ E), IH by (cbn; set_solver). by rewrite hear_app.
Qed.

(** Telling a list of live callbacks of a death, and clearing their back
    pointers. *)
Lemma clear_all l h :
  (forall c, c ∈ l -> is_Some (callbacks h !! c)) ->
  exists cbs, for_each (fun c => Callback_NotifyDeath c ;; SetDispatcher c Null) l h
      = (Ok tt, hear ((fun c => (c, Death)) <$> filter (fun c => c ∈ deaths h) l) (set_callbacks cbs h))
    /\ forall c, cbs !! c = if decide (c ∈ l) then Some Null else callbacks h !! c.
Proof.
  revert h. induction l as [|c l IH]; intros h H; cbn [for_each].
  { exists (callbacks h). split; [rewrite hear_nil; by destruct h|].
    intros c'. by rewrite decide_False by set_solver. }
  destruct (H c ltac:(set_solver)) as [p Hp].
  set (told := if decide (c ∈ deaths h) then [(c, Death)] else []).
  assert (E : (Callback_NotifyDeath c ;; SetDispatcher c Null) h
    = (Ok tt, hear told (set_callbacks (<[c:=Null]> (callbacks h)) h))).
  { assert (E1 : Callback_NotifyDeath c h = (Ok tt, hear told h)).
    { unfold Callback_NotifyDeath, live_callback, told. run_prog. rewrite Hp. case_decide; [done|by rewrite hear_nil]. }
    rewrite (bind_ok _ _ _ _ _ E1). by apply (SetDispatcher_ok c Null p (hear told h)). }
  rewrite (bind_ok _ _ _ _ _ E).
  destruct (IH (hear told (set_callbacks (<[c:=Null]> (callbacks h)) h))) as (cbs & -> & Hcbs).
  { intros c' Hc'. simpl. rewrite lookup_insert. case_decide; [eauto|]. apply H. set_solver. }
  exists cbs. split.
  - f_equal. rewrite filter_cons. unfold told. unfold hear, set_callbacks. cbn.
    case_decide; cbn; by rewrite <-app_assoc.
  - intros c'. rewrite Hcbs. simpl. rewrite lookup_insert. repeat case_decide; set_solver.
Qed.

Lemma coherent_new_callback c h :
  callbacks h !! c = None -> coherent h ->
  agree (dispatchers h) (<[c := Indeterminate]> (callbacks h)).
Proof.
  intros Hc [Hn Hd]. split; [done|]. intros c' d. simpl. rewrite lookup_insert.
  case_decide as E; [|apply Hd]. subst c'. split; [done|].
  intros (l & Hl & Hin). assert (callbacks h !! c = Some (To d)) by (apply Hd; eauto). congruence.
Qed.

Lemma coherent_new_dispatcher d h :
  dispatchers h !! d = None -> coherent h -> coherent (set_list d [] h).
Proof.
  intros Hd [Hn Hc]. split; simpl.
  - intros d' l. rewrite lookup_insert. case_decide; [intros [= <-]; constructor|apply Hn].
  - intros c d'. rewrite Hc. rewrite lookup_insert. case_decide as E; [subst d'|done].
    split; [intros (l & Hl & _); congruence | intros (l & [= <-] & ?); set_solver].
Qed.

(** Changing a callback's pointer together with the list of one dispatcher. *)
Lemma coherent_update c p d l l' h :
  coherent h -> dispatchers h !! d = Some l -> NoDup l' ->
  (forall d', callbacks h !! c = Some (To d') -> d' = d) ->
  (p = To d /\ c ∈ l' \/ (forall d', p <> To d') /\ c ∉ l') ->
  (forall c', c' <> c -> c' ∈ l' <-> c' ∈ l) ->
  agree (<[d := l']> (dispatchers h)) (<[c := p]> (callbacks h)).
Proof.
  intros [Hn Hc] Hd Hl' Hold Hp Hother. split; simpl.
  - intros d' k. rewrite lookup_insert. case_decide; [intros [= <-]; done|apply Hn].
  - intros c' d'. rewrite !lookup_insert.
    destruct (decide (c = c')) as [<-|Hne]; destruct (decide (d = d')) as [<-|Hdd].
    + destruct Hp as [[-> Hin]|[Hp Hin]]; split; eauto.
      * intros [= ->]. by destruct (Hp d).
      * intros (k & [= <-] & ?). done.
    + split.
      * intros [= ->]. destruct Hp as [[[= ->] ?]|[Hp ?]]; [done|by destruct (Hp d')].
      * intros Hin. apply Hc in Hin. by apply Hold in Hin.
    + rewrite Hc. split; intros (k & Hk & Hin); simplify_eq.
      * exists l'. split; [done|]. apply Hother; done.
      * exists l. split; [done|]. apply Hother; done.
    + apply Hc.
Qed.

Lemma register_ok d c l p h :
  callbacks h !! c = Some p -> dispatchers h !! d = Some l ->
  register d c h = (Ok tt, set_list d (Register c l) (set_callbacks (<[c := To d]> (callbacks h)) h)).
Proof.
  intros Hp Hl. unfold register. rewrite (bind_ok _ _ _ _ _ (SetDispatcher_ok c (To d) p h Hp)).
  unfold live_dispatcher. run_prog. cbn [dispatchers set_callbacks]. by rewrite Hl.
Qed.

Lemma unregister_ok d c l p h :
  callbacks h !! c = Some p -> dispatchers h !! d = Some l ->
  unregister d c h = (Ok tt, set_list d (Unregister c l) (set_callbacks (<[c := Null]> (callbacks h)) h)).
Proof.
  intros Hp Hl. unfold unregister. rewrite (bind_ok _ _ _ _ _ (SetDispatcher_ok c Null p h Hp)).
  unfold live_dispatcher. run_prog. cbn [dispatchers set_callbacks]. by rewrite Hl.
Qed.

Lemma register_coherent d c h :
  coherent h -> allowed (RegisterOp d c) h ->
  exists h', register d c h = (Ok tt, h') /\ coherent h' /\ heard h' = heard h.
Proof.
  intros Hco [[l Hl] Hp]. eexists. split.
  - destruct Hp; by eapply register_ok.
  - split; [|done]. assert (Hout : c ∉ l)
      by (intros Hin; pose proof (coherent_live h d l c Hco Hl Hin); naive_solver).
    apply (coherent_update c (To d) d l _ h); try done.
    + apply NoDup_app. split; [by apply (ag_nodup _ _ Hco d)|]. split; [set_solver|apply NoDup_singleton].
    + naive_solver.
    + left. split; [done|]. unfold Register. set_solver.
    + unfold Register. set_solver.
Qed.

Lemma unregister_coherent d c h :
  coherent h -> allowed (UnregisterOp d c) h ->
  exists h', unregister d c h = (Ok tt, h') /\ coherent h'
    /\ callbacks h' !! c = Some Null /\ heard h' = heard h.
Proof.
  intros Hco Hp. simpl in Hp. destruct (proj1 (ag_pointers _ _ Hco c d) Hp) as (l & Hl & Hin).
  eexists. split; [|split].
  - by eapply unregister_ok.
  - apply (coherent_update c Null d l _ h); try done.
    + apply NoDup_filter. by apply (ag_nodup _ _ Hco d).
    + naive_solver.
    + right. split; [done|]. unfold Unregister. rewrite list_elem_of_filter. naive_solver.
    + intros c' Hne. unfold Unregister. rewrite list_elem_of_filter. naive_solver.
  - split; [|done]. simpl. apply lookup_insert_eq.
Qed.

Lemma coherent_delete_callback c h :
  coherent h -> (forall d, callbacks h !! c <> Some (To d)) ->
  agree (dispatchers h) (delete c (callbacks h)).
Proof.
  intros [Hn Hc] Hp. split; [done|]. intros c' d. simpl. rewrite <-Hc, lookup_delete.
  case_decide as E; [subst c'|done]. split; [done|]. intros E. by destruct (Hp d).
Qed.

Lemma delete_callback_coherent c h :
  coherent h -> allowed (DeleteCallback c) h ->
  exists h', delete_callback c h = (Ok tt, h') /\ coherent h' /\ heard h' = heard h.
Proof.
  intros Hco (p & Hp & Hne). unfold delete_callback.
  assert (Hlive : live_callback c h = (Ok p, h)) by (unfold live_callback; by rewrite Hp).
  rewrite (bind_ok _ _ _ _ _ Hlive).
  destruct p as [| |d]; [done| |].
  - eexists. split; [done|]. split; [|done]. apply (coherent_delete_callback c h); naive_solver.
  - destruct (unregister_coherent d c h Hco Hp) as (h' & Hrun & Hco' & Hc & Hh).
    rewrite (bind_ok _ _ _ _ _ Hrun). eexists. split; [done|]. split; [|exact Hh].
    apply (coherent_delete_callback c h'); naive_solver.
Qed.

Lemma delete_dispatcher_coherent d h :
  coherent h -> allowed (DeleteDispatcher d) h ->
  exists h', delete_dispatcher d h = (Ok tt, h') /\ coherent h' /\ heard h' = heard h ++ told (DeleteDispatcher d) h.
Proof.
  intros Hco [l Hl]. unfold delete_dispatcher.
  assert (Hlive : live_dispatcher d h = (Ok l, h)) by (unfold live_dispatcher; by rewrite Hl).
  rewrite (bind_ok _ _ _ _ _ Hlive).
  destruct (clear_all l h) as (cbs & Hrun & Hcbs).
  { intros c Hin. rewrite (coherent_live h d l c Hco Hl Hin). eauto. }
  rewrite (bind_ok _ _ _ _ _ Hrun). eexists. split; [done|].
  split; [|cbn; by rewrite Hl].
  destruct Hco as [Hn Hc]. split; simpl.
  - intros d' k. rewrite lookup_delete. case_decide; [done|apply Hn].
  - intros c d'. rewrite Hcbs, lookup_delete. split.
    + case_decide as Hin; [done|]. intros Hp. apply Hc in Hp as (k & Hk & Hin').
      rewrite decide_False by naive_solver. eauto.
    + intros (k & Hk & Hin'). case_decide; [done|].
      assert (Hp : callbacks h !! c = Some (To d')) by (apply Hc; eauto).
      rewrite decide_False; [done|]. intros Hin.
      assert (callbacks h !! c = Some (To d)) by (apply Hc; eauto). congruence.
Qed.

(** C19: as long as objects are created once, a callback is registered with at
    most one dispatcher at a time and is not destroyed before it was ever
    registered, no operation of the dispatcher library, destructors included,
    touches a dead object or an uninitialised pointer, and the back pointers
    stay in agreement with the lists; an event is told to every callback of the
    list, once and in order, the death of a dispatcher to those that have a
    function for it, and nobody is told anything else. *)
Theorem dispatcher_safe (o : op) (h : heap) (Hco : coherent h) (Hallowed : allowed o h) :
  exists h', run_op o h = (Ok tt, h') /\ coherent h' /\ heard h' = heard h ++ told o h.
Proof.
  destruct o as [d|c death|d c|d c|d|d|c]; cbn [run_op told]; rewrite ?app_nil_r.
  - eexists. split; [done|]. split; [|done]. by apply (coherent_new_dispatcher d h).
  - eexists. split; [done|]. split; [|done]. by apply (coherent_new_callback c h).
  - by apply register_coherent.
  - destruct (unregister_coherent d c h Hco Hallowed) as (h' & ? & ? & _ & ?). eauto.
  - destruct Hallowed as [l Hl]. rewrite Hl. exists (hear ((fun c => (c, Event)) <$> l) h).
    split; [|by split].
    unfold notify. assert (Hlive : live_dispatcher d h = (Ok l, h))
      by (unfold live_dispatcher; by rewrite Hl).
    rewrite (bind_ok _ _ _ _ _ Hlive). apply notify_live.
    intros c Hin. rewrite (coherent_live h d l c Hco Hl Hin). eauto.
  - by apply delete_dispatcher_coherent.
  - by apply delete_callback_coherent.
Qed.

Definition run_ops (l : list op) : prog heap unit := for_each run_op l.

Definition empty_heap : heap := mk_heap ∅ ∅ ∅ [].

(** A dispatcher dies whose list has a callback with a function for deaths. *)
Lemma dispatcher_safe_witness :
  let h := (run_ops [NewDispatcher 0; NewCallback 7 true; RegisterOp 0 7] empty_heap).2 in
  exists h', run_op (DeleteDispatcher 0) h = (Ok tt, h') /\ coherent h' /\ heard h' = [(7%nat, Death)].
Proof.
  intros h. apply (dispatcher_safe (DeleteDispatcher 0) h).
  - assert (Hh : dispatchers h = {[ 0%nat := [7%nat] ]} /\ callbacks h = {[ 7%nat := To 0 ]}) by done.
    unfold coherent. destruct Hh as [-> ->]. split; simpl.
    + intros d l Hl%lookup_singleton_Some. destruct Hl as [_ <-]. apply NoDup_singleton.
    + intros c d. rewrite lookup_singleton_Some. split.
      * intros [<- [= <-]]. exists [7%nat]. split; [reflexivity|]. by rewrite list_elem_of_singleton.
      * intros (l & [-> <-]%lookup_singleton_Some & ->%list_elem_of_singleton). done.
  - by eexists.
Defined.

(** The discipline is needed, and [ResponseManager] does not follow it: its
    one [m_ticketDoneCallback] is registered with the dispatcher of every
    ticket.  After a second registration the callback remembers only the second
    dispatcher, so the first one keeps it in its list when it is destroyed, and
    notifies a dead object. *)
Theorem double_registration_dangles (d1 d2 c : nat) (Hd : d1 <> d2) :
  exists h,
    run_ops [NewDispatcher d1; NewDispatcher d2; NewCallback c false; RegisterOp d1 c;
             RegisterOp d2 c; DeleteCallback c] empty_heap = (Ok tt, h)
    /\ dispatchers h !! d1 = Some [c] /\ callbacks h !! c = None
    /\ (run_op (NotifyOp d1) h).1 = Undefined.
Proof.
  unfold run_ops. cbn [for_each run_op]. unfold new_dispatcher, new_callback, empty_heap.
  eexists. split; [|split; [|split]].
  - do 3 (erewrite bind_ok by reflexivity). unfold set_list. cbn [dispatchers callbacks].
    erewrite bind_ok by (eapply register_ok; cbn [dispatchers callbacks]; by simplify_map_eq).
    erewrite bind_ok by (eapply register_ok; cbn [set_list set_callbacks dispatchers callbacks]; by simplify_map_eq).
    unfold delete_callback, live_callback. run_prog. cbn [set_list set_callbacks dispatchers callbacks].
    rewrite lookup_insert_eq.
    erewrite unregister_ok by (cbn [set_list set_callbacks dispatchers callbacks]; by simplify_map_eq).
    reflexivity.
  - cbn [set_list set_callbacks dispatchers]. by simplify_map_eq.
  - cbn [set_list set_callbacks callbacks]. by simplify_map_eq.
  - unfold notify, live_dispatcher. run_prog. cbn [set_list set_callbacks dispatchers]. simplify_map_eq.
    unfold Notify, Callback_Notify, live_callback. cbn [Register app for_each]. run_prog.
    cbn [set_list set_callbacks callbacks]. by simplify_map_eq.
Qed.

Lemma double_registration_dangles_witness :
  exists h,
    run_ops [NewDispatcher 0; NewDispatcher 1; NewCallback 7 false; RegisterOp 0 7;
             RegisterOp 1 7; DeleteCallback 7] empty_heap = (Ok tt, h)
    /\ dispatchers h !! 0%nat = Some [7%nat] /\ callbacks h !! 7%nat = None
    /\ (run_op (NotifyOp 0) h).1 = Undefined.
Proof. apply double_registration_dangles. lia. Defined.
