(* ===== verification/Sockets.v ===== *)
(** * Sockets

    [concrete/src/UdpSocket.cpp] and [concrete/src/TcpClientSocket.cpp].  The
    system calls are not code of the repository.  A socket carries the results
    that the kernel will give to its next calls, so a theorem about every
    socket value is a theorem about every behaviour of the kernel; what was
    handed to the kernel is recorded. *)

From S2P Require Import Prelude.

(** ** UDP *)

Module UDPSocket.
(** [m_fd] (of [SocketBase]), [m_serveraddr] as an abstract address; the
    datagrams (or errors) that [recvfrom] will return, in order; whether the
    next calls of [sendto] succeed (all, once the list is used up); the
    datagrams sent. *)
Record t : Set := mk {
  m_fd : Z;
  m_serveraddr : Z;
  incoming : list (option (Z * cells));
  sendto_ok : list bool;
  sent : list (Z * cells);
}.

Definition GetFD (s : t) : Z := m_fd s.

(** [recvfrom] stores the sender's address in [m_serveraddr], cuts the
    datagram to the size of the buffer and waits while there is none. *)
Definition ReceiveFrom (size : Z) : prog t cells := fun s =>
  match incoming s with
  | [] => (Blocked, s)
  | None :: rest =>
      (Throw (runtime_error "failed to recvfrom"),
       mk (m_fd s) (m_serveraddr s) rest (sendto_ok s) (sent s))
  | Some (addr, datagram) :: rest =>
      (Ok (take (Z.to_nat size) datagram),
       mk (m_fd s) addr rest (sendto_ok s) (sent s))
  end.

Definition SendTo (message : cells) : prog t unit := fun s =>
  if default true (head (sendto_ok s)) then
    (Ok tt, mk (m_fd s) (m_serveraddr s) (incoming s) (tail (sendto_ok s))
               (sent s ++ [(m_serveraddr s, message)]))
  else
    (Throw (runtime_error "failed to sendto"),
     mk (m_fd s) (m_serveraddr s) (incoming s) (tail (sendto_ok s)) (sent s)).

(** A datagram arrives. *)
Definition deliver (addr : Z) (datagram : cells) (s : t) : t :=
  mk (m_fd s) (m_serveraddr s) (incoming s ++ [Some (addr, datagram)]) (sendto_ok s) (sent s).

(** A datagram from [addr] was taken. *)
Definition received (addr : Z) (rest : list (option (Z * cells))) (s : t) : t :=
  mk (m_fd s) addr rest (sendto_ok s) (sent s).

(** [SendTo] either hands over the whole message, to the address of the last
    datagram received, or throws and sends nothing. *)
Lemma SendTo_cases message s :
  (exists s', SendTo message s = (Ok tt, s') /\ sent s' = sent s ++ [(m_serveraddr s, message)]
     /\ m_fd s' = m_fd s /\ incoming s' = incoming s /\ m_serveraddr s' = m_serveraddr s
     /\ sendto_ok s' = tail (sendto_ok s)) \/
  (exists s', SendTo message s = (Throw (runtime_error "failed to sendto"), s')
     /\ sent s' = sent s /\ m_fd s' = m_fd s /\ incoming s' = incoming s
     /\ m_serveraddr s' = m_serveraddr s).
Proof.
  unfold SendTo. destruct (default true (head (sendto_ok s))); [left|right];
    eexists; (split; [reflexivity|done]).
Qed.

(** A socket whose [sendto] calls succeed. *)
Definition reliable (s : t) : Prop := Forall (fun b => b = true) (sendto_ok s).

Lemma SendTo_reliable message s :
  reliable s ->
  SendTo message s = (Ok tt, mk (m_fd s) (m_serveraddr s) (incoming s) (tail (sendto_ok s))
                                (sent s ++ [(m_serveraddr s, message)])).
Proof.
  unfold reliable, SendTo. destruct (sendto_ok s) as [|b l]; [done|].
  intros [-> _]%Forall_cons. done.
Qed.

Lemma reliable_tail s fd addr inc snt :
  reliable s -> reliable (mk fd addr inc (tail (sendto_ok s)) snt).
Proof.
  unfold reliable. simpl. destruct (sendto_ok s) as [|b l]; [done|]. by intros [_ H]%Forall_cons.
Qed.
End UDPSocket.

(** ** TCP *)

Module TCPClient.
(** A result of [recv]: data, the end of the stream, an error. *)
Inductive received : Set :=
  | Data (bytes : cells)
  | Interrupted  (* -1 with EINTR *)
  | Failed.      (* -1 with another error *)

(** The results of the next [recv] calls (an empty [Data] is the end of the
    stream, an empty list is a stream on which nothing arrives any more); the
    results of the next [send] calls (once used up, the kernel takes
    everything); the bytes sent. *)
Record t : Set := mk {
  m_fd : Z;
  incoming : list received;
  send_results : list Z;
  sent : cells;
}.

Definition GetFD (s : t) : Z := m_fd s.

(** [Send]: the kernel takes [n] bytes of the [size] offered, [n <= size]. *)
Fixpoint Send_loop (results : list Z) (buffer : cells) (size : Z) (out : cells)
    : res unit * list Z * cells :=
  if 0 <? size then
    match results with
    | [] => (Ok tt, [], out ++ read_cells (Z.to_nat size) buffer)
    | numbytes :: results =>
        if numbytes <=? 0 then (Throw (runtime_error "failed to send"), results, out)
        else
          let numbytes := Z.min numbytes size in
          Send_loop results (drop (Z.to_nat numbytes) buffer) (u64 (size - numbytes))
            (out ++ read_cells (Z.to_nat numbytes) buffer)
    end
  else (Ok tt, results, out).

Definition Send (buffer : cells) (size : Z) : prog t unit := fun s =>
  let '(r, results, out) := Send_loop (send_results s) buffer size (sent s) in
  (r, mk (m_fd s) (incoming s) results out).

(** [Receive] fills the caller's buffer; it returns what is left in [size]. *)
Fixpoint Receive_loop (inc : list received) (size : Z) (buffer : cells)
    : res (Z * cells) * list received :=
  if 0 <? size then
    match inc with
    | [] => (Blocked, [])
    | Data [] :: inc' => (Throw (runtime_error "disconnected while receiving"), inc)
    | Failed :: inc => (Throw (runtime_error "failed to receive"), inc)
    | Interrupted :: inc => Receive_loop inc size buffer
    | Data bytes :: inc =>
        if size <? Z.of_nat (length bytes) then
          (Ok (0, buffer ++ take (Z.to_nat size) bytes),
           Data (drop (Z.to_nat size) bytes) :: inc)
        else Receive_loop inc (u64 (size - Z.of_nat (length bytes))) (buffer ++ bytes)
    end
  else (Ok (size, buffer), inc).

Definition Receive (size : Z) : prog t (Z * cells) := fun s =>
  let '(r, inc) := Receive_loop (incoming s) size [] in
  (r, mk (m_fd s) inc (send_results s) (sent s)).

(** *** What the loops do *)

Lemma read_cells_split n m buffer :
  read_cells n buffer ++ read_cells m (drop n buffer) = read_cells (n + m) buffer.
Proof.
  unfold read_cells. rewrite length_drop.
  destruct (decide (n <= length buffer)%nat).
  - replace (n - length buffer)%nat with 0%nat by lia. simpl. rewrite app_nil_r, app_assoc.
    rewrite take_take_drop. do 2 f_equal. lia.
  - rewrite drop_ge, (take_ge buffer n), (take_ge buffer (n + m)), take_nil by lia. simpl.
    rewrite <-app_assoc, <-replicate_add. do 2 f_equal. lia.
Qed.

Lemma Send_loop_spec results buffer size out :
  in_u64 size ->
  let '(r, results', out') := Send_loop results buffer size out in
  match r with
  | Ok _ => out' = out ++ read_cells (Z.to_nat size) buffer
  | Throw e => e = runtime_error "failed to send"
      /\ exists n, (n < Z.to_nat size)%nat /\ out' = out ++ read_cells n buffer
  | _ => False
  end.
Proof.
  revert buffer size out. induction results as [|n results IH]; intros buffer size out Hs;
    cbn [Send_loop]; destruct (Z.ltb_spec 0 size); try done.
  1, 3: replace size with 0 by lia; by rewrite app_nil_r.
  destruct (Z.leb_spec n 0).
  { split; [done|]. exists 0%nat. split; [lia|]. by rewrite app_nil_r. }
  specialize (IH (drop (Z.to_nat (Z.min n size)) buffer) (u64 (size - Z.min n size))
    (out ++ read_cells (Z.to_nat (Z.min n size)) buffer) (u64_range _)).
  rewrite u64_small in IH |- * by lia.
  destruct (Send_loop _ _ _ _) as [[r results'] out'], r as [?|e| |]; try done.
  - rewrite IH, <-app_assoc, read_cells_split. do 2 f_equal. lia.
  - destruct IH as (-> & k & Hk & ->). split; [done|].
    exists (Z.to_nat (Z.min n size) + k)%nat. split; [lia|].
    by rewrite <-app_assoc, read_cells_split.
Qed.

(** The bytes that will arrive before the stream ends or fails. *)
Fixpoint available (inc : list received) : cells :=
  match inc with
  | [] | Data [] :: _ | Failed :: _ => []
  | Interrupted :: inc => available inc
  | Data bytes :: inc => bytes ++ available inc
  end.

Lemma Receive_loop_spec inc size buffer :
  in_u64 size ->
  if decide (size <= Z.of_nat (length (available inc))) then
    exists inc',
      Receive_loop inc size buffer
      = (Ok (0, buffer ++ take (Z.to_nat size) (available inc)), inc')
      /\ available inc' = drop (Z.to_nat size) (available inc)
  else forall v inc', Receive_loop inc size buffer <> (Ok v, inc').
Proof.
  revert size buffer. induction inc as [|x inc IH]; intros size buffer Hs.
  - simpl. case_decide.
    + replace size with 0 by lia. simpl. exists []. by rewrite app_nil_r.
    + rewrite (proj2 (Z.ltb_lt 0 size)) by lia. done.
  - destruct (decide (size = 0)) as [->|Hs0].
    { rewrite decide_True by lia. simpl. eexists. by rewrite app_nil_r. }
    cbn [Receive_loop]. rewrite (proj2 (Z.ltb_lt 0 size)) by lia.
    destruct x as [[|b bytes]| |].
    + simpl. rewrite decide_False by (simpl; lia). done.
    + change (available (Data (b :: bytes) :: inc)) with ((b :: bytes) ++ available inc).
      set (l := b :: bytes). rewrite length_app.
      destruct (Z.ltb_spec size (Z.of_nat (length l))).
      * rewrite decide_True by lia. eexists. split.
        { rewrite take_app_le by lia. reflexivity. }
        rewrite drop_app_le by lia.
        assert (Hne : drop (Z.to_nat size) l <> [])
          by (intros E%(f_equal length); rewrite length_drop in E;
              change (@length cell []) with 0%nat in E; lia).
        by destruct (drop (Z.to_nat size) l).
      * specialize (IH (u64 (size - Z.of_nat (length l))) (buffer ++ l) (u64_range _)).
        rewrite u64_small in IH |- * by lia.
        repeat case_decide; try lia; [|done].
        destruct IH as (inc' & -> & Hinc). exists inc'.
        rewrite Hinc, take_app_ge, drop_app_ge by lia. rewrite <-app_assoc.
        replace (Z.to_nat (size - Z.of_nat (length l))) with (Z.to_nat size - length l)%nat
          by lia. done.
    + apply IH. done.
    + simpl. rewrite decide_False by (simpl; lia). done.
Qed.
(** A kernel on which [send] does not fail. *)
Definition sends_succeed (s : t) : Prop := Forall (fun n => 0 < n) (send_results s).

Lemma Send_loop_ok results buffer size out :
  in_u64 size -> Forall (fun n => 0 < n) results ->
  exists results', Send_loop results buffer size out
    = (Ok tt, results', out ++ read_cells (Z.to_nat size) buffer)
    /\ Forall (fun n => 0 < n) results'.
Proof.
  intros Hs Hf. pose proof (Send_loop_spec results buffer size out Hs) as Hspec.
  assert (Hok : exists results' out', Send_loop results buffer size out = (Ok tt, results', out')
    /\ Forall (fun n => 0 < n) results').
  { clear Hspec. revert buffer size out Hs. induction Hf as [|n results Hn Hf IH];
      intros buffer size out Hs; cbn [Send_loop]; destruct (0 <? size); try by eauto.
    rewrite (proj2 (Z.leb_gt _ _)) by lia. apply IH, u64_range. }
  destruct Hok as (results' & out' & E & Hf'). rewrite E in Hspec. subst out'. eauto.
Qed.

Lemma Send_ok buffer size s :
  in_u64 size -> sends_succeed s ->
  exists s', Send buffer size s = (Ok tt, s') /\ sends_succeed s'
    /\ sent s' = sent s ++ read_cells (Z.to_nat size) buffer
    /\ incoming s' = incoming s /\ m_fd s' = m_fd s.
Proof.
  intros Hs Hf. destruct (Send_loop_ok _ buffer size (sent s) Hs Hf) as (results' & E & Hf').
  unfold Send. rewrite E. by eexists.
Qed.

Lemma Send_frame buffer size s :
  in_u64 size ->
  let '(r, s') := Send buffer size s in
  incoming s' = incoming s /\ m_fd s' = m_fd s
  /\ (r = Ok tt \/ r = Throw (runtime_error "failed to send"))
  /\ exists n, sent s' = sent s ++ read_cells n buffer.
Proof.
  intros Hs. pose proof (Send_loop_spec (send_results s) buffer size (sent s) Hs) as H.
  unfold Send. destruct (Send_loop _ _ _ _) as [[[[]|e| |] results'] out']; try done; simpl.
  - repeat split; eauto.
  - destruct H as (-> & n & _ & ->). repeat split; eauto.
Qed.

Lemma Receive_ok size bytes rest s :
  in_u64 size -> available (incoming s) = bytes ++ rest -> Z.of_nat (length bytes) = size ->
  exists s', Receive size s = (Ok (0, bytes), s') /\ available (incoming s') = rest
    /\ sent s' = sent s /\ send_results s' = send_results s /\ m_fd s' = m_fd s.
Proof.
  intros Hs Ha Hl. pose proof (Receive_loop_spec (incoming s) size [] Hs) as H.
  rewrite decide_True in H by (rewrite Ha, length_app; lia).
  destruct H as (inc' & E & Hinc). exists (mk (m_fd s) inc' (send_results s) (sent s)).
  unfold Receive. rewrite E. rewrite Ha in Hinc |- *.
  replace (Z.to_nat size) with (length bytes) in * by lia.
  rewrite take_app_length. rewrite drop_app_length in Hinc. done.
Qed.
End TCPClient.

(** [TCPClient::Receive] gives exactly the first [size] bytes of the stream,
    however the kernel cuts it into pieces and interrupts the calls, and leaves
    the rest of the stream; it returns normally only if the stream has that many
    bytes before its end or an error.  The value it returns is always 0. *)
Theorem Receive_exact (s : TCPClient.t) (size : Z) (Hsize : in_u64 size) :
  (size <= Z.of_nat (length (TCPClient.available (TCPClient.incoming s))) ->
   exists s', TCPClient.Receive size s
       = (Ok (0, take (Z.to_nat size) (TCPClient.available (TCPClient.incoming s))), s')
     /\ TCPClient.available (TCPClient.incoming s')
        = drop (Z.to_nat size) (TCPClient.available (TCPClient.incoming s))
     /\ TCPClient.sent s' = TCPClient.sent s) /\
  (forall n bytes s', TCPClient.Receive size s = (Ok (n, bytes), s') ->
   n = 0 /\ Z.of_nat (length bytes) = size
   /\ TCPClient.available (TCPClient.incoming s)
      = bytes ++ TCPClient.available (TCPClient.incoming s')).
Proof.
  pose proof (TCPClient.Receive_loop_spec (TCPClient.incoming s) size [] Hsize) as H.
  unfold TCPClient.Receive.
  destruct (decide (size <= Z.of_nat (length (TCPClient.available (TCPClient.incoming s))))) as [Hle|Hgt].
  - destruct H as (inc' & -> & Hinc). split.
    + intros _. eexists. split; [reflexivity|done].
    + intros n bytes s' [= <- <- <-]. cbn [TCPClient.incoming app].
      rewrite Hinc, take_drop, length_take. split; [done|]. split; [lia|done].
  - split; [lia|]. intros n bytes s'.
    destruct (TCPClient.Receive_loop _ _ _) as [r inc'] eqn:E. intros [= -> _].
    by destruct (H (n, bytes) inc').
Qed.

Lemma Receive_exact_witness :
  let s := TCPClient.mk 3 [TCPClient.Data [Some Byte.x61]; TCPClient.Interrupted;
                           TCPClient.Data [Some Byte.x62; Some Byte.x63]] [] [] in
  (2 <= Z.of_nat (length (TCPClient.available (TCPClient.incoming s))) ->
   exists s', TCPClient.Receive 2 s
       = (Ok (0, take (Z.to_nat 2) (TCPClient.available (TCPClient.incoming s))), s')
     /\ TCPClient.available (TCPClient.incoming s')
        = drop (Z.to_nat 2) (TCPClient.available (TCPClient.incoming s))
     /\ TCPClient.sent s' = TCPClient.sent s) /\
  (forall n bytes s', TCPClient.Receive 2 s = (Ok (n, bytes), s') ->
   n = 0 /\ Z.of_nat (length bytes) = 2
   /\ TCPClient.available (TCPClient.incoming s)
      = bytes ++ TCPClient.available (TCPClient.incoming s')).
Proof. intros s. apply (Receive_exact s 2). lia. Defined.

(** [TCPClient::Send] either hands the whole buffer to the kernel, in order,
    whatever the kernel takes at a time, or throws after a proper prefix. *)
Theorem Send_all_or_throw (s : TCPClient.t) (buffer : cells) (size : Z) (Hsize : in_u64 size) :
  (exists s', TCPClient.Send buffer size s = (Ok tt, s')
     /\ TCPClient.sent s' = TCPClient.sent s ++ read_cells (Z.to_nat size) buffer
     /\ TCPClient.incoming s' = TCPClient.incoming s) \/
  (exists s' n, TCPClient.Send buffer size s = (Throw (runtime_error "failed to send"), s')
     /\ (n < Z.to_nat size)%nat
     /\ TCPClient.sent s' = TCPClient.sent s ++ read_cells n buffer
     /\ TCPClient.incoming s' = TCPClient.incoming s).
Proof.
  pose proof (TCPClient.Send_loop_spec (TCPClient.send_results s) buffer size
    (TCPClient.sent s) Hsize) as H.
  unfold TCPClient.Send.
  destruct (TCPClient.Send_loop _ _ _ _) as [[[[]|e| |] results] out]; try done.
  - left. eexists. split; [reflexivity|done].
  - right. destruct H as (-> & n & Hn & ->). exists (TCPClient.mk (TCPClient.m_fd s)
      (TCPClient.incoming s) results (TCPClient.sent s ++ read_cells n buffer)), n. done.
Qed.

Lemma Send_all_or_throw_witness :
  let s := TCPClient.mk 3 [] [1; 0] [] in
  let buffer := [Some Byte.x61; Some Byte.x62; Some Byte.x63] in
  (exists s', TCPClient.Send buffer 3 s = (Ok tt, s')
     /\ TCPClient.sent s' = TCPClient.sent s ++ read_cells (Z.to_nat 3) buffer
     /\ TCPClient.incoming s' = TCPClient.incoming s) \/
  (exists s' n, TCPClient.Send buffer 3 s = (Throw (runtime_error "failed to send"), s')
     /\ (n < Z.to_nat 3)%nat
     /\ TCPClient.sent s' = TCPClient.sent s ++ read_cells n buffer
     /\ TCPClient.incoming s' = TCPClient.incoming s).
Proof. intros s buffer. apply (Send_all_or_throw s buffer 3). lia. Defined.
