(* ===== verification/Logger.v ===== *)
(** * Logger

    [framework/src/logger.cpp]: what the rest of the program sees of the
    logger.  [Log] queues a text and a severity; it returns nothing, does not
    fail, and no code reads the log. *)

From S2P Require Import Prelude.

Inductive Severity : Set := DEBUG | WARNING | ERROR.

#[export] Instance Severity_eq_dec : EqDecision Severity.
Proof. solve_decision. Defined.

(** A state with a logger in it. *)
Class HasLog (W : Type) := log_entry : string -> Severity -> W -> W.

Definition Log {W} `{HasLog W} (message : string) (sev : Severity) : prog W unit :=
  modify (log_entry message sev).

(** The plain logger: the texts queued so far. *)
#[export] Instance log_list : HasLog (list (string * Severity)) :=
  fun message sev l => l ++ [(message, sev)].

Lemma Log_ok {W} `{HasLog W} message sev (w : W) :
  Log message sev w = (Ok tt, log_entry message sev w).
Proof. done. Qed.

(** A state with more entries in its log. *)
Definition add_logs {W} `{HasLog W} (l : list (string * Severity)) (w : W) : W :=
  foldl (fun w '(message, sev) => log_entry message sev w) w l.

Lemma add_logs_app {W} `{HasLog W} l1 l2 (w : W) :
  add_logs (l1 ++ l2) w = add_logs l2 (add_logs l1 w).
Proof. apply foldl_app. Qed.
