(* ===== verification/Ticket.v ===== *)
(** * Ticket

    [concrete/src/Ticket.cpp]: one I/O request of the kernel, waiting for the
    answers of the primary and the backup minion of each of its segments. *)

From S2P Require Import Prelude Bytes StripeSplitter Message Dispatcher.

Record TaskResult : Set := mk_TaskResult {
  tr_uid : Z;
  tr_result : bool;
  tr_length : Z;
  tr_buffer : option cells;
}.

Inductive TicketOp : Set := READ | WRITE.
Inductive MirrorRole : Set := PRIMARY | BACKUP.

#[export] Instance TicketOp_eq_dec : EqDecision TicketOp.
Proof. solve_decision. Defined.
#[export] Instance MirrorRole_eq_dec : EqDecision MirrorRole.
Proof. solve_decision. Defined.

Record SegmentState : Set := mk_SegmentState {
  st_length : Z;
  st_bufferOffset : Z;
  primaryDone : bool;
  backupDone : bool;
  primaryMsg : option AMessage;
  backupMsg : option AMessage;
}.

(** [m_dispatcher] is the list of registered callbacks. *)
Record Ticket (CB : Type) : Type := mk_Ticket {
  m_uid : Z;
  m_op : TicketOp;
  m_totalLength : Z;
  m_segments : list SegmentState;
  m_completed : bool;
  m_dispatcher : list CB;
}.
Arguments mk_Ticket {CB}.
Arguments m_uid {CB} t.
Arguments m_op {CB} t.
Arguments m_totalLength {CB} t.
Arguments m_segments {CB} t.
Arguments m_completed {CB} t.
Arguments m_dispatcher {CB} t.

(** [msg && msg->GetResult()]. *)
Definition msg_ok (msg : option AMessage) : bool :=
  match msg with Some m => GetResult m | None => false end.

(** The data of a message, through two possibly null pointers. *)
Definition msg_data (msg : option AMessage) : option cells := msg ≫= GetData.

Definition new_segment (seg : StripeSegment) : SegmentState :=
  mk_SegmentState (seg_length seg) (bufferOffset seg) false false None None.

Section Ticket.
Context {CB : Type}.
Implicit Types t : Ticket CB.

Definition make_Ticket (uid : Z) (op : TicketOp) (totalLength : Z)
    (segments : list StripeSegment) : Ticket CB :=
  mk_Ticket uid op totalLength (new_segment <$> segments) false [].

Definition RegisterToResultDispatcher (callback : CB) t : Ticket CB :=
  mk_Ticket (m_uid t) (m_op t) (m_totalLength t) (m_segments t) (m_completed t)
    (Register callback (m_dispatcher t)).

Definition IsSegmentResolved (op : TicketOp) (seg : SegmentState) : bool :=
  match op with
  | WRITE => primaryDone seg && backupDone seg
  | READ => if primaryDone seg && msg_ok (primaryMsg seg) then true else backupDone seg
  end.

Definition SelectSegmentMessage (seg : SegmentState) : option AMessage :=
  if primaryDone seg && msg_ok (primaryMsg seg) then primaryMsg seg
  else if backupDone seg then backupMsg seg
  else primaryMsg seg.

Definition IsSegmentSuccessful (op : TicketOp) (seg : SegmentState) : bool :=
  match op with
  | WRITE => msg_ok (primaryMsg seg) && msg_ok (backupMsg seg)
  | READ => msg_ok (SelectSegmentMessage seg)
  end.

(** The loop that fills the result buffer. *)
Fixpoint assemble (segments : list SegmentState) (buffer : cells) : res cells :=
  match segments with
  | [] => mret buffer
  | seg :: segments =>
    buffer ← match msg_data (SelectSegmentMessage seg) with
      | Some data =>
          write_cells (Z.to_nat (st_bufferOffset seg))
            (read_cells (Z.to_nat (st_length seg)) data) buffer
      | None => mret buffer
      end;
    assemble segments buffer
  end.

(** [TryComplete]; the second component is the result that the last
    statement notifies, if it is reached. *)
Definition TryComplete t : res (Ticket CB * option TaskResult) :=
  if forallb (IsSegmentResolved (m_op t)) (m_segments t) then
    let success := forallb (IsSegmentSuccessful (m_op t)) (m_segments t) in
    buffer ← (if success && bool_decide (m_op t = READ) then
                Some <$> assemble (m_segments t) (replicate (Z.to_nat (m_totalLength t)) None)
              else mret None);
    mret (mk_Ticket (m_uid t) (m_op t) (m_totalLength t) (m_segments t) true (m_dispatcher t),
          Some (mk_TaskResult (m_uid t) success (m_totalLength t) buffer))
  else mret (t, None).

Definition set_answer (role : MirrorRole) (message : option AMessage) (seg : SegmentState)
    : SegmentState :=
  match role with
  | PRIMARY => mk_SegmentState (st_length seg) (st_bufferOffset seg) true (backupDone seg)
                 message (backupMsg seg)
  | BACKUP => mk_SegmentState (st_length seg) (st_bufferOffset seg) (primaryDone seg) true
                 (primaryMsg seg) message
  end.

Definition OnMirrorResponse (segmentIdx : nat) (role : MirrorRole)
    (message : option AMessage) t : res (Ticket CB * option TaskResult) :=
  if m_completed t || (length (m_segments t) <=? segmentIdx)%nat then mret (t, None)
  else
    TryComplete (mk_Ticket (m_uid t) (m_op t) (m_totalLength t)
      (alter (set_answer role message) segmentIdx (m_segments t))
      (m_completed t) (m_dispatcher t)).

(** A sequence of answers, with the results notified on the way. *)
Definition answer : Type := nat * MirrorRole * option AMessage.

Fixpoint run_answers (h : list answer) t : res (Ticket CB * list TaskResult) :=
  match h with
  | [] => mret (t, [])
  | (idx, role, message) :: h =>
    '(t, out) ← OnMirrorResponse idx role message t;
    '(t, outs) ← run_answers h t;
    mret (t, option_list out ++ outs)
  end.
End Ticket.

(** ** Specification

    What a ticket promises does not mention its per-segment flags: it remembers
    the answers it was given, and the last one of each minion counts. *)

Section spec.
(** The last answer of a role for a segment. *)
Definition latest (h : list answer) (i : nat) (role : MirrorRole) : option (option AMessage) :=
  foldl (fun acc '(j, r, m) =>
    if decide (j = i) then if decide (r = role) then Some m else acc else acc) None h.

Definition answered (h : list answer) (i : nat) (role : MirrorRole) : bool :=
  bool_decide (is_Some (latest h i role)).

Definition reply (h : list answer) (i : nat) (role : MirrorRole) : option AMessage :=
  mjoin (latest h i role).

(** A write waits for both minions; a read for a good answer of the primary
    or any answer of the backup. *)
Definition resolved (op : TicketOp) (h : list answer) (i : nat) : bool :=
  match op with
  | WRITE => answered h i PRIMARY && answered h i BACKUP
  | READ => msg_ok (reply h i PRIMARY) || answered h i BACKUP
  end.

(** A write needs both minions, a read one of them. *)
Definition successful (op : TicketOp) (h : list answer) (i : nat) : bool :=
  match op with
  | WRITE => msg_ok (reply h i PRIMARY) && msg_ok (reply h i BACKUP)
  | READ => msg_ok (reply h i PRIMARY) || msg_ok (reply h i BACKUP)
  end.

(** The data of a read: the primary's, else the backup's, cut to the length
    of the segment. *)
Definition piece (h : list answer) (i : nat) (seg : StripeSegment) : cells :=
  read_cells (Z.to_nat (seg_length seg))
    (default [] (msg_data (if msg_ok (reply h i PRIMARY) then reply h i PRIMARY
                           else reply h i BACKUP))).

Context (uid : Z) (op : TicketOp) (total : Z) (segments : list StripeSegment).

Definition verdict (h : list answer) : TaskResult :=
  let success := forallb (successful op h) (seq 0 (length segments)) in
  mk_TaskResult uid success total
    (if success && bool_decide (op = READ)
     then Some (concat (imap (piece h) segments)) else None).

(** The history of the answers that counted, and whether the verdict is out. *)
Definition spec_step (s : list answer * bool) (a : answer)
    : (list answer * bool) * option TaskResult :=
  let '(h, completed) := s in
  if completed || (length segments <=? a.1.1)%nat then (s, None)
  else
    let h := h ++ [a] in
    if forallb (resolved op h) (seq 0 (length segments)) then ((h, true), Some (verdict h))
    else ((h, false), None).

Fixpoint spec_run (s : list answer * bool) (h : list answer) : list TaskResult :=
  match h with
  | [] => []
  | a :: h => let '(s, out) := spec_step s a in option_list out ++ spec_run s h
  end.
End spec.

(** ** Refinement *)

Section refinement.
Context {CB : Type}.

(** The state of a segment after the answers [h]. *)
Definition state_of (h : list answer) (i : nat) (seg : StripeSegment) : SegmentState :=
  mk_SegmentState (seg_length seg) (bufferOffset seg)
    (answered h i PRIMARY) (answered h i BACKUP) (reply h i PRIMARY) (reply h i BACKUP).

Lemma latest_snoc h j r m i role :
  latest (h ++ [(j, r, m)]) i role
  = if decide (j = i) then if decide (r = role) then Some m else latest h i role
    else latest h i role.
Proof. unfold latest. by rewrite foldl_app. Qed.

Lemma state_of_snoc h j r m i seg :
  state_of (h ++ [(j, r, m)]) i seg
  = if decide (j = i) then set_answer r m (state_of h i seg) else state_of h i seg.
Proof.
  unfold state_of, answered, reply. rewrite !latest_snoc.
  destruct (decide (j = i)); [by destruct r|done].
Qed.

Lemma alter_state_of h j r m segments :
  alter (set_answer r m) j (imap (state_of h) segments)
  = imap (state_of (h ++ [(j, r, m)])) segments.
Proof.
  apply list_eq. intros i. rewrite list_lookup_alter, !list_lookup_imap.
  case_decide as Hji; [subst j|]; (destruct (segments !! i) as [seg|]; [|done]); simpl;
    rewrite state_of_snoc; by case_decide.
Qed.

Lemma forallb_imap {A B} (f : nat -> A -> B) (p : B -> bool) (q : nat -> bool) (l : list A) k :
  (forall i x, p (f i x) = q (k + i)%nat) ->
  forallb p (imap f l) = forallb q (seq k (length l)).
Proof.
  revert f k. induction l as [|x l IH]; intros f k H; [done|].
  simpl. rewrite H, Nat.add_0_r. f_equal. apply IH. intros i y. simpl.
  rewrite H. f_equal. lia.
Qed.

Lemma resolved_state_of op h i seg : IsSegmentResolved op (state_of h i seg) = resolved op h i.
Proof.
  destruct op; [|done]. unfold IsSegmentResolved, resolved, state_of. simpl.
  unfold answered, reply. destruct (latest h i PRIMARY) as [m|]; [|done].
  rewrite bool_decide_eq_true_2 by eauto. simpl. by destruct (msg_ok m).
Qed.

Lemma select_state_of h i seg :
  successful READ h i = true ->
  SelectSegmentMessage (state_of h i seg)
  = if msg_ok (reply h i PRIMARY) then reply h i PRIMARY else reply h i BACKUP.
Proof.
  unfold SelectSegmentMessage, successful, state_of, reply, answered. simpl.
  destruct (latest h i PRIMARY) as [m|], (latest h i BACKUP) as [m'|]; simpl;
    try rewrite !bool_decide_eq_true_2 by eauto; try rewrite !bool_decide_eq_false_2 by naive_solver;
    simpl; try done; by destruct (msg_ok m).
Qed.

Lemma successful_state_of op h i seg :
  IsSegmentSuccessful op (state_of h i seg) = successful op h i.
Proof.
  destruct op; [|done]. unfold IsSegmentSuccessful, SelectSegmentMessage, successful, state_of,
    reply, answered. simpl.
  destruct (latest h i PRIMARY) as [m|], (latest h i BACKUP) as [m'|]; simpl;
    try rewrite !bool_decide_eq_true_2 by eauto; try rewrite !bool_decide_eq_false_2 by naive_solver;
    simpl; try done; destruct (msg_ok m) eqn:E; simpl; rewrite ?E; done.
Qed.

(** The data that a resolved segment contributes. *)
Definition segment_data (st : SegmentState) : cells :=
  read_cells (Z.to_nat (st_length st)) (default [] (msg_data (SelectSegmentMessage st))).

Lemma assemble_tiles segments f b total done :
  (forall i seg, st_length (f i seg) = seg_length seg
                 /\ st_bufferOffset (f i seg) = bufferOffset seg) ->
  tiles b segments total -> Z.of_nat (length done) = b ->
  assemble (imap f segments) (done ++ replicate (Z.to_nat (total - b)) None)
  = Ok (done ++ concat ((segment_data <$> imap f segments))).
Proof.
  revert f b done. induction segments as [|seg segments IH]; intros f b done Hf Ht Hb.
  { simpl in Ht. replace (Z.to_nat (total - b)) with 0%nat by lia. done. }
  destruct Ht as (Hoff & Hb0 & Hlen & Ht).
  assert (Hle : b + seg_length seg <= total).
  { clear -Ht. revert Ht. generalize (b + seg_length seg). induction segments as [|x l IHl];
      intros z; simpl; [lia|]. intros (_ & _ & ? & H%IHl). lia. }
  assert (Hstep : forall data, length data = Z.to_nat (seg_length seg) ->
    (done ++ data) ++ replicate (Z.to_nat (total - b) - length data) None
    = (done ++ data) ++ replicate (Z.to_nat (total - (b + seg_length seg))) None).
  { intros data ->. do 2 f_equal. lia. }
  cbn [imap assemble fmap list_fmap concat].
  set (data := segment_data (f 0%nat seg)).
  assert (Hd : length data = Z.to_nat (seg_length seg)).
  { unfold data, segment_data. by rewrite length_read_cells, (proj1 (Hf 0%nat seg)). }
  assert (Hw : (match msg_data (SelectSegmentMessage (f 0%nat seg)) with
      | Some data => write_cells (Z.to_nat (st_bufferOffset (f 0%nat seg)))
          (read_cells (Z.to_nat (st_length (f 0%nat seg))) data)
          (done ++ replicate (Z.to_nat (total - b)) None)
      | None => mret (done ++ replicate (Z.to_nat (total - b)) None) end)
    = Ok ((done ++ data) ++ replicate (Z.to_nat (total - (b + seg_length seg))) None)).
  { rewrite <-Hstep by done. unfold data, segment_data in *.
    destruct (msg_data (SelectSegmentMessage (f 0%nat seg))) as [d|]; simpl in *.
    - rewrite (proj2 (Hf 0%nat seg)), Hoff.
      replace (Z.to_nat b) with (length done) by lia.
      apply write_cells_append. lia.
    - rewrite Hd, <-app_assoc. do 2 f_equal. unfold read_cells. rewrite take_nil. simpl.
      rewrite <-replicate_add. f_equal. rewrite (proj1 (Hf 0%nat seg)). lia. }
  rewrite Hw. cbn [mbind res_bind].
  rewrite (IH (f ∘ S) (b + seg_length seg) (done ++ data)); [by rewrite <-app_assoc| |done|].
  - intros i x. apply Hf.
  - rewrite length_app. lia.
Qed.

Lemma concat_pieces h segments :
  forallb (successful READ h) (seq 0 (length segments)) = true ->
  concat (segment_data <$> imap (state_of h) segments) = concat (imap (piece h) segments).
Proof.
  intros Hs. f_equal. rewrite fmap_imap. apply imap_ext. intros i seg Hi. simpl.
  unfold segment_data, piece. rewrite select_state_of; [done|].
  rewrite forallb_forall in Hs. apply Hs, in_seq.
  apply lookup_lt_Some in Hi. lia.
Qed.

Context (uid : Z) (op : TicketOp) (total : Z) (segments : list StripeSegment).
Hypothesis Htiles : tiles 0 segments total.

(** The ticket in the abstract state [s]. *)
Definition ticket_of (cbs : list CB) (s : list answer * bool) : Ticket CB :=
  mk_Ticket uid op total (imap (state_of s.1) segments) s.2 cbs.

Lemma ticket_of_new cbs :
  ticket_of cbs ([], false)
  = mk_Ticket uid op total (new_segment <$> segments) false cbs.
Proof.
  unfold ticket_of. f_equal. simpl. rewrite <-(imap_const new_segment).
  by apply imap_ext.
Qed.

Lemma TryComplete_verdict cbs h :
  TryComplete (ticket_of cbs (h, false))
  = Ok (if forallb (resolved op h) (seq 0 (length segments))
        then (ticket_of cbs (h, true), Some (verdict uid op total segments h))
        else (ticket_of cbs (h, false), None)).
Proof.
  unfold TryComplete, ticket_of. simpl.
  rewrite (forallb_imap _ _ (resolved op h) _ 0) by (intros; apply resolved_state_of).
  destruct (forallb (resolved _ _) _); [|done].
  rewrite (forallb_imap _ _ (successful op h) _ 0) by (intros; apply successful_state_of).
  unfold verdict. destruct (forallb (successful op h) _) eqn:E; [|done].
  destruct (decide (op = READ)) as [Eop|Hop].
  - rewrite bool_decide_eq_true_2 by done. simpl.
    pose proof (assemble_tiles segments (state_of h) 0 total [] ltac:(done) Htiles eq_refl) as Ha.
    rewrite Z.sub_0_r in Ha. simpl in Ha. rewrite Ha. simpl.
    rewrite concat_pieces; [done|]. by rewrite <-Eop.
  - by rewrite bool_decide_eq_false_2 by done.
Qed.

Lemma OnMirrorResponse_spec cbs s i role msg :
  OnMirrorResponse i role msg (ticket_of cbs s)
  = Ok (let '(s', out) := spec_step uid op total segments s (i, role, msg) in
        (ticket_of cbs s', out)).
Proof.
  destruct s as [h completed]. unfold OnMirrorResponse, spec_step. simpl.
  rewrite length_imap. destruct (completed || (length segments <=? i)%nat) eqn:E; [done|].
  apply orb_false_iff in E as [-> _]. rewrite alter_state_of.
  change (mk_Ticket uid op total (imap (state_of (h ++ [(i, role, msg)])) segments) false cbs)
    with (ticket_of cbs (h ++ [(i, role, msg)], false)).
  rewrite TryComplete_verdict. by destruct (forallb _ _).
Qed.

Lemma run_answers_spec cbs h s :
  exists s', run_answers h (ticket_of cbs s)
             = Ok (ticket_of cbs s', spec_run uid op total segments s h).
Proof.
  revert s. induction h as [|[[i role] msg] h IH]; intros s; [by exists s|].
  cbn [run_answers spec_run]. rewrite OnMirrorResponse_spec. cbn [mbind res_bind].
  destruct (spec_step _ _ _ _ s _) as [s1 out].
  destruct (IH s1) as [s' ->]. by exists s'.
Qed.
End refinement.

(** ** When the verdict comes out *)

Section verdicts.
Context (uid : Z) (op : TicketOp) (total : Z) (segments : list StripeSegment).

(** The answers that name a segment of the ticket. *)
Definition relevant (h : list answer) : list answer :=
  filter (fun a => (a.1.1 < length segments)%nat) h.

Definition all_resolved (h : list answer) : Prop :=
  forallb (resolved op h) (seq 0 (length segments)) = true.

(** The only result is the verdict on the first answers that resolve every
    segment. *)
Lemma spec_run_cases h l :
  (spec_run uid op total segments (h, false) l = []
   /\ forall l1, l1 <> [] -> l1 `prefix_of` relevant l -> ~ all_resolved (h ++ l1)) \/
  (exists l1, l1 <> [] /\ l1 `prefix_of` relevant l /\ all_resolved (h ++ l1)
   /\ spec_run uid op total segments (h, false) l = [verdict uid op total segments (h ++ l1)]).
Proof.
  assert (Hdone : forall h l, spec_run uid op total segments (h, true) l = [])
    by (intros h' l'; induction l' as [|a l' IH]; [done|exact IH]).
  revert h. induction l as [|a l IH]; intros h.
  { left. split; [done|]. intros l1 Hne [k Hk]. by destruct l1. }
  cbn [spec_run]. unfold spec_step. cbn [orb].
  unfold relevant. rewrite filter_cons. fold (relevant l).
  destruct (Nat.leb_spec (length segments) a.1.1) as [Hge|Hlt].
  { rewrite decide_False by lia. apply IH. }
  rewrite decide_True by done.
  destruct (forallb (resolved op (h ++ [a])) (seq 0 (length segments))) eqn:E.
  - right. exists [a]. rewrite Hdone. split; [done|]. split; [|by split].
    by exists (relevant l).
  - destruct (IH (h ++ [a])) as [[-> Hno]|(l1 & Hne & Hp & Hr & ->)].
    + left. split; [done|]. intros l1 Hne Hp. destruct l1 as [|b l1]; [done|].
      apply prefix_cons_inv_1 in Hp as Hb. subst b. apply prefix_cons_inv_2 in Hp.
      unfold all_resolved. destruct l1 as [|b l1]; [by rewrite E|].
      specialize (Hno (b :: l1) ltac:(done) Hp). by rewrite <-app_assoc in Hno.
    + right. exists (a :: l1). rewrite <-app_assoc in Hr |- *.
      split; [done|]. split; [by apply prefix_cons|]. by split.
Qed.
End verdicts.

(** The latest answer is one of the answers. *)
Lemma latest_elem h i role m : latest h i role = Some m -> (i, role, m) ∈ h.
Proof.
  induction h as [|[[j r] m'] h IH] using rev_ind; [done|].
  rewrite latest_snoc, elem_of_app, list_elem_of_singleton.
  repeat case_decide; subst; naive_solver.
Qed.

Lemma answered_elem h i role m : (i, role, m) ∈ h -> answered h i role = true.
Proof.
  unfold answered. intros H. apply bool_decide_eq_true_2.
  induction h as [|[[j r] m'] h IH] using rev_ind; [by apply not_elem_of_nil in H|].
  rewrite latest_snoc. apply elem_of_app in H as [H|[= -> -> ->]%list_elem_of_singleton].
  - repeat case_decide; eauto.
  - rewrite !decide_True by done. eauto.
Qed.

(** The answers of minions that do not change their mind: every answer of a
    minion about a segment is [f]'s, perhaps more than once. *)
Definition consistent (f : nat -> MirrorRole -> option AMessage) (h : list answer) : Prop :=
  Forall (fun a => a.2 = f a.1.1 a.1.2) h.

(** Every minion answers. *)
Definition complete (n : nat) (f : nat -> MirrorRole -> option AMessage) (h : list answer) : Prop :=
  forall i role, (i < n)%nat -> (i, role, f i role) ∈ h.

Lemma consistent_reply f h i role :
  consistent f h -> reply h i role = if answered h i role then f i role else None.
Proof.
  intros Hf. unfold reply, answered. destruct (latest h i role) as [m|] eqn:E; [|done].
  rewrite bool_decide_eq_true_2 by eauto. apply latest_elem in E.
  unfold consistent in Hf. rewrite Forall_forall in Hf. exact (Hf _ E).
Qed.

Lemma consistent_prefix f n l1 h (segments : list StripeSegment) :
  consistent f h -> l1 `prefix_of` relevant segments h -> n = length segments -> consistent f l1.
Proof.
  intros Hf [k Hk] _. unfold consistent in *. rewrite Forall_forall in *. intros a Ha.
  apply Hf. assert (Hr : a ∈ relevant segments h) by (rewrite Hk; set_solver).
  by apply list_elem_of_filter in Hr as [_ ?].
Qed.

Lemma complete_resolved op f h (segments : list StripeSegment) :
  complete (length segments) f h -> all_resolved op segments (relevant segments h).
Proof.
  intros Hc. unfold all_resolved. rewrite forallb_forall. intros i [_ Hi]%in_seq.
  assert (Ha : forall role, answered (relevant segments h) i role = true).
  { intros role. apply (answered_elem _ _ _ (f i role)). unfold relevant.
    rewrite list_elem_of_filter. split; [done|]. by apply Hc. }
  unfold resolved. destruct op; rewrite !Ha; [apply orb_true_r|done].
Qed.

(** All the minions have answered: the result is out, once. *)
Lemma complete_verdict uid op total (segments : list StripeSegment) f h :
  segments <> [] -> complete (length segments) f h -> consistent f h ->
  exists l1, consistent f l1 /\ all_resolved op segments l1
    /\ spec_run uid op total segments ([], false) h = [verdict uid op total segments l1].
Proof.
  intros Hne Hc Hf.
  destruct (spec_run_cases uid op total segments [] h) as [[_ Hno]|(l1 & _ & Hp & Hr & ->)].
  - exfalso. apply (Hno (relevant segments h)); [|done|by apply (complete_resolved op f)].
    intros E. destruct segments as [|seg segments]; [done|].
    assert (Hin : (0%nat, PRIMARY, f 0%nat PRIMARY) ∈ relevant (seg :: segments) h).
    { unfold relevant. rewrite list_elem_of_filter. split; [simpl; lia|]. apply Hc. simpl. lia. }
    rewrite E in Hin. by apply not_elem_of_nil in Hin.
  - exists l1. split; [by eapply consistent_prefix|done].
Qed.

(** The part of a request's data that belongs to a segment. *)
Definition slice (data : cells) (seg : StripeSegment) : cells :=
  take (Z.to_nat (seg_length seg)) (drop (Z.to_nat (bufferOffset seg)) data).

Lemma concat_slices b segments total data :
  tiles b segments total -> Z.of_nat (length data) = total ->
  concat (slice data <$> segments) = drop (Z.to_nat b) data.
Proof.
  revert b. induction segments as [|seg segments IH]; intros b Ht Hd; simpl in Ht.
  { simpl. rewrite drop_ge by lia. done. }
  destruct Ht as (Hoff & Hb & Hl & Ht). cbn [fmap list_fmap concat].
  rewrite (IH (b + seg_length seg)) by done. unfold slice. rewrite Hoff.
  rewrite <-(take_drop (Z.to_nat (seg_length seg)) (drop (Z.to_nat b) data)) at 2.
  rewrite drop_drop. do 2 f_equal. lia.
Qed.

(** The minions that answer a read have the data. *)
Definition minions_hold (data : cells) (segments : list StripeSegment)
    (f : nat -> MirrorRole -> option AMessage) : Prop :=
  forall i seg role, segments !! i = Some seg -> msg_ok (f i role) = true ->
    read_cells (Z.to_nat (seg_length seg)) (default [] (msg_data (f i role))) = slice data seg.

Lemma verdict_data data segments f h :
  minions_hold data segments f -> consistent f h ->
  forallb (successful READ h) (seq 0 (length segments)) = true ->
  concat (imap (piece h) segments) = concat (slice data <$> segments).
Proof.
  intros Hm Hf Hs. f_equal. rewrite <-(imap_const (slice data)). apply imap_ext.
  intros i seg Hi. simpl. rewrite forallb_forall in Hs.
  specialize (Hs i ltac:(apply in_seq; apply lookup_lt_Some in Hi; lia)).
  unfold successful in Hs. unfold piece.
  assert (Hrep : forall role, msg_ok (reply h i role) = true ->
    read_cells (Z.to_nat (seg_length seg)) (default [] (msg_data (reply h i role)))
    = slice data seg).
  { intros role. rewrite (consistent_reply f) by done.
    destruct (answered h i role); [|done]. by apply Hm. }
  destruct (msg_ok (reply h i PRIMARY)) eqn:E; by apply Hrep.
Qed.

(** ** Properties *)

(** C12: a ticket for the segments of a split request refines its
    specification: whatever answers arrive, in whatever order, repeated, or for
    segments that do not exist, it notifies exactly the results that the
    specification gives, with the data of a read put together at the right
    places of a buffer that is written completely and never past its end. *)
Theorem Ticket_refines {CB : Type} (uid : Z) (op : TicketOp)
    (offset length chunkSize numMinions : Z) segs (callback : CB) (h : list answer)
    (Hchunk : 0 < chunkSize < 2 ^ 64) (Hminions : 0 < numMinions < 2 ^ 64)
    (Hoffset : 0 <= offset) (Hlength : 0 <= length < 2 ^ 64)
    (Hrange : offset + length <= 2 ^ 64)
    (Hsplit : Split offset length chunkSize numMinions = Ok segs) :
  exists t', run_answers h
      (RegisterToResultDispatcher callback (make_Ticket uid op length segs))
    = Ok (t', spec_run uid op length segs ([], false) h).
Proof.
  pose proof (Split_tiles offset length chunkSize numMinions segs) as Ht.
  destruct (run_answers_spec uid op length segs (Ht Hchunk Hminions Hoffset Hlength Hrange Hsplit)
    [callback] h ([], false)) as [s' E].
  exists (ticket_of uid op length segs [callback] s'). by rewrite ticket_of_new in E.
Qed.

Definition wr_ok (uid : Z) : AMessage := WriteReceive (MessageWriteReceive.make uid true).
Definition wr_bad (uid : Z) : AMessage := WriteReceive (MessageWriteReceive.make uid false).

Lemma Ticket_refines_witness :
  let segs := [mk_StripeSegment 6 2 0 0 1; mk_StripeSegment 0 7 2 1 2] in
  exists t', run_answers [(1%nat, BACKUP, Some (wr_ok 5))]
      (RegisterToResultDispatcher tt (make_Ticket 5 WRITE 9 segs))
    = Ok (t', spec_run 5 WRITE 9 segs ([], false) [(1%nat, BACKUP, Some (wr_ok 5))]).
Proof. apply (Ticket_refines 5 WRITE 6 9 8 3); try lia. reflexivity. Defined.

(** What an answer never changes, and what a result says. *)
Definition result_of {CB} (t : Ticket CB) (r : TaskResult) : Prop :=
  tr_uid r = m_uid t /\ tr_length r = m_totalLength t
  /\ match tr_buffer r with
     | Some _ => tr_result r = true /\ m_op t = READ
     | None => tr_result r = true -> m_op t = WRITE
     end.

Lemma TryComplete_result {CB} (t : Ticket CB) t' out :
  TryComplete t = Ok (t', out) ->
  m_uid t' = m_uid t /\ m_op t' = m_op t /\ m_totalLength t' = m_totalLength t
  /\ m_dispatcher t' = m_dispatcher t /\ m_segments t' = m_segments t
  /\ (out = None -> m_completed t' = m_completed t)
  /\ forall r, out = Some r -> result_of t r.
Proof.
  unfold TryComplete. destruct (forallb (IsSegmentResolved _) _); [|by intros [= <- <-]].
  destruct (forallb _ _) eqn:Es, (decide (m_op t = READ)) as [Eop|Hop];
    rewrite ?(bool_decide_eq_true_2 (m_op t = READ)), ?(bool_decide_eq_false_2 (m_op t = READ)) by done;
    simpl.
  1: destruct (assemble _ _) as [buffer|?| |]; simpl; [|done..].
  all: intros [= <- <-]; do 6 (split; [done|]);
    intros r [= <-]; unfold result_of; simpl; repeat split; try done;
    by destruct (m_op t).
Qed.

Lemma OnMirrorResponse_result {CB} idx role msg (t : Ticket CB) t' out :
  OnMirrorResponse idx role msg t = Ok (t', out) ->
  m_uid t' = m_uid t /\ m_op t' = m_op t /\ m_totalLength t' = m_totalLength t
  /\ m_dispatcher t' = m_dispatcher t
  /\ (m_segments t' = m_segments t
      \/ m_segments t' = alter (set_answer role msg) idx (m_segments t))
  /\ (out = None -> m_completed t' = m_completed t)
  /\ forall r, out = Some r -> result_of t r.
Proof.
  unfold OnMirrorResponse. destruct (_ || _); [intros [= <- <-]; do 4 (split; [done|]); split; [by left|done]|].
  intros (? & ? & ? & ? & Hs & Hc & Hr)%TryComplete_result.
  do 4 (split; [done|]). split; [right; by rewrite Hs|]. done.
Qed.

(** A write stays open while a backup has not answered. *)
Lemma OnMirrorResponse_open {CB} idx role msg (t : Ticket CB) t' out i seg :
  OnMirrorResponse idx role msg t = Ok (t', out) ->
  m_op t = WRITE -> m_completed t = false -> m_segments t !! i = Some seg ->
  backupDone seg = false -> (idx, role) <> (i, BACKUP) ->
  out = None /\ m_completed t' = false
  /\ exists seg', m_segments t' !! i = Some seg' /\ backupDone seg' = false.
Proof.
  intros E Hop Hc Hi Hb Hne.
  assert (Hseg : exists seg', alter (set_answer role msg) idx (m_segments t) !! i = Some seg'
    /\ backupDone seg' = false).
  { rewrite list_lookup_alter. case_decide; [subst idx|by exists seg].
    rewrite Hi. destruct role; [|congruence]. by eexists. }
  revert E. unfold OnMirrorResponse. rewrite Hc. cbn [orb].
  destruct (_ <=? idx)%nat; [intros [= <- <-]; split_and!; [done..|by exists seg]|].
  unfold TryComplete. cbn [m_op m_segments].
  assert (Hr : forallb (IsSegmentResolved (m_op t)) (alter (set_answer role msg) idx (m_segments t)) = false).
  { destruct Hseg as (seg' & Hi' & Hb'). apply not_true_is_false. rewrite forallb_forall.
    intros Hall. specialize (Hall seg'). rewrite Hop in Hall. simpl in Hall.
    rewrite Hb', andb_false_r in Hall. discriminate Hall.
    apply list_elem_of_In. by eapply list_elem_of_lookup_2. }
  rewrite Hr. intros [= <- <-]. by split_and!.
Qed.

Lemma OnMirrorResponse_out {CB} idx role msg (t : Ticket CB) t' out :
  OnMirrorResponse idx role msg t = Ok (t', out) ->
  (m_completed t = true -> out = None /\ m_completed t' = true)
  /\ (is_Some out -> m_completed t' = true).
Proof.
  unfold OnMirrorResponse. destruct (m_completed t) eqn:Ec; simpl.
  { intros [= <- <-]. split; [done|]. by intros [? ?]. }
  destruct (_ <=? _)%nat; [intros [= <- <-]; split; [done|by intros [? ?]]|].
  unfold TryComplete. destruct (forallb _ _); [|intros [= <- <-]; split; [done|by intros [? ?]]].
  intros H. split; [done|]. intros _.
  destruct (forallb _ _ && _); simpl in H.
  - destruct (assemble _ _); [|done..]. simpl in H. by injection H as <- _.
  - by injection H as <- _.
Qed.

(** A ticket notifies its result at most once, whatever it was created
    from and whatever arrives: after the first notification it stays completed
    and silent. *)
Theorem Ticket_notifies_at_most_once {CB : Type} (h : list answer) (t t' : Ticket CB) outs
    (Hrun : run_answers h t = Ok (t', outs)) :
  (length outs <= 1)%nat /\ (outs <> [] -> m_completed t' = true)
  /\ (m_completed t = true -> outs = [] /\ m_completed t' = true).
Proof.
  revert t outs Hrun. induction h as [|[[idx role] msg] h IH]; intros t outs.
  { intros [= <- <-]. split; [simpl; lia|done]. }
  cbn [run_answers]. destruct (OnMirrorResponse idx role msg t) as [[t1 out]|?| |] eqn:E; try done.
  cbn [mbind res_bind]. destruct (run_answers h t1) as [[t2 outs']|?| |] eqn:E'; try done.
  intros [= -> <-]. apply IH in E' as (Hlen & Hne & Hc).
  apply OnMirrorResponse_out in E as [Hdone Hout].
  destruct out as [r|]; simpl.
  - destruct (Hc (Hout ltac:(eauto))) as [-> Hc']. split; [simpl; lia|]. split; [done|].
    intros Ht. by destruct (Hdone Ht).
  - split; [done|]. split; [done|]. intros Ht. by apply Hc, Hdone.
Qed.

Lemma Ticket_notifies_at_most_once_witness :
  let t := make_Ticket (CB := unit) 5 WRITE 1 [mk_StripeSegment 0 1 0 0 1] in
  let outs := [mk_TaskResult 5 true 1 None] in
  let t' := mk_Ticket (CB := unit) 5 WRITE 1
    [mk_SegmentState 1 0 true true (Some (wr_ok 5)) (Some (wr_ok 5))] true [] in
  (length outs <= 1)%nat /\ (outs <> [] -> m_completed t' = true)
  /\ (m_completed t = true -> outs = [] /\ m_completed t' = true).
Proof.
  intros t outs t'. apply (Ticket_notifies_at_most_once
    [(0%nat, BACKUP, Some (wr_ok 5)); (0%nat, PRIMARY, Some (wr_ok 5));
     (0%nat, PRIMARY, Some (wr_bad 5))]).
  reflexivity.
Defined.

(** A write is answered exactly once when the primary and the backup of
    every segment have answered, in any order and even repeatedly, and it is
    reported as successful exactly when every one of them succeeded. *)
Theorem write_needs_both (uid offset length chunkSize numMinions : Z) segs
    (f : nat -> MirrorRole -> option AMessage) (h : list answer)
    (Hchunk : 0 < chunkSize < 2 ^ 64) (Hminions : 0 < numMinions < 2 ^ 64)
    (Hoffset : 0 <= offset) (Hlength : 0 < length < 2 ^ 64)
    (Hrange : offset + length <= 2 ^ 64)
    (Hsplit : Split offset length chunkSize numMinions = Ok segs)
    (Hcomplete : complete (List.length segs) f h) (Hconsistent : consistent f h) :
  exists t', run_answers h (make_Ticket (CB := unit) uid WRITE length segs)
    = Ok (t', [mk_TaskResult uid
        (forallb (fun i => msg_ok (f i PRIMARY) && msg_ok (f i BACKUP))
           (seq 0 (List.length segs))) length None]).
Proof.
  assert (Ht : tiles 0 segs length) by (eapply Split_tiles; [.. | exact Hsplit]; lia).
  destruct (run_answers_spec uid WRITE length segs Ht (@nil unit) h ([], false)) as [s' E].
  rewrite ticket_of_new in E. exists (ticket_of uid WRITE length segs [] s').
  etrans; [exact E|]. do 2 f_equal.
  assert (Hne : segs <> []) by (intros ->; simpl in Ht; lia).
  destruct (complete_verdict uid WRITE length segs f h Hne Hcomplete Hconsistent)
    as (l1 & Hc1 & Hr1 & ->).
  unfold verdict. rewrite andb_false_r. do 2 f_equal.
  unfold all_resolved in Hr1. rewrite forallb_forall in Hr1.
  apply forallb_ext_in. intros i Hi. apply Hr1 in Hi. unfold resolved, successful in *.
  rewrite !(consistent_reply f) by done. apply andb_true_iff in Hi as [-> ->]. done.
Qed.

Lemma write_needs_both_witness :
  let f (i : nat) role := match role with PRIMARY => Some (wr_ok 5) | BACKUP => Some (wr_bad 5) end in
  exists t', run_answers [(0%nat, BACKUP, Some (wr_bad 5)); (0%nat, PRIMARY, Some (wr_ok 5))]
      (make_Ticket (CB := unit) 5 WRITE 3 [mk_StripeSegment 2 3 0 0 1])
    = Ok (t', [mk_TaskResult 5
        (forallb (fun i => msg_ok (f i PRIMARY) && msg_ok (f i BACKUP)) (seq 0 1)) 3 None]).
Proof.
  intros f. apply (write_needs_both 5 2 3 8 3 [mk_StripeSegment 2 3 0 0 1] f); try lia.
  - reflexivity.
  - intros i role Hi. assert (i = 0%nat) as -> by (simpl in Hi; lia).
    destruct role; [apply list_elem_of_further|]; apply list_elem_of_here.
  - repeat constructor.
Defined.

(** Failover: if the backups of all segments answer with the data, a read
    succeeds with exactly the requested data, whatever the primaries answer
    (failures, nothing readable, or the data) and in whatever order the answers
    arrive. *)
Theorem read_failover (uid offset length chunkSize numMinions : Z) segs
    (f : nat -> MirrorRole -> option AMessage) (h : list answer) (data : cells)
    (Hchunk : 0 < chunkSize < 2 ^ 64) (Hminions : 0 < numMinions < 2 ^ 64)
    (Hoffset : 0 <= offset) (Hlength : 0 < length < 2 ^ 64)
    (Hrange : offset + length <= 2 ^ 64)
    (Hsplit : Split offset length chunkSize numMinions = Ok segs)
    (Hcomplete : complete (List.length segs) f h) (Hconsistent : consistent f h)
    (Hdata : Z.of_nat (List.length data) = length) (Hhold : minions_hold data segs f)
    (Hbackup : forall i, (i < List.length segs)%nat -> msg_ok (f i BACKUP) = true) :
  exists t', run_answers h (make_Ticket (CB := unit) uid READ length segs)
    = Ok (t', [mk_TaskResult uid true length (Some data)]).
Proof.
  assert (Ht : tiles 0 segs length) by (eapply Split_tiles; [.. | exact Hsplit]; lia).
  destruct (run_answers_spec uid READ length segs Ht (@nil unit) h ([], false)) as [s' E].
  rewrite ticket_of_new in E. exists (ticket_of uid READ length segs [] s').
  etrans; [exact E|]. do 2 f_equal.
  assert (Hne : segs <> []) by (intros ->; simpl in Ht; lia).
  destruct (complete_verdict uid READ length segs f h Hne Hcomplete Hconsistent)
    as (l1 & Hc1 & Hr1 & ->).
  assert (Hs : forallb (successful READ l1) (seq 0 (List.length segs)) = true).
  { unfold all_resolved in Hr1. rewrite forallb_forall in Hr1 |- *. intros i Hi.
    pose proof (Hr1 i Hi) as Hri. unfold resolved, successful in *.
    apply orb_true_iff in Hri as [->|Ha]; [done|].
    rewrite (consistent_reply f l1 i BACKUP), Ha, Hbackup by (done || apply in_seq in Hi; lia).
    apply orb_true_r. }
  unfold verdict. rewrite Hs. simpl. do 3 f_equal.
  rewrite (verdict_data data segs f) by done. by rewrite (concat_slices 0 segs length).
Qed.

Lemma read_failover_witness :
  let data := [Some Byte.x61; Some Byte.x62; Some Byte.x63] in
  let good := ReadReceive (MessageReadReceive.make 5 true 3 (Some data)) in
  exists t', run_answers [(0%nat, PRIMARY, None); (0%nat, BACKUP, Some good)]
      (make_Ticket (CB := unit) 5 READ 3 [mk_StripeSegment 2 3 0 0 1])
    = Ok (t', [mk_TaskResult 5 true 3 (Some data)]).
Proof.
  intros data good.
  apply (read_failover 5 2 3 8 3 [mk_StripeSegment 2 3 0 0 1]
    (fun _ role => match role with PRIMARY => None | BACKUP => Some good end)); try lia; try done.
  - intros i role Hi. assert (i = 0%nat) as -> by (simpl in Hi; lia).
    destruct role; [|apply list_elem_of_further]; apply list_elem_of_here.
  - repeat constructor.
  - intros i seg role Hi Hok. destruct role; [done|].
    apply list_lookup_singleton_Some in Hi as [-> <-]. reflexivity.
Defined.

(** For a read the order of the answers matters when the backup fails: if
    the primary's good answer comes first the read succeeds, if the backup's
    failure comes first the read fails, although the primary's data arrives. *)
Theorem read_order_matters (uid offset length : Z) (seg : StripeSegment) (good bad : AMessage)
    (Hgood : GetResult good = true) (Hbad : GetResult bad = false)
    (Hseg : bufferOffset seg = 0 /\ seg_length seg = length) :
  let t := make_Ticket (CB := unit) uid READ length [seg] in
  (exists t' buffer,
     run_answers [(0%nat, PRIMARY, Some good); (0%nat, BACKUP, Some bad)] t
     = Ok (t', [mk_TaskResult uid true length (Some buffer)])) /\
  (exists t',
     run_answers [(0%nat, BACKUP, Some bad); (0%nat, PRIMARY, Some good)] t
     = Ok (t', [mk_TaskResult uid false length None])).
Proof.
  destruct Hseg as [Hoff Hlen]. intros t. split.
  - assert (Hw : exists buffer, assemble
        [set_answer PRIMARY (Some good) (new_segment seg)] (replicate (Z.to_nat length) None)
        = Ok buffer).
    { simpl. unfold SelectSegmentMessage. simpl. rewrite Hgood. simpl.
      destruct (GetData good) as [d|]; [|by eexists]. rewrite Hoff, Hlen, write_cells_ok; [by eexists|].
      rewrite length_read_cells, length_replicate. lia. }
    destruct Hw as [buffer Hw]. exists
      (mk_Ticket uid READ length [set_answer PRIMARY (Some good) (new_segment seg)] true []), buffer.
    unfold t, run_answers, OnMirrorResponse, TryComplete. simpl in Hw |- *.
    rewrite Hgood. simpl. unfold SelectSegmentMessage in Hw |- *. simpl in Hw |- *.
    rewrite Hgood in Hw |- *. simpl in Hw |- *. rewrite Hgood. simpl. rewrite Hw. done.
  - eexists. unfold t, run_answers, OnMirrorResponse, TryComplete. simpl.
    unfold SelectSegmentMessage. simpl. rewrite Hbad. done.
Qed.

Lemma read_order_matters_witness :
  let good := ReadReceive (MessageReadReceive.make 5 true 1 (Some [Some Byte.x61])) in
  let bad := ReadReceive (MessageReadReceive.make 5 false 1 (Some [None])) in
  let t := make_Ticket (CB := unit) 5 READ 1 [mk_StripeSegment 0 1 0 0 1] in
  (exists t' buffer,
     run_answers [(0%nat, PRIMARY, Some good); (0%nat, BACKUP, Some bad)] t
     = Ok (t', [mk_TaskResult 5 true 1 (Some buffer)])) /\
  (exists t',
     run_answers [(0%nat, BACKUP, Some bad); (0%nat, PRIMARY, Some good)] t
     = Ok (t', [mk_TaskResult 5 false 1 None])).
Proof. intros good bad t. apply (read_order_matters 5 0 1); done. Defined.
