(* ===== verification/IMinionProxy.v ===== *)
(** * IMinionProxy

    [concrete/include/IMinionProxy.hpp]: what [MinionManager] asks of a proxy and
    what a proxy promises.  [MinionProxy.v] discharges the promises for
    [MinionProxy]; the theorems of [MinionManager.v] use nothing else. *)

From S2P Require Import Prelude Message Logger.

(** [P] are the proxies, [C] the continuations they keep, [W] the rest of the
    state.  The laws speak of what waits under which identity and of what was
    handed to the network, for which address ([peer] is the present one), or came
    from it. *)

Class IMinionProxy (P C W : Type) `{HasLog W} := {
  add_read : Z -> Z -> Z -> C -> prog (P * W) unit;
  add_write : Z -> Z -> Z -> option cells -> C -> prog (P * W) unit;
  minion_fd : P -> Z;
  waiting : P -> gmap Z C;
  peer : P -> Z;
  outbox : P -> list (Z * cells);
  inbox : P -> list (option (Z * cells));
  up : P -> Prop;
  add_read_spec uid offset length c p w :
    in_u64 uid -> in_u64 offset -> in_u64 length ->
    exists r p' logs, add_read uid offset length c (p, w) = (r, (p', add_logs logs w))
      /\ waiting p' = <[uid := c]> (waiting p) /\ minion_fd p' = minion_fd p /\ peer p' = peer p /\ inbox p' = inbox p
      /\ (up p -> r = Ok tt /\ up p')
      /\ ((r = Ok tt
           /\ outbox p' = outbox p
               ++ [(peer p, packet_of (ReadSend (MessageReadSend.mk uid offset length)))])
          \/ (exists e, r = Throw e /\ outbox p' = outbox p));
  add_write_spec uid offset length data c p w :
    in_u64 uid -> in_u64 offset -> 0 <= length < 2 ^ 31 -> is_Some data ->
    exists r p' logs, add_write uid offset length data c (p, w) = (r, (p', add_logs logs w))
      /\ waiting p' = <[uid := c]> (waiting p) /\ minion_fd p' = minion_fd p /\ peer p' = peer p /\ inbox p' = inbox p
      /\ (up p -> r = Ok tt /\ up p')
      /\ ((r = Ok tt
           /\ outbox p' = outbox p
               ++ [(peer p, packet_of (WriteSend (MessageWriteSend.mk uid offset length data)))])
          \/ (exists e, r = Throw e /\ outbox p' = outbox p));
  add_read_frame uid offset length c p w :
    let '(_, (p', w')) := add_read uid offset length c (p, w) in
    (exists logs, w' = add_logs logs w)
    /\ (waiting p' = waiting p \/ waiting p' = <[uid := c]> (waiting p));
  add_write_frame uid offset length data c p w :
    let '(_, (p', w')) := add_write uid offset length data c (p, w) in
    (exists logs, w' = add_logs logs w)
    /\ (waiting p' = waiting p \/ waiting p' = <[uid := c]> (waiting p));
}.
