(* ===== verification/MinionProxy.v ===== *)
(** * MinionProxy

    [concrete/src/MinionProxy.cpp]: the master's end of the link to one minion.
    It sends requests and keeps, by identity, the continuation that waits for
    the answer.  Two types are parameters: [C], the continuations
    ([std::function] objects; the clients choose first-order data), and [W],
    the rest of the program's state, which holds the logger. *)

From S2P Require Import Prelude Bytes Message Factory Sockets Logger IMinionProxy.

Record MinionProxy (C : Type) : Type := mk_MinionProxy {
  m_socket : UDPSocket.t;
  m_map : gmap Z C;
}.
Arguments mk_MinionProxy {C}.
Arguments m_socket {C} m.
Arguments m_map {C} m.

Section MinionProxy.
Context {C W : Type} `{HasLog W}.
Implicit Types p : MinionProxy C.

Definition on_socket {A} (m : prog UDPSocket.t A) : prog (MinionProxy C * W) A :=
  on_fst (zoom m_socket (fun s p => mk_MinionProxy s (m_map p)) m).

Definition on_map (f : gmap Z C -> gmap Z C) : prog (MinionProxy C * W) unit :=
  on_fst (modify (fun p => mk_MinionProxy (m_socket p) (f (m_map p)))).

(** The continuation is stored before the packet is sent, and stays when sending
    throws. *)
Definition AddReadTask (uid offset length : Z) (onDone : C) : prog (MinionProxy C * W) unit :=
  let sMsg := ReadSend (MessageReadSend.mk uid offset length) in
  buffer ← lift (make_packet sMsg);
  on_map <[uid := onDone]> ;;
  on_socket (UDPSocket.SendTo buffer) ;;
  on_snd (Log ("Master sent: " +:+ pretty (GetUID sMsg) +:+ " " +:+ pretty (GetOffset sMsg)
               +:+ " " +:+ pretty (GetLength sMsg)) DEBUG).

Definition AddWriteTask (uid offset length : Z) (data : option cells) (onDone : C)
    : prog (MinionProxy C * W) unit :=
  let sMsg := WriteSend (MessageWriteSend.mk uid offset length data) in
  buffer ← lift (make_packet sMsg);
  on_map <[uid := onDone]> ;;
  on_socket (UDPSocket.SendTo buffer).

Definition GetMinionFD p : Z := UDPSocket.GetFD (m_socket p).

(** [factory] is the process-wide [Factory<uint32_t, AMessage>]; [invoke] runs
    a continuation.  The map is locked while it runs, so that it works on the
    rest of the state. *)
Definition OnMinionFDWakeUp (factory : gmap Z MESSAGE_TYPE)
    (invoke : C -> AMessage -> prog W unit) : prog (MinionProxy C * W) unit :=
  packet ← on_socket (UDPSocket.ReceiveFrom (BUFSIZ - 1));
  let bytes := Z.of_nat (length packet) in
  let buffer := receive_buffer packet in
  if bytes <? 4 * 2 then on_snd (Log "MinionProxy: short UDP packet" WARNING)
  else
    '(msgSize, runner) ← lift (load 4 buffer);
    if u32 bytes <? msgSize then on_snd (Log "MinionProxy: UDP packet size mismatch" WARNING)
    else
      '(messageType, runner) ← lift (load 4 runner);
      type ← lift (Create messageType factory);
      '(receivedMessage, _) ← lift (FromBuffer type runner);
      let uid := GetUID receivedMessage in
      waiting ← gets (fun s => m_map s.1 !! uid);
      match waiting with
      | None => on_snd (Log "MinionProxy: unknown UID response" WARNING)
      | Some onDone =>
          on_snd (invoke onDone receivedMessage) ;;
          on_map (delete uid)
      end.
End MinionProxy.

(** The master's registrations, made by [MinionManager::Init]. *)
Definition master_factory : gmap Z MESSAGE_TYPE :=
  Register (type_value WRITE_RECEIVE) WRITE_RECEIVE
    (Register (type_value READ_RECEIVE) READ_RECEIVE ∅).

(** ** Sending *)

Section sending.
Context {C W : Type} `{HasLog W}.
Implicit Types p : MinionProxy C.

(** What [SendTo] leaves of the socket. *)
Definition after_send (r : res unit) (packet : cells) (s s' : UDPSocket.t) : Prop :=
  UDPSocket.m_fd s' = UDPSocket.m_fd s /\ UDPSocket.incoming s' = UDPSocket.incoming s
  /\ UDPSocket.m_serveraddr s' = UDPSocket.m_serveraddr s
  /\ match r with
     | Ok _ => UDPSocket.sent s' = UDPSocket.sent s ++ [(UDPSocket.m_serveraddr s, packet)]
     | Throw _ => UDPSocket.sent s' = UDPSocket.sent s
     | _ => False
     end.

Lemma SendTo_after packet s :
  exists r s', UDPSocket.SendTo packet s = (r, s') /\ after_send r packet s s'.
Proof.
  destruct (UDPSocket.SendTo_cases packet s)
    as [(s' & E & ? & ? & ? & ? & _)|(s' & E & ? & ? & ? & ?)]; eexists _, s'; (split; [exact E|done]).
Qed.

Lemma sent_cases (r : res unit) packet s s' :
  match r with
  | Ok _ => UDPSocket.sent s' = UDPSocket.sent s ++ [(UDPSocket.m_serveraddr s, packet)]
  | Throw _ => UDPSocket.sent s' = UDPSocket.sent s
  | _ => False
  end ->
  (r = Ok tt /\ UDPSocket.sent s' = UDPSocket.sent s ++ [(UDPSocket.m_serveraddr s, packet)])
  \/ (exists e, r = Throw e /\ UDPSocket.sent s' = UDPSocket.sent s).
Proof.
  destruct r as [[]|e| |]; intros E; try done.
  - by left.
  - right. by exists e.
Qed.

Lemma AddReadTask_cases uid offset length onDone p (w : W) :
  in_u64 uid -> in_u64 offset -> in_u64 length ->
  exists r s' logs,
    AddReadTask uid offset length onDone (p, w)
    = (r, (mk_MinionProxy s' (<[uid := onDone]> (m_map p)), add_logs logs w))
    /\ after_send r (packet_of (ReadSend (MessageReadSend.mk uid offset length))) (m_socket p) s'.
Proof.
  intros Hu Ho Hl. unfold AddReadTask.
  rewrite make_packet_ok by (done || unfold header; simpl; rewrite !length_app, !length_store; lia).
  destruct (SendTo_after (packet_of (ReadSend (MessageReadSend.mk uid offset length)))
    (m_socket p)) as (r & s' & E & Ha).
  unfold packet_of in E. unfold on_map, on_socket. run_prog. cbn [fst snd m_socket m_map]. rewrite E.
  destruct r as [[]|e| |]; try (by destruct Ha as (_ & _ & _ & [])).
  - eexists _, s', [(_, DEBUG)]. done.
  - by eexists _, s', [].
Qed.

Lemma AddWriteTask_cases uid offset length data onDone p (w : W) :
  in_u64 uid -> in_u64 offset -> 0 <= length < 2 ^ 31 -> is_Some data ->
  exists r s',
    AddWriteTask uid offset length data onDone (p, w)
    = (r, (mk_MinionProxy s' (<[uid := onDone]> (m_map p)), w))
    /\ after_send r (packet_of (WriteSend (MessageWriteSend.mk uid offset length data)))
         (m_socket p) s'.
Proof.
  intros Hu Ho Hl Hd. unfold AddWriteTask.
  rewrite make_packet_ok.
  2:{ simpl. repeat split; done || lia. }
  2:{ unfold header. simpl. rewrite !length_app, !length_store.
      pose proof (length_data_cells data (length + 1) ltac:(lia) (or_introl Hd)). lia. }
  destruct (SendTo_after (packet_of (WriteSend (MessageWriteSend.mk uid offset length data)))
    (m_socket p)) as (r & s' & E & Ha).
  unfold packet_of in E. unfold on_map, on_socket. run_prog. cbn [fst snd m_socket m_map]. rewrite E.
  destruct r as [[]|e| |]; try (by destruct Ha as (_ & _ & _ & [])); by eexists _, s'.
Qed.

Lemma reliable_send packet s :
  UDPSocket.reliable s ->
  exists s', UDPSocket.SendTo packet s = (Ok tt, s') /\ UDPSocket.reliable s'.
Proof.
  intros Hr. rewrite UDPSocket.SendTo_reliable by done. eexists. split; [done|].
  by apply UDPSocket.reliable_tail.
Qed.
End sending.

(** The proxy implements the interface. *)
#[local] Obligation Tactic := idtac.

#[export] Program Instance MinionProxy_port {C W : Type} `{HasLog W} :
    IMinionProxy (MinionProxy C) C W := {|
  add_read := AddReadTask;
  add_write := AddWriteTask;
  minion_fd := GetMinionFD;
  waiting := m_map;
  peer p := UDPSocket.m_serveraddr (m_socket p);
  outbox p := UDPSocket.sent (m_socket p);
  inbox p := UDPSocket.incoming (m_socket p);
  up p := UDPSocket.reliable (m_socket p);
|}.
Next Obligation.
  intros C W HL uid offset length c p w Hu Ho Hl.
  destruct (AddReadTask_cases uid offset length c p w Hu Ho Hl) as (r & s' & logs & E & Ha).
  exists r, (mk_MinionProxy s' (<[uid := c]> (m_map p))), logs.
  split; [done|]. split; [done|]. destruct Ha as (Hfd & Hin & Haddr & Hsent).
  split; [exact Hfd|]. split; [exact Haddr|]. split; [exact Hin|]. split; [|by eapply sent_cases].
  intros Hup. unfold AddReadTask in E.
  rewrite make_packet_ok in E
    by (done || unfold header; simpl; rewrite !length_app, !length_store; lia).
  edestruct (reliable_send) as (s2 & Es & Hs2); [exact Hup|].
  revert E. unfold on_map, on_socket, Log. run_prog. cbn [fst snd m_socket m_map].
  rewrite Es. intros [= <- -> _]. done.
Qed.
Next Obligation.
  intros C W HL uid offset length data c p w Hu Ho Hl Hd.
  destruct (AddWriteTask_cases uid offset length data c p w Hu Ho Hl Hd) as (r & s' & E & Ha).
  exists r, (mk_MinionProxy s' (<[uid := c]> (m_map p))), [].
  split; [done|]. split; [done|]. destruct Ha as (Hfd & Hin & Haddr & Hsent).
  split; [exact Hfd|]. split; [exact Haddr|]. split; [exact Hin|]. split; [|by eapply sent_cases].
  intros Hup. unfold AddWriteTask in E.
  edestruct (reliable_send (packet_of (WriteSend (MessageWriteSend.mk uid offset length data))))
    as (s2 & Es & Hs2); [exact Hup|].
  rewrite make_packet_ok in E.
  2:{ simpl. repeat split; done || lia. }
  2:{ unfold header. simpl. rewrite !length_app, !length_store.
      pose proof (length_data_cells data (length + 1) ltac:(lia) (or_introl Hd)). lia. }
  revert E. unfold on_map, on_socket. run_prog. cbn [fst snd m_socket m_map].
  unfold packet_of in Es. rewrite Es. intros [= <- ->]. done.
Qed.
Next Obligation.
  intros C W HL uid offset length c p w. unfold AddReadTask, on_map, on_socket, Log. run_prog.
  destruct (make_packet _) as [packet|e| |]; cbn [fst snd m_socket m_map]; try (by split; [exists []|left]).
  destruct (UDPSocket.SendTo packet _) as [[[]|e| |] s']; cbn [fst snd]; try (by split; [exists []|right]).
  split; [by eexists [(_, DEBUG)]|by right].
Qed.
Next Obligation.
  intros C W HL uid offset length data c p w. unfold AddWriteTask, on_map, on_socket. run_prog.
  destruct (make_packet _) as [packet|e| |]; cbn [fst snd m_socket m_map]; try (by split; [exists []|left]).
  destruct (UDPSocket.SendTo packet _) as [[[]|e| |] s']; cbn [fst snd]; by split; [exists []|right].
Qed.

(** ** Receiving *)

Section receiving.
Context {C W : Type} `{HasLog W} (invoke : C -> AMessage -> prog W unit).
Implicit Types p : MinionProxy C.

Local Ltac quiet := simpl; split; [done|]; split; [done|]; left; split; [done|]; by eauto.

(** Whatever arrives, the continuations that wait are the old ones, less the
    one that was run; the state of the rest of the program changes only by that
    run and by log entries. *)
Lemma OnMinionFDWakeUp_frame factory p (w : W) :
  let '(r, (p', w')) := OnMinionFDWakeUp factory invoke (p, w) in
  UDPSocket.sent (m_socket p') = UDPSocket.sent (m_socket p)
  /\ UDPSocket.m_fd (m_socket p') = UDPSocket.m_fd (m_socket p)
  /\ ((m_map p' = m_map p /\ exists logs, w' = add_logs logs w)
      \/ exists uid onDone m, GetUID m = uid /\ m_map p !! uid = Some onDone
         /\ w' = (invoke onDone m w).2 /\ r = (invoke onDone m w).1
         /\ m_map p' = match r with Ok _ => delete uid (m_map p) | _ => m_map p end).
Proof.
  assert (Hlog : forall m sev, exists logs, log_entry m sev w = add_logs logs w)
    by (intros m sev; by exists [(m, sev)]).
  assert (Hsame : exists logs, w = add_logs logs w) by by exists [].
  unfold OnMinionFDWakeUp, on_socket, on_map, UDPSocket.ReceiveFrom, Log. run_prog.
  cbn [fst snd m_socket m_map].
  destruct (UDPSocket.incoming (m_socket p)) as [|[[addr d]|] inc]; [quiet| |quiet].
  cbn [fst snd m_socket m_map].
  set (packet := take _ d).
  destruct (_ <? 4 * 2); [quiet|].
  destruct (load 4 (receive_buffer packet)) as [[size r1]|?| |]; try quiet.
  destruct (_ <? size); [quiet|].
  destruct (load 4 r1) as [[type r2]|?| |]; try quiet.
  destruct (Create type factory) as [t|?| |]; try quiet.
  destruct (FromBuffer t r2) as [[m r3]|?| |]; try quiet.
  cbn [fst snd m_socket m_map].
  destruct (m_map p !! GetUID m) as [onDone|] eqn:Em; [|quiet].
  cbn [fst snd]. destruct (invoke onDone m w) as [[[]|e| |] w'] eqn:Ei;
    (split; [done|]; split; [done|]; right; exists (GetUID m), onDone, m; by rewrite Ei).
Qed.

(** Of the socket only the datagram that is read changes, and the address. *)
Lemma OnMinionFDWakeUp_socket factory p (w : W) :
  m_socket (OnMinionFDWakeUp factory invoke (p, w)).2.1
  = (UDPSocket.ReceiveFrom (BUFSIZ - 1) (m_socket p)).2.
Proof.
  unfold OnMinionFDWakeUp, on_socket, on_map, Log. run_prog. cbn [fst snd m_socket m_map].
  destruct (UDPSocket.ReceiveFrom _ (m_socket p)) as [[packet|e| |] socket]; try done.
  cbn [fst snd m_socket m_map]. destruct (_ <? 4 * 2); [done|].
  destruct (load 4 (receive_buffer packet)) as [[size r1]|?| |]; try done.
  destruct (_ <? size); [done|].
  destruct (load 4 r1) as [[type r2]|?| |]; try done.
  destruct (Create type factory) as [t|?| |]; try done.
  destruct (FromBuffer t r2) as [[m r3]|?| |]; try done.
  cbn [fst snd m_socket m_map]. destruct (m_map p !! GetUID m) as [onDone|]; [|done].
  cbn [fst snd]. by destruct (invoke onDone m w) as [[[]|e| |] w'].
Qed.

(** A packet that a minion built: if a request with its identity waits, it is handed
    to its continuation. *)
Lemma OnMinionFDWakeUp_message factory p (w : W) addr rest m :
  message_wf m -> Z.of_nat (length (packet_of m)) <= BUFSIZ - 1 ->
  factory !! type_value (GetMessageType m) = Some (GetMessageType m) ->
  UDPSocket.incoming (m_socket p) = Some (addr, packet_of m) :: rest ->
  OnMinionFDWakeUp factory invoke (p, w)
  = let socket := UDPSocket.received addr rest (m_socket p) in
    match m_map p !! GetUID m with
    | Some onDone =>
        let '(r, w') := invoke onDone (message_seen m) w in
        (r, (mk_MinionProxy socket
               match r with Ok _ => delete (GetUID m) (m_map p) | _ => m_map p end, w'))
    | None =>
        (Ok tt, (mk_MinionProxy socket (m_map p), log_entry "MinionProxy: unknown UID response" WARNING w))
    end.
Proof.
  intros Hwf Hlen Hf Hin. unfold OnMinionFDWakeUp, on_socket, on_map, UDPSocket.ReceiveFrom, Log.
  run_prog. cbn [fst snd m_socket m_map]. rewrite Hin. cbn [fst snd m_socket m_map].
  rewrite (take_ge (packet_of m)) by lia.
  destruct (packet_parse m Hwf Hlen) as (r1 & r2 & r3 & E1 & E2 & E3 & Esz & E8).
  rewrite E8, E1, Esz, E2, (Create_ok _ _ _ Hf), E3. cbn [fst snd m_socket m_map].
  rewrite GetUID_seen. destruct (m_map p !! GetUID m) as [onDone|]; [|reflexivity]. cbn [fst snd].
  destruct (invoke onDone (message_seen m) w) as [[[]|e| |] w']; reflexivity.
Qed.

Lemma OnMinionFDWakeUp_packet factory p (w : W) addr rest m onDone :
  message_wf m -> Z.of_nat (length (packet_of m)) <= BUFSIZ - 1 ->
  factory !! type_value (GetMessageType m) = Some (GetMessageType m) ->
  UDPSocket.incoming (m_socket p) = Some (addr, packet_of m) :: rest ->
  m_map p !! GetUID m = Some onDone ->
  OnMinionFDWakeUp factory invoke (p, w)
  = let '(r, w') := invoke onDone (message_seen m) w in
    (r, (mk_MinionProxy (UDPSocket.received addr rest (m_socket p))
           match r with Ok _ => delete (GetUID m) (m_map p) | _ => m_map p end, w')).
Proof.
  intros Hwf Hlen Hf Hin Hm. by rewrite (OnMinionFDWakeUp_message _ _ _ _ _ _ Hwf Hlen Hf Hin), Hm.
Qed.
End receiving.

(** ** Properties *)

(** An answer reaches the request it belongs to, once: if a request waits
    under an identity and the packet of a response with that identity arrives
    twice, the continuation of the request is run with the response, as the
    minion sent it, when the first copy is read, and the second copy only
    leaves a warning. The other requests that wait are untouched. *)
Theorem answer_runs_once {C W : Type} `{HasLog W} (invoke : C -> AMessage -> prog W unit)
    (p : MinionProxy C) (w w' : W) (addr : Z) (m : AMessage) (onDone : C)
    (Hwf : message_wf m) (Hlen : Z.of_nat (length (packet_of m)) <= BUFSIZ - 1)
    (Htype : GetMessageType m = READ_RECEIVE \/ GetMessageType m = WRITE_RECEIVE)
    (Hin : UDPSocket.incoming (m_socket p) = [Some (addr, packet_of m); Some (addr, packet_of m)])
    (Hwaits : m_map p !! GetUID m = Some onDone)
    (Hinvoke : invoke onDone (message_seen m) w = (Ok tt, w')) :
  (OnMinionFDWakeUp master_factory invoke ;; OnMinionFDWakeUp master_factory invoke) (p, w)
  = (Ok tt, (mk_MinionProxy (UDPSocket.received addr [] (m_socket p)) (delete (GetUID m) (m_map p)),
             log_entry "MinionProxy: unknown UID response" WARNING w')).
Proof.
  assert (Hf : master_factory !! type_value (GetMessageType m) = Some (GetMessageType m))
    by (destruct Htype as [-> | ->]; reflexivity).
  pose proof (OnMinionFDWakeUp_packet invoke master_factory p w addr _ m onDone
    Hwf Hlen Hf Hin Hwaits) as E. rewrite Hinvoke in E. rewrite (bind_ok _ _ _ _ _ E).
  unfold OnMinionFDWakeUp, on_socket, UDPSocket.ReceiveFrom, Log. run_prog.
  cbn [fst snd m_socket m_map UDPSocket.received UDPSocket.incoming].
  rewrite (take_ge (packet_of m)) by lia.
  destruct (packet_parse m Hwf Hlen) as (r1 & r2 & r3 & E1 & E2 & E3 & Esz & E8).
  rewrite E8, E1, Esz, E2, (Create_ok _ _ _ Hf), E3. cbn [fst snd m_socket m_map].
  by rewrite GetUID_seen, lookup_delete_eq.
Qed.

Lemma answer_runs_once_witness :
  let m := WriteReceive (MessageWriteReceive.make 7 true) in
  let p := mk_MinionProxy (UDPSocket.mk 3 0 [Some (9, packet_of m); Some (9, packet_of m)] [] [])
             {[ 7 := tt ]} in
  (OnMinionFDWakeUp master_factory (fun _ _ => Log "done" DEBUG) ;;
   OnMinionFDWakeUp master_factory (fun _ _ => Log "done" DEBUG)) (p, [])
  = (Ok tt, (mk_MinionProxy (UDPSocket.received 9 [] (m_socket p)) (delete (GetUID m) (m_map p)),
             log_entry "MinionProxy: unknown UID response" WARNING [("done"%string, DEBUG)])).
Proof.
  intros m p. apply (answer_runs_once (fun _ _ => Log "done" DEBUG) p [] [("done"%string, DEBUG)]
    9 m tt); [simpl; lia | reflexivity || (vm_compute; discriminate) | by right | reflexivity..].
Defined.

(** The header check does not protect the fields behind the header: a
    datagram of 8 to 15 bytes with a registered type, whose size field does not
    exceed its length, makes the proxy read an identity from the uninitialised
    part of its buffer. *)
Theorem truncated_answer_undefined {C W : Type} `{HasLog W}
    (invoke : C -> AMessage -> prog W unit) (p : MinionProxy C) (w : W)
    (addr size : Z) (t : MESSAGE_TYPE) (body : cells) rest
    (Hbody : (length body < 8)%nat) (Hsize : 0 <= size <= 8 + Z.of_nat (length body))
    (Htype : t = READ_RECEIVE \/ t = WRITE_RECEIVE)
    (Hin : UDPSocket.incoming (m_socket p)
           = Some (addr, store 4 size ++ store 4 (type_value t) ++ body) :: rest) :
  (OnMinionFDWakeUp master_factory invoke (p, w)).1 = Undefined.
Proof.
  set (packet := store 4 size ++ store 4 (type_value t) ++ body) in *.
  assert (Hlen : length packet = (8 + length body)%nat)
    by (unfold packet; rewrite !length_app, !length_store; lia).
  assert (Hf : master_factory !! type_value t = Some t) by (destruct Htype as [-> | ->]; reflexivity).
  assert (Hget : forall k, FromBuffer t (body ++ replicate k None) = Undefined).
  { intros k. unfold FromBuffer, MessageReadReceive.FromBuffer, MessageWriteReceive.FromBuffer,
      Base.FromBuffer. destruct Htype as [-> | ->]; by rewrite load_indeterminate by lia. }
  unfold OnMinionFDWakeUp, on_socket, UDPSocket.ReceiveFrom. run_prog.
  cbn [fst snd m_socket m_map]. rewrite Hin. cbn [fst snd m_socket m_map].
  assert (Htake : take (Z.to_nat (BUFSIZ - 1)) packet = packet)
    by (apply take_ge; unfold BUFSIZ; lia).
  rewrite Htake, (proj2 (Z.ltb_ge _ _)) by lia.
  unfold receive_buffer. unfold packet at 1. rewrite <-!app_assoc.
  rewrite load_store by (simpl; lia). rewrite u32_small by lia.
  rewrite (proj2 (Z.ltb_ge _ _)) by lia.
  rewrite load_store by apply type_value_range. by rewrite (Create_ok _ _ _ Hf), Hget.
Qed.

Lemma truncated_answer_undefined_witness :
  let p := mk_MinionProxy (C := unit) (UDPSocket.mk 3 0 [Some (9, store 4 8 ++ store 4 3 ++ [])] [] []) ∅ in
  (OnMinionFDWakeUp master_factory (fun _ _ => Log "done" DEBUG) (p, [])).1 = Undefined.
Proof.
  intros p. apply (truncated_answer_undefined (fun _ _ => Log "done" DEBUG) p [] 9 8 WRITE_RECEIVE
    [] []); [simpl; lia | simpl; lia | by right | reflexivity].
Defined.

(** An answer that does not fit into the receive buffer is dropped, and the
    request keeps waiting: a read of more than 8166 bytes is answered by its
    minions in one datagram each and never completes. *)
Theorem oversized_answer_dropped {C W : Type} `{HasLog W}
    (invoke : C -> AMessage -> prog W unit) (factory : gmap Z MESSAGE_TYPE)
    (p : MinionProxy C) (w : W) (m : AMessage) (addr : Z) rest
    (Hwf : message_wf m) (Hlen : BUFSIZ - 1 < Z.of_nat (length (packet_of m)) < 2 ^ 32)
    (Hin : UDPSocket.incoming (m_socket p) = Some (addr, packet_of m) :: rest) :
  OnMinionFDWakeUp factory invoke (p, w)
  = (Ok tt, (mk_MinionProxy (UDPSocket.received addr rest (m_socket p)) (m_map p),
             log_entry "MinionProxy: UDP packet size mismatch" WARNING w)).
Proof.
  destruct (packet_oversized m Hwf Hlen) as (runner & E1 & E2 & E3).
  unfold OnMinionFDWakeUp, on_socket, UDPSocket.ReceiveFrom, Log. run_prog.
  cbn [fst snd m_socket m_map]. rewrite Hin. cbn [fst snd m_socket m_map]. by rewrite E3, E1, E2.
Qed.

Lemma oversized_answer_dropped_witness :
  let m := ReadReceive (MessageReadReceive.make 7 true 9000 (Some [])) in
  let p := mk_MinionProxy (C := unit) (UDPSocket.mk 3 0 [Some (9, packet_of m)] [] []) {[ 7 := tt ]} in
  OnMinionFDWakeUp master_factory (fun _ _ => Log "done" DEBUG) (p, [])
  = (Ok tt, (mk_MinionProxy (UDPSocket.received 9 [] (m_socket p)) (m_map p),
             log_entry "MinionProxy: UDP packet size mismatch" WARNING [])).
Proof.
  intros m p. apply (oversized_answer_dropped (fun _ _ => Log "done" DEBUG) master_factory p [] m 9 []);
    [|vm_compute; done|done].
  simpl. split; [lia|]. split; [lia|]. split; [lia|left; by eexists].
Defined.

(** Any datagram, even one that is dropped as too short, changes where the
    master sends the next requests of this minion: [recvfrom] stores the
    sender's address over the minion's. *)
Theorem stray_datagram_redirects {C W : Type} `{HasLog W}
    (invoke : C -> AMessage -> prog W unit) (p : MinionProxy C) (w : W)
    (addr uid offset length : Z) (junk : cells) (onDone : C) rest
    (Hjunk : (List.length junk < 8)%nat)
    (Hin : UDPSocket.incoming (m_socket p) = Some (addr, junk) :: rest)
    (Hok : UDPSocket.reliable (m_socket p))
    (Hu : in_u64 uid) (Ho : in_u64 offset) (Hl : in_u64 length) :
  let s := (OnMinionFDWakeUp master_factory invoke ;; AddReadTask uid offset length onDone) (p, w) in
  s.1 = Ok tt
  /\ UDPSocket.sent (m_socket s.2.1)
     = UDPSocket.sent (m_socket p)
       ++ [(addr, packet_of (ReadSend (MessageReadSend.mk uid offset length)))].
Proof.
  intros s.
  assert (E : OnMinionFDWakeUp master_factory invoke (p, w)
    = (Ok tt, (mk_MinionProxy (UDPSocket.received addr rest (m_socket p)) (m_map p),
               log_entry "MinionProxy: short UDP packet" WARNING w))).
  { unfold OnMinionFDWakeUp, on_socket, UDPSocket.ReceiveFrom, Log. run_prog.
    cbn [fst snd m_socket m_map]. rewrite Hin. cbn [fst snd m_socket m_map].
    rewrite (proj2 (Z.ltb_lt _ _)); [done|]. rewrite length_take. lia. }
  unfold s. rewrite (bind_ok _ _ _ _ _ E).
  destruct (AddReadTask_cases uid offset length onDone
    (mk_MinionProxy (UDPSocket.received addr rest (m_socket p)) (m_map p))
    (log_entry "MinionProxy: short UDP packet" WARNING w) Hu Ho Hl) as (r & s' & logs & E' & Ha).
  assert (Hr : r = Ok tt).
  { unfold AddReadTask in E'. rewrite make_packet_ok in E'
      by (done || unfold header; simpl; rewrite !length_app, !length_store; lia).
    revert E'. unfold on_map, on_socket, Log. run_prog. cbn [fst snd m_socket m_map].
    rewrite UDPSocket.SendTo_reliable by exact Hok. by intros [= <- _]. }
  rewrite E'. subst r. split; [done|]. by destruct Ha as (_ & _ & _ & Ha).
Qed.

Lemma stray_datagram_redirects_witness :
  let p := mk_MinionProxy (C := unit) (UDPSocket.mk 3 0 [Some (9, [Some Byte.x61])] [] []) ∅ in
  let s := (OnMinionFDWakeUp master_factory (fun _ _ => Log "done" DEBUG) ;;
            AddReadTask 1 0 4 tt) (p, []) in
  s.1 = Ok tt
  /\ UDPSocket.sent (m_socket s.2.1)
     = UDPSocket.sent (m_socket p)
       ++ [(9, packet_of (ReadSend (MessageReadSend.mk 1 0 4)))].
Proof.
  intros p. apply (stray_datagram_redirects (fun _ _ => Log "done" DEBUG) p [] 9 1 0 4
    [Some Byte.x61] tt []); try lia; [simpl; lia | reflexivity | constructor].
Defined.
