(* ===== verification/NBD.v ===== *)
(** * NBD

    The wire format of the network block device protocol as [NBDProxy.cpp] and
    [NBD::Ntohll] ([concrete/src/NBD.cpp]) read and write it.  The constants
    come from [linux/nbd.h] and [errno.h], which are not part of the program:
    they are a parameter with the facts the code relies on. *)

From S2P Require Import Prelude Bytes.

Class LinuxNBD := {
  NBD_REQUEST_MAGIC : Z;
  NBD_REPLY_MAGIC : Z;
  NBD_CMD_READ : Z;
  NBD_CMD_WRITE : Z;
  NBD_CMD_DISC : Z;
  NBD_CMD_FLUSH : Z;
  NBD_CMD_TRIM : Z;
  EIO : Z;
  magic_range : in_u32 NBD_REQUEST_MAGIC;
  reply_magic_range : in_u32 NBD_REPLY_MAGIC;
  cmd_range : Forall (fun c => in_u32 c)
    [NBD_CMD_READ; NBD_CMD_WRITE; NBD_CMD_DISC; NBD_CMD_FLUSH; NBD_CMD_TRIM];
  cmd_distinct : NoDup
    [NBD_CMD_READ; NBD_CMD_WRITE; NBD_CMD_DISC; NBD_CMD_FLUSH; NBD_CMD_TRIM];
  EIO_range : 0 < EIO < 2 ^ 32;
}.

(** The values of the kernel's header. *)
#[local] Obligation Tactic := idtac.

#[export] Program Instance linux_nbd : LinuxNBD := {|
  NBD_REQUEST_MAGIC := 0x25609513;
  NBD_REPLY_MAGIC := 0x67446698;
  NBD_CMD_READ := 0;
  NBD_CMD_WRITE := 1;
  NBD_CMD_DISC := 2;
  NBD_CMD_FLUSH := 3;
  NBD_CMD_TRIM := 4;
  EIO := 5;
|}.
Next Obligation. lia. Qed.
Next Obligation. lia. Qed.
Next Obligation. repeat constructor; lia. Qed.
Next Obligation. by apply (bool_decide_unpack _). Qed.
Next Obligation. lia. Qed.

(** [struct nbd_request] and [struct nbd_reply]: packed, big-endian on the wire;
    the fields hold the integers as they lie in memory. *)
Record nbd_request : Set := mk_nbd_request {
  rq_magic : Z;
  rq_type : Z;
  rq_handle : cells;
  rq_from : Z;
  rq_len : Z;
}.

Record nbd_reply : Set := mk_nbd_reply {
  rp_magic : Z;
  rp_error : Z;
  rp_handle : cells;
}.

Definition sizeof_nbd_request : Z := 4 + 4 + 8 + 8 + 4.
Definition sizeof_nbd_reply : Z := 4 + 4 + 8.

(** [memcpy(&request, buffer, sizeof(request))]. *)
Definition load_request (buffer : cells) : res nbd_request :=
  '(magic, buffer) ← load 4 buffer;
  '(type, buffer) ← load 4 buffer;
  let handle := read_cells 8 buffer in
  let buffer := drop 8 buffer in
  '(from, buffer) ← load 8 buffer;
  '(len, _) ← load 4 buffer;
  mret (mk_nbd_request magic type handle from len).

(** The bytes of a reply. *)
Definition store_reply (r : nbd_reply) : cells :=
  store 4 (rp_magic r) ++ store 4 (rp_error r) ++ rp_handle r.

(** [NBD::Ntohll], on a little-endian machine. *)
Definition Ntohll (num : Z) : Z :=
  let lo := Z.land num 0xffffffff in
  let hi := u32 (Z.shiftr num 32) in
  let lo := ntohl lo in
  let hi := ntohl hi in
  Z.lor (Z.shiftl lo 32) hi.

(** ** What the functions compute *)

Lemma le_value_app (l1 l2 : list byte) :
  le_value (l1 ++ l2) = le_value l1 + 2 ^ (8 * Z.of_nat (length l1)) * le_value l2.
Proof.
  induction l1 as [|b l1 IH]; cbn [app le_value length]; [lia|].
  replace (8 * Z.of_nat (S (length l1))) with (8 + 8 * Z.of_nat (length l1)) by lia.
  rewrite Z.pow_add_r, IH by lia. lia.
Qed.

Lemma lor_shiftl a b n : 0 <= n -> 0 <= b < 2 ^ n -> Z.lor (Z.shiftl a n) b = a * 2 ^ n + b.
Proof.
  intros Hn Hb.
  assert (H : Z.land (Z.shiftl a n) b = 0).
  { apply Z.bits_inj'. intros k Hk. rewrite Z.land_spec, Z.bits_0.
    destruct (decide (k < n)) as [Hlt|Hge].
    - by rewrite Z.shiftl_spec_low by lia.
    - rewrite <-(Z.mod_small b (2 ^ n)) by lia.
      rewrite Z.mod_pow2_bits_high by lia. apply andb_false_r. }
  rewrite <-Z.lxor_lor, <-Z.add_nocarry_lxor, Z.shiftl_mul_pow2 by done. done.
Qed.

(** [Ntohll] reads a 64-bit field of the wire in big-endian order. *)
Lemma Ntohll_be_value bs : length bs = 8%nat -> Ntohll (le_value bs) = be_value bs.
Proof.
  intros Hlen. rewrite <-(take_drop 4 bs).
  set (lo := take 4 bs). set (hi := drop 4 bs).
  assert (Hlo : length lo = 4%nat) by (unfold lo; rewrite length_take; lia).
  assert (Hhi : length hi = 4%nat) by (unfold hi; rewrite length_drop; lia).
  pose proof (le_value_range lo) as Rlo. pose proof (le_value_range hi) as Rhi.
  rewrite Hlo in Rlo. rewrite Hhi in Rhi. simpl in Rlo, Rhi.
  unfold Ntohll. rewrite le_value_app, Hlo. change (8 * Z.of_nat 4) with 32.
  change 0xffffffff with (Z.ones 32). rewrite Z.land_ones, Z.shiftr_div_pow2 by lia.
  rewrite Z.mul_comm, Z.mod_add, Z.div_add, Z.div_small, Z.mod_small, Z.add_0_l, u32_small by lia.
  rewrite !ntohl_le_value by done. unfold be_value. rewrite rev_app_distr, le_value_app.
  rewrite length_rev, Hhi. change (8 * Z.of_nat 4) with 32.
  pose proof (le_value_range (rev hi)) as Rh. rewrite length_rev, Hhi in Rh. simpl in Rh.
  rewrite lor_shiftl by lia. lia.
Qed.

(** ** The kernel's side *)

Section wire.
Context `{LinuxNBD}.

(** A request as the kernel writes it, a reply as it reads it. *)
Definition wire_request (cmd : Z) (handle : cells) (from len : Z) : cells :=
  be 4 NBD_REQUEST_MAGIC ++ be 4 cmd ++ handle ++ be 8 from ++ be 4 len.

Definition wire_reply (error : Z) (handle : cells) : cells :=
  be 4 NBD_REPLY_MAGIC ++ be 4 error ++ handle.

Lemma length_wire_request cmd handle from len :
  length handle = 8%nat -> Z.of_nat (length (wire_request cmd handle from len)) = sizeof_nbd_request.
Proof. intros Hh. unfold wire_request. by rewrite !length_app, !length_be, Hh. Qed.

Lemma store_reply_wire error handle :
  store_reply (mk_nbd_reply (htonl NBD_REPLY_MAGIC) (htonl error) handle)
  = wire_reply error handle.
Proof. unfold store_reply. simpl. by rewrite !store_htonl. Qed.

Lemma length_store_reply r :
  length (rp_handle r) = 8%nat -> Z.of_nat (length (store_reply r)) = sizeof_nbd_reply.
Proof. intros Hh. unfold store_reply. by rewrite !length_app, !length_store, Hh. Qed.

Lemma load_wire_request cmd handle from len :
  length handle = 8%nat -> in_u32 cmd -> in_u64 from -> in_u32 len ->
  exists r, load_request (wire_request cmd handle from len) = Ok r
    /\ rq_magic r = htonl NBD_REQUEST_MAGIC /\ ntohl (rq_type r) = cmd /\ rq_handle r = handle
    /\ Ntohll (rq_from r) = from /\ ntohl (rq_len r) = len.
Proof.
  intros Hh Hc Hf Hl. unfold load_request, wire_request.
  rewrite load_be. cbn [mbind res_bind]. rewrite load_be. cbn [mbind res_bind].
  rewrite read_cells_app, (drop_app_length' handle) by done.
  rewrite load_be. cbn [mbind res_bind].
  rewrite <-(app_nil_r (be 4 len)), load_be. cbn [mbind res_bind mret res_ret].
  eexists. split; [reflexivity|]. cbn [rq_magic rq_type rq_handle rq_from rq_len].
  assert (Hv : forall z, le_value (rev (le_bytes 4 z)) = htonl z) by done.
  rewrite !Hv, Ntohll_be_value, be_value_rev by (by rewrite ?length_rev, ?length_le_bytes).
  unfold htonl. fold (htonl cmd) (htonl len). by rewrite !ntohl_htonl by done.
Qed.
End wire.
