(* ===== verification/NBDProxy.v ===== *)
(** * NBDProxy

    [concrete/src/NBDProxy.cpp]: the link to the kernel.  [GetTaskArgs] reads
    one request from the stream, remembers the reply it will need and announces
    the new task; [OnNBDResponse] sends the reply.  [CB] are the callbacks
    registered for new tasks, [W] is the rest of the program's state, with the
    logger and the identity counter. *)

From S2P Require Import Prelude Bytes TaskArgs Factory Dispatcher Sockets Logger Ticket NBD.

(** A state with the static counter of [UID] in it. *)
Class HasUID (W : Type) := {
  uid_counter : W -> Z;
  set_uid_counter : Z -> W -> W;
  uid_counter_set c w : uid_counter (set_uid_counter c w) = c;
}.

Definition with_uids {W A} `{HasUID W} (m : prog Z A) : prog W A :=
  zoom uid_counter set_uid_counter m.

(** [m_nbd] stands for its socket, the only part the proxy uses. *)
Record NBDProxy (CB : Type) : Type := mk_NBDProxy {
  m_dispatcher : list CB;
  m_responses : gmap Z nbd_reply;
  m_nbd : TCPClient.t;
}.
Arguments mk_NBDProxy {CB}.
Arguments m_dispatcher {CB} n.
Arguments m_responses {CB} n.
Arguments m_nbd {CB} n.

(** [Factory<FDMODE, ATaskArgs, TaskArgs>] with the creators that the
    constructor of the proxy registers. *)
Definition args_factory : gmap FDMODE (TaskArgs -> prog Z ATaskArgs) :=
  Factory.Register FD_WRITE make_NBDWriteArgs (Factory.Register FD_READ make_NBDReadArgs ∅).

Section NBDProxy.
Context `{LinuxNBD} {CB W : Type} `{HasLog W} `{HasUID W}.
Implicit Types n : NBDProxy CB.

Definition on_tcp {A} (m : prog TCPClient.t A) : prog (NBDProxy CB * W) A :=
  on_fst (zoom m_nbd (fun s n => mk_NBDProxy (m_dispatcher n) (m_responses n) s) m).

Definition on_responses (f : gmap Z nbd_reply -> gmap Z nbd_reply)
    : prog (NBDProxy CB * W) unit :=
  on_fst (modify (fun n => mk_NBDProxy (m_dispatcher n) (f (m_responses n)) (m_nbd n))).

Definition RegisterForNewTaskArgs (callback : CB) n : NBDProxy CB :=
  mk_NBDProxy (Dispatcher.Register callback (m_dispatcher n)) (m_responses n) (m_nbd n).

(** [map::emplace]: an entry that exists stays. *)
Definition emplace {A} (uid : Z) (x : A) (m : gmap Z A) : gmap Z A :=
  match m !! uid with Some _ => m | None => <[uid := x]> m end.

(** The part behind the [switch]. *)
Definition create_task (request : nbd_request) (args : TaskArgs)
    (notify : CB -> ATaskArgs -> prog W unit) : prog (NBDProxy CB * W) (option ATaskArgs) :=
  creator ← lift (Create (match m_buffer args with None => FD_READ | Some _ => FD_WRITE end)
                    args_factory);
  createdArgs ← on_snd (with_uids (creator args));
  let reply := mk_nbd_reply (htonl NBD_REPLY_MAGIC) (htonl 0) (rq_handle request) in
  on_responses (emplace (args_uid createdArgs) reply) ;;
  callbacks ← gets (fun s => m_dispatcher s.1);
  on_snd (Notify (fun c => notify c createdArgs) callbacks) ;;
  mret (Some createdArgs).

Definition GetTaskArgs (notify : CB -> ATaskArgs -> prog W unit)
    : prog (NBDProxy CB * W) (option ATaskArgs) :=
  '(_, buffer) ← on_tcp (TCPClient.Receive sizeof_nbd_request);
  request ← lift (load_request buffer);
  let length := ntohl (rq_len request) in
  let offset := Ntohll (rq_from request) in
  if negb (rq_magic request =? htonl NBD_REQUEST_MAGIC) then
    throw (runtime_error "NBD_REQUEST_MAGIC failed")
  else
    let type := ntohl (rq_type request) in
    if type =? NBD_CMD_READ then
      create_task request (mk_TaskArgs offset length None) notify
    else if type =? NBD_CMD_WRITE then
      '(_, data) ← on_tcp (TCPClient.Receive length);
      create_task request (mk_TaskArgs offset length (Some data)) notify
    else if (type =? NBD_CMD_DISC) || (type =? NBD_CMD_FLUSH) || (type =? NBD_CMD_TRIM) then
      on_snd (Log "NBDProxy: received non-RW command" WARNING) ;;
      mret None
    else throw (runtime_error "Unknown request").

Definition OnNBDResponse (result : TaskResult) : prog (NBDProxy CB * W) unit :=
  found ← gets (fun s => m_responses s.1 !! tr_uid result);
  match found with
  | None => on_snd (Log "NBDProxy: unknown UID response" WARNING)
  | Some reply =>
      on_responses (delete (tr_uid result)) ;;
      let reply := if tr_result result then reply
                   else mk_nbd_reply (rp_magic reply) (htonl EIO) (rp_handle reply) in
      on_tcp (TCPClient.Send (store_reply reply) sizeof_nbd_reply) ;;
      match tr_buffer result with
      | Some buffer =>
          if tr_result result then on_tcp (TCPClient.Send buffer (tr_length result)) else mret tt
      | None => mret tt
      end ;;
      on_snd (Log "reply sent!" DEBUG)
  end.
End NBDProxy.

(** ** Requests *)

(** A read or write request of the kernel; a write carries data. *)
Record kernel_request : Set := mk_kernel_request {
  k_data : option cells;
  k_handle : cells;
  k_from : Z;
  k_len : Z;
}.

Definition request_wf (r : kernel_request) : Prop :=
  length (k_handle r) = 8%nat /\ in_u64 (k_from r) /\ in_u32 (k_len r)
  /\ match k_data r with Some data => Z.of_nat (length data) = k_len r | None => True end.

(** The task that a request stands for. *)
Definition task_of (uid : Z) (r : kernel_request) : ATaskArgs :=
  let args := mk_TaskArgs (k_from r) (k_len r) (k_data r) in
  match k_data r with
  | Some _ => NBDWriteArgs uid args
  | None => NBDReadArgs uid args
  end.

Section requests.
Context `{LinuxNBD} {CB W : Type} `{HasLog W} `{HasUID W}.
Implicit Types n : NBDProxy CB.

(** The bytes that the kernel writes for a request. *)
Definition encode (r : kernel_request) : cells :=
  match k_data r with
  | Some data => wire_request NBD_CMD_WRITE (k_handle r) (k_from r) (k_len r) ++ data
  | None => wire_request NBD_CMD_READ (k_handle r) (k_from r) (k_len r)
  end.

(** The reply that is kept for it. *)
Definition reply_of (r : kernel_request) : nbd_reply :=
  mk_nbd_reply (htonl NBD_REPLY_MAGIC) (htonl 0) (k_handle r).

Lemma cmd_bounds :
  in_u32 NBD_CMD_READ /\ in_u32 NBD_CMD_WRITE /\ in_u32 NBD_CMD_DISC
  /\ in_u32 NBD_CMD_FLUSH /\ in_u32 NBD_CMD_TRIM.
Proof.
  pose proof cmd_range as Hr. repeat (apply Forall_cons in Hr as [? Hr]). done.
Qed.

Lemma read_is_not_write : (NBD_CMD_WRITE =? NBD_CMD_READ) = false.
Proof.
  apply Z.eqb_neq. pose proof cmd_distinct as Hd.
  apply NoDup_cons in Hd as [Hd _]. set_solver.
Qed.

Lemma create_task_ok request args notify n (w w' : W) :
  let uid := uid_counter w in
  let task := match m_buffer args with
              | Some _ => NBDWriteArgs uid args | None => NBDReadArgs uid args end in
  m_responses n !! uid = None ->
  for_each (fun c => notify c task) (m_dispatcher n) (set_uid_counter (u64 (uid + 1)) w) = (Ok tt, w') ->
  create_task request args notify (n, w)
  = (Ok (Some task),
     (mk_NBDProxy (m_dispatcher n)
        (<[uid := mk_nbd_reply (htonl NBD_REPLY_MAGIC) (htonl 0) (rq_handle request)]> (m_responses n))
        (m_nbd n), w')).
Proof.
  intros uid task Hfresh Hnotify. unfold create_task.
  assert (Hc : forall b : option cells, Create (match b with None => FD_READ | Some _ => FD_WRITE end) args_factory
    = Ok (match b with None => make_NBDReadArgs | Some _ => make_NBDWriteArgs end))
    by by intros [].
  rewrite Hc. unfold with_uids, on_responses, emplace, Notify. run_prog.
  assert (Hm : (match m_buffer args with None => make_NBDReadArgs | Some _ => make_NBDWriteArgs end)
    args uid = (Ok task, u64 (uid + 1))) by (unfold task; by destruct (m_buffer args)).
  cbn [fst snd]. fold uid. rewrite Hm. cbn [fst snd m_responses m_dispatcher m_nbd].
  assert (Hu : args_uid task = uid) by (unfold task; by destruct (m_buffer args)).
  by rewrite Hu, Hfresh, Hnotify.
Qed.

Lemma GetTaskArgs_request notify n (w w' : W) r rest :
  let uid := uid_counter w in
  request_wf r ->
  TCPClient.available (TCPClient.incoming (m_nbd n)) = encode r ++ rest ->
  m_responses n !! uid = None ->
  for_each (fun c => notify c (task_of uid r)) (m_dispatcher n)
    (set_uid_counter (u64 (uid + 1)) w) = (Ok tt, w') ->
  exists s', GetTaskArgs notify (n, w)
    = (Ok (Some (task_of uid r)),
       (mk_NBDProxy (m_dispatcher n) (<[uid := reply_of r]> (m_responses n)) s', w'))
    /\ TCPClient.available (TCPClient.incoming s') = rest
    /\ TCPClient.sent s' = TCPClient.sent (m_nbd n)
    /\ TCPClient.send_results s' = TCPClient.send_results (m_nbd n).
Proof.
  intros uid (Hh & Hf & Hl & Hd) Ha Hfresh Hnotify.
  destruct cmd_bounds as (Hread & Hwrite & _).
  set (cmd := match k_data r with Some _ => NBD_CMD_WRITE | None => NBD_CMD_READ end).
  set (data := default [] (k_data r)).
  assert (Hcmd : in_u32 cmd) by (unfold cmd; by destruct (k_data r)).
  assert (Henc : encode r ++ rest = wire_request cmd (k_handle r) (k_from r) (k_len r) ++ data ++ rest).
  { unfold encode, cmd, data. destruct (k_data r); [by rewrite <-app_assoc|done]. }
  rewrite Henc in Ha.
  destruct (TCPClient.Receive_ok sizeof_nbd_request _ _ (m_nbd n) ltac:(unfold sizeof_nbd_request; lia)
    Ha (length_wire_request cmd _ (k_from r) (k_len r) Hh)) as (s1 & E1 & Ha1 & Hs1 & Hr1 & _).
  destruct (load_wire_request cmd (k_handle r) (k_from r) (k_len r) Hh Hcmd Hf Hl)
    as (req & Ereq & Hmagic & Htype & Hhandle & Hfrom & Hlen).
  unfold GetTaskArgs, on_tcp. run_prog. cbn [fst snd m_nbd m_dispatcher m_responses].
  rewrite E1, Ereq. cbn [fst snd m_nbd m_dispatcher m_responses].
  rewrite Hmagic, Z.eqb_refl, Htype, Hfrom, Hlen. cbn [negb].
  unfold task_of in *. unfold cmd, data in *. clear cmd data. destruct (k_data r) as [data|] eqn:Ed; simpl in Ha1.
  - rewrite read_is_not_write, Z.eqb_refl. cbn [fst snd m_nbd].
    destruct (TCPClient.Receive_ok (k_len r) data rest s1 ltac:(lia) Ha1 Hd)
      as (s2 & E2 & Ha2 & Hs2 & Hr2 & _).
    rewrite E2. cbn [fst snd m_nbd m_dispatcher m_responses].
    pose proof (create_task_ok req (mk_TaskArgs (k_from r) (k_len r) (Some data)) notify
      (mk_NBDProxy (m_dispatcher n) (m_responses n) s2) w w' Hfresh Hnotify) as E3.
    rewrite E3, Hhandle. exists s2. split; [done|]. split; [done|]. split; congruence.
  - rewrite Z.eqb_refl.
    pose proof (create_task_ok req (mk_TaskArgs (k_from r) (k_len r) None) notify
      (mk_NBDProxy (m_dispatcher n) (m_responses n) s1) w w' Hfresh Hnotify) as E3.
    rewrite E3, Hhandle. exists s1. done.
Qed.

(** [k] requests in a row. *)
Fixpoint get_tasks (notify : CB -> ATaskArgs -> prog W unit) (k : nat)
    : prog (NBDProxy CB * W) (list (option ATaskArgs)) :=
  match k with
  | O => mret []
  | S k => task ← GetTaskArgs notify; tasks ← get_tasks notify k; mret (task :: tasks)
  end.
End requests.

(** ** Properties *)

Section sync.
Context `{LinuxNBD} {CB W : Type} `{HasLog W} `{HasUID W}.
Context (notify : CB -> ATaskArgs -> prog W unit).
Implicit Types n : NBDProxy CB.

(** Subscribers that accept every task and do not create identities. *)
Hypothesis Hnotify : forall c task w,
  exists w', notify c task w = (Ok tt, w') /\ uid_counter w' = uid_counter w.

Lemma notify_all l task (w : W) :
  exists w', for_each (fun c => notify c task) l w = (Ok tt, w')
    /\ uid_counter w' = uid_counter w.
Proof.
  revert w. induction l as [|c l IH]; intros w; cbn [for_each]; [by exists w|].
  destruct (Hnotify c task w) as (w1 & E1 & Hu1). rewrite (bind_ok _ _ _ _ _ E1).
  destruct (IH w1) as (w2 & E2 & Hu2). exists w2. split; [done|congruence].
Qed.

Lemma get_tasks_sync reqs rest n (w : W) :
  Forall request_wf reqs ->
  TCPClient.available (TCPClient.incoming (m_nbd n)) = (reqs ≫= encode) ++ rest ->
  0 <= uid_counter w -> uid_counter w + Z.of_nat (length reqs) < 2 ^ 64 ->
  (forall uid, uid_counter w <= uid -> m_responses n !! uid = None) ->
  exists n' w', get_tasks notify (length reqs) (n, w)
      = (Ok (imap (fun i r => Some (task_of (uid_counter w + Z.of_nat i) r)) reqs), (n', w'))
    /\ TCPClient.available (TCPClient.incoming (m_nbd n')) = rest
    /\ TCPClient.sent (m_nbd n') = TCPClient.sent (m_nbd n)
    /\ (forall i r, reqs !! i = Some r ->
        m_responses n' !! (uid_counter w + Z.of_nat i) = Some (reply_of r))
    /\ (forall uid, uid < uid_counter w -> m_responses n' !! uid = m_responses n !! uid).
Proof.
  revert n w. induction reqs as [|r reqs IH]; intros n w Hwf Ha Hpos Hmax Hfresh.
  { exists n, w. repeat split; done. }
  apply Forall_cons in Hwf as [Hr Hwf]. cbn [mbind list_bind app] in Ha. rewrite <-app_assoc in Ha.
  set (uid := uid_counter w) in *.
  destruct (notify_all (m_dispatcher n) (task_of uid r) (set_uid_counter (u64 (uid + 1)) w))
    as (w1 & E1 & Hu1).
  rewrite uid_counter_set, u64_small in Hu1 by (simpl in Hmax; lia).
  destruct (GetTaskArgs_request notify n w w1 r _ Hr Ha (Hfresh uid ltac:(lia)) E1)
    as (s1 & E & Ha1 & Hs1 & _).
  destruct (IH (mk_NBDProxy (m_dispatcher n) (<[uid := reply_of r]> (m_responses n)) s1) w1)
    as (n2 & w2 & E2 & Ha2 & Hs2 & Hin & Hold);
    [done|done|lia|simpl in Hmax; lia| |].
  { intros uid' Hle. simpl. rewrite lookup_insert_ne by lia. apply Hfresh. lia. }
  exists n2, w2. cbn [get_tasks length]. fold uid in E. rewrite (bind_ok _ _ _ _ _ E).
  rewrite (bind_ok _ _ _ _ _ E2).
  split; [|split; [done|split; [by rewrite Hs2|split]]].
  - unfold mret, prog_ret. cbn [imap]. rewrite Z.add_0_r. do 3 f_equal. apply imap_ext. intros i x _.
    simpl. do 2 f_equal. lia.
  - intros [|i] x; simpl; intros Hx.
    + injection Hx as ->. rewrite Hold by lia. simpl. rewrite Z.add_0_r. apply lookup_insert_eq.
    + specialize (Hin i x Hx). rewrite <-Hin. f_equal. lia.
  - intros uid' Hlt. rewrite Hold by lia. simpl. apply lookup_insert_ne. lia.
Qed.

(** C16: the proxy stays in step with the kernel's stream, however the stream is
    cut by the socket: [k] read and write requests written one after the other
    are read by [k] calls as tasks with the right offset, length and data, in
    order, under consecutive identities; what follows them stays in the stream;
    nothing is sent yet, and for every request a reply with its handle is kept
    under its identity. *)
Theorem requests_in_step reqs rest n (w : W)
    (Hwf : Forall request_wf reqs)
    (Hstream : TCPClient.available (TCPClient.incoming (m_nbd n)) = (reqs ≫= encode) ++ rest)
    (Hcounter : 0 <= uid_counter w) (Hmax : uid_counter w + Z.of_nat (length reqs) < 2 ^ 64)
    (Hfresh : forall uid, uid_counter w <= uid -> m_responses n !! uid = None) :
  exists n' w', get_tasks notify (length reqs) (n, w)
      = (Ok (imap (fun i r => Some (task_of (uid_counter w + Z.of_nat i) r)) reqs), (n', w'))
    /\ TCPClient.available (TCPClient.incoming (m_nbd n')) = rest
    /\ TCPClient.sent (m_nbd n') = TCPClient.sent (m_nbd n)
    /\ (forall i r, reqs !! i = Some r ->
        m_responses n' !! (uid_counter w + Z.of_nat i) = Some (reply_of r)).
Proof.
  destruct (get_tasks_sync reqs rest n w Hwf Hstream Hcounter Hmax Hfresh)
    as (n' & w' & E & Ha & Hs & Hin & _). by exists n', w'.
Qed.
End sync.

(** A small state with the two services of the proxy. *)
Definition plain_world : Type := list (string * Severity) * Z.

#[export] Instance plain_log : HasLog plain_world := fun message sev w => (w.1 ++ [(message, sev)], w.2).
#[export] Program Instance plain_uid : HasUID plain_world := {|
  uid_counter := snd;
  set_uid_counter c w := (w.1, c);
|}.
Next Obligation. done. Qed.

Definition sample_handle : cells := Some <$> [Byte.x01; Byte.x02; Byte.x03; Byte.x04;
  Byte.x05; Byte.x06; Byte.x07; Byte.x08].
Definition sample_read : kernel_request := mk_kernel_request None sample_handle 4096 3.
Definition sample_write : kernel_request :=
  mk_kernel_request (Some [Some Byte.x61; Some Byte.x62]) sample_handle 7 2.

Lemma requests_in_step_witness :
  let reqs := [sample_read; sample_write] in
  let n := mk_NBDProxy [tt] ∅ (TCPClient.mk 4 [TCPClient.Data (reqs ≫= encode)] [] []) in
  let w : plain_world := ([], 5) in
  exists n' w', get_tasks (fun _ _ => Log "task" DEBUG) (length reqs) (n, w)
      = (Ok (imap (fun i r => Some (task_of (uid_counter w + Z.of_nat i) r)) reqs), (n', w'))
    /\ TCPClient.available (TCPClient.incoming (m_nbd n')) = []
    /\ TCPClient.sent (m_nbd n') = TCPClient.sent (m_nbd n)
    /\ (forall i r, reqs !! i = Some r ->
        m_responses n' !! (uid_counter w + Z.of_nat i) = Some (reply_of r)).
Proof.
  intros reqs n w. apply (requests_in_step (fun _ _ => Log "task" DEBUG)).
  - intros c task w'. by eexists.
  - repeat constructor; simpl; lia.
  - unfold n. cbn [m_nbd TCPClient.incoming]. rewrite app_nil_r.
    destruct (reqs ≫= encode) as [|c l] eqn:E; [done|]. simpl. by rewrite app_nil_r.
  - simpl. lia.
  - simpl. lia.
  - intros uid _. apply lookup_empty.
Defined.

(** However sending ends, only the entry of the result's request is touched. *)
Lemma OnNBDResponse_frame `{LinuxNBD} {CB W : Type} `{HasLog W} (n : NBDProxy CB) (w : W)
    (result : TaskResult) :
  let '(_, (n', w')) := OnNBDResponse result (n, w) in
  m_dispatcher n' = m_dispatcher n /\ (exists logs, w' = add_logs logs w)
  /\ (m_responses n' = m_responses n \/ m_responses n' = delete (tr_uid result) (m_responses n)).
Proof.
  unfold OnNBDResponse, on_responses, on_tcp, Log. run_prog. cbn [fst snd m_responses m_nbd m_dispatcher].
  destruct (m_responses n !! tr_uid result) as [reply|].
  2:{ cbn. split; [done|]. split; [by eexists [(_, _)]|by left]. }
  cbn [fst snd m_responses m_nbd m_dispatcher].
  destruct (TCPClient.Send _ _ (m_nbd n)) as [[[]|e| |] s1];
    cbn [fst snd m_responses m_nbd m_dispatcher];
    try (split; [done|]; split; [by exists []|by right]).
  destruct (tr_buffer result) as [buffer|]; [destruct (tr_result result)|];
    cbn [fst snd m_responses m_nbd m_dispatcher];
    [destruct (TCPClient.Send buffer _ s1) as [[[]|e| |] s2];
     cbn [fst snd m_responses m_nbd m_dispatcher]|..];
    (split; [done|]; split; [first [by exists [] | by eexists [(_, _)]]|by right]).
Qed.

Lemma OnNBDResponse_ok `{LinuxNBD} {CB W : Type} `{HasLog W} (n : NBDProxy CB) (w : W)
    (result : TaskResult) (handle : cells) :
  m_responses n !! tr_uid result
    = Some (mk_nbd_reply (htonl NBD_REPLY_MAGIC) (htonl 0) handle) ->
  length handle = 8%nat -> in_u64 (tr_length result) ->
  TCPClient.sends_succeed (m_nbd n) ->
  exists s', OnNBDResponse result (n, w)
      = (Ok tt, (mk_NBDProxy (m_dispatcher n) (delete (tr_uid result) (m_responses n)) s',
                 log_entry "reply sent!" DEBUG w))
    /\ TCPClient.sends_succeed s' /\ TCPClient.incoming s' = TCPClient.incoming (m_nbd n)
    /\ TCPClient.sent s' = TCPClient.sent (m_nbd n)
         ++ wire_reply (if tr_result result then 0 else EIO) handle
         ++ match tr_buffer result with
            | Some buffer => if tr_result result
                             then read_cells (Z.to_nat (tr_length result)) buffer else []
            | None => []
            end.
Proof.
  intros Hin Hh Hlen Hs.
  set (reply := if tr_result result then mk_nbd_reply (htonl NBD_REPLY_MAGIC) (htonl 0) handle
                else mk_nbd_reply (htonl NBD_REPLY_MAGIC) (htonl EIO) handle).
  assert (Hw : store_reply reply = wire_reply (if tr_result result then 0 else EIO) handle)
    by (unfold reply; destruct (tr_result result); by rewrite store_reply_wire).
  assert (Hl : Z.of_nat (length (store_reply reply)) = sizeof_nbd_reply)
    by (apply length_store_reply; unfold reply; by destruct (tr_result result)).
  destruct (TCPClient.Send_ok (store_reply reply) sizeof_nbd_reply (m_nbd n)
    ltac:(unfold sizeof_nbd_reply; lia) Hs) as (s1 & E1 & Hs1 & Hsent1 & Hin1 & _).
  rewrite read_cells_exact, Hw in Hsent1 by lia.
  destruct (TCPClient.Send_ok (default [] (tr_buffer result)) (tr_length result) s1 Hlen Hs1)
    as (s2 & E2 & Hs2 & Hsent2 & Hin2 & _).
  unfold OnNBDResponse, on_responses, on_tcp, Log. run_prog.
  cbn [fst snd m_responses m_nbd m_dispatcher]. rewrite Hin. cbn [fst snd m_responses m_nbd m_dispatcher].
  fold reply. cbn [rp_magic rp_handle]. fold reply. rewrite E1.
  cbn [fst snd m_responses m_nbd m_dispatcher].
  destruct (tr_buffer result) as [buffer|].
  - destruct (tr_result result).
    + simpl in E2, Hsent2. cbn [fst snd m_responses m_nbd m_dispatcher]. rewrite E2. exists s2. split; [done|]. split; [done|].
      split; [by rewrite Hin2|]. by rewrite Hsent2, Hsent1, <-app_assoc.
    + exists s1. by rewrite app_nil_r.
  - exists s1. by rewrite app_nil_r.
Qed.

(** A request is answered once, with its own handle: the first result for
    its identity sends a reply that carries the handle, error 0 and the data
    of a successful read, or [EIO] and no data; a second result for the
    identity sends nothing. *)
Theorem reply_once `{LinuxNBD} {CB W : Type} `{HasLog W} (n : NBDProxy CB) (w : W)
    (request : kernel_request) (result result2 : TaskResult)
    (Hreply : m_responses n !! tr_uid result = Some (reply_of request))
    (Hwf : request_wf request) (Hlen : in_u64 (tr_length result))
    (Hsame : tr_uid result2 = tr_uid result)
    (Hsend : TCPClient.sends_succeed (m_nbd n)) :
  exists n' w', (OnNBDResponse result ;; OnNBDResponse result2) (n, w) = (Ok tt, (n', w'))
    /\ m_responses n' = delete (tr_uid result) (m_responses n)
    /\ TCPClient.incoming (m_nbd n') = TCPClient.incoming (m_nbd n)
    /\ TCPClient.sent (m_nbd n') = TCPClient.sent (m_nbd n)
         ++ wire_reply (if tr_result result then 0 else EIO) (k_handle request)
         ++ match tr_buffer result with
            | Some buffer => if tr_result result
                             then read_cells (Z.to_nat (tr_length result)) buffer else []
            | None => []
            end.
Proof.
  destruct (OnNBDResponse_ok n w result (k_handle request) Hreply (proj1 Hwf) Hlen Hsend)
    as (s' & E & _ & Hin & Hsent).
  rewrite (bind_ok _ _ _ _ _ E).
  exists (mk_NBDProxy (m_dispatcher n) (delete (tr_uid result) (m_responses n)) s'),
    (log_entry "NBDProxy: unknown UID response" WARNING (log_entry "reply sent!" DEBUG w)).
  split; [|done].
  unfold OnNBDResponse at 1, Log. run_prog. cbn [fst snd m_responses].
  by rewrite Hsame, lookup_delete_eq.
Qed.

Lemma reply_once_witness :
  let result := mk_TaskResult 3 true 2 (Some [Some Byte.x61; Some Byte.x62]) in
  let n := mk_NBDProxy (CB := unit) [] {[ 3 := reply_of sample_read ]} (TCPClient.mk 4 [] [1; 2] []) in
  let w : plain_world := ([], 5) in
  exists n' w', (OnNBDResponse result ;; OnNBDResponse result) (n, w) = (Ok tt, (n', w'))
    /\ m_responses n' = delete (tr_uid result) (m_responses n)
    /\ TCPClient.incoming (m_nbd n') = TCPClient.incoming (m_nbd n)
    /\ TCPClient.sent (m_nbd n') = TCPClient.sent (m_nbd n)
         ++ wire_reply 0 sample_handle ++ [Some Byte.x61; Some Byte.x62].
Proof.
  intros result n w. apply (reply_once n w sample_read result result).
  - reflexivity.
  - repeat split; simpl; lia.
  - simpl. lia.
  - reflexivity.
  - repeat constructor; lia.
Defined.

(** The other requests: a wrong magic number or an unknown command throws, a
    disconnect, flush or trim command gives no task; in all these cases exactly
    the 28 bytes of the request are taken from the stream, no identity is used,
    no reply is prepared and nothing is sent. *)
Theorem other_requests `{LinuxNBD} {CB W : Type} `{HasLog W} `{HasUID W}
    (notify : CB -> ATaskArgs -> prog W unit) (n : NBDProxy CB) (w : W)
    (magic cmd from len : Z) (handle rest : cells)
    (Hh : length handle = 8%nat) (Hm : in_u32 magic) (Hc : in_u32 cmd)
    (Hf : in_u64 from) (Hl : in_u32 len)
    (Hother : magic = NBD_REQUEST_MAGIC -> cmd <> NBD_CMD_READ /\ cmd <> NBD_CMD_WRITE)
    (Hstream : TCPClient.available (TCPClient.incoming (m_nbd n))
      = (be 4 magic ++ be 4 cmd ++ handle ++ be 8 from ++ be 4 len) ++ rest) :
  exists s', TCPClient.available (TCPClient.incoming s') = rest
    /\ TCPClient.sent s' = TCPClient.sent (m_nbd n)
    /\ GetTaskArgs notify (n, w)
       = let n' := mk_NBDProxy (m_dispatcher n) (m_responses n) s' in
         if decide (magic = NBD_REQUEST_MAGIC) then
           if decide (cmd ∈ [NBD_CMD_DISC; NBD_CMD_FLUSH; NBD_CMD_TRIM]) then
             (Ok None, (n', log_entry "NBDProxy: received non-RW command" WARNING w))
           else (Throw (runtime_error "Unknown request"), (n', w))
         else (Throw (runtime_error "NBD_REQUEST_MAGIC failed"), (n', w)).
Proof.
  destruct (TCPClient.Receive_ok sizeof_nbd_request _ _ (m_nbd n)
    ltac:(unfold sizeof_nbd_request; lia) Hstream) as (s1 & E1 & Ha1 & Hs1 & _).
  { by rewrite !length_app, !length_be, Hh. }
  exists s1. split; [done|]. split; [done|].
  unfold GetTaskArgs, on_tcp, Log. run_prog. cbn [fst snd m_nbd m_dispatcher m_responses].
  rewrite E1. unfold load_request. rewrite load_be. cbn [mbind res_bind].
  rewrite load_be. cbn [mbind res_bind]. rewrite read_cells_app, (drop_app_length' handle) by done.
  rewrite load_be. cbn [mbind res_bind].
  rewrite <-(app_nil_r (be 4 len)), load_be. cbn [mbind res_bind mret res_ret].
  cbn [fst snd rq_magic rq_type rq_from rq_len].
  assert (Hv : forall z, le_value (rev (le_bytes 4 z)) = htonl z) by done.
  rewrite !Hv, (ntohl_htonl cmd) by done.
  destruct (decide (magic = NBD_REQUEST_MAGIC)) as [E|Hne].
  - destruct (Hother E) as [Hr Hw]. rewrite E, Z.eqb_refl. cbn [negb].
    rewrite (proj2 (Z.eqb_neq _ _) Hr), (proj2 (Z.eqb_neq _ _) Hw).
    destruct (decide _) as [Hd|Hd]; revert Hd; rewrite !elem_of_cons, elem_of_nil; intros Hd.
    + destruct Hd as [-> | [-> | [-> | []]]]; by rewrite Z.eqb_refl, ?orb_true_r.
    + by rewrite !(proj2 (Z.eqb_neq _ _)) by naive_solver.
  - rewrite (proj2 (Z.eqb_neq _ _)); [done|]. intros E. apply Hne.
    pose proof magic_range. rewrite <-(ntohl_htonl magic), E, ntohl_htonl by done. done.
Qed.

Lemma other_requests_witness :
  let n := mk_NBDProxy (CB := unit) [] ∅
    (TCPClient.mk 4 [TCPClient.Data ((be 4 NBD_REQUEST_MAGIC ++ be 4 2 ++ sample_handle
                                      ++ be 8 0 ++ be 4 0) ++ [])] [] []) in
  let w : plain_world := ([], 5) in
  exists s', TCPClient.available (TCPClient.incoming s') = []
    /\ TCPClient.sent s' = TCPClient.sent (m_nbd n)
    /\ GetTaskArgs (fun _ _ => Log "task" DEBUG) (n, w)
       = let n' := mk_NBDProxy (m_dispatcher n) (m_responses n) s' in
         if decide (NBD_REQUEST_MAGIC = NBD_REQUEST_MAGIC) then
           if decide (2 ∈ [NBD_CMD_DISC; NBD_CMD_FLUSH; NBD_CMD_TRIM]) then
             (Ok None, (n', log_entry "NBDProxy: received non-RW command" WARNING w))
           else (Throw (runtime_error "Unknown request"), (n', w))
         else (Throw (runtime_error "NBD_REQUEST_MAGIC failed"), (n', w)).
Proof.
  intros n w. apply (other_requests (fun _ _ => Log "task" DEBUG) n w
    NBD_REQUEST_MAGIC 2 0 0 sample_handle []); try (simpl; lia).
  vm_compute. reflexivity.
Defined.
