(* ===== verification/ResponseManager.v ===== *)
(** * ResponseManager

    [concrete/src/ResponseManager.cpp] and [Response.cpp]: what is outstanding,
    and the way back of a result to the kernel.  [T] are references to tickets
    (the [shared_ptr<Ticket>] of the code). *)

From S2P Require Import Prelude TaskArgs Sockets Logger Ticket NBD NBDProxy.

(** [Response] has no data. *)
Inductive Response : Set := mk_Response.

Record ResponseManager (T : Type) : Type := mk_ResponseManager {
  m_requests : gmap Z Response;
  m_tickets : gmap Z T;
}.
Arguments mk_ResponseManager {T}.
Arguments m_requests {T} r.
Arguments m_tickets {T} r.

Section ResponseManager.
Context `{LinuxNBD} {T CB W : Type} `{HasLog W}.

Definition OnSuccess (r : Response) : prog W unit := Log "Task succeeded" DEBUG.
Definition OnFailure (r : Response) : prog W unit := Log "Task failed" WARNING.

Definition OnNewTask (args : ATaskArgs) : prog (ResponseManager T) unit :=
  modify (fun r => mk_ResponseManager (emplace (args_uid args) mk_Response (m_requests r))
                     (m_tickets r)).

(** [register] is [ticket->RegisterToResultDispatcher(m_ticketDoneCallback)]. *)
Definition OnTicketCreate (ticket : T) (uid : Z) (register : T -> prog W unit)
    : prog (ResponseManager T * W) unit :=
  on_fst (modify (fun r => mk_ResponseManager (m_requests r) (<[uid := ticket]> (m_tickets r)))) ;;
  on_snd (register ticket).

Definition OnTicketDone (result : TaskResult) : prog (ResponseManager T * (NBDProxy CB * W)) unit :=
  req_it ← gets (fun s => m_requests s.1 !! tr_uid result);
  match req_it with
  | None => on_snd (on_snd (Log "ResponseManager: unknown UID in OnTicketDone" WARNING))
  | Some response =>
      on_snd (on_snd (if tr_result result then OnSuccess response else OnFailure response)) ;;
      on_fst (modify (fun r => mk_ResponseManager (m_requests r) (delete (tr_uid result) (m_tickets r)))) ;;
      on_fst (modify (fun r => mk_ResponseManager (delete (tr_uid result) (m_requests r)) (m_tickets r))) ;;
      on_snd (OnNBDResponse result)
  end.

(** What [OnTicketDone] does, however sending the reply ends. *)
Lemma OnTicketDone_eq result (r : ResponseManager T) (n : NBDProxy CB) (w : W) :
  OnTicketDone result (r, (n, w))
  = if decide (is_Some (m_requests r !! tr_uid result)) then
      let '(res, nw) := OnNBDResponse result
        (n, if tr_result result then log_entry "Task succeeded" DEBUG w
            else log_entry "Task failed" WARNING w) in
      (res, (mk_ResponseManager (delete (tr_uid result) (m_requests r))
               (delete (tr_uid result) (m_tickets r)), nw))
    else (Ok tt, (r, (n, log_entry "ResponseManager: unknown UID in OnTicketDone" WARNING w))).
Proof.
  unfold OnTicketDone, OnSuccess, OnFailure, Log. run_prog. cbn [fst snd].
  destruct (m_requests r !! tr_uid result) as [response|] eqn:E.
  - rewrite decide_True by eauto. cbn [fst snd].
    destruct (tr_result result); cbn [fst snd m_requests m_tickets];
      by destruct (OnNBDResponse result _) as [[[]|?| |] [n' w']].
  - by rewrite decide_False by by intros [].
Qed.
End ResponseManager.
