(* ===== verification/World.v ===== *)
(** * World

    The shared objects behind the components of the master: the log, the static
    identity counter, and the tickets, which [MinionManager] creates and which
    the closures of the proxies and [ResponseManager] share.  A ticket is
    referred to by its index in the list; a ticket whose last reference is gone
    stays in the list, unused. *)

From S2P Require Import Prelude Logger Ticket NBDProxy.

(** The callbacks registered with tickets: only [ResponseManager]'s
    [m_ticketDoneCallback] exists. *)
Inductive ticket_callback : Set := TicketDone.

#[export] Instance ticket_callback_eq_dec : EqDecision ticket_callback.
Proof. solve_decision. Defined.

Record World : Type := mk_World {
  w_log : list (string * Severity);
  w_uid : Z;
  w_tickets : list (Ticket ticket_callback);
}.

#[export] Instance World_log : HasLog World := fun message sev w =>
  mk_World (w_log w ++ [(message, sev)]) (w_uid w) (w_tickets w).

#[export] Program Instance World_uid : HasUID World := {|
  uid_counter := w_uid;
  set_uid_counter c w := mk_World (w_log w) c (w_tickets w);
|}.
Next Obligation. done. Qed.

(** [make_shared<Ticket>(...)]. *)
Definition new_ticket (t : Ticket ticket_callback) : prog World nat := fun w =>
  (Ok (length (w_tickets w)), mk_World (w_log w) (w_uid w) (w_tickets w ++ [t])).

Definition set_ticket (i : nat) (t : Ticket ticket_callback) : prog World unit :=
  modify (fun w => mk_World (w_log w) (w_uid w) (<[i := t]> (w_tickets w))).

(** [ticket->RegisterToResultDispatcher(m_ticketDoneCallback)]. *)
Definition register_done (i : nat) : prog World unit :=
  modify (fun w => mk_World (w_log w) (w_uid w)
    (alter (RegisterToResultDispatcher TicketDone) i (w_tickets w))).

Lemma add_logs_World logs w :
  add_logs logs w = mk_World (w_log w ++ logs) (w_uid w) (w_tickets w).
Proof.
  revert w. induction logs as [|[message sev] logs IH]; intros w.
  - destruct w. simpl. by rewrite app_nil_r.
  - change (add_logs ((message, sev) :: logs) w) with (add_logs logs (log_entry message sev w)).
    rewrite IH. simpl. by rewrite <-app_assoc.
Qed.
