(* ===== verification/MinionManager.v ===== *)
(** * MinionManager

    [concrete/src/MinionManager.cpp]: a request for a range of the drive becomes
    a ticket and one task for the primary and the backup minion of each segment.
    The manager is written, and its theorems are proved, against the interface
    [IMinionProxy] of the code. *)

From S2P Require Import Prelude Message StripeSplitter TaskArgs Factory Dispatcher Sockets Logger.
From S2P Require Import IMinionProxy MinionProxy Ticket World.

(** ** The manager *)

(** [m_reactor] maps a file descriptor and a mode to the index of the minion
    whose [OnMinionFDWakeUp] it runs; [m_worker] tells whether the thread that
    runs the reactor was started. *)
Record MinionManager (P CB : Type) : Type := mk_MinionManager {
  m_MBMinion : Z;
  m_driveSize : Z;
  m_minions : list P;
  m_dispatcher : list CB;
  m_reactor : gmap (Z * FDMODE) nat;
  m_worker : bool;
}.
Arguments mk_MinionManager {P CB}.
Arguments m_MBMinion {P CB} m.
Arguments m_driveSize {P CB} m.
Arguments m_minions {P CB} m.
Arguments m_dispatcher {P CB} m.
Arguments m_reactor {P CB} m.
Arguments m_worker {P CB} m.

Section MinionManager.
Context {P C W CB T TCB : Type} `{HasLog W} `{!IMinionProxy P C W}.

(** Tickets are shared objects: [new_ticket] is [make_shared<Ticket>], [notify]
    runs a callback registered for new tickets, [onDone] is the closure of
    [AddReadTask] and [AddWriteTask] over the ticket, the index and the role. *)
Context (new_ticket : Ticket TCB -> prog W T) (notify : CB -> T -> Z -> prog W unit)
  (onDone : T -> nat -> MirrorRole -> C).

Implicit Types m : MinionManager P CB.

Definition set_minions (l : list P) m : MinionManager P CB :=
  mk_MinionManager (m_MBMinion m) (m_driveSize m) l (m_dispatcher m) (m_reactor m) (m_worker m).

(** [m_minions[i]->f()]. *)
Definition minion {A} (i : Z) (f : prog (P * W) A) : prog (MinionManager P CB * W) A :=
  fun s => match m_minions s.1 !! Z.to_nat i with
           | Some p =>
               let '(r, (p', w')) := f (p, s.2) in
               (r, (set_minions (<[Z.to_nat i := p']> (m_minions s.1)) s.1, w'))
           | None => (Undefined, s)
           end.

Definition ValidateRange (offset length : Z) : prog (MinionManager P CB * W) unit := fun s =>
  if m_driveSize s.1 <? u64 (offset + length) then
    (Throw (out_of_range "MinionManager: I/O beyond drive size"), s)
  else (Ok tt, s).

(** [Reactor::Register]: [map::emplace] keeps an existing entry. *)
Definition register_fd (i : nat) (p : P) (reactor : gmap (Z * FDMODE) nat)
    : gmap (Z * FDMODE) nat :=
  match reactor !! (minion_fd p, FD_READ) with
  | Some _ => reactor
  | None => <[(minion_fd p, FD_READ) := i]> reactor
  end.

Fixpoint register_fds (i : nat) (l : list P) (reactor : gmap (Z * FDMODE) nat)
    : gmap (Z * FDMODE) nat :=
  match l with
  | [] => reactor
  | p :: l => register_fds (S i) l (register_fd i p reactor)
  end.

(** The second part of the state is the process-wide [Factory<uint32_t,
    AMessage>]. *)
Definition Init (mbMinion : Z) (minions : list P)
    : prog (MinionManager P CB * gmap Z MESSAGE_TYPE) unit :=
  if bool_decide (minions = []) then
    throw (invalid_argument "MinionManager: minions list is empty")
  else if mbMinion =? 0 then
    throw (invalid_argument "MinionManager: chunk size must be > 0")
  else
    on_fst (modify (fun m =>
      let all := m_minions m ++ minions in
      mk_MinionManager mbMinion (u64 (Z.of_nat (length minions) * mbMinion)) all
        (m_dispatcher m) (register_fds 0 all (m_reactor m)) (m_worker m))) ;;
    on_snd (modify (Factory.Register (type_value READ_RECEIVE) READ_RECEIVE)) ;;
    on_snd (modify (Factory.Register (type_value WRITE_RECEIVE) WRITE_RECEIVE)) ;;
    on_fst (modify (fun m => mk_MinionManager (m_MBMinion m) (m_driveSize m) (m_minions m)
      (m_dispatcher m) (m_reactor m) true)).

Definition GetDriveSize m : Z := m_driveSize m.

Definition RegisterForNewTickets (callback : CB) m : MinionManager P CB :=
  mk_MinionManager (m_MBMinion m) (m_driveSize m) (m_minions m)
    (Dispatcher.Register callback (m_dispatcher m)) (m_reactor m) (m_worker m).

(** The statements before the loop: validate, split, create the ticket and
    announce it. *)
Definition start (op : TicketOp) (uid offset length : Z)
    : prog (MinionManager P CB * W) (T * list StripeSegment) :=
  ValidateRange offset length ;;
  segments ← (fun s => (Split offset length (m_MBMinion s.1)
                          (Z.of_nat (List.length (m_minions s.1))), s));
  ticket ← on_snd (new_ticket (make_Ticket uid op length segments));
  callbacks ← gets (fun s => m_dispatcher s.1);
  on_snd (Notify (fun c => notify c ticket uid) callbacks) ;;
  mret (ticket, segments).

(** One iteration of the loops. *)
Definition read_segment (uid : Z) (ticket : T) (x : nat * StripeSegment)
    : prog (MinionManager P CB * W) unit :=
  let '(segIdx, seg) := x in
  minion (primaryMinionIndex seg)
    (add_read uid (localOffset seg) (seg_length seg) (onDone ticket segIdx PRIMARY)) ;;
  minion (backupMinionIndex seg)
    (add_read uid (localOffset seg) (seg_length seg) (onDone ticket segIdx BACKUP)).

Definition write_segment (uid : Z) (ticket : T) (buffer : option cells)
    (x : nat * StripeSegment) : prog (MinionManager P CB * W) unit :=
  let '(segIdx, seg) := x in
  slice ← lift (copy_from (drop (Z.to_nat (bufferOffset seg)) <$> buffer) (seg_length seg));
  minion (primaryMinionIndex seg)
    (add_write uid (localOffset seg) (seg_length seg) (Some slice) (onDone ticket segIdx PRIMARY)) ;;
  minion (backupMinionIndex seg)
    (add_write uid (localOffset seg) (seg_length seg) (Some slice) (onDone ticket segIdx BACKUP)).

Definition AddReadTask (uid offset length : Z) : prog (MinionManager P CB * W) unit :=
  '(ticket, segments) ← start READ uid offset length;
  for_each (read_segment uid ticket) (imap pair segments).

Definition AddWriteTask (uid offset length : Z) (buffer : option cells)
    : prog (MinionManager P CB * W) unit :=
  '(ticket, segments) ← start WRITE uid offset length;
  for_each (write_segment uid ticket buffer) (imap pair segments).
End MinionManager.

(** ** What the loops do *)

Section dispatching.
Context {P C W CB T TCB : Type} `{HasLog W} `{!IMinionProxy P C W}.
Context (new_ticket : Ticket TCB -> prog W T) (notify : CB -> T -> Z -> prog W unit)
  (onDone : T -> nat -> MirrorRole -> C).
Implicit Types m : MinionManager P CB.

(** A task: the index of the minion, the continuation, the message. *)
Definition task : Type := Z * C * AMessage.

Definition tasks_for (j : nat) (l : list task) : list task :=
  filter (fun t => Z.to_nat t.1.1 = j) l.

(** The proxies [ps'] are the proxies [ps] after the tasks [l]: each minion was
    sent the packets of its tasks, in order, and the continuation of the last
    one waits. *)
Definition served (uid : Z) (l : list task) (ps ps' : list P) : Prop :=
  length ps' = length ps /\ forall j p p', ps !! j = Some p -> ps' !! j = Some p' ->
    up p' /\ minion_fd p' = minion_fd p /\ peer p' = peer p /\ inbox p' = inbox p
    /\ outbox p' = outbox p ++ ((fun t => (peer p, packet_of t.2)) <$> tasks_for j l)
    /\ waiting p' = match last (tasks_for j l) with
                    | Some t => <[uid := t.1.2]> (waiting p)
                    | None => waiting p
                    end.

Lemma tasks_for_app j l1 l2 : tasks_for j (l1 ++ l2) = tasks_for j l1 ++ tasks_for j l2.
Proof. apply filter_app. Qed.

Lemma tasks_for_snoc j l i c msg :
  tasks_for j (l ++ [(i, c, msg)])
  = if decide (Z.to_nat i = j) then tasks_for j l ++ [(i, c, msg)] else tasks_for j l.
Proof.
  unfold tasks_for. rewrite filter_app, filter_cons, filter_nil. simpl.
  case_decide; [done|apply app_nil_r].
Qed.

Lemma served_nil uid ps : Forall up ps -> served uid [] ps ps.
Proof.
  intros Hup. split; [done|]. intros j p p' Hj Hj'. simplify_eq.
  rewrite Forall_lookup in Hup. rewrite app_nil_r. by eauto 7.
Qed.

Lemma served_snoc uid l ps ps1 i c msg p1 p2 :
  served uid l ps ps1 -> ps1 !! Z.to_nat i = Some p1 ->
  up p2 -> minion_fd p2 = minion_fd p1 -> peer p2 = peer p1 -> inbox p2 = inbox p1 ->
  outbox p2 = outbox p1 ++ [(peer p1, packet_of msg)] ->
  waiting p2 = <[uid := c]> (waiting p1) ->
  served uid (l ++ [(i, c, msg)]) ps (<[Z.to_nat i := p2]> ps1).
Proof.
  intros [Hlen Hs] Hi Hup Hfd Hpe Hib Hout Hwait. split; [by rewrite length_insert|].
  intros j p p' Hj Hj'. rewrite tasks_for_snoc.
  destruct (decide (Z.to_nat i = j)) as [<-|Hne].
  - rewrite list_lookup_insert_eq in Hj' by (apply lookup_lt_Some in Hi; lia). injection Hj' as <-.
    destruct (Hs _ p p1 Hj Hi) as (_ & Hfd1 & Hpe1 & Hib1 & Hout1 & Hwait1).
    rewrite last_snoc, fmap_app, app_assoc, Hout, Hwait, Hwait1, <-Hout1, Hfd, Hpe, Hib, <-Hpe1. simpl.
    split; [done|]. split; [done|]. split; [done|]. split; [done|]. split; [done|].
    destruct (last _); [apply insert_insert_eq|done].
  - rewrite list_lookup_insert_ne in Hj' by done. by apply Hs.
Qed.

(** A piece of code whose effect is to serve the tasks [l]. *)
Definition serves (N : nat) (uid : Z) (body : prog (MinionManager P CB * W) unit)
    (l : list task) : Prop :=
  forall ps l0 m w, length ps = N -> served uid l0 ps (m_minions m) ->
    exists ps' logs, body (m, w) = (Ok tt, (set_minions ps' m, add_logs logs w))
      /\ served uid (l0 ++ l) ps ps'.

Lemma set_minions_twice l l' m : set_minions l (set_minions l' m) = set_minions l m.
Proof. done. Qed.

Lemma set_minions_id m : set_minions (m_minions m) m = m.
Proof. by destruct m. Qed.

Lemma serves_nil N uid : serves N uid (mret tt) [].
Proof.
  intros ps l0 m w _ Hs. exists (m_minions m), []. by rewrite set_minions_id, app_nil_r.
Qed.

Lemma serves_bind N uid body1 body2 l1 l2 :
  serves N uid body1 l1 -> serves N uid body2 l2 ->
  serves N uid (body1 ;; body2) (l1 ++ l2).
Proof.
  intros H1 H2 ps l0 m w Hlen Hs.
  destruct (H1 ps l0 m w Hlen Hs) as (ps1 & logs1 & E1 & Hs1).
  destruct (H2 ps (l0 ++ l1) (set_minions ps1 m) (add_logs logs1 w) Hlen Hs1)
    as (ps2 & logs2 & E2 & Hs2).
  exists ps2, (logs1 ++ logs2). rewrite (bind_ok _ _ _ _ _ E1), E2, add_logs_app, app_assoc. done.
Qed.

Lemma serves_for_each {A} N uid (f : A -> prog (MinionManager P CB * W) unit) (g : A -> list task) xs :
  (forall x, x ∈ xs -> serves N uid (f x) (g x)) -> serves N uid (for_each f xs) (xs ≫= g).
Proof.
  induction xs as [|x xs IH]; intros Hf; [apply serves_nil|].
  apply serves_bind; [apply Hf|apply IH]; set_solver.
Qed.

Lemma serves_minion N uid i c msg (f : prog (P * W) unit) :
  (Z.to_nat i < N)%nat ->
  (forall p w, up p -> exists p' logs, f (p, w) = (Ok tt, (p', add_logs logs w))
     /\ waiting p' = <[uid := c]> (waiting p) /\ minion_fd p' = minion_fd p /\ peer p' = peer p
     /\ inbox p' = inbox p /\ up p'
     /\ outbox p' = outbox p ++ [(peer p, packet_of msg)]) ->
  serves N uid (minion i f) [(i, c, msg)].
Proof.
  intros Hi Hf ps l0 m w Hlen Hs. unfold minion. cbn [fst snd].
  destruct (m_minions m !! Z.to_nat i) as [p1|] eqn:E.
  2:{ apply lookup_ge_None in E. destruct Hs as [Hl _]. lia. }
  destruct (lookup_lt_is_Some_2 ps (Z.to_nat i) ltac:(lia)) as [p0 Hp0].
  destruct (proj2 Hs _ p0 p1 Hp0 E) as (Hup & _).
  destruct (Hf p1 w Hup) as (p2 & logs & -> & Hw & Hfd & Hpe & Hib & Hup2 & Hout).
  exists (<[Z.to_nat i := p2]> (m_minions m)), logs. split; [done|]. by eapply served_snoc.
Qed.

(** The tasks of a request. *)
Definition segment_tasks (ticket : T) (message : StripeSegment -> AMessage)
    (x : nat * StripeSegment) : list task :=
  [(primaryMinionIndex x.2, onDone ticket x.1 PRIMARY, message x.2);
   (backupMinionIndex x.2, onDone ticket x.1 BACKUP, message x.2)].

Definition read_message (uid : Z) (seg : StripeSegment) : AMessage :=
  ReadSend (MessageReadSend.mk uid (localOffset seg) (seg_length seg)).

Definition write_message (uid : Z) (buffer : cells) (seg : StripeSegment) : AMessage :=
  WriteSend (MessageWriteSend.mk uid (localOffset seg) (seg_length seg)
    (Some (read_cells (Z.to_nat (seg_length seg)) (drop (Z.to_nat (bufferOffset seg)) buffer)))).

Lemma serves_read_segment chunk N len uid ticket x :
  in_u64 uid -> Z.of_nat N * chunk < 2 ^ 64 -> 0 < chunk ->
  segment_ok len chunk (Z.of_nat N) x.2 ->
  serves N uid (read_segment onDone uid ticket x)
    (segment_tasks ticket (read_message uid) x).
Proof.
  destruct x as [i seg]. intros Hu HN Hc (Hlo & Hsl & Hin & _ & _ & Hp & Hb & _). simpl in *.
  assert (Hop : forall c p (w : W), up p ->
    exists p' logs, add_read uid (localOffset seg) (seg_length seg) c (p, w)
      = (Ok tt, (p', add_logs logs w))
      /\ waiting p' = <[uid := c]> (waiting p) /\ minion_fd p' = minion_fd p /\ peer p' = peer p
     /\ inbox p' = inbox p /\ up p'
      /\ outbox p' = outbox p ++ [(peer p, packet_of (read_message uid seg))]).
  { intros c p w Hup. destruct (add_read_spec uid (localOffset seg) (seg_length seg) c p w)
      as (r & p' & logs & E & Hw & Hfd & Hpe & Hib & Hok & Hout); [done|nia|nia|].
    destruct (Hok Hup) as [-> Hup']. exists p', logs.
    destruct Hout as [[_ Hout]|(e & ? & _)]; [done|discriminate]. }
  unfold segment_tasks. cbn [fst snd].
  apply (serves_bind N uid _ _ [_] [_]); (apply serves_minion; [lia|apply Hop]).
Qed.

Lemma serves_write_segment chunk N len uid ticket buffer x :
  in_u64 uid -> Z.of_nat N * chunk < 2 ^ 64 -> 0 < chunk -> len < 2 ^ 31 ->
  segment_ok len chunk (Z.of_nat N) x.2 ->
  serves N uid (write_segment onDone uid ticket (Some buffer) x)
    (segment_tasks ticket (write_message uid buffer) x).
Proof.
  destruct x as [i seg]. intros Hu HN Hc Hlen (Hlo & Hsl & Hin & Hbo & Hbl & Hp & Hb & _). simpl in *.
  assert (Hop : forall c p (w : W), up p ->
    exists p' logs, add_write uid (localOffset seg) (seg_length seg)
        (Some (read_cells (Z.to_nat (seg_length seg)) (drop (Z.to_nat (bufferOffset seg)) buffer))) c (p, w)
      = (Ok tt, (p', add_logs logs w))
      /\ waiting p' = <[uid := c]> (waiting p) /\ minion_fd p' = minion_fd p /\ peer p' = peer p
     /\ inbox p' = inbox p /\ up p'
      /\ outbox p' = outbox p ++ [(peer p, packet_of (write_message uid buffer seg))]).
  { intros c p w Hup. destruct (add_write_spec uid (localOffset seg) (seg_length seg)
      (Some (read_cells (Z.to_nat (seg_length seg)) (drop (Z.to_nat (bufferOffset seg)) buffer))) c p w)
      as (r & p' & logs & E & Hw & Hfd & Hpe & Hib & Hok & Hout); [done|nia|lia|done|].
    destruct (Hok Hup) as [-> Hup']. exists p', logs.
    destruct Hout as [[_ Hout]|(e & ? & _)]; [done|discriminate]. }
  unfold segment_tasks. cbn [fst snd].
  apply (serves_bind N uid _ _ [_] [_]); (apply serves_minion; [lia|apply Hop]).
Qed.

(** ** What a request leaves alone

    Whatever happens to a request, also when it throws half-way: the state
    behind the manager changes only by the new ticket, its announcement and log
    entries, and the maps of the proxies only by continuations of the new
    ticket. *)

Section frame.
Context (Q : W -> Prop) (R : P -> Prop).
Hypothesis Q_logs : forall logs w, Q w -> Q (add_logs logs w).

Definition keeps (s : MinionManager P CB * W) (s0 : MinionManager P CB) : Prop :=
  Q s.2 /\ Forall R (m_minions s.1) /\ s.1 = set_minions (m_minions s.1) s0
  /\ length (m_minions s.1) = length (m_minions s0).

Lemma minion_frame i (f : prog (P * W) unit) s m0 :
  (forall p w, let '(_, (p', w')) := f (p, w) in
    (exists logs, w' = add_logs logs w) /\ (R p -> R p')) ->
  keeps s m0 -> keeps (minion i f s).2 m0.
Proof.
  intros Hf (HQ & HR & Hs & Hlen). unfold minion. destruct s as [m w]. cbn [fst snd] in *.
  destruct (m_minions m !! Z.to_nat i) as [p|] eqn:E; [|done].
  specialize (Hf p w). destruct (f (p, w)) as [r [p' w']]. destruct Hf as [[logs ->] Hp].
  unfold keeps. cbn [fst snd set_minions m_minions]. split; [by apply Q_logs|].
  split; [|by rewrite length_insert, Hs].
  apply Forall_insert; [done|]. apply Hp. rewrite Forall_lookup in HR. by eapply HR.
Qed.

Lemma bind_frame {A} (body1 : prog (MinionManager P CB * W) A)
    (body2 : A -> prog (MinionManager P CB * W) unit) s m0 :
  keeps (body1 s).2 m0 -> (forall a s, keeps s m0 -> keeps (body2 a s).2 m0) ->
  keeps ((body1 ≫= body2) s).2 m0.
Proof.
  intros H1 H2. unfold mbind, prog_bind. destruct (body1 s) as [[a|e| |] s1]; try done.
  by apply H2.
Qed.

Context (ticket : T) (uid : Z).
Hypothesis R_waiting : forall (p p' : P) k role,
  (waiting p' = waiting p \/ waiting p' = <[uid := onDone ticket k role]> (waiting p)) -> R p -> R p'.

Lemma read_segment_frame x s m0 : keeps s m0 -> keeps (read_segment onDone uid ticket x s).2 m0.
Proof.
  destruct x as [k seg]. intros Hs. unfold read_segment. apply bind_frame; [|intros _ s' Hs'].
  all: apply minion_frame; [|done]; intros p w;
    match goal with |- context [add_read ?u ?o ?l ?c (p, w)] =>
      pose proof (add_read_frame u o l c p w) as Hf;
      destruct (add_read u o l c (p, w)) as [r [p' w']] end;
    destruct Hf as [Hl Hw]; split; [done|]; by eapply R_waiting.
Qed.

Lemma write_segment_frame buffer x s m0 :
  keeps s m0 -> keeps (write_segment onDone uid ticket buffer x s).2 m0.
Proof.
  destruct x as [k seg]. intros Hs. unfold write_segment. apply bind_frame; [done|].
  intros slice s1 Hs1. apply bind_frame; [|intros _ s' Hs'].
  all: apply minion_frame; [|done]; intros p w;
    match goal with |- context [add_write ?u ?o ?l ?d ?c (p, w)] =>
      pose proof (add_write_frame u o l d c p w) as Hf;
      destruct (add_write u o l d c (p, w)) as [r [p' w']] end;
    destruct Hf as [Hl Hw]; split; [done|]; by eapply R_waiting.
Qed.
End frame.

(** A whole command, however it ends: [Q] is kept by creating and announcing
    tickets of this request. *)
Section command.
Context (Q : W -> Prop) (op : TicketOp) (uid offset length : Z) (buffer : option cells).
Hypothesis Q_logs : forall logs w, Q w -> Q (add_logs logs w).
Hypothesis Q_ticket : forall segs w, Q w -> Q (new_ticket (make_Ticket uid op length segs) w).2.
Hypothesis Q_notify : forall c ticket w, Q w -> Q (notify c ticket uid w).2.

Lemma start_frame m w :
  Q w -> let '(_, (m', w')) := start new_ticket notify op uid offset length (m, w) in
         m' = m /\ Q w'.
Proof.
  intros HQ. unfold start, ValidateRange, Notify. run_prog. cbn [fst snd].
  destruct (m_driveSize m <? _); cbn [fst snd]; [done|].
  destruct (Split _ _ _ _) as [segs|e| |]; cbn [fst snd]; try done.
  pose proof (Q_ticket segs w HQ) as HQ1.
  destruct (new_ticket _ w) as [[ticket|e| |] w1]; cbn [fst snd] in HQ1 |- *; try done.
  assert (HQ2 : Q (for_each (fun c => notify c ticket uid) (m_dispatcher m) w1).2)
    by (apply for_each_inv; [intros c w2 _; apply Q_notify|done]).
  by destruct (for_each _ _ w1) as [[[]|e| |] w2].
Qed.

Lemma command_frame (loop : T -> nat * StripeSegment -> prog (MinionManager P CB * W) unit) m w :
  (forall ticket x s, keeps Q (fun _ => True) s m -> keeps Q (fun _ => True) (loop ticket x s).2 m) ->
  Q w ->
  keeps Q (fun _ => True)
    (('(ticket, segments) ← start new_ticket notify op uid offset length;
      for_each (loop ticket) (imap pair segments)) (m, w)).2 m.
Proof.
  intros Hloop HQ. pose proof (start_frame m w HQ) as Hs.
  assert (Hm : forall w', Q w' -> keeps Q (fun _ => True) (m, w') m).
  { intros w' HQ'. split; [done|]. split; [by apply Forall_true|]. by rewrite set_minions_id. }
  unfold mbind, prog_bind. destruct (start _ _ _ _ _ _ (m, w)) as [r [m' w']].
  destruct Hs as [-> HQ']. destruct r as [[ticket segments]|e| |]; try by apply Hm.
  apply (for_each_inv (fun s => keeps Q (fun _ => True) s m)); [|by apply Hm].
  intros x s _. apply Hloop.
Qed.

Lemma AddTask_frame m w :
  Q w ->
  (op = READ -> keeps Q (fun _ => True)
     (AddReadTask new_ticket notify onDone uid offset length (m, w)).2 m) /\
  (op = WRITE -> keeps Q (fun _ => True)
     (AddWriteTask new_ticket notify onDone uid offset length buffer (m, w)).2 m).
Proof.
  intros HQ. split; intros Hop; unfold AddReadTask, AddWriteTask; rewrite <-Hop.
  - apply command_frame; [|done]. intros ticket x s. by eapply read_segment_frame.
  - apply command_frame; [|done]. intros ticket x s. by eapply write_segment_frame.
Qed.
End command.

(** The statements before the loop, however they end. *)
Lemma start_cases op uid offset length m w :
  let '(r, (m', w')) := start new_ticket notify op uid offset length (m, w) in
  m' = m /\
  ((w' = w /\ forall x, r <> Ok x) \/
   exists segs,
     let '(rt, w1) := new_ticket (make_Ticket uid op length segs) w in
     match rt with
     | Ok ticket => let '(rn, w2) := for_each (fun c => notify c ticket uid) (m_dispatcher m) w1 in
                    w' = w2 /\ match r with Ok x => x = (ticket, segs) | _ => True end
     | _ => w' = w1 /\ forall x, r <> Ok x
     end).
Proof.
  unfold start, ValidateRange, Notify. run_prog. cbn [fst snd].
  destruct (m_driveSize m <? _); cbn [fst snd]; [split; [done|by left]|].
  destruct (Split _ _ _ _) as [segs|e| |]; cbn [fst snd]; try (split; [done|by left]).
  destruct (new_ticket _ w) as [rt w1] eqn:E.
  destruct rt as [ticket|e| |]; cbn [fst snd];
    try (split; [done|]; right; exists segs; by rewrite E).
  destruct (for_each _ _ w1) as [[[]|e| |] w2] eqn:E2; cbn [fst snd];
    (split; [done|]; right; exists segs; by rewrite E, E2).
Qed.

(** ** A whole request *)

(** A manager after [Init], on a drive of less than [2 ^ 64] bytes. *)
Definition manager_ok m : Prop :=
  let N := Z.of_nat (length (m_minions m)) in
  0 < m_MBMinion m /\ 0 < N /\ m_driveSize m = N * m_MBMinion m /\ N * m_MBMinion m < 2 ^ 64.

Definition in_range m (offset length : Z) : Prop :=
  0 <= offset /\ 0 <= length < 2 ^ 31 /\ offset + length <= m_driveSize m.

(** A request, and its message for a segment. *)
Definition add_task (op : TicketOp) (uid offset length : Z) (buffer : cells)
    : prog (MinionManager P CB * W) unit :=
  match op with
  | READ => AddReadTask new_ticket notify onDone uid offset length
  | WRITE => AddWriteTask new_ticket notify onDone uid offset length (Some buffer)
  end.

Definition message (op : TicketOp) (uid : Z) (buffer : cells) : StripeSegment -> AMessage :=
  match op with READ => read_message uid | WRITE => write_message uid buffer end.

(** The ticket of the request is created and announced. *)
Definition announced m (op : TicketOp) (uid length : Z) (segs : list StripeSegment)
    (w : W) (ticket : T) (w2 : W) : Prop :=
  exists w1, new_ticket (make_Ticket uid op length segs) w = (Ok ticket, w1)
    /\ for_each (fun c => notify c ticket uid) (m_dispatcher m) w1 = (Ok tt, w2).

Lemma manager_split m offset length :
  manager_ok m -> in_range m offset length ->
  exists segs, Split offset length (m_MBMinion m) (Z.of_nat (List.length (m_minions m))) = Ok segs.
Proof.
  intros (Hc & HN & Hd & Hmax) (Ho & Hl & Hr). apply Split_returns; nia.
Qed.

Lemma start_ok op uid offset length m w w2 ticket segs :
  manager_ok m -> in_range m offset length ->
  Split offset length (m_MBMinion m) (Z.of_nat (List.length (m_minions m))) = Ok segs ->
  announced m op uid length segs w ticket w2 ->
  start new_ticket notify op uid offset length (m, w) = (Ok (ticket, segs), (m, w2)).
Proof.
  intros (Hc & HN & Hd & Hmax) (Ho & Hl & Hr) Hs (w1 & E1 & E2).
  unfold start, ValidateRange, Notify. run_prog. cbn [fst snd].
  rewrite u64_small, (proj2 (Z.ltb_ge _ _)) by lia. cbn [fst snd]. rewrite Hs.
  cbn [fst snd]. rewrite E1. cbn [fst snd]. by rewrite E2.
Qed.

Lemma add_task_served op uid offset length buffer m w w2 ticket segs :
  manager_ok m -> in_range m offset length -> in_u64 uid -> Forall up (m_minions m) ->
  Split offset length (m_MBMinion m) (Z.of_nat (List.length (m_minions m))) = Ok segs ->
  announced m op uid length segs w ticket w2 ->
  exists ps' logs, add_task op uid offset length buffer (m, w)
      = (Ok tt, (set_minions ps' m, add_logs logs w2))
    /\ served uid (imap pair segs ≫= segment_tasks ticket (message op uid buffer)) (m_minions m) ps'.
Proof.
  intros Hm Hr Hu Hup Hs Ha.
  pose proof (start_ok op uid offset length m w w2 ticket segs Hm Hr Hs Ha) as Estart.
  destruct Hm as (Hc & HN & Hd & Hmax). destruct Hr as (Ho & Hl & Hr).
  assert (Hok : Forall (segment_ok length (m_MBMinion m) (Z.of_nat (List.length (m_minions m)))) segs)
    by (eapply Split_ok; [.. | exact Hs]; lia).
  assert (Hx : forall x, x ∈ imap pair segs ->
    segment_ok length (m_MBMinion m) (Z.of_nat (List.length (m_minions m))) x.2).
  { intros x (i & seg & -> & Hi)%elem_of_lookup_imap_1.
    rewrite Forall_lookup in Hok. simpl. by eapply Hok. }
  assert (Hserves : forall body, add_task op uid offset length buffer (m, w) = body (m, w2) ->
    serves (List.length (m_minions m)) uid body
      (imap pair segs ≫= segment_tasks ticket (message op uid buffer)) ->
    exists ps' logs, add_task op uid offset length buffer (m, w)
        = (Ok tt, (set_minions ps' m, add_logs logs w2))
      /\ served uid (imap pair segs ≫= segment_tasks ticket (message op uid buffer)) (m_minions m) ps').
  { intros body -> Hb.
    destruct (Hb (m_minions m) [] m w2 eq_refl (served_nil uid _ Hup)) as (ps' & logs & E & Hps).
    by exists ps', logs. }
  destruct op.
  - apply (Hserves (for_each (read_segment onDone uid ticket) (imap pair segs))).
    { unfold add_task, AddReadTask. by rewrite (bind_ok _ _ _ _ _ Estart). }
    apply serves_for_each. intros x Hin. eapply serves_read_segment; [done| |exact Hc|by apply Hx]. lia.
  - apply (Hserves (for_each (write_segment onDone uid ticket (Some buffer)) (imap pair segs))).
    { unfold add_task, AddWriteTask. by rewrite (bind_ok _ _ _ _ _ Estart). }
    apply serves_for_each. intros x Hin.
    eapply serves_write_segment; [done| |exact Hc| |by apply Hx]; lia.
Qed.

(** The continuation that waits at a minion is one of the last segment that
    touches it. *)
Lemma last_task_later j i segs ticket msg t seg' :
  segs !! S i = Some seg' -> Z.to_nat (primaryMinionIndex seg') = j ->
  last (tasks_for j (imap pair segs ≫= segment_tasks ticket msg)) = Some t ->
  exists k role, (i < k)%nat /\ t.1.2 = onDone ticket k role.
Proof.
  intros Hi Hj. rewrite <-(take_drop (S i) segs), imap_app, bind_app.
  rewrite length_take_le by (apply lookup_lt_Some in Hi; lia).
  rewrite tasks_for_app.
  set (later := imap _ (drop (S i) segs) ≫= _).
  assert (Hall : forall t, t ∈ later -> exists k role, (i < k)%nat /\ t.1.2 = onDone ticket k role).
  { unfold later. intros t' (x & Hx & Hin)%list_elem_of_bind.
    apply elem_of_lookup_imap_1 in Hin as (k & seg & -> & _).
    unfold segment_tasks in Hx. simpl in Hx.
    apply elem_of_cons in Hx as [->|Hx]; [|apply list_elem_of_singleton in Hx as ->];
      eexists (S i + k)%nat, _; (split; [lia|reflexivity]). }
  assert (Hne : tasks_for j later <> []).
  { unfold later, tasks_for. rewrite (drop_S segs seg' (S i)) by done. cbn [imap mbind list_bind app segment_tasks].
    rewrite filter_cons. simpl. by rewrite decide_True by done. }
  rewrite last_app. destruct (last (tasks_for j later)) as [t'|] eqn:E.
  - intros [= <-]. apply last_Some_elem_of, list_elem_of_filter in E as [_ E]. by apply Hall.
  - by apply last_None in E.
Qed.

Lemma task_of_backup j i segs ticket msg t :
  (forall k r k' r', onDone ticket k r = onDone ticket k' r' -> k = k' /\ r = r') ->
  last (tasks_for j (imap pair segs ≫= segment_tasks ticket msg)) = Some t ->
  t.1.2 = onDone ticket i BACKUP ->
  exists seg, segs !! i = Some seg /\ Z.to_nat (backupMinionIndex seg) = j.
Proof.
  intros Hinj Hlast Ht. unfold tasks_for in Hlast. apply last_Some_elem_of, list_elem_of_filter in Hlast as [Hj Hin].
  apply list_elem_of_bind in Hin as (x & Hx & Hin).
  apply elem_of_lookup_imap_1 in Hin as (k & seg & -> & Hk).
  unfold segment_tasks in Hx. simpl in Hx.
  apply elem_of_cons in Hx as [->|Hx]; [|apply list_elem_of_singleton in Hx as ->]; simpl in *.
  - by apply Hinj in Ht as [_ ?].
  - apply Hinj in Ht as [<- _]. eauto.
Qed.
(** The continuation for the backup of a segment is gone once the next segment
    was sent. *)
Lemma lost_backup op uid offset length buffer m w w2 ticket segs i :
  manager_ok m -> in_range m offset length -> in_u64 uid -> Forall up (m_minions m) ->
  Split offset length (m_MBMinion m) (Z.of_nat (List.length (m_minions m))) = Ok segs ->
  announced m op uid length segs w ticket w2 ->
  (forall k r k' r', onDone ticket k r = onDone ticket k' r' -> k = k' /\ r = r') ->
  Forall (fun p => waiting p !! uid = None) (m_minions m) ->
  (S i < List.length segs)%nat ->
  exists ps' logs, add_task op uid offset length buffer (m, w)
      = (Ok tt, (set_minions ps' m, add_logs logs w2))
    /\ Forall (fun p' => waiting p' !! uid <> Some (onDone ticket i BACKUP)) ps'.
Proof.
  intros Hm Hr Hu Hup Hsplit Hticket Hinj Hfresh Hi.
  destruct (add_task_served op uid offset length buffer m w w2 ticket segs
    Hm Hr Hu Hup Hsplit Hticket) as (ps' & logs & E & Hl & Hserved).
  exists ps', logs. split; [exact E|].
  rewrite Forall_lookup. intros j p' Hj' Hwait.
  destruct (lookup_lt_is_Some_2 (m_minions m) j) as [p Hj];
    [apply lookup_lt_Some in Hj'; lia|].
  rewrite Forall_lookup in Hfresh. specialize (Hfresh j p Hj).
  destruct (Hserved j p p' Hj Hj') as (_ & _ & _ & _ & _ & Hw). rewrite Hw in Hwait.
  destruct (last (tasks_for j _)) as [t|] eqn:El; [|congruence].
  rewrite lookup_insert_eq in Hwait. injection Hwait as Ht.
  destruct (task_of_backup j i segs ticket _ t Hinj El Ht) as (seg & Hseg & Hback).
  destruct (lookup_lt_is_Some_2 segs (S i) Hi) as [seg' Hseg'].
  assert (Hnext : backupMinionIndex seg = primaryMinionIndex seg').
  { destruct Hm as (Hc & HN & Hd & Hmax), Hr as (Ho & Hlen & Hr).
    eapply Split_next; [.. | exact Hsplit | exact Hseg | exact Hseg']; lia. }
  rewrite Hnext in Hback.
  destruct (last_task_later j i segs ticket _ t seg' Hseg' Hback El) as (k & role & Hk & Hc).
  rewrite Hc in Ht. apply Hinj in Ht as [-> _]. lia.
Qed.
End dispatching.

(** ** Properties *)

(** C11: a request for a range of the drive reaches the right minions: the ticket
    is announced first, then every segment is sent to its primary and to its
    backup, so that each minion is sent exactly the packets of its segments, in
    order, to the address of its proxy, with the segment's offset in the chunk, its length and, for a write,
    its part of the data; nothing else changes but the log. *)
Theorem request_dispatched {P C W CB T TCB : Type} `{HasLog W} `{!IMinionProxy P C W}
    (new_ticket : Ticket TCB -> prog W T) (notify : CB -> T -> Z -> prog W unit)
    (onDone : T -> nat -> MirrorRole -> C)
    (op : TicketOp) (uid offset length : Z) (buffer : cells) (m : MinionManager P CB)
    (w w2 : W) (ticket : T)
    (Hm : manager_ok m) (Hr : in_range m offset length) (Hu : in_u64 uid)
    (Hup : Forall up (m_minions m))
    (Hticket : forall segs, announced new_ticket notify m op uid length segs w ticket w2) :
  exists segs ps' logs,
    Split offset length (m_MBMinion m) (Z.of_nat (List.length (m_minions m))) = Ok segs
    /\ add_task new_ticket notify onDone op uid offset length buffer (m, w)
       = (Ok tt, (set_minions ps' m, add_logs logs w2))
    /\ List.length ps' = List.length (m_minions m)
    /\ forall j p p', m_minions m !! j = Some p -> ps' !! j = Some p' ->
       outbox p' = outbox p ++ ((fun t => (peer p, packet_of t.2)) <$>
         tasks_for j (imap pair segs ≫= segment_tasks onDone ticket (message op uid buffer))).
Proof.
  destruct (manager_split m offset length Hm Hr) as [segs Hs].
  destruct (add_task_served new_ticket notify onDone op uid offset length buffer m w w2 ticket segs
    Hm Hr Hu Hup Hs (Hticket segs)) as (ps' & logs & E & Hl & Hserved).
  exists segs, ps', logs. split; [done|]. split; [done|]. split; [done|].
  intros j p p' Hj Hj'. by destruct (Hserved j p p' Hj Hj') as (_ & _ & _ & _ & ? & _).
Qed.

(** Three minions with chunks of eight bytes. *)
Definition sample_proxy (fd : Z) : MinionProxy (nat * nat * MirrorRole) :=
  mk_MinionProxy (UDPSocket.mk fd fd [] [] []) ∅.
Definition sample_manager : MinionManager (MinionProxy (nat * nat * MirrorRole)) unit :=
  mk_MinionManager 8 24 [sample_proxy 3; sample_proxy 4; sample_proxy 5] [] ∅ false.
Definition sample_closure (ticket idx : nat) (role : MirrorRole) := (ticket, idx, role).
Definition no_ticket (t : Ticket ticket_callback) : prog World nat := mret 0%nat.

Lemma request_dispatched_witness :
  let w := mk_World [] 0 [] in
  exists segs ps' logs,
    Split 6 9 8 3 = Ok segs
    /\ add_task no_ticket (fun _ _ _ => mret tt) sample_closure WRITE 1 6 9
         (replicate 9 (Some Byte.x61)) (sample_manager, w)
       = (Ok tt, (set_minions ps' sample_manager, add_logs logs w))
    /\ List.length ps' = 3%nat
    /\ forall j p p', m_minions sample_manager !! j = Some p -> ps' !! j = Some p' ->
       outbox p' = outbox p ++ ((fun t => (peer p, packet_of t.2)) <$>
         tasks_for j (imap pair segs ≫= segment_tasks sample_closure 0%nat
           (message WRITE 1 (replicate 9 (Some Byte.x61))))).
Proof.
  intros w. apply (request_dispatched no_ticket (fun _ _ _ => mret tt) sample_closure WRITE 1 6 9 _
    sample_manager w w 0%nat).
  - repeat split; simpl; lia.
  - repeat split; simpl; lia.
  - lia.
  - repeat constructor.
  - intros segs. exists w. done.
Defined.

(** The answers of the backups get lost: when a request crosses a chunk
    boundary, the backup of a segment is the primary of the next one, both are
    asked under the identity of the request, and the second continuation takes
    the place of the first. After the command, no minion has a continuation for
    the backup role of any segment but the last. *)
Theorem backup_answer_lost {P C W CB T TCB : Type} `{HasLog W} `{!IMinionProxy P C W}
    (new_ticket : Ticket TCB -> prog W T) (notify : CB -> T -> Z -> prog W unit)
    (onDone : T -> nat -> MirrorRole -> C)
    (op : TicketOp) (uid offset length : Z) (buffer : cells) (m : MinionManager P CB)
    (w w2 : W) (ticket : T) segs (i : nat)
    (Hm : manager_ok m) (Hr : in_range m offset length) (Hu : in_u64 uid)
    (Hup : Forall up (m_minions m))
    (Hsplit : Split offset length (m_MBMinion m) (Z.of_nat (List.length (m_minions m))) = Ok segs)
    (Hticket : announced new_ticket notify m op uid length segs w ticket w2)
    (Hinj : forall k r k' r', onDone ticket k r = onDone ticket k' r' -> k = k' /\ r = r')
    (Hfresh : Forall (fun p => waiting p !! uid = None) (m_minions m))
    (Hi : (S i < List.length segs)%nat) :
  exists m' w', add_task new_ticket notify onDone op uid offset length buffer (m, w)
      = (Ok tt, (m', w'))
    /\ Forall (fun p' => waiting p' !! uid <> Some (onDone ticket i BACKUP)) (m_minions m').
Proof.
  destruct (lost_backup new_ticket notify onDone op uid offset length buffer m w w2 ticket segs i
    Hm Hr Hu Hup Hsplit Hticket Hinj Hfresh Hi) as (ps' & logs & E & Hlost).
  by eexists _, _.
Qed.

Lemma backup_answer_lost_witness :
  let w := mk_World [] 0 [] in
  exists m' w', add_task no_ticket (fun _ _ _ => mret tt) sample_closure WRITE 1 6 9
         (replicate 9 (Some Byte.x61)) (sample_manager, w) = (Ok tt, (m', w'))
    /\ Forall (fun p' => waiting p' !! 1 <> Some (sample_closure 0 0 BACKUP)) (m_minions m').
Proof.
  intros w. apply (backup_answer_lost no_ticket (fun _ _ _ => mret tt) sample_closure WRITE 1 6 9 _
    sample_manager w w 0%nat [mk_StripeSegment 6 2 0 0 1; mk_StripeSegment 0 7 2 1 2] 0).
  - repeat split; simpl; lia.
  - repeat split; simpl; lia.
  - lia.
  - repeat constructor.
  - reflexivity.
  - exists w. done.
  - intros k r k' r' [= -> ->]. done.
  - repeat constructor.
  - simpl. lia.
Defined.

(** C40: the bounds check wraps around: a request that runs over the end of the
    64-bit address space is let through when the wrapped sum is small, and then
    indexes the list of minions past its end. *)
Theorem range_check_wraps {P C W CB T TCB : Type} `{HasLog W} `{!IMinionProxy P C W}
    (new_ticket : Ticket TCB -> prog W T) (notify : CB -> T -> Z -> prog W unit)
    (onDone : T -> nat -> MirrorRole -> C)
    (uid offset length : Z) (m : MinionManager P CB) (w w2 : W) (ticket : T)
    (Hm : manager_ok m) (Ho : in_u64 offset) (Hl : 0 < length < 2 ^ 32)
    (Hover : 2 ^ 64 <= offset + length) (Hwrap : offset + length - 2 ^ 64 <= m_driveSize m)
    (Hsize : m_driveSize m <= offset)
    (Hticket : forall segs, announced new_ticket notify m READ uid length segs w ticket w2) :
  (AddReadTask new_ticket notify onDone uid offset length (m, w)).1 = Undefined.
Proof.
  destruct Hm as (Hc & HN & Hd & Hmax).
  assert (Hs : exists segs, Split offset length (m_MBMinion m) (Z.of_nat (List.length (m_minions m))) = Ok segs)
    by (apply Split_returns; nia).
  destruct Hs as [segs Hs]. destruct (Hticket segs) as (w1 & E1 & E2).
  assert (Hhead : exists seg rest, segs = seg :: rest
    /\ primaryMinionIndex seg = offset `div` m_MBMinion m).
  { revert Hs. unfold Split.
    destruct (Z.to_nat (length `div` m_MBMinion m) + 3)%nat as [|fuel] eqn:Ef; [lia|].
    rewrite Split_loop_step by nia. cbv zeta.
    destruct (Split_loop fuel _ _ _ _ _) as [rest|?| |]; try done.
    intros [= <-]. by eexists _, rest. }
  destruct Hhead as (seg & rest & -> & Hp).
  assert (Hout : m_minions m !! Z.to_nat (primaryMinionIndex seg) = None).
  { apply lookup_ge_None. rewrite Hp.
    assert (Z.of_nat (List.length (m_minions m)) <= offset `div` m_MBMinion m)
      by (apply Z.div_le_lower_bound; nia). lia. }
  assert (Estart : start new_ticket notify READ uid offset length (m, w)
    = (Ok (ticket, seg :: rest), (m, w2))).
  { unfold start, ValidateRange, Notify. run_prog. cbn [fst snd].
    assert (Hu : u64 (offset + length) = offset + length - 2 ^ 64).
    { unfold u64. rewrite <-(Z.mod_add _ (-1)) by lia. apply Z.mod_small. lia. }
    rewrite Hu, (proj2 (Z.ltb_ge _ _)) by lia. cbn [fst snd]. rewrite Hs.
    cbn [fst snd]. rewrite E1. cbn [fst snd]. by rewrite E2. }
  unfold AddReadTask. rewrite (bind_ok _ _ _ _ _ Estart). cbn [imap for_each].
  assert (Hfirst : forall f : prog (P * W) unit, minion (CB := CB) (primaryMinionIndex seg) f (m, w2)
    = (Undefined, (m, w2))) by (intros f; unfold minion; cbn [fst snd]; by rewrite Hout).
  assert (Hseg : read_segment onDone uid ticket (0%nat, seg) (m, w2) = (Undefined, (m, w2)))
    by exact (bind_undefined _ _ _ _ (Hfirst _)).
  by rewrite (bind_undefined _ _ _ _ Hseg).
Qed.

Lemma range_check_wraps_witness :
  (AddReadTask no_ticket (fun _ _ _ => mret tt) sample_closure 1 (2 ^ 64 - 4) 8
     (sample_manager, mk_World [] 0 [])).1 = Undefined.
Proof.
  apply (range_check_wraps no_ticket (fun _ _ _ => mret tt) sample_closure 1 (2 ^ 64 - 4) 8
    sample_manager (mk_World [] 0 []) (mk_World [] 0 []) 0%nat); try (simpl; lia).
  - repeat split; simpl; lia.
  - intros segs. eexists. done.
Defined.
