(* ===== verification/Commands.v ===== *)
(** * Commands

    [concrete/src/Commands.cpp]: the commands that the thread pool of the master
    runs.  [S] is the whole state; the two operations of [MinionManager] are
    arguments. *)

From S2P Require Import Prelude Logger TaskArgs.

(** [try] with a [catch(const std::exception& e)] that logs [e.what()]. *)
Definition logging_exceptions {S} `{HasLog S} (prefix : string) (m : prog S unit) : prog S unit :=
  try m (fun e => Log (prefix +:+ what e) ERROR).

(** A caught exception leaves a log entry and what the code had done before. *)
Lemma logging_exceptions_eq {S} `{HasLog S} prefix (m : prog S unit) s :
  logging_exceptions prefix m s
  = let '(r, s') := m s in
    match r with
    | Throw e => (Ok tt, log_entry (prefix +:+ what e) ERROR s')
    | _ => (r, s')
    end.
Proof. unfold logging_exceptions, try, Log, modify. by destruct (m s) as [[]]. Qed.

Section Commands.
Context {S ASYNC : Type} `{HasLog S}.
Context (AddReadTask : Z -> Z -> Z -> prog S unit)
  (AddWriteTask : Z -> Z -> Z -> option cells -> prog S unit).

(** [ReadCommand::Run] and [WriteCommand::Run]; both return [nullopt], so that
    nothing is scheduled. The match is the [dynamic_cast]. *)
Definition ReadCommand_Run (args : ATaskArgs) : prog S (option ASYNC) :=
  match args with
  | NBDReadArgs uid a =>
      logging_exceptions "ReadCommand: " (AddReadTask uid (m_offset a) (m_length a)) ;;
      mret None
  | _ => Log "ReadCommand: invalid task args" ERROR ;; mret None
  end.

Definition WriteCommand_Run (args : ATaskArgs) : prog S (option ASYNC) :=
  match args with
  | NBDWriteArgs uid a =>
      logging_exceptions "WriteCommand: "
        (AddWriteTask uid (m_offset a) (m_length a) (m_buffer a)) ;;
      mret None
  | _ => Log "WriteCommand: invalid task args" ERROR ;; mret None
  end.
End Commands.
