(* ===== verification/Framework.v ===== *)
(** * Framework

    [framework/src/Framework.cpp] and [FW_TPTask.cpp]: the way of an input event
    to a command.  A ready file descriptor asks its input proxy for a task; the
    task is queued for the thread pool; a thread creates the command that is
    registered for the task's key and runs it.  [S] is the state of the program,
    [CMD] are the commands' classes, [PROXY] the input proxies. *)

From S2P Require Import Prelude Factory Logger TaskArgs.

Section Framework.
Context {S CMD ASYNC PROXY : Type} `{HasLog S}.

(** The constructor: the reactor's entries (an entry that exists stays, as with
    [map::emplace]) and the factory of commands. *)
Definition register_input (reactor : gmap (Z * FDMODE) PROXY) (x : Z * FDMODE * PROXY)
    : gmap (Z * FDMODE) PROXY :=
  match reactor !! x.1 with Some _ => reactor | None => <[x.1 := x.2]> reactor end.

Definition Framework_init (fd_callbacks : list (Z * FDMODE * PROXY)) (creators : list (Z * CMD))
    (factory : gmap Z CMD) : gmap (Z * FDMODE) PROXY * gmap Z CMD :=
  (foldl register_input ∅ fd_callbacks,
   foldl (fun factory creator => Register creator.1 creator.2 factory) factory creators).

(** The closure that the constructor registers with the reactor. *)
Definition on_input (GetTaskArgs : prog S (option ATaskArgs)) (AddTask : ATaskArgs -> prog S unit)
    : prog S unit :=
  pTaskArgs ← GetTaskArgs;
  match pTaskArgs with
  | None => Log "Framework: failed to get task args" WARNING
  | Some args => AddTask args
  end.

(** [FW_TPTask::Run]. [Run] is the virtual call on a new object of the class,
    [Schedule] is [AsyncInjection::Schedule]. *)
Definition FW_TPTask_Run (factory : gmap Z CMD) (Run : CMD -> ATaskArgs -> prog S (option ASYNC))
    (Schedule : ASYNC -> prog S unit) (m_pTaskArg : ATaskArgs) : prog S unit :=
  try (pCommand ← lift (Create (fdmode_value (GetKey m_pTaskArg)) factory);
       async ← Run pCommand m_pTaskArg;
       match async with Some a => Schedule a | None => mret tt end)
      (fun e => Log ("FW_TPTask: " +:+ what e) ERROR).

(** The last creator registered for a key is the one that runs. *)
Lemma Framework_init_last fd_callbacks creators1 key cmd creators2 factory :
  Forall (fun c => c.1 <> key) creators2 ->
  Create key (Framework_init fd_callbacks (creators1 ++ (key, cmd) :: creators2) factory).2 = Ok cmd.
Proof.
  intros Hne. unfold Framework_init. cbn [snd]. rewrite foldl_app. cbn [foldl fst snd].
  set (f0 := Register key cmd _).
  assert (Hf : forall f, Create key f = Ok cmd -> Create key (foldl (fun factory creator =>
    Register creator.1 creator.2 factory) f creators2) = Ok cmd).
  { induction Hne as [|c l Hc _ IH]; intros f Hf; [done|]. cbn [foldl]. apply IH.
    rewrite Create_Register, decide_False by done. done. }
  apply Hf. unfold f0. by rewrite Create_Register, decide_True by done.
Qed.
End Framework.
