(* ===== verification/Master.v ===== *)
(** * Master

    The master program: the components put together as the code does it, and
    the steps of its threads.  Handlers that the code runs under one another's
    locks or in one thread are one step: the reading of a request, the run of a
    command, the handling of a datagram.  [Threads.v] cuts them into the pieces
    between which other threads run. *)

From S2P Require Import Prelude Bytes StripeSplitter Message TaskArgs Factory Dispatcher Sockets.
From S2P Require Import Logger Ticket IMinionProxy MinionProxy NBD NBDProxy ResponseManager World.
From S2P Require Import MinionManager Commands Framework.

(** The closures that [MinionManager] hands to the proxies: the ticket, the
    segment and the role. *)
Definition closure : Type := nat * nat * MirrorRole.

(** [ResponseManager]'s callbacks for new tasks and for new tickets. *)
Inductive task_callback : Set := NewTask.
Inductive created_callback : Set := TicketCreated.

Record Backend : Type := mk_Backend {
  b_rm : ResponseManager nat;
  b_nbd : NBDProxy task_callback;
  b_world : World;
}.

Definition on_world {A} (f : prog World A) : prog Backend A :=
  zoom b_world (fun w b => mk_Backend (b_rm b) (b_nbd b) w) f.

(** The parts that the handlers of [ResponseManager] work on. *)
Definition on_rm_world {A} (f : prog (ResponseManager nat * World) A) : prog Backend A :=
  zoom (fun b => (b_rm b, b_world b)) (fun s b => mk_Backend s.1 (b_nbd b) s.2) f.

Definition on_rm_nbd {A}
    (f : prog (ResponseManager nat * (NBDProxy task_callback * World)) A) : prog Backend A :=
  zoom (fun b => (b_rm b, (b_nbd b, b_world b))) (fun s _ => mk_Backend s.1 s.2.1 s.2.2) f.

Definition on_nbd_rm {A}
    (f : prog (NBDProxy task_callback * (ResponseManager nat * World)) A) : prog Backend A :=
  zoom (fun b => (b_nbd b, (b_rm b, b_world b))) (fun s _ => mk_Backend s.2.1 s.1 s.2.2) f.

#[export] Instance Backend_log : HasLog Backend := fun message sev b =>
  mk_Backend (b_rm b) (b_nbd b) (log_entry message sev (b_world b)).

#[export] Instance rm_world_log : HasLog (ResponseManager nat * World) := fun message sev s =>
  (s.1, log_entry message sev s.2).

#[export] Program Instance rm_world_uid : HasUID (ResponseManager nat * World) := {|
  uid_counter s := uid_counter s.2;
  set_uid_counter c s := (s.1, set_uid_counter c s.2);
|}.
Next Obligation. done. Qed.

Section Backend.
Context `{LinuxNBD}.

(** What a closure does: [ticket->OnMirrorResponse(segIdx, role, msg)], which
    notifies the ticket's callbacks when the ticket completes. *)
Definition respond (c : closure) (msg : AMessage) : prog Backend unit :=
  let '(ticket, segIdx, role) := c in
  found ← gets (fun b => w_tickets (b_world b) !! ticket);
  match found with
  | None => lift Undefined
  | Some t =>
      '(t', out) ← lift (OnMirrorResponse segIdx role (Some msg) t);
      on_world (set_ticket ticket t') ;;
      match out with
      | None => mret tt
      | Some result =>
          Notify (fun c => match c with TicketDone => on_rm_nbd (OnTicketDone result) end)
            (Ticket.m_dispatcher t')
      end
  end.

Definition ticket_created (c : created_callback) (ticket : nat) (uid : Z) : prog Backend unit :=
  match c with TicketCreated => on_rm_world (OnTicketCreate ticket uid register_done) end.

Definition task_created (c : task_callback) (args : ATaskArgs)
    : prog (ResponseManager nat * World) unit :=
  match c with NewTask => on_fst (OnNewTask args) end.
End Backend.

(** ** The program *)

Record Master : Type := mk_Master {
  manager : MinionManager (MinionProxy closure) created_callback;
  backend : Backend;
  m_queue : list ATaskArgs;
}.

#[export] Instance Master_log : HasLog Master := fun message sev s =>
  mk_Master (manager s) (log_entry message sev (backend s)) (m_queue s).

Definition on_manager {A} (f : prog (MinionManager (MinionProxy closure) created_callback * Backend) A)
    : prog Master A :=
  zoom (fun s => (manager s, backend s)) (fun t s => mk_Master t.1 t.2 (m_queue s)) f.

Definition on_backend {A} (f : prog Backend A) : prog Master A :=
  zoom backend (fun b s => mk_Master (manager s) b (m_queue s)) f.

(** The classes of the commands that the master registers. *)
Inductive command : Set := ReadCommand | WriteCommand.

Definition master_commands : list (Z * command) :=
  [(fdmode_value FD_WRITE, WriteCommand); (fdmode_value FD_READ, ReadCommand)].

Definition commands : gmap Z command :=
  (Framework_init (PROXY := unit) [] master_commands ∅).2.

Section Master.
Context `{LinuxNBD}.

Definition make_ticket (t : Ticket ticket_callback) : prog Backend nat := on_world (new_ticket t).

Definition make_closure (ticket segIdx : nat) (role : MirrorRole) : closure :=
  (ticket, segIdx, role).

Definition master_AddReadTask (uid offset length : Z) : prog Master unit :=
  on_manager (MinionManager.AddReadTask make_ticket ticket_created make_closure uid offset length).

Definition master_AddWriteTask (uid offset length : Z) (buffer : option cells) : prog Master unit :=
  on_manager (MinionManager.AddWriteTask make_ticket ticket_created make_closure
    uid offset length buffer).

Definition run_command (c : command) (args : ATaskArgs) : prog Master (option Empty_set) :=
  match c with
  | ReadCommand => ReadCommand_Run master_AddReadTask args
  | WriteCommand => WriteCommand_Run master_AddWriteTask args
  end.

(** The three handlers: the NBD socket is readable, a thread of the pool takes
    the task at position [i] of the queue, the socket of minion [i] is
    readable. *)
Definition nbd_wakeup : prog Master unit :=
  on_input (on_backend (on_nbd_rm (NBDProxy.GetTaskArgs task_created)))
    (fun args => modify (fun s => mk_Master (manager s) (backend s) (m_queue s ++ [args]))).

Definition run_task (i : nat) : prog Master unit := fun s =>
  match m_queue s !! i with
  | None => (Blocked, s)
  | Some args =>
      FW_TPTask_Run commands run_command (Empty_set_rect _) args
        (mk_Master (manager s) (backend s) (delete i (m_queue s)))
  end.

Definition minion_wakeup (i : nat) : prog Master unit :=
  on_manager (minion (Z.of_nat i) (OnMinionFDWakeUp master_factory respond)).

(** A datagram arrives at the socket of minion [i]. *)
Definition deliver (i : nat) (addr : Z) (datagram : cells) (s : Master) : Master :=
  mk_Master (set_minions (alter (fun p => mk_MinionProxy
      (UDPSocket.deliver addr datagram (m_socket p)) (m_map p)) i (m_minions (manager s))) (manager s))
    (backend s) (m_queue s).

(** Any thread may run next, any datagram may arrive. *)
Inductive step : Master -> Master -> Prop :=
  | step_nbd s s' : nbd_wakeup s = (Ok tt, s') -> step s s'
  | step_task i s s' : run_task i s = (Ok tt, s') -> step s s'
  | step_minion i s s' : minion_wakeup i s = (Ok tt, s') -> step s s'
  | step_deliver i addr datagram s : step s (deliver i addr datagram s).

Definition steps : Master -> Master -> Prop := rtc step.

(** The start of the program: [MinionManager::Init], the proxy on the NBD socket
    and [ResponseManager::Init], as [framework/test/TestFramework.cpp] calls
    them. *)
Definition boot (mbMinion : Z) (minions : list (MinionProxy closure)) (nbd : TCPClient.t)
    : res Master :=
  let '(r, (m, _)) := Init mbMinion minions (mk_MinionManager 0 0 [] [] ∅ false, ∅) in
  r ;;
  mret (mk_Master (RegisterForNewTickets TicketCreated m)
    (mk_Backend (mk_ResponseManager ∅ ∅)
       (RegisterForNewTaskArgs NewTask (mk_NBDProxy [] ∅ nbd)) (mk_World [] 0 []))
    []).
End Master.
