(* ===== verification/Protocol.v ===== *)
(** * Protocol

    What the kernel can rely on: an invariant of the running master that ties
    the requests read from the kernel to the replies written to it. *)

From S2P Require Import Prelude Bytes StripeSplitter Message TaskArgs Factory Dispatcher Sockets.
From S2P Require Import Logger Ticket IMinionProxy MinionProxy NBD NBDProxy ResponseManager World.
From S2P Require Import MinionManager Commands Framework Master.

Section Protocol.
Context `{LinuxNBD}.
Context (reqs : list kernel_request).

(** A reply: the index of its request, the verdict, the data. *)
Definition reply : Type := nat * bool * cells.

Definition reply_bytes (x : reply) : cells :=
  let '(i, ok, data) := x in
  wire_reply (if ok : bool then 0 else EIO) (default [] (k_handle <$> reqs !! i)) ++ data.

Definition op_of (r : kernel_request) : TicketOp :=
  match k_data r with Some _ => WRITE | None => READ end.

(** What NBD asks of a reply: only a successful read carries data, and as many
    bytes as were requested. *)
Definition reply_ok (x : reply) : Prop :=
  let '(i, ok, data) := x in
  exists r, reqs !! i = Some r
    /\ Z.of_nat (length data) = if ok && bool_decide (op_of r = READ) then k_len r else 0.

(** The requests [0 .. k-1] were read, of which [replied] were answered. *)
Definition outstanding (k : nat) (replied : list reply) (i : nat) : Prop :=
  (i < k)%nat /\ i ∉ replied.*1.*1.

#[local] Instance outstanding_dec k replied i : Decision (outstanding k replied i).
Proof. unfold outstanding. apply _. Defined.

Definition responses_of (k : nat) (replied : list reply) (responses : gmap Z nbd_reply) : Prop :=
  (forall i r, reqs !! i = Some r ->
    responses !! Z.of_nat i = if decide (outstanding k replied i) then Some (reply_of r) else None)
  /\ (forall uid, uid < 0 \/ Z.of_nat k <= uid -> responses !! uid = None).

(** A ticket, or a queued task, that stands for one of the requests read. *)
Definition ticket_inv (k : nat) (t : Ticket ticket_callback) : Prop :=
  exists i r, reqs !! i = Some r /\ (i < k)%nat /\ m_uid t = Z.of_nat i /\ m_op t = op_of r
    /\ m_totalLength t = k_len r.

Definition task_inv (k : nat) (a : ATaskArgs) : Prop :=
  exists i r, reqs !! i = Some r /\ (i < k)%nat /\ a = task_of (Z.of_nat i) r.

Record nbd_inv (k : nat) (replied : list reply) (n : NBDProxy task_callback) : Prop := {
  ni_stream : TCPClient.available (TCPClient.incoming (m_nbd n)) = (drop k reqs ≫= encode);
  ni_sends : TCPClient.sends_succeed (m_nbd n);
  ni_callbacks : NBDProxy.m_dispatcher n = [NewTask];
  ni_responses : responses_of k replied (m_responses n);
  ni_sent : TCPClient.sent (m_nbd n) = (replied ≫= reply_bytes);
}.

Record backend_inv (k : nat) (replied : list reply) (b : Backend) : Prop := {
  bi_k : (k <= length reqs)%nat;
  bi_uid : w_uid (b_world b) = Z.of_nat k;
  bi_nbd : nbd_inv k replied (b_nbd b);
  bi_requests : forall uid, is_Some (m_requests (b_rm b) !! uid)
                            <-> is_Some (m_responses (b_nbd b) !! uid);
  bi_tickets : Forall (ticket_inv k) (w_tickets (b_world b));
  bi_replied : NoDup replied.*1.*1 /\ Forall reply_ok replied /\ Forall (fun i => i < k)%nat replied.*1.*1;
}.

Hypothesis Hreqs : Forall request_wf reqs.
Hypothesis Hmany : Z.of_nat (length reqs) < 2 ^ 64.

Lemma request_len i r : reqs !! i = Some r -> in_u64 (k_len r) /\ length (k_handle r) = 8%nat.
Proof.
  intros Hi. rewrite Forall_lookup in Hreqs. destruct (Hreqs i r Hi) as (? & _ & ? & _).
  split; [lia|done].
Qed.

(** An entry of the table of replies belongs to an outstanding request. *)
Lemma responses_entry k replied responses uid x :
  (k <= length reqs)%nat -> responses_of k replied responses -> responses !! uid = Some x ->
  exists i r, uid = Z.of_nat i /\ reqs !! i = Some r /\ outstanding k replied i /\ x = reply_of r.
Proof.
  intros Hk [Hin Hout] Hx.
  assert (Hr : 0 <= uid < Z.of_nat k).
  { destruct (decide (uid < 0 \/ Z.of_nat k <= uid)) as [Hd|Hd]; [|lia].
    by rewrite Hout in Hx. }
  destruct (lookup_lt_is_Some_2 reqs (Z.to_nat uid) ltac:(lia)) as [r Hreq].
  exists (Z.to_nat uid), r. rewrite Z2Nat.id by lia.
  specialize (Hin _ _ Hreq). rewrite Z2Nat.id in Hin by lia. rewrite Hin in Hx.
  case_decide; [|done]. by injection Hx as <-.
Qed.

(** Log entries change nothing that the invariant speaks of. *)
Lemma add_logs_backend logs b :
  add_logs logs b = mk_Backend (b_rm b) (b_nbd b) (add_logs logs (b_world b)).
Proof.
  revert b. induction logs as [|[message sev] logs IH]; intros b; [by destruct b|].
  change (add_logs ((message, sev) :: logs) b) with (add_logs logs (log_entry message sev b)).
  by rewrite IH.
Qed.

Lemma backend_inv_world k replied b w :
  backend_inv k replied b -> w_uid w = w_uid (b_world b) -> Forall (ticket_inv k) (w_tickets w) ->
  backend_inv k replied (mk_Backend (b_rm b) (b_nbd b) w).
Proof. intros [] Hu Ht. constructor; simpl; congruence || done. Qed.

Lemma backend_inv_logs k replied logs b :
  backend_inv k replied b -> backend_inv k replied (add_logs logs b).
Proof.
  intros Hb. rewrite add_logs_backend, add_logs_World.
  apply backend_inv_world; [done|done|]. apply Hb.
Qed.

(** *** A reply is sent *)

Lemma reply_bytes_eq i r ok data :
  reqs !! i = Some r ->
  reply_bytes (i, ok, data) = wire_reply (if ok : bool then 0 else EIO) (k_handle r) ++ data.
Proof. intros Hi. unfold reply_bytes. by rewrite Hi. Qed.

Lemma outstanding_snoc k replied i ok data j :
  outstanding k (replied ++ [(i, ok, data)]) j <-> outstanding k replied j /\ j <> i.
Proof.
  unfold outstanding. rewrite !fmap_app, elem_of_app. cbn [fmap list_fmap fst].
  rewrite list_elem_of_singleton. tauto.
Qed.

Lemma responses_delete k replied responses i ok data :
  (k <= length reqs)%nat -> responses_of k replied responses ->
  responses_of k (replied ++ [(i, ok, data)]) (delete (Z.of_nat i) responses).
Proof.
  intros Hk [Hin Hout]. split.
  - intros j r Hj. rewrite lookup_delete, (Hin j r Hj).
    pose proof (outstanding_snoc k replied i ok data j) as Hiff.
    destruct (decide (Z.of_nat i = Z.of_nat j)) as [E|E].
    + apply Nat2Z.inj in E as <-. by rewrite decide_False by (rewrite Hiff; tauto).
    + destruct (decide (outstanding k replied j)) as [Ho|Ho].
      * by rewrite decide_True by (apply Hiff; split; [done|congruence]).
      * by rewrite decide_False by (rewrite Hiff; tauto).
  - intros uid Hu. rewrite lookup_delete, (Hout uid Hu). by case_decide.
Qed.

(** The result of a ticket, when its request is outstanding or not. *)
Lemma OnTicketDone_inv k replied b t result :
  backend_inv k replied b -> ticket_inv k t -> result_of t result ->
  exists replied' b', on_rm_nbd (OnTicketDone result) b = (Ok tt, b')
    /\ backend_inv k replied' b' /\ w_tickets (b_world b') = w_tickets (b_world b).
Proof.
  intros Hb (i & r & Hi & Hik & Huid & Hop & Hlen) (Hruid & Hrlen & Hrbuf).
  pose proof Hb as [Hk Hu [Hstream Hsends Hcb Hresp Hsent] Hreq Ht (Hnd & Hro & Hlt)].
  destruct (request_len i r Hi) as [Hl Hh].
  unfold on_rm_nbd. run_prog. rewrite OnTicketDone_eq, Hruid, Huid. cbn [fst snd].
  destruct (decide (is_Some (m_requests (b_rm b) !! Z.of_nat i))) as [Hsome|Hnone].
  2:{ exists replied. eexists. split; [reflexivity|]. split; [|done].
      apply (backend_inv_world k replied b); [done|done|exact Ht]. }
  apply Hreq in Hsome as [x Hx].
  destruct (responses_entry k replied _ _ x Hk Hresp Hx) as (i' & r' & Hii & Hi' & Houts & ->).
  apply Nat2Z.inj in Hii as <-. assert (r' = r) as -> by congruence.
  set (w := if tr_result result then _ else _).
  assert (Hw : w_uid w = w_uid (b_world b) /\ w_tickets w = w_tickets (b_world b))
    by (unfold w; by destruct (tr_result result)).
  destruct (OnNBDResponse_ok (b_nbd b) w result (k_handle r)) as (s' & E & Hs' & Hin' & Hsent');
    [by rewrite Hruid, Huid|done|by rewrite Hrlen, Hlen|done|].
  rewrite E. cbn [fst snd]. rewrite Hruid, Huid.
  set (data := match tr_buffer result with
    | Some buffer => if tr_result result then read_cells (Z.to_nat (tr_length result)) buffer else []
    | None => [] end) in *.
  exists (replied ++ [(i, tr_result result, data)]). eexists. split; [reflexivity|].
  split; [|exact (proj2 Hw)].
  constructor; simpl.
  - done.
  - by rewrite (proj1 Hw).
  - constructor; simpl; [by rewrite Hin'|done|done| |].
    + by apply responses_delete.
    + rewrite Hsent', Hsent, bind_app. cbn [mbind list_bind]. rewrite app_nil_r.
      by rewrite (reply_bytes_eq i r).
  - intros uid. rewrite !lookup_delete. case_decide; [|apply Hreq].
    split; intros [? ?]; done.
  - by rewrite (proj2 Hw).
  - rewrite !fmap_app. split; [|split].
    + apply NoDup_app. split; [done|]. split; [|apply NoDup_singleton].
      intros j Hj ->%list_elem_of_singleton. by destruct Houts.
    + apply Forall_app. split; [done|]. constructor; [|done]. exists r. split; [done|].
      unfold data. destruct (tr_buffer result) as [buffer|].
      * destruct Hrbuf as [-> Hread]. rewrite length_read_cells, bool_decide_eq_true_2 by congruence.
        simpl. lia.
      * destruct (tr_result result); [|done]. by rewrite bool_decide_eq_false_2 by (rewrite <-Hop, Hrbuf by done; done).
    + apply Forall_app. split; [done|]. by constructor.
Qed.

(** *** An answer arrives *)

Lemma notify_done_inv k replied b t result l :
  backend_inv k replied b -> ticket_inv k t -> result_of t result ->
  exists replied' b',
    Notify (fun c => match c with TicketDone => on_rm_nbd (OnTicketDone result) end) l b = (Ok tt, b')
    /\ backend_inv k replied' b' /\ w_tickets (b_world b') = w_tickets (b_world b).
Proof.
  intros Hb Ht Hr. revert replied b Hb. induction l as [|[] l IH]; intros replied b Hb.
  { by exists replied, b. }
  destruct (OnTicketDone_inv k replied b t result Hb Ht Hr) as (rep1 & b1 & E1 & Hb1 & Hw1).
  destruct (IH rep1 b1 Hb1) as (rep2 & b2 & E2 & Hb2 & Hw2).
  exists rep2, b2. split; [|split; [done|congruence]].
  unfold Notify in *. cbn [for_each]. by rewrite (bind_ok _ _ _ _ _ E1).
Qed.

Lemma respond_inv k replied b c msg :
  backend_inv k replied b ->
  let '(r, b') := respond c msg b in
  match r with Ok _ => exists replied', backend_inv k replied' b' | _ => True end.
Proof.
  intros Hb. destruct c as [[ticket segIdx] role]. unfold respond. run_prog. cbn [fst snd].
  destruct (w_tickets (b_world b) !! ticket) as [t|] eqn:Et; [|done].
  assert (Ht : ticket_inv k t) by (pose proof (bi_tickets _ _ _ Hb) as Hf; rewrite Forall_lookup in Hf; by eapply Hf).
  destruct (OnMirrorResponse segIdx role (Some msg) t) as [[t' out]|e| |] eqn:Eo; [|done..].
  destruct (OnMirrorResponse_result _ _ _ _ _ _ Eo) as (Hu & Hop & Hl & Hd & _ & _ & Hout).
  assert (Ht' : ticket_inv k t').
  { destruct Ht as (i & r & ? & ? & ? & ? & ?). exists i, r. split_and!; congruence || done. }
  unfold on_world, set_ticket. run_prog. cbn [fst snd].
  set (b1 := mk_Backend _ _ _).
  assert (Hb1 : backend_inv k replied b1).
  { apply backend_inv_world; [done|done|]. simpl. apply Forall_insert; [apply Hb|done]. }
  destruct out as [result|]; [|by exists replied].
  destruct (notify_done_inv k replied b1 t result (Ticket.m_dispatcher t') Hb1 Ht (Hout _ eq_refl))
    as (rep' & b' & E & Hb' & _).
  rewrite E. by exists rep'.
Qed.

(** *** A command runs *)

Lemma rm_tickets_inv k replied b tickets :
  backend_inv k replied b ->
  backend_inv k replied (mk_Backend (mk_ResponseManager (m_requests (b_rm b)) tickets) (b_nbd b) (b_world b)).
Proof. by intros []. Qed.

Lemma ticket_created_inv k replied c ticket uid b :
  backend_inv k replied b -> backend_inv k replied (ticket_created c ticket uid b).2.
Proof.
  intros Hb. destruct c. unfold ticket_created, on_rm_world, OnTicketCreate, register_done.
  run_prog. cbn [fst snd].
  apply (backend_inv_world k replied (mk_Backend (mk_ResponseManager _ _) (b_nbd b) (b_world b)));
    [by apply rm_tickets_inv|done|]. simpl.
  apply Forall_alter; [apply Hb|]. intros t _ (i & r & ?). exists i, r. done.
Qed.

Lemma make_ticket_inv k replied uid op len segs b i r :
  reqs !! i = Some r -> (i < k)%nat -> uid = Z.of_nat i -> op = op_of r -> len = k_len r ->
  backend_inv k replied b -> backend_inv k replied (make_ticket (make_Ticket uid op len segs) b).2.
Proof.
  intros Hi Hik -> -> -> Hb. unfold make_ticket, on_world, new_ticket. run_prog. cbn [fst snd].
  apply backend_inv_world; [done|done|]. simpl. apply Forall_app. split; [apply Hb|].
  repeat constructor. by exists i, r.
Qed.

Record master_inv (k : nat) (replied : list reply) (s : Master) : Prop := {
  mi_backend : backend_inv k replied (backend s);
  mi_queue : Forall (task_inv k) (m_queue s);
}.

Lemma commands_create a :
  Create (fdmode_value (GetKey a)) commands
  = Ok (match GetKey a with FD_READ => ReadCommand | FD_WRITE => WriteCommand end).
Proof. by destruct a. Qed.

(** The whole way of a task to its command: what it throws is logged. *)
Definition command_prefix (op : TicketOp) : string :=
  match op with READ => "ReadCommand: " | WRITE => "WriteCommand: " end.

Lemma run_task_eq s i u r :
  m_queue s !! i = Some (task_of u r) ->
  run_task i s
  = let '(res, (m', b')) := add_task make_ticket ticket_created make_closure (op_of r) u (k_from r)
      (k_len r) (default [] (k_data r)) (manager s, backend s) in
    match res with
    | Throw e => (Ok tt, mk_Master m' (log_entry (command_prefix (op_of r) +:+ what e) ERROR b')
                           (delete i (m_queue s)))
    | _ => (res, mk_Master m' b' (delete i (m_queue s)))
    end.
Proof.
  intros Hq. unfold run_task. rewrite Hq. unfold FW_TPTask_Run. run_prog. rewrite commands_create.
  unfold task_of, op_of, add_task in *.
  destruct (k_data r) as [data|] eqn:Ed; cbn [GetKey run_command default id command_prefix] in *;
    unfold WriteCommand_Run, ReadCommand_Run, master_AddWriteTask, master_AddReadTask;
    run_prog; rewrite logging_exceptions_eq; unfold on_manager; run_prog;
    cbn [m_offset m_length m_buffer fst snd manager backend m_queue];
    [destruct (MinionManager.AddWriteTask _ _ _ _ _ _ _ _) as [res [m' b']]
    |destruct (MinionManager.AddReadTask _ _ _ _ _ _ _) as [res [m' b']]];
    by destruct res as [[]|e| |].
Qed.

Lemma run_task_ok s i u r m' b' :
  m_queue s !! i = Some (task_of u r) ->
  add_task make_ticket ticket_created make_closure (op_of r) u (k_from r) (k_len r)
    (default [] (k_data r)) (manager s, backend s) = (Ok tt, (m', b')) ->
  run_task i s = (Ok tt, mk_Master m' b' (delete i (m_queue s))).
Proof. intros Hq E. by rewrite (run_task_eq s i u r Hq), E. Qed.

Lemma run_task_inv k replied i s :
  master_inv k replied s ->
  let '(r, s') := run_task i s in
  match r with Ok _ => master_inv k replied s' | _ => True end.
Proof.
  intros [Hb Hq]. destruct (m_queue s !! i) as [a|] eqn:Ea; [|unfold run_task; by rewrite Ea].
  assert (Ha : task_inv k a) by (rewrite Forall_lookup in Hq; by eapply Hq).
  assert (Hq' : Forall (task_inv k) (delete i (m_queue s)))
    by (rewrite delete_take_drop; apply Forall_app; split; [by apply Forall_take|by apply Forall_drop]).
  destruct Ha as (j & r & Hj & Hjk & ->). rewrite (run_task_eq s i (Z.of_nat j) r Ea).
  pose proof (AddTask_frame make_ticket ticket_created make_closure (backend_inv k replied)
    (op_of r) (Z.of_nat j) (k_from r) (k_len r) (Some (default [] (k_data r)))
    (backend_inv_logs k replied)
    ltac:(intros; by eapply make_ticket_inv)
    ltac:(intros; by apply ticket_created_inv) (manager s) (backend s) Hb) as [Hread Hwrite].
  assert (Hadd : keeps (backend_inv k replied) (fun _ => True)
    (add_task make_ticket ticket_created make_closure (op_of r) (Z.of_nat j) (k_from r) (k_len r)
       (default [] (k_data r)) (manager s, backend s)).2 (manager s))
    by (unfold add_task; destruct (op_of r); [by apply Hread|by apply Hwrite]).
  destruct (add_task _ _ _ _ _ _ _ _ _) as [res [m' b']]. destruct Hadd as (Hb' & _).
  destruct res as [[]|e| |]; try done; constructor; cbn [backend m_queue]; [done..| |done].
  exact (backend_inv_logs k replied [(_, ERROR)] b' Hb').
Qed.

(** *** A datagram is read *)

Lemma minion_wakeup_inv k replied i s :
  master_inv k replied s ->
  let '(r, s') := minion_wakeup i s in
  match r with Ok _ => exists replied', master_inv k replied' s' | _ => True end.
Proof.
  intros [Hb Hq]. unfold minion_wakeup, on_manager, minion. run_prog. cbn [fst snd].
  rewrite Nat2Z.id. destruct (m_minions (manager s) !! i) as [p|]; [|done].
  pose proof (OnMinionFDWakeUp_frame respond master_factory p (backend s)) as Hf.
  destruct (OnMinionFDWakeUp master_factory respond (p, backend s)) as [r [p' b']].
  cbn [fst snd]. destruct r as [[]|e| |]; try done.
  destruct Hf as (_ & _ & [[_ [logs ->]]|(uid & c & m & _ & _ & -> & Hr & _)]).
  - exists replied. constructor; [by apply backend_inv_logs|done].
  - pose proof (respond_inv k replied (backend s) c m Hb) as Hresp.
    destruct (respond c m (backend s)) as [r b']. cbn [fst snd] in *. subst r.
    destruct Hresp as [replied' Hb']. exists replied'. by constructor.
Qed.

(** *** A request is read *)

Lemma task_inv_S k a : task_inv k a -> task_inv (S k) a.
Proof. intros (i & r & ? & ? & ->). exists i, r. split_and!; (done || lia). Qed.

Lemma ticket_inv_S k t : ticket_inv k t -> ticket_inv (S k) t.
Proof. intros (i & r & ? & ? & ?). exists i, r. split_and!; (naive_solver || lia). Qed.

Lemma responses_insert k replied responses r :
  Forall (fun i => i < k)%nat replied.*1.*1 ->
  reqs !! k = Some r -> responses_of k replied responses ->
  responses_of (S k) replied (<[Z.of_nat k := reply_of r]> responses).
Proof.
  intros Hlt Hk [Hin Hout]. rewrite Forall_forall in Hlt. split.
  - intros j x Hj. rewrite lookup_insert. destruct (decide (Z.of_nat k = Z.of_nat j)) as [E|E].
    + apply Nat2Z.inj in E as <-. rewrite decide_True; [congruence|].
      split; [lia|]. intros Hbad. apply Hlt in Hbad. lia.
    + rewrite (Hin j x Hj).
      destruct (decide (outstanding k replied j)) as [Ho|Ho].
      * rewrite decide_True; [done|]. destruct Ho. split; [lia|done].
      * rewrite decide_False; [done|]. intros [Hj' Hn]. apply Ho. split; [lia|done].
  - intros uid Hu. rewrite lookup_insert_ne by lia. apply Hout. lia.
Qed.

(** A request that is in the stream is read. *)
Lemma nbd_wakeup_request k replied s r :
  master_inv k replied s -> reqs !! k = Some r ->
  exists s', nbd_wakeup s = (Ok tt, s') /\ master_inv (S k) replied s'
    /\ manager s' = manager s /\ w_tickets (b_world (backend s')) = w_tickets (b_world (backend s))
    /\ m_queue s' = m_queue s ++ [task_of (Z.of_nat k) r]
    /\ m_responses (b_nbd (backend s')) = <[Z.of_nat k := reply_of r]> (m_responses (b_nbd (backend s)))
    /\ TCPClient.sent (m_nbd (b_nbd (backend s'))) = TCPClient.sent (m_nbd (b_nbd (backend s))).
Proof.
  intros [Hb Hq] Er. pose proof Hb as [Hk Hu [Hstream Hsends Hcb Hresp Hsent] Hreq Ht (Hnd & Hro & Hlt)].
  unfold nbd_wakeup, on_input, on_backend, on_nbd_rm. run_prog. cbn [fst snd].
  assert (Hwf : request_wf r) by (rewrite Forall_lookup in Hreqs; by eapply Hreqs).
  assert (Hkl : (k < length reqs)%nat) by by eapply lookup_lt_Some.
  rewrite (drop_S _ _ _ Er) in Hstream. cbn [mbind list_bind] in Hstream.
  set (n := b_nbd (backend s)) in *. set (rw := (b_rm (backend s), b_world (backend s))).
  assert (Huid : uid_counter rw = Z.of_nat k) by exact Hu.
  set (rw' := (mk_ResponseManager (emplace (Z.of_nat k) mk_Response (m_requests (b_rm (backend s))))
                 (m_tickets (b_rm (backend s))),
               set_uid_counter (u64 (Z.of_nat k + 1)) (b_world (backend s)))).
  destruct (GetTaskArgs_request task_created n rw rw' r _ Hwf Hstream)
    as (s' & E & Ha & Hs & Hres).
  { rewrite Huid. apply Hresp. by right. }
  { rewrite Hcb. cbn [for_each]. unfold task_created, OnNewTask. run_prog. cbn [fst snd].
    rewrite Huid. unfold task_of. by destruct (k_data r). }
  rewrite Huid in E. rewrite E. cbn [fst snd]. eexists. split; [reflexivity|]. split; [|by rewrite <-Hs].
  constructor; cbn [backend m_queue].
  2:{ apply Forall_app. split; [eapply Forall_impl; [exact Hq|apply task_inv_S]|].
      constructor; [|done]. exists k, r. split_and!; (done || lia). }
  constructor; cbn [b_rm b_nbd b_world].
  - lia.
  - simpl. rewrite u64_small by lia. lia.
  - constructor; cbn [m_nbd m_responses NBDProxy.m_dispatcher].
    + done.
    + unfold TCPClient.sends_succeed. by rewrite Hres.
    + done.
    + by apply responses_insert.
    + by rewrite Hs.
  - intros uid. unfold rw', emplace. cbn [fst snd m_requests m_responses].
    destruct (m_requests (b_rm (backend s)) !! Z.of_nat k) as [x|] eqn:Ex.
    + assert (Hbad : is_Some (m_responses n !! Z.of_nat k)) by (apply Hreq; by eexists).
      destruct Hbad as [y Hy]. rewrite (proj2 Hresp) in Hy by lia. done.
    + rewrite !lookup_insert. case_decide; [|apply Hreq]. split; intros _; by eexists.
  - simpl. eapply Forall_impl; [exact Ht|apply ticket_inv_S].
  - split; [done|]. split; [done|]. eapply Forall_impl; [exact Hlt|simpl; lia].
Qed.

Lemma nbd_wakeup_inv k replied s :
  master_inv k replied s ->
  let '(r, s') := nbd_wakeup s in
  match r with
  | Ok _ => exists r, reqs !! k = Some r /\ master_inv (S k) replied s'
      /\ manager s' = manager s /\ w_tickets (b_world (backend s')) = w_tickets (b_world (backend s))
      /\ m_queue s' = m_queue s ++ [task_of (Z.of_nat k) r]
      /\ m_responses (b_nbd (backend s')) = <[Z.of_nat k := reply_of r]> (m_responses (b_nbd (backend s)))
  | _ => True
  end.
Proof.
  intros Hinv. destruct (reqs !! k) as [r|] eqn:Er.
  { destruct (nbd_wakeup_request k replied s r Hinv Er) as (s' & -> & ? & ? & ? & ? & ? & _).
    exists r. done. }
  destruct Hinv as [[Hk _ [Hstream _ _ _ _] _ _ _] _].
  unfold nbd_wakeup, on_input, on_backend, on_nbd_rm. run_prog. cbn [fst snd].
  apply lookup_ge_None in Er. rewrite drop_ge in Hstream by lia. simpl in Hstream.
  destruct (NBDProxy.GetTaskArgs task_created _) as [res [n' [rm' w']]] eqn:E.
  destruct res as [a|e| |]; try done. exfalso.
  unfold NBDProxy.GetTaskArgs, on_tcp in E. revert E. run_prog. cbn [fst snd].
  pose proof (TCPClient.Receive_loop_spec (TCPClient.incoming (m_nbd (b_nbd (backend s))))
    sizeof_nbd_request [] ltac:(unfold sizeof_nbd_request; lia)) as Hspec.
  rewrite Hstream, decide_False in Hspec by (unfold sizeof_nbd_request; simpl; lia).
  unfold TCPClient.Receive. destruct (TCPClient.Receive_loop _ _ _) as [res inc'].
  destruct res as [v|e| |]; try done. intros _. by destruct (Hspec v inc').
Qed.

Lemma steps_inv k replied s s' :
  master_inv k replied s -> steps s s' -> exists k' replied', master_inv k' replied' s'.
Proof.
  intros Hinv Hsteps. revert k replied Hinv.
  induction Hsteps as [s|s1 s2 s3 Hstep _ IH]; intros k replied Hinv; [by exists k, replied|].
  destruct Hstep as [s s' E|i s s' E|i s s' E|i addr datagram s].
  - pose proof (nbd_wakeup_inv k replied s Hinv) as Hn. rewrite E in Hn.
    destruct Hn as (r & _ & Hn & _). by apply (IH (S k) replied).
  - pose proof (run_task_inv k replied i s Hinv) as Hn. rewrite E in Hn. by apply (IH k replied).
  - pose proof (minion_wakeup_inv k replied i s Hinv) as Hn. rewrite E in Hn.
    destruct Hn as [replied' Hn]. by apply (IH k replied').
  - apply (IH k replied). destruct Hinv. by constructor.
Qed.
End Protocol.

(** ** Property *)

Lemma boot_inv `{LinuxNBD} reqs mbMinion minions tcp s0 :
  boot mbMinion minions tcp = Ok s0 ->
  TCPClient.available (TCPClient.incoming tcp) = (reqs ≫= encode) ->
  TCPClient.sent tcp = [] -> TCPClient.sends_succeed tcp ->
  master_inv reqs 0 [] s0.
Proof.
  intros Hboot Ha Hs Hsend. revert Hboot. unfold boot, Init.
  destruct (bool_decide (minions = [])); [done|]. destruct (mbMinion =? 0); [done|].
  run_prog. cbn [fst snd]. intros [= <-].
  constructor; cbn [backend m_queue]; [|done]. constructor; cbn [b_rm b_nbd b_world w_uid w_tickets].
  - lia.
  - done.
  - by constructor.
  - intros uid. cbn [m_requests m_responses RegisterForNewTaskArgs].
    rewrite (lookup_empty (M := gmap Z) (A := Response)), (lookup_empty (M := gmap Z) (A := nbd_reply)).
    split; by intros [].
  - constructor.
  - split; [constructor|]. split; constructor.
Qed.

(** C8: what the kernel can rely on, whatever the minions and the network do, in
    whatever order the threads run: at every moment the master has read the
    first [k] requests of the stream, and what it has written is a sequence of
    complete replies, each for one of these requests, at most one for each, with
    the request's handle, error 0 or [EIO], followed by exactly the requested
    number of bytes after a successful read and by nothing otherwise; the
    requests read and not answered are exactly those in the table of pending
    replies. *)
Theorem replies_conform `{LinuxNBD} (reqs : list kernel_request) (mbMinion : Z)
    (minions : list (MinionProxy closure)) (tcp : TCPClient.t) (s0 s : Master)
    (Hreqs : Forall request_wf reqs) (Hmany : Z.of_nat (length reqs) < 2 ^ 64)
    (Hboot : boot mbMinion minions tcp = Ok s0)
    (Hstream : TCPClient.available (TCPClient.incoming tcp) = (reqs ≫= encode))
    (Hsent : TCPClient.sent tcp = []) (Hsends : TCPClient.sends_succeed tcp)
    (Hsteps : steps s0 s) :
  exists k replied, (k <= length reqs)%nat
    /\ TCPClient.available (TCPClient.incoming (m_nbd (b_nbd (backend s)))) = (drop k reqs ≫= encode)
    /\ TCPClient.sent (m_nbd (b_nbd (backend s))) = (replied ≫= reply_bytes reqs)
    /\ Forall (reply_ok reqs) replied /\ NoDup replied.*1.*1
    /\ Forall (fun i => i < k)%nat replied.*1.*1
    /\ (forall i, (i < k)%nat ->
         i ∉ replied.*1.*1 <-> is_Some (m_responses (b_nbd (backend s)) !! Z.of_nat i)).
Proof.
  destruct (steps_inv reqs Hreqs Hmany 0 [] s0 s) as (k & replied & [Hb _]);
    [by eapply boot_inv|done|].
  destruct Hb as [Hk _ [Hs _ _ [Hresp _] Ho] _ _ (Hnd & Hro & Hlt)].
  exists k, replied. split_and!; try done. intros i Hi.
  destruct (lookup_lt_is_Some_2 reqs i ltac:(lia)) as [r Hr]. rewrite (Hresp i r Hr).
  case_decide as Hd; unfold outstanding in Hd; split; intros Hx; try done; tauto.
Qed.

Definition sample_tcp : TCPClient.t :=
  TCPClient.mk 6 [TCPClient.Data ([sample_read; sample_write] ≫= encode)] [] [].

Lemma replies_conform_witness :
  exists s, (exists s0, boot 4194304 [sample_proxy 3; sample_proxy 4] sample_tcp = Ok s0 /\ steps s0 s)
  /\ exists k replied, (k <= 2)%nat
    /\ TCPClient.available (TCPClient.incoming (m_nbd (b_nbd (backend s))))
       = (drop k [sample_read; sample_write] ≫= encode)
    /\ TCPClient.sent (m_nbd (b_nbd (backend s))) = (replied ≫= reply_bytes [sample_read; sample_write])
    /\ Forall (reply_ok [sample_read; sample_write]) replied /\ NoDup replied.*1.*1
    /\ Forall (fun i => i < k)%nat replied.*1.*1
    /\ (forall i, (i < k)%nat ->
         i ∉ replied.*1.*1 <-> is_Some (m_responses (b_nbd (backend s)) !! Z.of_nat i)).
Proof.
  destruct (boot 4194304 [sample_proxy 3; sample_proxy 4] sample_tcp) as [s0|e| |] eqn:E0;
    try (exfalso; revert E0; vm_compute; discriminate).
  exists (nbd_wakeup s0).2.
  assert (Hsteps : steps s0 (nbd_wakeup s0).2).
  { apply rtc_once, step_nbd. assert (Hok : (nbd_wakeup s0).1 = Ok tt).
    { assert (Es : (match boot 4194304 [sample_proxy 3; sample_proxy 4] sample_tcp with
                    | Ok s => (nbd_wakeup s).1 | _ => Blocked end) = Ok tt) by (vm_compute; reflexivity).
      by rewrite E0 in Es. }
    destruct (nbd_wakeup s0) as [r s1]. simpl in *. by subst r. }
  split; [by exists s0|].
  apply (replies_conform [sample_read; sample_write] 4194304
    [sample_proxy 3; sample_proxy 4] sample_tcp s0).
  - repeat constructor; simpl; lia.
  - simpl. lia.
  - exact E0.
  - vm_compute. reflexivity.
  - reflexivity.
  - constructor.
  - exact Hsteps.
Defined.
