(* ===== verification/Raid.v ===== *)
(** * Raid

    End-to-end behaviour of the master: what happens to one request between the
    kernel and the minions. *)

From S2P Require Import Prelude Bytes StripeSplitter Message TaskArgs Factory Dispatcher Sockets.
From S2P Require Import Logger Ticket IMinionProxy MinionProxy NBD NBDProxy ResponseManager World.
From S2P Require Import MinionManager Commands Framework Master Protocol.

(** ** The effect of a command *)

(** The state behind the manager once a ticket is created and announced. *)
Definition announce (t : Ticket ticket_callback) (uid : Z) (b : Backend) : Backend :=
  let w := b_world b in
  mk_Backend
    (mk_ResponseManager (m_requests (b_rm b)) (<[uid := length (w_tickets w)]> (m_tickets (b_rm b))))
    (b_nbd b)
    (mk_World (w_log w) (w_uid w) (w_tickets w ++ [RegisterToResultDispatcher TicketDone t])).

Abbreviation next_ticket b := (length (w_tickets (b_world b))).

Section Raid.
Context `{LinuxNBD}.
Abbreviation Manager := (MinionManager (MinionProxy closure) created_callback).
Implicit Types (m : Manager) (b : Backend) (s : Master).

Lemma alter_last {A} (f : A -> A) (l : list A) x : alter f (length l) (l ++ [x]) = l ++ [f x].
Proof. induction l as [|y l IH]; [done|]. simpl. f_equal. exact IH. Qed.

Lemma announced_eq m b op uid len segs :
  MinionManager.m_dispatcher m = [TicketCreated] ->
  announced make_ticket ticket_created m op uid len segs b (next_ticket b)
    (announce (make_Ticket uid op len segs) uid b).
Proof.
  intros Hd. eexists. split; [reflexivity|]. rewrite Hd. cbn [for_each].
  unfold ticket_created, on_rm_world, OnTicketCreate, register_done. run_prog.
  cbn [fst snd b_rm b_nbd b_world w_tickets w_log w_uid m_requests m_tickets].
  by rewrite alter_last.
Qed.

Lemma command_effect (R : MinionProxy closure -> Prop) op uid offset len buffer m b :
  MinionManager.m_dispatcher m = [TicketCreated] ->
  (forall (p p' : MinionProxy closure) k role,
     (waiting (W := Backend) p' = waiting (W := Backend) p
      \/ waiting (W := Backend) p' = <[uid := make_closure (next_ticket b) k role]> (waiting (W := Backend) p)) ->
     R p -> R p') ->
  Forall R (m_minions m) ->
  let '(_, (m', b')) := add_task make_ticket ticket_created make_closure op uid offset len buffer (m, b) in
  Forall R (m_minions m') /\ m' = set_minions (m_minions m') m
  /\ length (m_minions m') = length (m_minions m)
  /\ (b' = b /\ m' = m \/ exists segs logs, b' = add_logs logs (announce (make_Ticket uid op len segs) uid b)).
Proof.
  intros Hd HR Hm.
  set (Q := fun b2 b' : Backend => exists logs, b' = add_logs logs b2).
  assert (HQ : forall b2 logs b', Q b2 b' -> Q b2 (add_logs logs b')).
  { intros b2 logs b' [logs' ->]. exists (logs' ++ logs). by rewrite add_logs_app. }
  assert (Hgen : forall loop : nat -> nat * StripeSegment -> prog (Manager * Backend) unit,
    (forall b2 x st, keeps (Q b2) R st m -> keeps (Q b2) R (loop (next_ticket b) x st).2 m) ->
    let '(_, (m', b')) :=
      ('(ticket, segments) ← start make_ticket ticket_created op uid offset len;
       for_each (loop ticket) (imap pair segments)) (m, b) in
    Forall R (m_minions m') /\ m' = set_minions (m_minions m') m
  /\ length (m_minions m') = length (m_minions m)
    /\ (b' = b /\ m' = m \/ exists segs logs, b' = add_logs logs (announce (make_Ticket uid op len segs) uid b))).
  { intros loop Hloop.
    pose proof (start_cases make_ticket ticket_created op uid offset len m b) as Hs.
    unfold mbind, prog_bind at 1. destruct (start _ _ _ _ _ _ (m, b)) as [r [m' b']].
    destruct Hs as [-> [[-> Hr]|[segs Hs]]].
    { assert (Hsame : Forall R (m_minions m) /\ m = set_minions (m_minions m) m
        /\ length (m_minions m) = length (m_minions m)
        /\ (b = b /\ m = m \/ exists segs logs, b = add_logs logs (announce (make_Ticket uid op len segs) uid b)))
        by (split; [done|]; split; [by rewrite set_minions_id|split; [done|by left]]).
      by destruct r as [x|e| |]; [destruct (Hr x)|..]. }
    destruct (announced_eq m b op uid len segs Hd) as (w1 & E1 & E2).
    rewrite E1, E2 in Hs. destruct Hs as [-> Hr].
    assert (Hsame : Forall R (m_minions m) /\ m = set_minions (m_minions m) m
        /\ length (m_minions m) = length (m_minions m)
      /\ (announce (make_Ticket uid op len segs) uid b = b /\ m = m
          \/ exists segs' logs, announce (make_Ticket uid op len segs) uid b
               = add_logs logs (announce (make_Ticket uid op len segs') uid b)))
      by (split; [done|]; split; [by rewrite set_minions_id|split; [done|right; by exists segs, []]]).
    destruct r as [[ticket segments]|e| |]; [|exact Hsame..].
    injection Hr as -> ->.
    assert (Hk : keeps (Q (announce (make_Ticket uid op len segs) uid b)) R
      (for_each (loop (next_ticket b)) (imap pair segs) (m, announce (make_Ticket uid op len segs) uid b)).2 m).
    { apply (for_each_inv (fun st => keeps (Q (announce (make_Ticket uid op len segs) uid b)) R st m)).
      - intros x st _. apply Hloop.
      - split; [by exists []|]. split; [done|]. by rewrite set_minions_id. }
    destruct (for_each (loop (next_ticket b)) (imap pair segs) _) as [r [m' b']].
    destruct Hk as ((logs & Hb) & HR' & Hm' & Hl'). cbn [fst snd] in *.
    split; [done|]. split; [done|]. split; [done|]. right. by exists segs, logs. }
  destruct op; unfold add_task, AddReadTask, AddWriteTask.
  - apply (Hgen (read_segment make_closure uid)). intros b2 x st. by apply read_segment_frame; [apply HQ|].
  - apply (Hgen (fun t => write_segment make_closure uid t (Some buffer))). intros b2 x st.
    by apply write_segment_frame; [apply HQ|].
Qed.

(** ** The effect of the other handlers *)

Lemma OnTicketDone_frame result b :
  let '(_, b') := on_rm_nbd (OnTicketDone result) b in
  w_tickets (b_world b') = w_tickets (b_world b)
  /\ forall u, u <> tr_uid result ->
     m_responses (b_nbd b') !! u = m_responses (b_nbd b) !! u.
Proof.
  unfold on_rm_nbd. run_prog. rewrite OnTicketDone_eq. cbn [fst snd].
  case_decide; [|done].
  set (w := if tr_result result then _ else _).
  assert (Hw : w_tickets w = w_tickets (b_world b)) by (unfold w; by destruct (tr_result result)).
  pose proof (OnNBDResponse_frame (b_nbd b) w result) as Hf.
  destruct (OnNBDResponse result (b_nbd b, w)) as [r [n' w']].
  destruct Hf as (_ & [logs ->] & Hr). cbn [fst snd b_world b_nbd]. rewrite add_logs_World.
  split; [exact Hw|]. intros u Hu. destruct Hr as [-> | ->]; [done|].
  by apply lookup_delete_ne.
Qed.

Lemma notify_done_frame result l b :
  let '(_, b') := Notify (fun c => match c with TicketDone => on_rm_nbd (OnTicketDone result) end) l b in
  w_tickets (b_world b') = w_tickets (b_world b)
  /\ forall u, u <> tr_uid result ->
     m_responses (b_nbd b') !! u = m_responses (b_nbd b) !! u.
Proof.
  unfold Notify. revert b. induction l as [|[] l IH]; intros b; [done|].
  cbn [for_each]. unfold mbind, prog_bind. pose proof (OnTicketDone_frame result b) as Hf.
  destruct (on_rm_nbd (OnTicketDone result) b) as [[[]|e| |] b1]; try done.
  specialize (IH b1). destruct (for_each _ l b1) as [r b2].
  destruct Hf as [Ht Hr], IH as [Ht' Hr']. split; [congruence|].
  intros u Hu. by rewrite Hr', Hr.
Qed.

(** One closure runs. *)
Lemma respond_effect ticket segIdx role msg b b' :
  respond (ticket, segIdx, role) msg b = (Ok tt, b') ->
  exists t t' out, w_tickets (b_world b) !! ticket = Some t
    /\ OnMirrorResponse segIdx role (Some msg) t = Ok (t', out)
    /\ w_tickets (b_world b') = <[ticket := t']> (w_tickets (b_world b))
    /\ forall u, (u <> m_uid t \/ out = None) ->
        m_responses (b_nbd b') !! u = m_responses (b_nbd b) !! u.
Proof.
  unfold respond, on_world, set_ticket. run_prog. cbn [fst snd].
  destruct (w_tickets (b_world b) !! ticket) as [t|] eqn:Et; [|done].
  destruct (OnMirrorResponse segIdx role (Some msg) t) as [[t' out]|e| |] eqn:Eo; [|done..].
  cbn [fst snd]. set (b1 := mk_Backend _ _ _).
  destruct (OnMirrorResponse_result _ _ _ _ _ _ Eo) as (_ & _ & _ & _ & _ & _ & Hout).
  intros E. exists t, t', out. split; [done|]. split; [done|].
  destruct out as [result|].
  - pose proof (notify_done_frame result (Ticket.m_dispatcher t') b1) as Hf. rewrite E in Hf.
    destruct Hf as [Ht Hr]. split; [done|]. intros u [Hu|Hu]; [|done].
    rewrite Hr; [done|]. by rewrite (proj1 (Hout result eq_refl)).
  - injection E as <-. done.
Qed.

Lemma minion_wakeup_effect i s s' :
  minion_wakeup i s = (Ok tt, s') ->
  m_queue s' = m_queue s /\ exists p p',
    m_minions (manager s) !! i = Some p
    /\ manager s' = set_minions (<[i := p']> (m_minions (manager s))) (manager s)
    /\ m_socket p' = (UDPSocket.ReceiveFrom (BUFSIZ - 1) (m_socket p)).2
    /\ (m_map p' = m_map p \/ exists u, m_map p' = delete u (m_map p))
    /\ ((w_tickets (b_world (backend s')) = w_tickets (b_world (backend s))
         /\ b_nbd (backend s') = b_nbd (backend s))
        \/ exists uid c msg, m_map p !! uid = Some c
           /\ respond c msg (backend s) = (Ok tt, backend s')).
Proof.
  unfold minion_wakeup, on_manager, minion. run_prog. cbn [fst snd]. rewrite Nat2Z.id.
  destruct (m_minions (manager s) !! i) as [p|]; [|done].
  pose proof (OnMinionFDWakeUp_frame respond master_factory p (backend s)) as Hf.
  pose proof (OnMinionFDWakeUp_socket respond master_factory p (backend s)) as Hsock.
  destruct (OnMinionFDWakeUp master_factory respond (p, backend s)) as [r [p' b']].
  cbn [fst snd] in Hsock |- *. intros [= -> <-]. cbn [m_queue manager backend fst snd]. split; [done|].
  exists p, p'. split; [done|]. split; [done|]. split; [done|].
  destruct Hf as (_ & _ & [[Hm [logs ->]]|(uid & c & m & _ & Hc & Hb & Hr & Hm)]).
  - split; [by left|]. left. by rewrite add_logs_backend, add_logs_World.
  - split; [right; by exists uid|]. right. exists uid, c, m. split; [done|].
    destruct (respond c m (backend s)) as [r b2]. simpl in *. by subst.
Qed.


(** A thread of the pool takes a task. *)
Lemma run_task_effect (R : MinionProxy closure -> Prop) i s s' j r :
  m_queue s !! i = Some (task_of j r) ->
  MinionManager.m_dispatcher (manager s) = [TicketCreated] ->
  (forall (p p' : MinionProxy closure) k role,
     (m_map p' = m_map p \/ m_map p' = <[j := (next_ticket (backend s), k, role)]> (m_map p)) ->
     R p -> R p') ->
  Forall R (m_minions (manager s)) ->
  run_task i s = (Ok tt, s') ->
  m_queue s' = delete i (m_queue s) /\ Forall R (m_minions (manager s'))
  /\ manager s' = set_minions (m_minions (manager s')) (manager s)
  /\ length (m_minions (manager s')) = length (m_minions (manager s))
  /\ exists logs, backend s' = add_logs logs (backend s) /\ manager s' = manager s
     \/ exists segs, backend s' = add_logs logs
          (announce (make_Ticket j (op_of r) (k_len r) segs) j (backend s)).
Proof.
  intros Hq Hd HR Hm. rewrite (run_task_eq s i j r Hq).
  pose proof (command_effect R (op_of r) j (k_from r) (k_len r) (default [] (k_data r))
    (manager s) (backend s) Hd HR Hm) as Heff.
  destruct (add_task _ _ _ _ _ _ _ _ _) as [res [m' b']]. destruct Heff as (HR' & Hm' & Hl & Hb).
  assert (Hcases : forall b2, (exists logs, b2 = add_logs logs b') ->
    exists logs, b2 = add_logs logs (backend s) /\ m' = manager s
     \/ exists segs, b2 = add_logs logs (announce (make_Ticket j (op_of r) (k_len r) segs) j (backend s))).
  { intros b2 [logs' ->]. destruct Hb as [[-> ->] | (segs & logs & ->)].
    - exists logs'. by left.
    - exists (logs ++ logs'). right. exists segs. by rewrite add_logs_app. }
  destruct res as [[]|e| |]; try done; intros [= <-]; cbn [manager backend m_queue];
    (split; [done|]; split; [done|]; split; [done|]; split; [done|]); apply Hcases.
  - by exists [].
  - by exists [(command_prefix (op_of r) +:+ what e, ERROR)].
Qed.

(** ** A sound state *)

Definition uids s : list Z :=
  (m_uid <$> w_tickets (b_world (backend s))) ++ (args_uid <$> m_queue s).

Context (reqs : list kernel_request).
Hypothesis Hreqs : Forall request_wf reqs.
Hypothesis Hmany : Z.of_nat (length reqs) < 2 ^ 64.

Record sane (k : nat) (replied : list reply) s : Prop := {
  sn_inv : master_inv reqs k replied s;
  sn_manager : manager_ok (manager s) /\ MinionManager.m_dispatcher (manager s) = [TicketCreated];
  sn_uids : NoDup (uids s);
  sn_pending : Forall (fun a => is_Some (m_responses (b_nbd (backend s)) !! args_uid a)) (m_queue s);
  sn_closures : Forall (fun p => forall u c, m_map p !! u = Some c ->
    (m_uid <$> w_tickets (b_world (backend s))) !! c.1.1 = Some u) (m_minions (manager s));
}.

Lemma manager_ok_set ps m :
  length ps = length (m_minions m) -> manager_ok m -> manager_ok (set_minions ps m).
Proof. intros Hl Hm. unfold manager_ok in *. cbn [m_minions set_minions m_MBMinion m_driveSize]. by rewrite Hl. Qed.

Lemma tickets_logs logs b :
  w_tickets (b_world (add_logs logs b)) = w_tickets (b_world b)
  /\ b_nbd (add_logs logs b) = b_nbd b.
Proof. by rewrite add_logs_backend, add_logs_World. Qed.

Lemma m_uid_insert (l : list (Ticket ticket_callback)) i t t' :
  l !! i = Some t -> m_uid t' = m_uid t -> m_uid <$> <[i := t']> l = m_uid <$> l.
Proof.
  intros Hi Hu. rewrite list_fmap_insert, Hu. apply list_insert_id. by rewrite list_lookup_fmap, Hi.
Qed.

Lemma nbd_wakeup_sane k replied s s' :
  sane k replied s -> nbd_wakeup s = (Ok tt, s') -> sane (S k) replied s'.
Proof.
  intros [Hinv Hm Hu Hp Hc] E.
  pose proof (nbd_wakeup_inv reqs Hreqs Hmany k replied s Hinv) as Hn. rewrite E in Hn.
  destruct Hn as (r & Hr & Hinv' & Em & Et & Eq & Er).
  assert (Huid : args_uid (task_of (Z.of_nat k) r) = Z.of_nat k)
    by (unfold task_of; by destruct (k_data r)).
  constructor; [done|by rewrite Em|..].
  - unfold uids. rewrite Et, Eq, fmap_app, app_assoc. fold (uids s).
    apply NoDup_app. split; [done|]. split; [|apply NoDup_singleton].
    cbn [fmap list_fmap]. rewrite Huid. intros u Hin ->%list_elem_of_singleton.
    destruct Hinv as [Hb Hq]. unfold uids in Hin. apply elem_of_app in Hin as [Hin|Hin];
      apply list_elem_of_fmap in Hin as (x & Hx & Hin).
    + pose proof (bi_tickets _ _ _ _ Hb) as Ht. rewrite Forall_forall in Ht.
      destruct (Ht x Hin) as (i & ? & _ & Hi & Hxu & _). lia.
    + rewrite Forall_forall in Hq. destruct (Hq x Hin) as (i & r' & _ & Hi & ->).
      unfold task_of in Hx. destruct (k_data r'); simpl in Hx; lia.
  - rewrite Eq, Er. apply Forall_app. split.
    + eapply Forall_impl; [exact Hp|]. intros a Ha. rewrite lookup_insert. by case_decide.
    + constructor; [|done]. rewrite Huid, lookup_insert_eq. done.
  - by rewrite Em, Et.
Qed.

Lemma run_task_sane k replied i s s' :
  sane k replied s -> run_task i s = (Ok tt, s') -> sane k replied s'.
Proof.
  intros [Hinv [Hm Hd] Hu Hp Hc] E.
  pose proof (run_task_inv reqs k replied i s Hinv) as Hn. rewrite E in Hn.
  destruct (m_queue s !! i) as [a|] eqn:Ea; [|unfold run_task in E; by rewrite Ea in E].
  destruct Hinv as [Hb Hq]. assert (Ha : task_inv reqs k a) by (rewrite Forall_lookup in Hq; by eapply Hq).
  destruct Ha as (j & r & Hr & Hj & ->).
  assert (Huid : args_uid (task_of (Z.of_nat j) r) = Z.of_nat j)
    by (unfold task_of; by destruct (k_data r)).
  assert (Hdel : m_queue s = take i (m_queue s) ++ task_of (Z.of_nat j) r :: drop (S i) (m_queue s))
    by (symmetry; by apply take_drop_middle).
  destruct (run_task_effect (fun p => forall u c, m_map p !! u = Some c ->
    ((m_uid <$> w_tickets (b_world (backend s))) ++ [Z.of_nat j]) !! c.1.1 = Some u) i s s' (Z.of_nat j) r Ea Hd) as (Eq & HR & Em & El & logs & Eb).
  { intros p p' k' role [Hp'|Hp'] HRp u c; rewrite Hp'; [apply HRp|].
    intros [[<- <-]|[_ Hc']]%lookup_insert_Some; [|by eapply HRp].
    cbn [fst]. apply list_lookup_middle. by rewrite length_fmap. }
  { eapply Forall_impl; [exact Hc|]. intros p Hlt u c Hin. by apply lookup_app_l_Some, Hlt. }
  { done. }
  assert (Hp' : Forall (fun a => is_Some (m_responses (b_nbd (backend s)) !! args_uid a)) (m_queue s')).
  { rewrite Eq, delete_take_drop. rewrite Hdel in Hp. apply Forall_app in Hp as [? Hp].
    apply Forall_cons in Hp as [_ ?]. by apply Forall_app. }
  assert (Hperm : (m_uid <$> w_tickets (b_world (backend s))) ++ Z.of_nat j :: (args_uid <$> m_queue s')
    ≡ₚ uids s).
  { unfold uids. apply Permutation_app_head.
    trans (args_uid <$> (take i (m_queue s) ++ task_of (Z.of_nat j) r :: drop (S i) (m_queue s)));
      [|by rewrite <-Hdel].
    rewrite Eq, delete_take_drop, !fmap_app. cbn [fmap list_fmap]. rewrite Huid.
    apply Permutation_middle. }
  rewrite <-Hperm in Hu.
  assert (Hok : manager_ok (manager s') /\ MinionManager.m_dispatcher (manager s') = [TicketCreated])
    by (rewrite Em; split; [by apply manager_ok_set|done]).
  destruct Eb as [[Eb Em']|[segs Eb]]; rewrite ?Eb;
    destruct (tickets_logs logs (backend s)) as [Ht Hnbd].
  - constructor; [done|done|..]; unfold uids; rewrite ?Eb, ?Ht, ?Hnbd.
    + eapply sublist_NoDup; [exact Hu|]. apply sublist_app; [done|]. by apply sublist_cons.
    + done.
    + by rewrite Em'.
  - destruct (tickets_logs logs (announce (make_Ticket (Z.of_nat j) (op_of r) (k_len r) segs)
      (Z.of_nat j) (backend s))) as [Ht' Hnbd'].
    constructor; [done|done|..]; unfold uids; rewrite Eb, ?Ht', ?Hnbd'; unfold announce; cbn [b_world b_nbd w_tickets].
    + rewrite fmap_app, <-app_assoc. exact Hu.
    + exact Hp'.
    + rewrite fmap_app. exact HR.
Qed.

Lemma minion_wakeup_sane k replied i s s' :
  sane k replied s -> minion_wakeup i s = (Ok tt, s') -> exists replied', sane k replied' s'.
Proof.
  intros [Hinv [Hm Hd] Hu Hp Hc] E.
  pose proof (minion_wakeup_inv reqs Hreqs k replied i s Hinv) as Hn. rewrite E in Hn.
  destruct Hn as [replied' Hinv']. exists replied'.
  destruct (minion_wakeup_effect i s s' E) as (Eq & p & p' & Hpi & Em & _ & Hmap & Hcase).
  assert (Htick : m_uid <$> w_tickets (b_world (backend s')) = m_uid <$> w_tickets (b_world (backend s))
    /\ next_ticket (backend s') = next_ticket (backend s)
    /\ forall a, a ∈ m_queue s -> is_Some (m_responses (b_nbd (backend s')) !! args_uid a)).
  { rewrite Forall_forall in Hp. destruct Hcase as [[Ht Hnbd]|(uid & [[t k'] role] & msg & _ & Hresp)].
    { by rewrite Ht, Hnbd. }
    destruct (respond_effect t k' role msg _ _ Hresp) as (tk & tk' & out & Htk & Eo & Ht & Hr).
    destruct (OnMirrorResponse_result _ _ _ _ _ _ Eo) as (Hu' & _).
    split; [by rewrite Ht; eapply m_uid_insert|]. split; [by rewrite Ht, length_insert|].
    intros a Ha. rewrite Hr; [by apply Hp|]. left. intros Hbad.
    apply NoDup_app in Hu as (_ & Hdisj & _). apply (Hdisj (m_uid tk)).
    - apply list_elem_of_fmap. exists tk. split; [done|]. by eapply list_elem_of_lookup_2.
    - apply list_elem_of_fmap. by exists a. }
  destruct Htick as (Hus & Hnext & Hpend).
  constructor; [done|..].
  - rewrite Em. split; [apply manager_ok_set; [by rewrite length_insert|done]|done].
  - unfold uids. by rewrite Hus, Eq.
  - rewrite Forall_forall, Eq. exact Hpend.
  - rewrite Em, Hus. cbn [set_minions m_minions]. apply Forall_insert; [done|].
    rewrite Forall_lookup in Hc. specialize (Hc i p Hpi). intros u c.
    destruct Hmap as [-> | [u' ->]]; [apply Hc|].
    intros [_ Hin]%lookup_delete_Some. by eapply Hc.
Qed.

Lemma deliver_sane k replied i addr datagram s :
  sane k replied s -> sane k replied (deliver i addr datagram s).
Proof.
  intros [[Hb Hq] [Hm Hd] Hu Hp Hc]. constructor; [by constructor|..]; try done.
  - unfold deliver. cbn [manager]. split; [|done]. apply manager_ok_set; [by rewrite length_alter|done].
  - unfold deliver. cbn [manager backend set_minions m_minions]. by apply Forall_alter.
Qed.

Lemma steps_sane k replied s s' :
  sane k replied s -> steps s s' -> exists k' replied', sane k' replied' s'.
Proof.
  intros Hs Hsteps. revert k replied Hs.
  induction Hsteps as [s|s1 s2 s3 Hstep _ IH]; intros k replied Hs; [by exists k, replied|].
  destruct Hstep as [s s' E|i s s' E|i s s' E|i addr datagram s].
  - eapply IH, nbd_wakeup_sane; done.
  - eapply IH, run_task_sane; done.
  - destruct (minion_wakeup_sane k replied i s s' Hs E) as [replied' Hs']. by eapply IH.
  - eapply IH, deliver_sane; done.
Qed.

(** The request crosses a chunk boundary: it has at least two segments. *)
Lemma crossing_segments offset len chunk n segs :
  0 < chunk < 2 ^ 64 -> 0 < n < 2 ^ 64 -> 0 <= offset -> 0 <= len < 2 ^ 64 ->
  offset + len <= 2 ^ 64 -> offset `div` chunk < (offset + len - 1) `div` chunk ->
  Split offset len chunk n = Ok segs -> (1 < length segs)%nat.
Proof.
  intros Hc Hn Ho Hl Hr Hx Hs.
  assert (Hcount : Z.of_nat (length segs) = chunks_touched chunk len offset)
    by (eapply Split_loop_count; [.. | exact Hs]; lia).
  unfold chunks_touched in Hcount.
  destruct (Z.ltb_spec 0 len); [lia|]. assert (len = 0) as -> by lia.
  pose proof (Z.div_le_mono (offset + 0 - 1) offset chunk). lia.
Qed.

(** ** A write that can no longer complete *)

(** Ticket [t], of request [u], misses the answer of the backup of segment [i],
    and no proxy will run the continuation for it. *)
Record hung (t i : nat) (u : Z) s : Prop := {
  hg_ticket : exists tk seg, w_tickets (b_world (backend s)) !! t = Some tk /\ m_uid tk = u
    /\ m_op tk = WRITE /\ m_completed tk = false
    /\ m_segments tk !! i = Some seg /\ backupDone seg = false;
  hg_proxies : Forall (fun p => forall uid, m_map p !! uid <> Some (t, i, BACKUP))
    (m_minions (manager s));
  hg_pending : is_Some (m_responses (b_nbd (backend s)) !! u);
}.

Lemma hung_nbd k replied t i u s s' :
  sane k replied s -> hung t i u s -> nbd_wakeup s = (Ok tt, s') -> hung t i u s'.
Proof.
  intros [Hinv _ _ _ _] [Ht Hp Hu] E.
  pose proof (nbd_wakeup_inv reqs Hreqs Hmany k replied s Hinv) as Hn. rewrite E in Hn.
  destruct Hn as (r & _ & _ & Em & Et & _ & Er).
  constructor; [by rewrite Et|by rewrite Em|]. rewrite Er, lookup_insert. by case_decide.
Qed.

Lemma hung_task k replied t i u j s s' :
  sane k replied s -> hung t i u s -> run_task j s = (Ok tt, s') -> hung t i u s'.
Proof.
  intros [[Hb Hq] [_ Hd] _ _ _] [(tk & seg & Htk & Hrest) Hp Hu] E.
  destruct (m_queue s !! j) as [a|] eqn:Ea; [|unfold run_task in E; by rewrite Ea in E].
  assert (Ha : task_inv reqs k a) by (rewrite Forall_lookup in Hq; by eapply Hq).
  destruct Ha as (n & r & _ & _ & ->).
  pose proof (lookup_lt_Some _ _ _ Htk) as Hlt.
  destruct (run_task_effect (fun p => forall uid, m_map p !! uid <> Some (t, i, BACKUP))
    j s s' (Z.of_nat n) r Ea Hd) as (_ & HR & _ & _ & logs & Eb); [|done|done|].
  { intros p p' k' role [Hp'|Hp'] HRp uid; rewrite Hp'; [apply HRp|].
    intros [[_ Hc]|[_ Hc]]%lookup_insert_Some; [injection Hc as Hc _ _; lia|by eapply HRp]. }
  constructor; [|done|].
  - exists tk, seg. split; [|done].
    destruct Eb as [[-> _]|[segs ->]]; rewrite (proj1 (tickets_logs logs _)); [done|].
    unfold announce. cbn [b_world w_tickets]. by rewrite lookup_app_l.
  - destruct Eb as [[-> _]|[segs ->]]; by rewrite (proj2 (tickets_logs logs _)).
Qed.

Lemma hung_minion k replied t i u j s s' :
  sane k replied s -> hung t i u s -> minion_wakeup j s = (Ok tt, s') -> hung t i u s'.
Proof.
  intros [_ _ Hnd _ _] [(tk & seg & Htk & Hux & Hop & Hcomp & Hseg & Hback) Hp Hu] E.
  destruct (minion_wakeup_effect j s s' E) as (_ & p & p' & Hpj & Em & _ & Hmap & Hcase).
  assert (Hno : forall uid, m_map p !! uid <> Some (t, i, BACKUP))
    by (rewrite Forall_lookup in Hp; by apply (Hp j)).
  constructor.
  2:{ rewrite Em. cbn [set_minions m_minions]. apply Forall_insert; [done|].
      intros uid. destruct Hmap as [-> | [u' ->]]; [apply Hno|].
      intros [_ Hin]%lookup_delete_Some. by eapply Hno. }
  all: destruct Hcase as [[Ht Hnbd]|(uid & [[t0 k0] r0] & msg & Hc & Hresp)];
    [rewrite ?Ht, ?Hnbd; by eauto 10|].
  all: destruct (respond_effect t0 k0 r0 msg _ _ Hresp) as (tk0 & tk0' & out & Htk0 & Eo & Ht & Hr).
  all: destruct (OnMirrorResponse_result _ _ _ _ _ _ Eo) as (Hu0 & Hop0 & _).
  all: destruct (decide (t0 = t)) as [->|Hne].
  all: try (assert (tk0 = tk) as -> by congruence;
    destruct (OnMirrorResponse_open _ _ _ _ _ _ i seg Eo Hop Hcomp Hseg Hback)
      as (-> & Hc' & seg' & Hs' & Hb'); [intros [= -> ->]; by eapply Hno|]).
  - exists tk0', seg'. rewrite Ht, list_lookup_insert_eq by by eapply lookup_lt_Some.
    split_and!; (done || congruence).
  - exists tk, seg. rewrite Ht, list_lookup_insert_ne by done. done.
  - rewrite Hr by by right. done.
  - rewrite Hr; [done|]. left. intros Hbad. apply Hne.
    unfold uids in Hnd. apply NoDup_app in Hnd as (Hnd & _ & _).
    apply (NoDup_lookup (m_uid <$> w_tickets (b_world (backend s))) t0 t u); [done|..];
      rewrite list_lookup_fmap; [rewrite Htk0|rewrite Htk]; simpl; congruence.
Qed.

Lemma hung_forever k replied t i u s s' :
  sane k replied s -> hung t i u s -> steps s s' -> hung t i u s'.
Proof.
  intros Hs Hh Hsteps. revert k replied Hs Hh.
  induction Hsteps as [s|s1 s2 s3 Hstep _ IH]; intros k replied Hs Hh; [done|].
  destruct Hstep as [s s' E|j s s' E|j s s' E|j addr datagram s].
  - eapply IH; [by eapply nbd_wakeup_sane|by eapply hung_nbd].
  - eapply IH; [by eapply run_task_sane|by eapply hung_task].
  - destruct (minion_wakeup_sane k replied j s s' Hs E) as [replied' Hs'].
    eapply IH; [done|]. exact (hung_minion _ _ _ _ _ _ _ _ Hs Hh E).
  - eapply IH; [by eapply deliver_sane|]. destruct Hh as [Ht Hp Hu]. constructor; [done| |done].
    unfold deliver. cbn [manager set_minions m_minions]. by apply Forall_alter.
Qed.
Lemma fresh_uid k replied s j u r :
  sane k replied s -> m_queue s !! j = Some (task_of u r) ->
  Forall (fun p => m_map p !! u = None) (m_minions (manager s)).
Proof.
  intros [_ _ Hnd _ Hc] Hq. eapply Forall_impl; [exact Hc|]. intros p Hp.
  destruct (m_map p !! u) as [c|] eqn:Ec; [|done]. exfalso.
  apply Hp, list_elem_of_lookup_2 in Ec.
  apply NoDup_app in Hnd as (_ & Hdisj & _). apply (Hdisj u); [exact Ec|].
  apply list_elem_of_fmap. exists (task_of u r).
  split; [unfold task_of; by destruct (k_data r)|by eapply list_elem_of_lookup_2].
Qed.

(** After the command of a write with several segments nobody waits for the
    backup of the first. *)
Lemma crossing_write_hangs k replied s j u r :
  sane k replied s -> m_queue s !! j = Some (task_of u r) -> op_of r = WRITE -> in_u64 u ->
  in_range (manager s) (k_from r) (k_len r) -> Forall (fun p => UDPSocket.reliable (m_socket p)) (m_minions (manager s)) ->
  k_from r `div` m_MBMinion (manager s) < (k_from r + k_len r - 1) `div` m_MBMinion (manager s) ->
  exists s', run_task j s = (Ok tt, s') /\ hung (next_ticket (backend s)) 0 u s'.
Proof.
  intros Hs Hq Hop Hu Hr Hup Hx. pose proof Hs as [[Hb _] [Hm Hd] _ Hp Hc].
  destruct (manager_split _ _ _ Hm Hr) as [segs Hsplit].
  assert (Hup' : Forall (up (W := Backend)) (m_minions (manager s))) by exact Hup.
  assert (Hlen : (1 < length segs)%nat).
  { destruct Hm as (? & ? & ? & ?), Hr as (? & ? & ?). eapply crossing_segments; [..|exact Hsplit]; nia. }
  destruct (lost_backup make_ticket ticket_created make_closure WRITE u (k_from r) (k_len r)
    (default [] (k_data r)) (manager s) (backend s) _ (next_ticket (backend s)) segs 0
    Hm Hr Hu Hup' Hsplit (announced_eq _ _ _ _ _ _ Hd)) as (ps' & logs & E & Hlost);
    [by intros ???? [=]|by eapply fresh_uid|lia|].
  rewrite <-Hop in E. pose proof (run_task_ok s j u r _ _ Hq E) as Erun.
  eexists. split; [exact Erun|].
  edestruct (run_task_effect (fun p => forall uid, uid <> u ->
    m_map p !! uid <> Some (next_ticket (backend s), 0%nat, BACKUP)) j s)
    as (_ & HR & _); [exact Hq|exact Hd| | |exact Erun|].
  { intros p p' k' role [Hp'|Hp'] HRp uid Hne; rewrite Hp'; [by apply HRp|].
    rewrite lookup_insert_ne by done. by apply HRp. }
  { eapply Forall_impl; [exact Hc|]. intros p Hlt uid _ Hin. apply Hlt, lookup_lt_Some in Hin.
    rewrite length_fmap in Hin. cbn [fst] in Hin. lia. }
  cbn [manager backend m_queue set_minions m_minions] in *. constructor; cbn [manager backend].
  - destruct segs as [|seg segs]; [simpl in Hlen; lia|].
    exists (RegisterToResultDispatcher TicketDone (make_Ticket u WRITE (k_len r) (seg :: segs))), (new_segment seg).
    rewrite (proj1 (tickets_logs logs _)). unfold announce. cbn [b_world w_tickets].
    rewrite Hop, list_lookup_middle by done. done.
  - rewrite Forall_forall in HR |- *. rewrite Forall_forall in Hlost. intros p Hin uid.
    destruct (decide (uid = u)) as [->|Hne]; [by apply Hlost|by apply HR].
  - rewrite (proj2 (tickets_logs logs _)). unfold announce. cbn [b_nbd].
    rewrite Forall_lookup in Hp. specialize (Hp j _ Hq).
    unfold task_of in Hp. by destruct (k_data r).
Qed.
(** ** A request that nothing can complete *)

(** The reply of request [u] is pending, no task of it is queued, and its ticket,
    if there is one, has no segments. *)
Record dead (u : Z) s : Prop := {
  dd_tickets : Forall (fun t => m_uid t = u -> m_segments t = [])
    (w_tickets (b_world (backend s)));
  dd_queue : Forall (fun a => args_uid a <> u) (m_queue s);
  dd_pending : is_Some (m_responses (b_nbd (backend s)) !! u);
}.

Lemma dead_nbd k replied u s s' :
  sane k replied s -> dead u s -> nbd_wakeup s = (Ok tt, s') -> dead u s'.
Proof.
  intros [Hinv _ _ _ _] [Ht Hq Hu] E.
  pose proof (nbd_wakeup_inv reqs Hreqs Hmany k replied s Hinv) as Hn. rewrite E in Hn.
  destruct Hn as (r & _ & _ & _ & Et & Eq & Er).
  constructor; [by rewrite Et| |rewrite Er, lookup_insert; by case_decide].
  rewrite Eq. apply Forall_app. split; [done|]. constructor; [|done].
  destruct Hinv as [Hb _]. destruct Hu as [x Hx].
  destruct (responses_entry reqs k replied _ u x (bi_k _ _ _ _ Hb)
    (ni_responses _ _ _ _ (bi_nbd _ _ _ _ Hb)) Hx) as (i & r' & -> & _ & [Hi _] & _).
  unfold task_of. destruct (k_data r); cbn [args_uid]; lia.
Qed.

Lemma dead_task k replied u j s s' :
  sane k replied s -> dead u s -> run_task j s = (Ok tt, s') -> dead u s'.
Proof.
  intros [[_ Hq] [_ Hd] _ _ _] [Ht Hqu Hu] E.
  destruct (m_queue s !! j) as [a|] eqn:Ea; [|unfold run_task in E; by rewrite Ea in E].
  assert (Ha : task_inv reqs k a) by (rewrite Forall_lookup in Hq; by eapply Hq).
  destruct Ha as (n & r & _ & _ & ->).
  assert (Hne : Z.of_nat n <> u).
  { rewrite Forall_lookup in Hqu. specialize (Hqu j _ Ea). unfold task_of in Hqu.
    by destruct (k_data r). }
  destruct (run_task_effect (fun _ => True) j s s' (Z.of_nat n) r Ea Hd)
    as (Eq & _ & _ & _ & logs & Eb); [done|by apply Forall_true|done|].
  constructor.
  - destruct Eb as [[-> _]|[segs ->]]; rewrite (proj1 (tickets_logs logs _)); [done|].
    unfold announce. cbn [b_world w_tickets]. apply Forall_app. split; [done|].
    by repeat constructor.
  - rewrite Eq, delete_take_drop. apply Forall_app. split; [by apply Forall_take|by apply Forall_drop].
  - destruct Eb as [[-> _]|[segs ->]]; by rewrite (proj2 (tickets_logs logs _)).
Qed.

Lemma dead_minion u j s s' : dead u s -> minion_wakeup j s = (Ok tt, s') -> dead u s'.
Proof.
  intros [Ht Hq Hu] E.
  destruct (minion_wakeup_effect j s s' E) as (Eq & p & p' & _ & _ & _ & _ & Hcase).
  destruct Hcase as [[Et Hnbd]|(uid & [[t0 k0] r0] & msg & _ & Hresp)].
  { constructor; [by rewrite Et|by rewrite Eq|by rewrite Hnbd]. }
  destruct (respond_effect t0 k0 r0 msg _ _ Hresp) as (tk & tk' & out & Htk & Eo & Et & Hr).
  destruct (OnMirrorResponse_result _ _ _ _ _ _ Eo) as (Hu0 & _).
  assert (Hnone : m_uid tk = u -> tk' = tk /\ out = None).
  { intros Huid. rewrite Forall_lookup in Ht. specialize (Ht t0 tk Htk Huid).
    revert Eo. unfold OnMirrorResponse. rewrite Ht, orb_true_r. by intros [= <- <-]. }
  constructor; [|by rewrite Eq|].
  - rewrite Et. apply Forall_insert; [done|]. intros Huid. rewrite Hu0 in Huid.
    rewrite (proj1 (Hnone Huid)). rewrite Forall_lookup in Ht. by apply (Ht t0 tk).
  - rewrite Hr; [done|]. destruct (decide (m_uid tk = u)) as [Huid|Hne].
    + right. by apply Hnone.
    + left. congruence.
Qed.

Lemma dead_forever k replied u s s' :
  sane k replied s -> dead u s -> steps s s' -> dead u s'.
Proof.
  intros Hs Hh Hsteps. revert k replied Hs Hh.
  induction Hsteps as [s|s1 s2 s3 Hstep _ IH]; intros k replied Hs Hh; [done|].
  destruct Hstep as [s s' E|j s s' E|j s s' E|j addr datagram s].
  - eapply IH; [by eapply nbd_wakeup_sane|by eapply dead_nbd].
  - eapply IH; [by eapply run_task_sane|by eapply dead_task].
  - destruct (minion_wakeup_sane k replied j s s' Hs E) as [replied' Hs'].
    eapply IH; [done|by eapply dead_minion].
  - eapply IH; [by eapply deliver_sane|]. by destruct Hh.
Qed.

Lemma queued_request k replied s j a :
  sane k replied s -> m_queue s !! j = Some a ->
  exists n r, (n < length reqs)%nat /\ a = task_of (Z.of_nat n) r.
Proof.
  intros [[_ Hq] _ _ _ _] Hj. rewrite Forall_lookup in Hq.
  destruct (Hq j a Hj) as (n & r & Hr & _ & ->). exists n, r. split; [|done].
  by eapply lookup_lt_Some.
Qed.

(** A request beyond the end of the drive, or of no bytes, gets no segments. *)
Definition no_segments s (offset len : Z) : Prop :=
  m_driveSize (manager s) < offset + len < 2 ^ 64
  \/ len = 0 /\ 0 <= offset <= m_driveSize (manager s).

Lemma no_segments_dies k replied s j u r :
  sane k replied s -> m_queue s !! j = Some (task_of u r) -> no_segments s (k_from r) (k_len r) ->
  exists s', run_task j s = (Ok tt, s') /\ dead u s'.
Proof.
  intros Hs Hq Hno. pose proof Hs as [[Hb Hqi] [Hm Hd] Hnd Hp _].
  assert (Hu : args_uid (task_of u r) = u) by (unfold task_of; by destruct (k_data r)).
  assert (Hstart : exists rs b', start make_ticket ticket_created (op_of r) u (k_from r) (k_len r)
      (manager s, backend s) = (rs, (manager s, b'))
    /\ match rs with Throw _ => b' = backend s | Ok (_, segs) => segs = []
         /\ b' = announce (make_Ticket u (op_of r) (k_len r) []) u (backend s) | _ => False end).
  { destruct Hno as [[Hlo Hhi]|[Hlen Hr]].
    - eexists _, _. unfold start, ValidateRange. run_prog. cbn [fst snd].
      destruct Hm as (Hc & HN & Hdrive & Hmax).
      assert (0 < m_driveSize (manager s)) by nia. rewrite u64_small, (proj2 (Z.ltb_lt _ _)) by lia.
      by split.
    - eexists _, _. split; [eapply (start_ok _ _ _ _ _ _ _ _ _ _ []); [exact Hm| | |by apply announced_eq]|by split].
      + unfold in_range. lia.
      + unfold Split. by rewrite Hlen, Split_loop_done. }
  rewrite (run_task_eq s j u r Hq).
  set (queue := delete j (m_queue s)).
  assert (Hdead : forall b' logs, b' = backend s \/ b' = announce (make_Ticket u (op_of r) (k_len r) []) u (backend s) ->
    dead u (mk_Master (manager s) (add_logs logs b') queue)).
  { intros b' logs Hb'.
    assert (Hfree : forall x, x ∈ w_tickets (b_world (backend s)) -> m_uid x <> u).
    { intros x Hx Hxu. apply NoDup_app in Hnd as (_ & Hdisj & _). apply (Hdisj u).
      - apply list_elem_of_fmap. by exists x.
      - apply list_elem_of_fmap. exists (task_of u r). split; [done|]. by eapply list_elem_of_lookup_2. }
    constructor; cbn [backend m_queue].
    - rewrite (proj1 (tickets_logs logs _)), Forall_forall. intros x Hx Hxu.
      destruct Hb' as [-> | ->]; [by destruct (Hfree x Hx)|]. unfold announce in Hx. cbn [b_world w_tickets] in Hx.
      apply elem_of_app in Hx as [Hx|Hx%list_elem_of_singleton]; [by destruct (Hfree x Hx)|by subst x].
    - unfold queue. unfold uids in Hnd. apply NoDup_app in Hnd as (_ & _ & Hnd).
      rewrite (delete_Permutation _ _ _ Hq), fmap_cons, Hu in Hnd. apply NoDup_cons in Hnd as [Hnd _].
      rewrite Forall_forall. intros a Ha Hau. apply Hnd, list_elem_of_fmap. by exists a.
    - rewrite (proj2 (tickets_logs logs _)). rewrite Forall_lookup in Hp. specialize (Hp j _ Hq).
      rewrite Hu in Hp. by destruct Hb' as [-> | ->]. }
  destruct Hstart as (rs & b' & E & Hrs). unfold add_task, AddReadTask, AddWriteTask.
  destruct rs as [[ticket segs]|e| |]; [|subst b'|done..].
  - destruct Hrs as [-> ->].
    destruct (op_of r); rewrite (bind_ok _ _ _ _ _ E); cbn [imap for_each]; eexists;
      (split; [reflexivity|]); apply (Hdead _ []); by right.
  - destruct (op_of r); rewrite (bind_throw _ _ _ _ _ E); eexists; (split; [reflexivity|]);
      apply (Hdead _ [(_, ERROR)]); by left.
Qed.
End Raid.

(** ** Properties *)

Lemma boot_sane `{LinuxNBD} reqs mbMinion minions tcp s0 :
  boot mbMinion minions tcp = Ok s0 ->
  0 < mbMinion -> Z.of_nat (length minions) * mbMinion < 2 ^ 64 ->
  Forall (fun p => m_map p = ∅) minions ->
  TCPClient.available (TCPClient.incoming tcp) = (reqs ≫= encode) ->
  TCPClient.sent tcp = [] -> TCPClient.sends_succeed tcp ->
  sane reqs 0 [] s0 /\ m_minions (manager s0) = minions
  /\ m_MBMinion (manager s0) = mbMinion.
Proof.
  intros Hboot Hc Hsize Hempty Ha Hs Hsend.
  pose proof (boot_inv reqs mbMinion minions tcp s0 Hboot Ha Hs Hsend) as Hinv.
  revert Hboot. unfold boot, Init.
  destruct (bool_decide_reflect (minions = [])) as [|Hne]; [done|].
  destruct (Z.eqb_spec mbMinion 0); [done|].
  run_prog. cbn [fst snd]. intros [= <-]. split; [|done].
  constructor; [done|..]; cbn [manager backend m_queue b_world b_nbd w_tickets RegisterForNewTickets
    m_minions MinionManager.m_dispatcher app].
  - split; [|done]. unfold manager_ok. cbn [m_minions m_MBMinion m_driveSize RegisterForNewTickets].
    destruct minions; [done|]. cbn [length] in *. rewrite u64_small by lia. lia.
  - constructor.
  - constructor.
  - eapply Forall_impl; [exact Hempty|]. intros p Hp u c. by rewrite Hp, lookup_empty.
Qed.

(** A state of the master some time after its start, on the stream of the
    requests [reqs]. *)
Definition started `{LinuxNBD} (reqs : list kernel_request) (s : Master) : Prop :=
  exists mbMinion minions tcp s0, boot mbMinion minions tcp = Ok s0 /\ steps s0 s
    /\ Forall request_wf reqs /\ Z.of_nat (length reqs) < 2 ^ 64
    /\ 0 < mbMinion /\ Z.of_nat (length minions) * mbMinion < 2 ^ 64
    /\ Forall (fun p => m_map p = ∅) minions
    /\ TCPClient.available (TCPClient.incoming tcp) = (reqs ≫= encode)
    /\ TCPClient.sent tcp = [] /\ TCPClient.sends_succeed tcp.

Lemma started_sane `{LinuxNBD} reqs s :
  started reqs s -> Forall request_wf reqs /\ Z.of_nat (length reqs) < 2 ^ 64
    /\ exists k replied, sane reqs k replied s.
Proof.
  intros (mb & minions & tcp & s0 & Hboot & Hsteps & Hreqs & Hmany & Hc & Hsize & He & Ha & Hs & Hsd).
  destruct (boot_sane reqs mb minions tcp s0) as [Hs0 _]; [done..|].
  split; [done|]. split; [done|]. by eapply steps_sane.
Qed.

(** C20: a write that crosses a chunk boundary is never answered: as soon as its
    command has run, with every minion up and the network reliable, nothing that
    can happen later (any answers, in any order, any other requests) makes the
    master reply to it; its reply stays in the table of pending replies. *)
Theorem cross_chunk_write_hangs `{LinuxNBD} (reqs : list kernel_request) (s : Master)
    (j : nat) (uid : Z) (args : TaskArgs) (Hs : started reqs s)
    (Htask : m_queue s !! j = Some (NBDWriteArgs uid args))
    (Hup : Forall (fun p => UDPSocket.reliable (m_socket p)) (m_minions (manager s)))
    (Hrange : in_range (manager s) (m_offset args) (m_length args))
    (Hcross : m_offset args `div` m_MBMinion (manager s)
              < (m_offset args + m_length args - 1) `div` m_MBMinion (manager s)) :
  exists s1, run_task j s = (Ok tt, s1)
    /\ forall s2, steps s1 s2 -> is_Some (m_responses (b_nbd (backend s2)) !! uid).
Proof.
  destruct (started_sane reqs s Hs) as (Hreqs & Hmany & k & replied & Hsane).
  destruct (queued_request reqs k replied s j _ Hsane Htask) as (n & r & Hn & Et).
  unfold task_of in Et. destruct (k_data r) as [data|] eqn:Ed; [|done]. injection Et as -> ->.
  destruct (crossing_write_hangs reqs k replied s j (Z.of_nat n) r) as (s1 & E1 & Hh);
    try done; [by unfold task_of; rewrite Ed|by unfold op_of; rewrite Ed|lia|].
  exists s1. split; [exact E1|]. intros s2 Hs2.
  eapply hg_pending, hung_forever, Hs2; [exact Hreqs|exact Hmany| |exact Hh].
  by eapply run_task_sane.
Qed.

(** Three minions with chunks of eight bytes, and a write of six bytes at
    offset six. *)
Definition crossing_request : kernel_request :=
  mk_kernel_request (Some (replicate 6 (Some Byte.x61))) sample_handle 6 6.
Definition crossing_minions : list (MinionProxy closure) :=
  [sample_proxy 3; sample_proxy 4; sample_proxy 5].
Definition crossing_tcp : TCPClient.t :=
  TCPClient.mk 6 [TCPClient.Data (encode crossing_request)] [] [].

Definition after {S A B} (r : res S) (f : prog S A) (g : S -> B) : option B :=
  match r with Ok s => match f s with (Ok _, s') => Some (g s') | _ => None end | _ => None end.

Lemma cross_chunk_write_hangs_witness :
  exists s s1, (exists s0, boot 8 crossing_minions crossing_tcp = Ok s0 /\ steps s0 s)
    /\ run_task 0 s = (Ok tt, s1)
    /\ forall s2, steps s1 s2 -> is_Some (m_responses (b_nbd (backend s2)) !! 0).
Proof.
  destruct (boot 8 crossing_minions crossing_tcp) as [s0|e| |] eqn:E0;
    try (exfalso; revert E0; vm_compute; discriminate).
  destruct (nbd_wakeup s0) as [r s] eqn:E.
  assert (Hall : after (boot 8 crossing_minions crossing_tcp) nbd_wakeup
      (fun s => (m_queue s, m_minions (manager s), m_MBMinion (manager s), m_driveSize (manager s)))
    = Some ([NBDWriteArgs 0 (mk_TaskArgs 6 6 (Some (replicate 6 (Some Byte.x61))))],
            crossing_minions, 8, 24)) by (vm_compute; reflexivity).
  unfold after in Hall. rewrite E0, E in Hall. destruct r as [[]|e| |]; try done.
  injection Hall as Hq Hm Hc Hd.
  assert (Hs : steps s0 s) by by apply rtc_once, step_nbd.
  destruct (cross_chunk_write_hangs [crossing_request] s 0 0
    (mk_TaskArgs 6 6 (Some (replicate 6 (Some Byte.x61))))) as (s1 & E1 & Hs1).
  - exists 8, crossing_minions, crossing_tcp, s0. split; [done|]. split; [done|].
    split; [repeat constructor; simpl; lia|]. do 3 (split; [simpl; lia|]).
    split; [repeat constructor|]. split; [vm_compute; reflexivity|]. split; [done|constructor].
  - by rewrite Hq.
  - rewrite Hm. repeat constructor.
  - unfold in_range. rewrite Hd. simpl. lia.
  - rewrite Hc. simpl. vm_compute. reflexivity.
  - exists s, s1. split; [|done]. by exists s0.
Defined.

(** A request that ends beyond the drive, or that has no bytes, is never
    answered either: its command ends without a reply, not even an error, and
    nothing that happens later makes the master send one. *)
Theorem empty_or_outside_never_answered `{LinuxNBD} (reqs : list kernel_request) (s : Master)
    (j : nat) (a : ATaskArgs) (Hs : started reqs s) (Htask : m_queue s !! j = Some a)
    (Hno : no_segments s (m_offset (args_task a)) (m_length (args_task a))) :
  exists s1, run_task j s = (Ok tt, s1)
    /\ forall s2, steps s1 s2 -> is_Some (m_responses (b_nbd (backend s2)) !! args_uid a).
Proof.
  destruct (started_sane reqs s Hs) as (Hreqs & Hmany & k & replied & Hsane).
  destruct (queued_request reqs k replied s j a Hsane Htask) as (n & r & _ & ->).
  assert (Ea : args_uid (task_of (Z.of_nat n) r) = Z.of_nat n
    /\ m_offset (args_task (task_of (Z.of_nat n) r)) = k_from r
    /\ m_length (args_task (task_of (Z.of_nat n) r)) = k_len r)
    by (unfold task_of; by destruct (k_data r)).
  destruct Ea as (Eu & Eo & El). rewrite Eo, El in Hno. rewrite Eu.
  destruct (no_segments_dies reqs k replied s j (Z.of_nat n) r Hsane Htask Hno) as (s1 & E1 & Hd).
  exists s1. split; [exact E1|]. intros s2 Hs2.
  eapply dd_pending, dead_forever, Hs2; [exact Hreqs|exact Hmany| |exact Hd].
  by eapply run_task_sane.
Qed.

(** A read of eight bytes at offset twenty of a drive of twenty-four. *)
Definition outside_request : kernel_request := mk_kernel_request None sample_handle 20 8.
Definition outside_tcp : TCPClient.t :=
  TCPClient.mk 6 [TCPClient.Data (encode outside_request)] [] [].

Lemma empty_or_outside_never_answered_witness :
  exists s s1, started [outside_request] s /\ run_task 0 s = (Ok tt, s1)
    /\ forall s2, steps s1 s2 -> is_Some (m_responses (b_nbd (backend s2)) !! 0).
Proof.
  destruct (boot 8 crossing_minions outside_tcp) as [s0|e| |] eqn:E0;
    try (exfalso; revert E0; vm_compute; discriminate).
  destruct (nbd_wakeup s0) as [r s] eqn:E.
  assert (Hall : after (boot 8 crossing_minions outside_tcp) nbd_wakeup
      (fun s => (m_queue s, m_driveSize (manager s)))
    = Some ([NBDReadArgs 0 (mk_TaskArgs 20 8 None)], 24)) by (vm_compute; reflexivity).
  unfold after in Hall. rewrite E0, E in Hall. destruct r as [[]|e| |]; try done.
  injection Hall as Hq Hd.
  assert (Hs : started [outside_request] s).
  { exists 8, crossing_minions, outside_tcp, s0. split; [done|].
    split; [by apply rtc_once, step_nbd|].
    split; [repeat constructor; simpl; lia|]. do 3 (split; [simpl; lia|]).
    split; [repeat constructor|]. split; [vm_compute; reflexivity|]. split; [done|constructor]. }
  destruct (empty_or_outside_never_answered [outside_request] s 0
    (NBDReadArgs 0 (mk_TaskArgs 20 8 None)) Hs) as (s1 & E1 & Hs1).
  - by rewrite Hq.
  - left. rewrite Hd. simpl. lia.
  - by exists s, s1.
Defined.
