(* ===== verification/Service.v ===== *)
(** * Service

    Requests that the master serves: from the command that is run to the bytes
    that the kernel reads. *)

From S2P Require Import Prelude Bytes StripeSplitter Message TaskArgs Factory Dispatcher Sockets.
From S2P Require Import Logger Ticket IMinionProxy MinionProxy NBD NBDProxy ResponseManager World.
From S2P Require Import MinionManager Commands Framework Master Protocol Raid.

(** A request inside one chunk has one segment. *)
Lemma Split_one offset len chunk n :
  0 < chunk < 2 ^ 64 -> 0 < n < 2 ^ 64 -> 0 < len < 2 ^ 64 ->
  offset `mod` chunk + len <= chunk ->
  Split offset len chunk n = Ok [first_segment chunk n len offset 0].
Proof.
  intros Hc Hn Hl Hin. unfold Split.
  destruct (Z.to_nat (len `div` chunk) + 3)%nat as [|fuel] eqn:Ef; [lia|].
  rewrite Split_loop_step by lia.
  assert (Hfirst : first_len chunk len offset = len) by (unfold first_len; lia).
  by rewrite Hfirst, Z.sub_diag, Split_loop_done.
Qed.

Section Service.
Context `{LinuxNBD}.
Implicit Types (b : Backend) (s : Master) (r : kernel_request).

(** A minion's answer arrives and is read. *)
Definition arrive (i : nat) (addr : Z) (m : AMessage) : prog Master unit :=
  modify (deliver i addr (packet_of m)) ;; minion_wakeup i.

(** The bytes that a result puts on the wire. *)
Definition sent_for r (out : option TaskResult) : cells :=
  match out with
  | None => []
  | Some result =>
      wire_reply (if tr_result result then 0 else EIO) (k_handle r)
      ++ match tr_buffer result with
         | Some buffer => if tr_result result
                          then read_cells (Z.to_nat (tr_length result)) buffer else []
         | None => []
         end
  end.

Definition sent_bytes s : cells := TCPClient.sent (m_nbd (b_nbd (backend s))).

(** The request is open: its reply is kept. *)
Definition open (uid : Z) r b : Prop :=
  is_Some (m_requests (b_rm b) !! uid) /\ m_responses (b_nbd b) !! uid = Some (reply_of r).

Lemma respond_serves t uid r segs h c i role msg b :
  let ticket := ticket_of uid (op_of r) (k_len r) segs [TicketDone] in
  tiles 0 segs (k_len r) -> length (k_handle r) = 8%nat -> in_u64 (k_len r) ->
  w_tickets (b_world b) !! t = Some (ticket (h, c)) ->
  (c = false -> open uid r b) -> TCPClient.sends_succeed (m_nbd (b_nbd b)) ->
  let '(hc', out) := spec_step uid (op_of r) (k_len r) segs (h, c) (i, role, Some msg) in
  exists b', respond (t, i, role) msg b = (Ok tt, b')
    /\ w_tickets (b_world b') = <[t := ticket hc']> (w_tickets (b_world b))
    /\ (hc'.2 = false -> open uid r b') /\ TCPClient.sends_succeed (m_nbd (b_nbd b'))
    /\ TCPClient.sent (m_nbd (b_nbd b')) = TCPClient.sent (m_nbd (b_nbd b)) ++ sent_for r out.
Proof.
  intros ticket Htiles Hh Hl Ht Hopen Hsends.
  pose proof (OnMirrorResponse_spec uid (op_of r) (k_len r) segs Htiles [TicketDone] (h, c) i role (Some msg)) as Eo.
  assert (Hc' : (spec_step uid (op_of r) (k_len r) segs (h, c) (i, role, Some msg)).1.2 = false -> c = false)
    by (destruct c; done).
  assert (Hout : forall result,
    (spec_step uid (op_of r) (k_len r) segs (h, c) (i, role, Some msg)).2 = Some result ->
    c = false /\ tr_uid result = uid /\ tr_length result = k_len r
    /\ (spec_step uid (op_of r) (k_len r) segs (h, c) (i, role, Some msg)).1.2 = true).
  { unfold spec_step. destruct c; [done|]. cbn [orb].
    destruct (_ <=? _)%nat; [done|]. destruct (forallb _ _); [|done]. by intros result [= <-]. }
  destruct (spec_step uid (op_of r) (k_len r) segs (h, c) (i, role, Some msg)) as [hc' out].
  cbn [fst snd] in Hc', Hout.
  unfold respond, on_world, set_ticket. run_prog. cbn [fst snd]. rewrite Ht.
  unfold ticket. rewrite Eo. cbn [fst snd].
  destruct out as [result|].
  2:{ eexists. split; [reflexivity|]. cbn [b_world b_nbd w_tickets]. split; [done|].
      split; [by intros; apply Hopen, Hc'|]. split; [done|]. by rewrite app_nil_r. }
  destruct (Hout result eq_refl) as (Hcf & Hu & Hlen & Hdone).
  destruct (Hopen Hcf) as [Hreq Hresp].
  cbn [Ticket.m_dispatcher ticket_of]. unfold Notify, on_rm_nbd. cbn [for_each]. run_prog.
  rewrite OnTicketDone_eq. cbn [b_rm b_nbd b_world]. rewrite Hu, decide_True by done.
  set (w := if tr_result result then _ else _).
  assert (Hw : w_tickets w = <[t := ticket hc']> (w_tickets (b_world b)))
    by (unfold w; by destruct (tr_result result)).
  destruct (OnNBDResponse_ok (b_nbd b) w result (k_handle r)) as (s' & E & Hs' & _ & Hsent');
    [by rewrite Hu|done|by rewrite Hlen|done|].
  rewrite E. cbn [fst snd]. eexists. split; [reflexivity|]. cbn [b_world b_nbd m_nbd].
  split; [exact Hw|]. split; [by rewrite Hdone|]. split; [done|exact Hsent'].
Qed.

(** Request [uid], in segment [seg], is waiting for the minions of the roles
    [todo], after the answers [hc]. *)
Definition minion_of (seg : StripeSegment) (role : MirrorRole) : nat :=
  Z.to_nat match role with PRIMARY => primaryMinionIndex seg | BACKUP => backupMinionIndex seg end.

Record serving (t : nat) (uid : Z) r (seg : StripeSegment) (hc : list answer * bool)
    (todo : list MirrorRole) s : Prop := {
  sv_ticket : w_tickets (b_world (backend s)) !! t
    = Some (ticket_of uid (op_of r) (k_len r) [seg] [TicketDone] hc);
  sv_minions : Forall (fun role => exists p, m_minions (manager s) !! minion_of seg role = Some p
    /\ UDPSocket.incoming (m_socket p) = [] /\ m_map p !! uid = Some (t, 0%nat, role)) todo;
  sv_open : hc.2 = false -> open uid r (backend s);
  sv_sends : TCPClient.sends_succeed (m_nbd (b_nbd (backend s)));
}.

Lemma arrive_serves t uid r seg hc role todo addr m s :
  serving t uid r seg hc (role :: todo) s ->
  tiles 0 [seg] (k_len r) -> length (k_handle r) = 8%nat -> in_u64 (k_len r) ->
  Forall (fun role' => minion_of seg role' <> minion_of seg role) todo ->
  message_wf m -> Z.of_nat (length (packet_of m)) <= BUFSIZ - 1 -> GetUID m = uid ->
  (GetMessageType m = READ_RECEIVE \/ GetMessageType m = WRITE_RECEIVE) ->
  let '(hc', out) := spec_step uid (op_of r) (k_len r) [seg] hc (0%nat, role, Some (message_seen m)) in
  exists s', arrive (minion_of seg role) addr m s = (Ok tt, s')
    /\ serving t uid r seg hc' todo s' /\ sent_bytes s' = sent_bytes s ++ sent_for r out.
Proof.
  intros [Ht Hmin Hopen Hsends] Htiles Hh Hl Hdiff Hwf Hlen Hu Htype. destruct hc as [h c].
  apply Forall_cons in Hmin as [(p & Hp & Hin & Hmap) Hmin].
  assert (Hf : master_factory !! type_value (GetMessageType m) = Some (GetMessageType m))
    by (destruct Htype as [-> | ->]; reflexivity).
  pose proof (respond_serves t uid r [seg] h c 0 role (message_seen m) (backend s)
    Htiles Hh Hl Ht Hopen Hsends) as Hr.
  destruct (spec_step _ _ _ _ _ _) as [hc' out].
  destruct Hr as (b' & Er & Ht' & Hopen' & Hsends' & Hsent').
  set (p1 := mk_MinionProxy (UDPSocket.deliver addr (packet_of m) (m_socket p)) (m_map p)).
  pose proof (OnMinionFDWakeUp_packet respond master_factory p1 (backend s) addr [] m
    (t, 0%nat, role) Hwf Hlen Hf) as Ew.
  unfold p1 in Ew at 1 2. cbn [m_socket m_map UDPSocket.deliver UDPSocket.incoming] in Ew.
  rewrite Hin, Hu in Ew. specialize (Ew eq_refl Hmap). rewrite Er in Ew. fold p1 in Ew.
  eexists. split; [|split].
  - unfold arrive, minion_wakeup, on_manager, minion. run_prog.
    unfold deliver at 1. cbn [fst snd manager backend m_queue m_minions set_minions].
    rewrite Nat2Z.id, list_lookup_alter_eq, Hp. cbn [fmap option_fmap option_map].
    fold p1. unfold deliver. cbn [fst snd manager backend m_queue]. rewrite Ew.
    cbn [fst snd m_minions set_minions]. reflexivity.
  - constructor; cbn [backend manager m_minions set_minions].
    + rewrite Ht', list_lookup_insert_eq; [done|]. by eapply lookup_lt_Some.
    + rewrite Forall_forall in Hmin, Hdiff |- *. intros role' Hrole.
      destruct (Hmin role' Hrole) as (p' & Hp' & Hrest). exists p'. split; [|done].
      specialize (Hdiff role' Hrole).
      by rewrite list_lookup_insert_ne, list_lookup_alter_ne by done.
    + exact Hopen'.
    + exact Hsends'.
  - exact Hsent'.
Qed.

Lemma next_minion p n : 2 <= n -> 0 <= p < n -> (p + 1) `mod` n <> p.
Proof.
  intros Hn Hp. destruct (decide (p + 1 = n)) as [<-|Hne].
  - rewrite Z.mod_same by lia. lia.
  - rewrite Z.mod_small by lia. lia.
Qed.

(** With one segment on two minions, each is asked for its role. *)
Lemma tasks_of_segment t seg msg role :
  minion_of seg PRIMARY <> minion_of seg BACKUP ->
  (fun x => (x.1.2, x.2)) <$> last (tasks_for (minion_of seg role)
    (imap pair [seg] ≫= segment_tasks make_closure t msg)) = Some ((t, 0%nat, role), msg seg).
Proof.
  unfold minion_of. intros Hne. cbn [imap mbind list_bind app segment_tasks fst snd].
  unfold tasks_for. rewrite !filter_cons, filter_nil. cbn [fst snd].
  destruct role; repeat case_decide; simpl; congruence || done.
Qed.

Context (reqs : list kernel_request).
Hypothesis Hreqs : Forall request_wf reqs.

Hypothesis Hmany : Z.of_nat (length reqs) < 2 ^ 64.

Lemma queued_open k replied s j i r :
  sane reqs k replied s -> reqs !! i = Some r -> m_queue s !! j = Some (task_of (Z.of_nat i) r) ->
  open (Z.of_nat i) r (backend s).
Proof.
  intros [[Hb Hq] _ _ Hp _] Hi Hj. rewrite Forall_lookup in Hp. specialize (Hp j _ Hj).
  assert (Hu : args_uid (task_of (Z.of_nat i) r) = Z.of_nat i)
    by (unfold task_of; by destruct (k_data r)).
  rewrite Hu in Hp. split; [by apply (bi_requests _ _ _ _ Hb)|].
  destruct (ni_responses _ _ _ _ (bi_nbd _ _ _ _ Hb)) as [Hin _].
  rewrite (Hin i r Hi) in Hp |- *. case_decide; [done|by destruct Hp].
Qed.

(** What a command needs of the state, for a request inside one chunk. *)
Record servable (j i : nat) r s : Prop := {
  sb_request : reqs !! i = Some r;
  sb_task : m_queue s !! j = Some (task_of (Z.of_nat i) r);
  sb_up : Forall (fun p => UDPSocket.reliable (m_socket p)) (m_minions (manager s));
  sb_quiet : Forall (fun p => UDPSocket.incoming (m_socket p) = []) (m_minions (manager s));
  sb_minions : (2 <= length (m_minions (manager s)))%nat;
  sb_range : in_range (manager s) (k_from r) (k_len r) /\ 0 < k_len r;
  sb_chunk : k_from r `mod` m_MBMinion (manager s) + k_len r <= m_MBMinion (manager s);
}.

Definition segment_of r s : StripeSegment :=
  first_segment (m_MBMinion (manager s)) (Z.of_nat (length (m_minions (manager s))))
    (k_len r) (k_from r) 0.

Lemma segment_of_ok k replied s j i r :
  sane reqs k replied s -> servable j i r s ->
  Split (k_from r) (k_len r) (m_MBMinion (manager s)) (Z.of_nat (length (m_minions (manager s))))
    = Ok [segment_of r s]
  /\ tiles 0 [segment_of r s] (k_len r)
  /\ minion_of (segment_of r s) PRIMARY <> minion_of (segment_of r s) BACKUP
  /\ forall role, (minion_of (segment_of r s) role < length (m_minions (manager s)))%nat.
Proof.
  intros [_ [Hm _] _ _ _] [_ _ _ _ HN [Hr Hl] Hx].
  pose proof Hm as (Hc & HN' & Hdrive & Hmax). pose proof Hr as (Ho & Hl' & Hr').
  assert (Hsplit : Split (k_from r) (k_len r) (m_MBMinion (manager s))
    (Z.of_nat (length (m_minions (manager s)))) = Ok [segment_of r s])
    by (apply Split_one; [split; [lia|]; nia|split; [lia|]; nia|lia|exact Hx]).
  split; [done|]. split; [eapply Split_tiles; [..|exact Hsplit]; nia|].
  assert (Hseg : Forall (segment_ok (k_len r) (m_MBMinion (manager s))
    (Z.of_nat (length (m_minions (manager s))))) [segment_of r s])
    by (eapply Split_ok; [..|exact Hsplit]; nia).
  apply Forall_cons in Hseg as [(_ & _ & _ & _ & _ & Hp & Hbk & Ebk) _].
  unfold minion_of. split; [|intros []; lia]. rewrite Ebk. rewrite Ebk in Hbk.
  pose proof (next_minion (primaryMinionIndex (segment_of r s))
    (Z.of_nat (length (m_minions (manager s)))) ltac:(lia) Hp). lia.
Qed.

Lemma run_task_serving k replied s j i r :
  sane reqs k replied s -> servable j i r s ->
  exists s', run_task j s = (Ok tt, s')
    /\ serving (next_ticket (backend s)) (Z.of_nat i) r (segment_of r s) ([], false) [PRIMARY; BACKUP] s'
    /\ sent_bytes s' = sent_bytes s /\ m_queue s' = delete j (m_queue s)
    /\ exists ps', manager s' = set_minions ps' (manager s)
       /\ served (W := Backend) (Z.of_nat i) (imap pair [segment_of r s]
            ≫= segment_tasks make_closure (next_ticket (backend s))
                 (message (op_of r) (Z.of_nat i) (default [] (k_data r))))
            (m_minions (manager s)) ps'.
Proof.
  intros Hs Hsb. destruct (segment_of_ok k replied s j i r Hs Hsb) as (Hsplit & _ & Hne & Hlt).
  pose proof Hs as [[Hb _] [Hm Hd] _ _ _]. destruct Hsb as [Hi Hq Hup Hquiet HN [Hr Hl] Hx].
  pose proof (queued_open k replied s j i r Hs Hi Hq) as Hopen.
  assert (Hu : in_u64 (Z.of_nat i)) by (apply lookup_lt_Some in Hi; lia).
  set (uid := Z.of_nat i) in *.
  assert (Hup' : Forall (up (W := Backend)) (m_minions (manager s))) by exact Hup.
  destruct (add_task_served make_ticket ticket_created make_closure (op_of r) uid (k_from r) (k_len r)
    (default [] (k_data r)) (manager s) (backend s) _ (next_ticket (backend s)) [segment_of r s]
    Hm Hr Hu Hup' Hsplit (announced_eq _ _ _ _ _ _ Hd)) as (ps' & logs & E & Hlen & Hserved).
  eexists. split; [by eapply run_task_ok|].
  split; [|split; [unfold sent_bytes; cbn [backend]; by rewrite (proj2 (tickets_logs logs _))|]].
  2:{ split; [done|]. exists ps'. done. }
  constructor; cbn [backend manager m_minions set_minions].
  - rewrite (proj1 (tickets_logs logs _)). unfold announce. cbn [b_world w_tickets].
    by rewrite list_lookup_middle.
  - assert (Hrole : forall role, exists p, ps' !! minion_of (segment_of r s) role = Some p
      /\ UDPSocket.incoming (m_socket p) = [] /\ m_map p !! uid = Some (next_ticket (backend s), 0%nat, role)).
    { intros role.
      destruct (lookup_lt_is_Some_2 _ _ (Hlt role)) as [p Hpi].
      destruct (lookup_lt_is_Some_2 ps' (minion_of (segment_of r s) role) ltac:(rewrite Hlen; apply Hlt)) as [p' Hpi'].
      exists p'. split; [done|]. destruct (Hserved _ p p' Hpi Hpi') as (_ & _ & _ & Hin & _ & Hw).
      rewrite Forall_lookup in Hquiet. split; [rewrite <-(Hquiet _ _ Hpi); exact Hin|].
      pose proof (tasks_of_segment (next_ticket (backend s)) (segment_of r s)
        (message (op_of r) uid (default [] (k_data r))) role Hne) as Hlast.
      destruct (last (tasks_for _ _)) as [x|]; [|done]. injection Hlast as Hx' _.
      change (m_map p') with (waiting (W := Backend) p'). rewrite Hw, Hx'. apply lookup_insert_eq. }
    repeat constructor; apply Hrole.
  - intros _. destruct Hopen as [Hreq Hresp]. unfold open.
    rewrite add_logs_backend. cbn [b_rm b_nbd]. unfold announce. by cbn [b_rm b_nbd m_requests].
  - rewrite (proj2 (tickets_logs logs _)). apply Hb.
Qed.

Definition other (role : MirrorRole) : MirrorRole :=
  match role with PRIMARY => BACKUP | BACKUP => PRIMARY end.

(** The messages that a proxy can read back. *)
Definition good_answer (uid : Z) (m : AMessage) : Prop :=
  message_wf m /\ Z.of_nat (length (packet_of m)) <= BUFSIZ - 1 /\ GetUID m = uid
  /\ (GetMessageType m = READ_RECEIVE \/ GetMessageType m = WRITE_RECEIVE).

(** A request is run, and its two minions answer, [first] first. *)
Definition served_by (j : nat) (seg : StripeSegment) (first : MirrorRole)
    (f : MirrorRole -> Z * AMessage) : prog Master unit :=
  run_task j ;;
  arrive (minion_of seg first) (f first).1 (f first).2 ;;
  arrive (minion_of seg (other first)) (f (other first)).1 (f (other first)).2.

Lemma run_and_answer k replied s j i r first f :
  sane reqs k replied s -> servable j i r s ->
  (forall role, good_answer (Z.of_nat i) (f role).2) ->
  let answered role : answer := (0%nat, role, Some (message_seen (f role).2)) in
  exists s', served_by j (segment_of r s) first f s = (Ok tt, s')
    /\ sent_bytes s' = sent_bytes s
       ++ (spec_run (Z.of_nat i) (op_of r) (k_len r) [segment_of r s] ([], false)
             [answered first; answered (other first)] ≫= fun result => sent_for r (Some result)).
Proof.
  intros Hs Hsb Hf answered.
  destruct (run_task_serving k replied s j i r Hs Hsb) as (s1 & E1 & Hs1 & Hsent1 & _).
  destruct (segment_of_ok k replied s j i r Hs Hsb) as (_ & Htiles & Hne & _).
  destruct (request_len reqs Hreqs i r (sb_request _ _ _ _ Hsb)) as [Hlen Hh].
  set (seg := segment_of r s) in *. set (t := next_ticket (backend s)) in *.
  assert (Hs1' : serving t (Z.of_nat i) r seg ([], false) [first; other first] s1).
  { destruct first; [done|]. destruct Hs1 as [? Hmin ? ?]. constructor; try done.
    apply Forall_cons in Hmin as [? [? _]%Forall_cons]. by repeat constructor. }
  assert (Hdiff : minion_of seg (other first) <> minion_of seg first)
    by (destruct first; simpl; congruence).
  destruct (Hf first) as (Hw1 & Hl1 & Hu1 & Ht1).
  destruct (Hf (other first)) as (Hw2 & Hl2 & Hu2 & Ht2).
  pose proof (arrive_serves t (Z.of_nat i) r seg ([], false) first [other first] (f first).1 (f first).2 s1
    Hs1' Htiles Hh Hlen ltac:(by repeat constructor) Hw1 Hl1 Hu1 Ht1) as H1.
  cbn [spec_run]. unfold answered. destruct (spec_step _ _ _ _ ([], false) _) as [hc1 out1].
  destruct H1 as (s2 & E2 & Hs2 & Hsent2).
  pose proof (arrive_serves t (Z.of_nat i) r seg hc1 (other first) [] (f (other first)).1
    (f (other first)).2 s2 Hs2 Htiles Hh Hlen ltac:(constructor) Hw2 Hl2 Hu2 Ht2) as H2.
  destruct (spec_step _ _ _ _ hc1 _) as [hc2 out2]. destruct H2 as (s3 & E3 & _ & Hsent3).
  exists s3. split.
  - unfold served_by. by rewrite (bind_ok _ _ _ _ _ E1), (bind_ok _ _ _ _ _ E2).
  - rewrite Hsent3, Hsent2, Hsent1, <-!app_assoc. f_equal.
    by destruct out1, out2; cbn -[wire_reply]; rewrite ?app_nil_r.
Qed.
End Service.

(** ** Properties *)

Definition write_answer (uid : Z) (ok : MirrorRole -> bool) (addr : MirrorRole -> Z) (role : MirrorRole)
    : Z * AMessage := (addr role, WriteReceive (MessageWriteReceive.make uid (ok role))).

Definition read_answer (uid len : Z) (ok : MirrorRole -> bool) (data : MirrorRole -> cells)
    (addr : MirrorRole -> Z) (role : MirrorRole) : Z * AMessage :=
  (addr role, ReadReceive (MessageReadReceive.make uid (ok role) len (Some (data role)))).

(** The verdicts on two answers. *)
Lemma write_verdict uid len seg first (ok : MirrorRole -> bool) :
  let answered role : answer :=
    (0%nat, role, Some (WriteReceive (MessageWriteReceive.make uid (ok role)))) in
  spec_run uid WRITE len [seg] ([], false) [answered first; answered (other first)]
  = [mk_TaskResult uid (ok PRIMARY && ok BACKUP) len None].
Proof.
  destruct first, (ok PRIMARY) eqn:Ep, (ok BACKUP) eqn:Eb; cbn [other]; rewrite Ep, Eb; reflexivity.
Qed.

Lemma read_verdict uid len seg first (ok : MirrorRole -> bool) (d : MirrorRole -> cells) data :
  seg_length seg = len -> Z.of_nat (length data) = len -> 
  (forall role, ok role = true -> d role = data) ->
  ok first = true \/ first = PRIMARY /\ ok BACKUP = true ->
  let answered role : answer :=
    (0%nat, role, Some (message_seen (ReadReceive (MessageReadReceive.make uid (ok role) len (Some (d role)))))) in
  spec_run uid READ len [seg] ([], false) [answered first; answered (other first)]
  = [mk_TaskResult uid true len (Some data)].
Proof.
  intros Hseg Hlen Hd Hfirst.
  assert (Hread : read_cells (Z.to_nat len) (read_cells (Z.to_nat len) data) ++ [] = data)
    by (rewrite app_nil_r, (read_cells_exact _ data) by lia; apply read_cells_exact; lia).
  destruct first, (ok PRIMARY) eqn:Ep, (ok BACKUP) eqn:Eb; cbn [other];
    try (destruct Hfirst as [?|[? ?]]; congruence); rewrite Ep, Eb;
    rewrite ?(Hd PRIMARY) by done; rewrite ?(Hd BACKUP) by done;
    (trans [mk_TaskResult uid true len (Some (read_cells (Z.to_nat (seg_length seg))
              (read_cells (Z.to_nat len) data) ++ []))]; [reflexivity|by rewrite Hseg, Hread]).
Qed.

(** The first answer comes from a backup that failed, or both failed. *)
Lemma read_failed uid len seg first (ok : MirrorRole -> bool) (d : MirrorRole -> cells) :
  ok BACKUP = false -> first = BACKUP \/ ok PRIMARY = false ->
  let answered role : answer :=
    (0%nat, role, Some (message_seen (ReadReceive (MessageReadReceive.make uid (ok role) len (Some (d role)))))) in
  spec_run uid READ len [seg] ([], false) [answered first; answered (other first)]
  = [mk_TaskResult uid false len None].
Proof.
  intros Hb Hfirst. destruct first, (ok PRIMARY) eqn:Ep; cbn [other]; rewrite ?Ep, ?Hb;
    try (destruct Hfirst; congruence); reflexivity.
Qed.

(** C9: a write inside one chunk is served: its command is run, the primary and
    the backup answer, in either order, and exactly one reply is written to the
    kernel, with the handle of the request and with error 0 if both minions
    succeeded, [EIO] otherwise. *)
Theorem write_served `{LinuxNBD} (reqs : list kernel_request) (s : Master) (j i : nat)
    (r : kernel_request) (first : MirrorRole) (ok : MirrorRole -> bool) (addr : MirrorRole -> Z)
    (Hs : started reqs s) (Hsb : servable reqs j i r s) (Hop : op_of r = WRITE) :
  exists s', served_by j (segment_of r s) first (write_answer (Z.of_nat i) ok addr) s = (Ok tt, s')
    /\ sent_bytes s' = sent_bytes s
       ++ wire_reply (if ok PRIMARY && ok BACKUP then 0 else EIO) (k_handle r).
Proof.
  destruct (started_sane reqs s Hs) as (Hreqs & Hmany & k & replied & Hsane).
  assert (Hu : in_u64 (Z.of_nat i)) by (apply sb_request, lookup_lt_Some in Hsb; lia).
  destruct (run_and_answer reqs Hreqs Hmany k replied s j i r first (write_answer (Z.of_nat i) ok addr) Hsane Hsb)
    as (s' & E & Hsent).
  { intros role. unfold good_answer. cbn [snd write_answer]. split; [|split; [|by split; [|right]]].
    - simpl. split; [done|]. by destruct (ok role).
    - unfold packet_of, header, BUFSIZ. simpl. rewrite !length_app, !length_store. lia. }
  exists s'. split; [exact E|]. rewrite Hsent, Hop. f_equal. cbn [message_seen snd write_answer].
  cbn [wire_seen WriteReceive_wire]. rewrite write_verdict. cbn [mbind list_bind app sent_for tr_result tr_buffer].
  by rewrite !app_nil_r.
Qed.

(** C10: a read inside one chunk is served, with failover: its command is run,
    the primary and the backup answer, and the primary's answer, or the
    backup's if the primary failed first, is what the kernel reads: one reply
    with the handle of the request, error 0 and exactly the data. The data must
    fit into the packet that the master receives. *)
Theorem read_served `{LinuxNBD} (reqs : list kernel_request) (s : Master) (j i : nat)
    (r : kernel_request) (first : MirrorRole) (ok : MirrorRole -> bool)
    (d : MirrorRole -> cells) (addr : MirrorRole -> Z) (data : cells)
    (Hs : started reqs s) (Hsb : servable reqs j i r s) (Hop : op_of r = READ)
    (Hpacket : k_len r <= BUFSIZ - 1 - 25)
    (Hdata : Z.of_nat (length data) = k_len r)
    (Hd : forall role, ok role = true -> d role = data)
    (Hfirst : ok first = true \/ first = PRIMARY /\ ok BACKUP = true) :
  exists s', served_by j (segment_of r s) first (read_answer (Z.of_nat i) (k_len r) ok d addr) s
      = (Ok tt, s')
    /\ sent_bytes s' = sent_bytes s ++ wire_reply 0 (k_handle r) ++ data.
Proof.
  destruct (started_sane reqs s Hs) as (Hreqs & Hmany & k & replied & Hsane).
  assert (Hu : in_u64 (Z.of_nat i)) by (apply sb_request, lookup_lt_Some in Hsb; lia).
  destruct (run_and_answer reqs Hreqs Hmany k replied s j i r first
    (read_answer (Z.of_nat i) (k_len r) ok d addr) Hsane Hsb) as (s' & E & Hsent).
  { intros role. unfold BUFSIZ in Hpacket. destruct (sb_range _ _ _ _ _ Hsb) as [_ Hl].
    unfold good_answer. cbn [snd read_answer]. split; [|split; [|by split; [|left]]].
    - simpl. split; [done|]. split; [by destruct (ok role)|]. split; [lia|]. left. by eexists.
    - unfold packet_of, header, BUFSIZ. simpl.
      rewrite !length_app, !length_store, length_read_cells. lia. }
  destruct (segment_of_ok reqs k replied s j i r Hsane Hsb) as (_ & Htiles & _).
  exists s'. split; [exact E|]. rewrite Hsent, Hop. f_equal. cbn [snd read_answer].
  rewrite (read_verdict _ _ _ _ _ _ data); [|by destruct Htiles as (_ & _ & _ & <-); cbn [tiles]; lia|done..].
  cbn [mbind list_bind app sent_for tr_result tr_buffer tr_length].
  rewrite app_nil_r, read_cells_exact by lia. done.
Qed.

(** Three minions with chunks of eight bytes; a write of two bytes at offset four
    and a read of three bytes at offset eight were read. *)
Definition small_write : kernel_request :=
  mk_kernel_request (Some [Some Byte.x61; Some Byte.x62]) sample_handle 4 2.
Definition small_read : kernel_request := mk_kernel_request None sample_handle 8 3.
Definition small_requests : list kernel_request := [small_write; small_read].

Definition small_tcp : TCPClient.t :=
  TCPClient.mk 6 [TCPClient.Data (small_requests ≫= encode)] [] [].

Lemma small_state :
  exists s, started small_requests s /\ servable small_requests 0 0 small_write s
    /\ servable small_requests 1 1 small_read s.
Proof.
  destruct (boot 8 crossing_minions small_tcp) as [s0|e| |] eqn:E0;
    try (exfalso; revert E0; vm_compute; discriminate).
  destruct (nbd_wakeup s0) as [r1 s1] eqn:E1. destruct (nbd_wakeup s1) as [r2 s] eqn:E2.
  assert (Hall : after (boot 8 crossing_minions small_tcp) (nbd_wakeup ;; nbd_wakeup)
      (fun s => (m_queue s, m_minions (manager s), m_MBMinion (manager s), m_driveSize (manager s)))
    = Some (imap (fun i => task_of (Z.of_nat i)) small_requests, crossing_minions, 8, 24))
    by (vm_compute; reflexivity).
  unfold after in Hall. rewrite E0 in Hall. unfold mbind, prog_bind in Hall.
  rewrite E1 in Hall. destruct r1 as [[]|e| |]; try done. rewrite E2 in Hall.
  destruct r2 as [[]|e| |]; try done. injection Hall as Hq Hm Hc Hd.
  exists s. split; [|split].
  - exists 8, crossing_minions, small_tcp, s0. split; [done|]. split.
    { eapply rtc_l; [by apply step_nbd|]. by apply rtc_once, step_nbd. }
    split; [repeat constructor; simpl; lia|]. do 3 (split; [simpl; lia|]).
    split; [repeat constructor|]. split; [vm_compute; reflexivity|]. split; [done|constructor].
  - constructor; unfold in_range; rewrite ?Hq, ?Hm, ?Hc, ?Hd; try done;
      try (by repeat constructor); repeat split; vm_compute; done || lia.
  - constructor; unfold in_range; rewrite ?Hq, ?Hm, ?Hc, ?Hd; try done;
      try (by repeat constructor); repeat split; vm_compute; done || lia.
Qed.

Lemma write_served_witness :
  exists s s', started small_requests s
    /\ served_by 0 (segment_of small_write s) BACKUP
         (write_answer 0 (fun role => bool_decide (role = PRIMARY)) (fun _ => 9)) s = (Ok tt, s')
    /\ sent_bytes s' = sent_bytes s ++ wire_reply EIO sample_handle.
Proof.
  destruct small_state as (s & Hs & Hw & _). exists s.
  destruct (write_served small_requests s 0 0 small_write BACKUP
    (fun role => bool_decide (role = PRIMARY)) (fun _ => 9) Hs Hw eq_refl) as (s' & E & Hsent).
  by exists s'.
Defined.

Lemma read_served_witness :
  let data := [Some Byte.x61; Some Byte.x62; Some Byte.x63] in
  exists s s', started small_requests s
    /\ served_by 1 (segment_of small_read s) PRIMARY
         (read_answer 1 3 (fun role => bool_decide (role = BACKUP)) (fun _ => data) (fun _ => 9)) s
       = (Ok tt, s')
    /\ sent_bytes s' = sent_bytes s ++ wire_reply 0 sample_handle ++ data.
Proof.
  intros data. destruct small_state as (s & Hs & _ & Hr). exists s.
  destruct (read_served small_requests s 1 1 small_read PRIMARY
    (fun role => bool_decide (role = BACKUP)) (fun _ => data) (fun _ => 9) data Hs Hr)
    as (s' & E & Hsent); [done|vm_compute; discriminate|done|done|by right|].
  by exists s'.
Defined.
