(* ===== verification/FileManager.v ===== *)
(** * FileManager

    [concrete/src/FileManager.cpp]: the file of a minion.  First the operations of
    [std::fstream] that it uses, on a disk that may be full or fail; then the
    three functions, under the mutex they run one at a time. *)

From S2P Require Import Prelude Message.

(** ** The stream *)

(** [position] is the offset of the file at which the written but not yet
    flushed bytes [pending] will go; [failbit] stands for [fail()].  [disk] says
    how the next calls to the disk end: how many bytes are moved before one fails,
    and, for a write, what the buffer keeps of the others, which is not specified;
    when the list is used up no call fails. *)
Record fstream : Set := mk_fstream {
  is_open : bool;
  file : cells;
  position : Z;
  pending : cells;
  eofbit : bool;
  failbit : bool;
  disk : list (nat * cells);
}.

Definition good (s : fstream) : bool := negb (eofbit s) && negb (failbit s).

(** Conversion of a [size_t] to the signed [streamoff] or [streamsize]. *)
Definition s64 (z : Z) : Z := if z <? 2 ^ 63 then z else z - 2 ^ 64.

(** Bytes written at an offset; a gap before it reads as zeros. *)
Definition write_at (off : nat) (data file : cells) : cells :=
  match data with
  | [] => file
  | _ => take off (file ++ replicate (off - length file) (Some Byte.x00)) ++ data
         ++ drop (off + length data) file
  end.

(** What the buffer holds goes to the file, as far as the disk takes it; an empty
    buffer makes no call. *)
Definition sync : prog fstream bool := fun s =>
  let all := (Ok true, mk_fstream (is_open s) (write_at (Z.to_nat (position s)) (pending s) (file s))
    (position s + Z.of_nat (length (pending s))) [] (eofbit s) (failbit s)
    (if pending s is [] then disk s else tail (disk s))) in
  match pending s, disk s with
  | [], _ | _, [] => all
  | _, (n, rest) :: disk =>
      if (length (pending s) <=? n)%nat then all
      else (Ok false, mk_fstream (is_open s) (write_at (Z.to_nat (position s)) (take n (pending s)) (file s))
                        (position s + Z.of_nat n) rest (eofbit s) (failbit s) disk)
  end.

Definition set_failbit : prog fstream unit := modify (fun s =>
  mk_fstream (is_open s) (file s) (position s) (pending s) (eofbit s) true (disk s)).

Definition clear_eofbit : prog fstream unit := modify (fun s =>
  mk_fstream (is_open s) (file s) (position s) (pending s) false (failbit s) (disk s)).

(** An unformatted output function: a stream that is not good is left alone, a
    failure sets [badbit]. *)
Definition flush : prog fstream unit :=
  ok ← gets good;
  if ok : bool then
    written ← sync;
    if written : bool then mret tt else set_failbit
  else mret tt.

(** [pubseekpos]: the buffer is written out first. *)
Definition seekpos (off : Z) : prog fstream unit := fun s =>
  if is_open s && (0 <=? off) then
    (written ← sync;
     if written : bool then
       modify (fun s => mk_fstream (is_open s) (file s) off (pending s) (eofbit s) (failbit s) (disk s))
     else set_failbit) s
  else set_failbit s.

(** [seekg] forgets the end of the file but not a failure; a stream that failed
    does not move. *)
Definition seekg (off : Z) : prog fstream unit :=
  clear_eofbit ;;
  failed ← gets failbit;
  if failed : bool then mret tt else seekpos (s64 off).

Definition seekp (off : Z) : prog fstream unit :=
  failed ← gets failbit;
  if failed : bool then mret tt else seekpos (s64 off).

(** The cells that the disk gives: the end of the file sets [eofbit] and [failbit],
    a call that fails sets [badbit]. *)
Definition read_disk (n : Z) : prog fstream cells := fun s =>
  let data := take (Z.to_nat n) (drop (Z.to_nat (position s)) (file s)) in
  let error := match disk s with
    | (k, _) :: _ => ((k <? Z.to_nat n) && (k <=? length data))%nat
    | [] => false
    end in
  let got := match disk s with (k, _) :: _ => if error then take k data else data | [] => data end in
  let short := negb error && (Z.of_nat (length got) <? n) in
  (Ok got, mk_fstream (is_open s) (file s) (position s + Z.of_nat (length got)) (pending s)
             (eofbit s || short) (failbit s || short || error) (if n =? 0 then disk s else tail (disk s))).

(** [read(p, n)]: the cells that arrive at [p]; what the buffer holds is written
    first. *)
Definition read (n : Z) : prog fstream cells := fun s =>
  if s64 n <? 0 then (Undefined, s)
  else if good s then
    (written ← sync;
     if written : bool then read_disk n
     else
       modify (fun s => mk_fstream (is_open s) (file s) (position s) (pending s) (eofbit s || (0 <? n))
                          (failbit s || (0 <? n)) (disk s)) ;;
       mret []) s
  else (set_failbit ;; mret []) s.

(** [write(p, n)]. *)
Definition write (p : option cells) (n : Z) : prog fstream unit := fun s =>
  if s64 n <? 0 then (Undefined, s)
  else if good s && is_open s then
    (data ← lift (copy_from p n);
     modify (fun s => mk_fstream (is_open s) (file s) (position s) (pending s ++ data)
                        (eofbit s) (failbit s) (disk s))) s
  else set_failbit s.

(** [open]: a stream that is open fails. [found] tells whether the file could be
    opened. *)
Definition open_stream (found : bool) : prog fstream unit := fun s =>
  if found && negb (is_open s) then
    (Ok tt, mk_fstream true (file s) 0 [] false false (disk s))
  else set_failbit s.

(** ** The functions *)

(** The [ofstream] creates the file or makes it empty; [created] and [found] are
    the outcomes of the two system calls. *)
Definition Init (created found : bool) (size : Z) : prog fstream unit :=
  (if created then
     modify (fun s => mk_fstream (is_open s) [] (position s) (pending s) (eofbit s) (failbit s) (disk s))
   else throw (runtime_error "FileManager: failed to create file")) ;;
  open_stream found ;;
  failed ← gets failbit;
  if failed : bool then throw (runtime_error "FileManager: failed to open file")
  else
    seekp (u64 (size - 1)) ;;
    write (Some [Some Byte.x00]) 1 ;;
    flush ;;
    seekg 0.

(** The result and the buffer, which keeps its contents where nothing was read. *)
Definition ReadFromFile (offset length : Z) (buffer : cells) : prog fstream (bool * cells) :=
  seekg offset ;;
  got ← read length;
  buffer ← lift (write_cells 0 got buffer);
  ok ← gets good;
  mret (ok, buffer).

Definition WriteToFile (offset length : Z) (buffer : option cells) : prog fstream bool :=
  seekp offset ;;
  write buffer length ;;
  flush ;;
  gets good.

(** ** What the functions do *)

(** The stream is in order and shows the contents [d]; the disk does not fail. *)
Definition shows (d : cells) (s : fstream) : Prop :=
  is_open s = true /\ eofbit s = false /\ failbit s = false /\ pending s = [] /\ file s = d.

Definition holds (d : cells) (s : fstream) : Prop := shows d s /\ disk s = [].

Lemma sync_nothing o f p e b k :
  sync (mk_fstream o f p [] e b k) = (Ok true, mk_fstream o f p [] e b k).
Proof. unfold sync. cbn. by rewrite Z.add_0_r. Qed.

Lemma s64_small z : 0 <= z < 2 ^ 63 -> s64 z = z.
Proof. intros. unfold s64. by rewrite (proj2 (Z.ltb_lt _ _)) by lia. Qed.

Lemma write_at_within off data d :
  (off + length data <= length d)%nat ->
  write_at off data d = take off d ++ data ++ drop (off + length data) d.
Proof.
  intros Hle. destruct data as [|x data].
  - simpl. by rewrite Nat.add_0_r, take_drop.
  - unfold write_at. replace (off - length d)%nat with 0%nat by (simpl in Hle; lia).
    by rewrite app_nil_r.
Qed.

Lemma length_write_at off data d :
  (off + length data <= length d)%nat -> length (write_at off data d) = length d.
Proof.
  intros Hle. rewrite write_at_within by done. rewrite !length_app, length_take, length_drop. lia.
Qed.

Lemma seekpos_ok off d s :
  shows d s -> 0 <= off ->
  seekpos off s = (Ok tt, mk_fstream true d off [] false false (disk s)).
Proof.
  destruct s. intros (? & ? & ? & ? & ?) Ho. simpl in *. subst.
  unfold seekpos. cbn [is_open andb]. rewrite (proj2 (Z.leb_le _ _)) by lia.
  rewrite (bind_ok _ _ _ _ _ (sync_nothing _ _ _ _ _ _)). done.
Qed.

Lemma seekg_ok off d s :
  shows d s -> 0 <= off < 2 ^ 63 -> seekg off s = (Ok tt, mk_fstream true d off [] false false (disk s)).
Proof.
  destruct s. intros (? & ? & ? & ? & ?) Ho. simpl in *. subst.
  unfold seekg, clear_eofbit. run_prog. cbn [failbit is_open file position pending disk].
  rewrite s64_small by lia. by apply seekpos_ok; [|lia].
Qed.

Lemma seekp_ok off d s :
  shows d s -> 0 <= off < 2 ^ 63 -> seekp off s = (Ok tt, mk_fstream true d off [] false false (disk s)).
Proof.
  destruct s. intros (? & ? & ? & ? & ?) Ho. simpl in *. subst.
  unfold seekp. run_prog. cbn [failbit]. rewrite s64_small by lia. by apply seekpos_ok; [|lia].
Qed.

(** A stream that is in order is read; the position does not matter before the
    next operation, which seeks. *)
Lemma read_ok n off d k :
  0 <= n < 2 ^ 63 -> read n (mk_fstream true d off [] false false k) = read_disk n (mk_fstream true d off [] false false k).
Proof.
  intros Hn. unfold read. rewrite s64_small, (proj2 (Z.ltb_ge _ _)) by lia.
  change (good (mk_fstream true d off [] false false k)) with true. cbv iota.
  by rewrite (bind_ok _ _ _ _ _ (sync_nothing _ _ _ _ _ _)).
Qed.

(** What is written goes to the buffer, and [flush] writes it out. *)
Lemma write_ok p n off d k :
  0 <= n < 2 ^ 63 -> data_wf p n ->
  write p n (mk_fstream true d off [] false false k)
  = (Ok tt, mk_fstream true d off (data_cells p n) false false k).
Proof.
  intros Hn Hp. unfold write. rewrite s64_small, (proj2 (Z.ltb_ge _ _)) by lia.
  unfold good. cbn [eofbit failbit negb andb is_open]. run_prog. by rewrite copy_from_ok.
Qed.

Lemma flush_ok off data d :
  flush (mk_fstream true d off data false false [])
  = (Ok tt, mk_fstream true (write_at (Z.to_nat off) data d) (off + Z.of_nat (List.length data)) []
              false false []).
Proof. by destruct data. Qed.

(** A read of [length] bytes into a buffer of that size. *)
Lemma ReadFromFile_eq offset length d s :
  shows d s -> 0 <= offset < 2 ^ 63 -> 0 <= length < 2 ^ 63 ->
  exists got s', read_disk length (mk_fstream true d offset [] false false (disk s)) = (Ok got, s')
    /\ ReadFromFile offset length (replicate (Z.to_nat length) None) s
       = (Ok (good s', got ++ replicate (Z.to_nat length - List.length got) None), s').
Proof.
  intros Hs Ho Hl. eexists _, _. split; [reflexivity|].
  unfold ReadFromFile. rewrite (bind_ok _ _ _ _ _ (seekg_ok offset d s Hs Ho)).
  assert (E := read_ok length offset d (disk s) Hl). unfold read_disk in E.
  rewrite (bind_ok _ _ _ _ _ E). cbn [position file disk]. set (data := take _ (drop _ d)).
  assert (Hdata : (List.length data <= Z.to_nat length)%nat) by (unfold data; rewrite length_take; lia).
  match goal with |- context [write_cells 0 ?g _] => assert (Hgot : (List.length g <= Z.to_nat length)%nat) end.
  { repeat case_match; rewrite ?length_take; lia. }
  run_prog. pose proof (fun g => write_cells_append (Z.to_nat length) g []) as Hw.
  cbn [app List.length] in Hw. by rewrite Hw.
Qed.

Lemma ReadFromFile_holds offset length d s :
  holds d s -> 0 <= offset -> 0 <= length -> offset + length < 2 ^ 63 ->
  offset + length <= Z.of_nat (List.length d) ->
  exists s', ReadFromFile offset length (replicate (Z.to_nat length) None) s
      = (Ok (true, take (Z.to_nat length) (drop (Z.to_nat offset) d)), s')
    /\ holds d s'.
Proof.
  intros [Hs Hk] Ho Hl Hmax Hin.
  destruct (ReadFromFile_eq offset length d s Hs ltac:(lia) ltac:(lia)) as (got & s' & Er & E).
  rewrite Hk in Er. unfold read_disk in Er. cbn [disk position file is_open eofbit failbit pending negb andb orb] in Er.
  injection Er as <- <-. set (got := take (Z.to_nat length) (drop (Z.to_nat offset) d)) in *.
  assert (Hgot : List.length got = Z.to_nat length)
    by (unfold got; rewrite length_take, length_drop; lia).
  rewrite Hgot, Nat.sub_diag, app_nil_r, (proj2 (Z.ltb_ge _ _)) in E by lia.
  eexists. split; [exact E|]. split; [done|]. by destruct (length =? 0).
Qed.

(** A write, up to the disk. *)
Lemma WriteToFile_eq offset length data d s :
  shows d s -> 0 <= offset < 2 ^ 63 -> 0 <= length < 2 ^ 63 -> data_wf data length ->
  WriteToFile offset length data s
  = (flush ;; gets good) (mk_fstream true d offset (data_cells data length) false false (disk s)).
Proof.
  intros Hs Ho Hl Hdata. unfold WriteToFile.
  rewrite (bind_ok _ _ _ _ _ (seekp_ok offset d s Hs Ho)).
  by rewrite (bind_ok _ _ _ _ _ (write_ok data length offset d (disk s) Hl Hdata)).
Qed.

Lemma WriteToFile_holds offset length data d s :
  holds d s -> 0 <= offset -> 0 <= length -> offset + length < 2 ^ 63 ->
  offset + length <= Z.of_nat (List.length d) -> data_wf data length ->
  exists s', WriteToFile offset length data s = (Ok true, s')
    /\ holds (write_at (Z.to_nat offset) (data_cells data length) d) s'.
Proof.
  intros [Hs Hk] Ho Hl Hmax Hin Hdata.
  rewrite (WriteToFile_eq offset length data d s), Hk, (bind_ok _ _ _ _ _ (flush_ok _ _ _)) by (done || lia).
  by eexists.
Qed.

(** ** The contract: an array of bytes

    The part of the program that answers the master sees a disk of fixed size. *)

Inductive disk_op : Set :=
  | DiskRead (offset length : Z)
  | DiskWrite (offset : Z) (data : cells).

Definition array_op (o : disk_op) (d : cells) : (bool * cells) * cells :=
  match o with
  | DiskRead offset length => (true, take (Z.to_nat length) (drop (Z.to_nat offset) d), d)
  | DiskWrite offset data =>
      (true, [], take (Z.to_nat offset) d ++ data ++ drop (Z.to_nat offset + List.length data) d)
  end.

Definition op_within (o : disk_op) (size : nat) : Prop :=
  match o with
  | DiskRead offset length => 0 <= offset /\ 0 <= length /\ offset + length <= Z.of_nat size
  | DiskWrite offset data => 0 <= offset /\ offset + Z.of_nat (List.length data) <= Z.of_nat size
  end.

(** One call, and a sequence of calls, with the results. *)
Definition file_op (o : disk_op) : prog fstream (bool * cells) :=
  match o with
  | DiskRead offset length => ReadFromFile offset length (replicate (Z.to_nat length) None)
  | DiskWrite offset data =>
      ok ← WriteToFile offset (Z.of_nat (List.length data)) (Some data); mret (ok, [])
  end.

Fixpoint file_ops (l : list disk_op) : prog fstream (list (bool * cells)) :=
  match l with
  | [] => mret []
  | o :: l => r ← file_op o; rs ← file_ops l; mret (r :: rs)
  end.

Fixpoint array_ops (l : list disk_op) (d : cells) : list (bool * cells) * cells :=
  match l with
  | [] => ([], d)
  | o :: l =>
      let '(r, d) := array_op o d in
      let '(rs, d) := array_ops l d in (r :: rs, d)
  end.

Lemma file_op_refines o d s :
  holds d s -> op_within o (length d) -> Z.of_nat (length d) < 2 ^ 63 ->
  exists s', file_op o s = (Ok (array_op o d).1, s') /\ holds (array_op o d).2 s'
    /\ length (array_op o d).2 = length d.
Proof.
  intros Hs Hin Hmax. destruct o as [offset len|offset data]; simpl in Hin |- *.
  - destruct (ReadFromFile_holds offset len d s) as (s' & E & Hs'); [done|lia..|].
    by exists s'.
  - destruct (WriteToFile_holds offset (Z.of_nat (length data)) (Some data) d s)
      as (s' & E & Hs'); [done|lia..|by left; eexists|].
    rewrite (bind_ok _ _ _ _ _ E). exists s'. split; [done|].
    assert (Hd : data_cells (Some data) (Z.of_nat (length data)) = data)
      by (simpl; rewrite Nat2Z.id; by apply read_cells_exact).
    rewrite Hd in Hs'. rewrite <-write_at_within by lia. split; [done|].
    apply length_write_at. lia.
Qed.

(** A stream that was never opened. *)
Definition fresh (f : cells) : fstream := mk_fstream false f 0 [] false false [].

Lemma Init_holds f size :
  0 < size < 2 ^ 63 ->
  exists s, Init true true size (fresh f) = (Ok tt, s)
    /\ holds (replicate (Z.to_nat size) (Some Byte.x00)) s.
Proof.
  intros Hsize. unfold Init, open_stream, fresh. run_prog. cbn [is_open andb negb failbit file disk].
  rewrite u64_small by lia.
  pose proof (seekp_ok (size - 1) [] (mk_fstream true [] 0 [] false false []) ltac:(done) ltac:(lia)) as Es.
  rewrite Es. cbn [fst snd disk].
  assert (Hone : data_wf (Some [Some Byte.x00]) 1) by (left; by eexists).
  rewrite (write_ok _ 1 (size - 1) [] [] ltac:(lia) Hone), flush_ok.
  set (f' := write_at _ _ _).
  assert (Hf : f' = replicate (Z.to_nat size) (Some Byte.x00)).
  { unfold f', write_at. change (data_cells (Some [Some Byte.x00]) 1) with [Some Byte.x00].
    cbn [app length]. rewrite Nat.sub_0_r, drop_nil, take_ge by (rewrite length_replicate; lia).
    change [Some Byte.x00] with (replicate 1 (Some Byte.x00)). rewrite <-(replicate_add _ 1). f_equal. lia. }
  pose proof (fun p => seekg_ok 0 f' (mk_fstream true f' p [] false false []) ltac:(done) ltac:(lia)) as Eg.
  rewrite Eg. eexists. split; [done|]. by rewrite <-Hf.
Qed.

Lemma file_ops_refine l d s :
  holds d s -> Forall (fun o => op_within o (length d)) l -> Z.of_nat (length d) < 2 ^ 63 ->
  exists s', file_ops l s = (Ok (array_ops l d).1, s') /\ holds (array_ops l d).2 s'.
Proof.
  revert d s. induction l as [|o l IH]; intros d s Hs Hl Hmax; [by exists s|].
  apply Forall_cons in Hl as [Ho Hl].
  destruct (file_op_refines o d s Hs Ho Hmax) as (s1 & E1 & Hs1 & Hlen).
  cbn [file_ops array_ops]. rewrite (bind_ok _ _ _ _ _ E1).
  destruct (array_op o d) as [r1 d1]. cbn [fst snd] in *.
  destruct (IH d1 s1 Hs1) as (s2 & E2 & Hs2); [by rewrite Hlen|by rewrite Hlen|].
  rewrite (bind_ok _ _ _ _ _ E2). destruct (array_ops l d1) as [rs d2]. by exists s2.
Qed.

(** ** Properties *)

(** C15: the file of a minion is an array of bytes: after [Init] with a size, any
    sequence of reads and writes that stay inside the size succeeds, reads give
    the bytes last written (zeros before), and nothing is left in the buffer of
    the stream. *)
Theorem FileManager_refines (f : cells) (size : Z) (l : list disk_op)
    (Hsize : 0 < size < 2 ^ 63) (Hl : Forall (fun o => op_within o (Z.to_nat size)) l) :
  let zeros := replicate (Z.to_nat size) (Some Byte.x00) in
  exists s, (Init true true size ;; file_ops l) (fresh f) = (Ok (array_ops l zeros).1, s)
    /\ holds (array_ops l zeros).2 s.
Proof.
  intros zeros. destruct (Init_holds f size Hsize) as (s1 & E1 & Hs1).
  destruct (file_ops_refine l zeros s1 Hs1) as (s2 & E2 & Hs2);
    [by unfold zeros; rewrite length_replicate|unfold zeros; rewrite length_replicate; lia|].
  exists s2. by rewrite (bind_ok _ _ _ _ _ E1).
Qed.

Lemma FileManager_refines_witness :
  let l := [DiskWrite 2 [Some Byte.x61; Some Byte.x62]; DiskRead 1 4] in
  let zeros := replicate 8 (Some Byte.x00) in
  exists s, (Init true true 8 ;; file_ops l) (fresh []) = (Ok (array_ops l zeros).1, s)
    /\ holds (array_ops l zeros).2 s.
Proof.
  intros l. apply (FileManager_refines [] 8 l); [lia|]. repeat constructor; simpl; lia.
Defined.

(** Sizes that a [streamsize] can hold. *)
Definition op_sized (o : disk_op) : Prop :=
  match o with
  | DiskRead _ length => 0 <= length < 2 ^ 63
  | DiskWrite _ data => Z.of_nat (List.length data) < 2 ^ 63
  end.

(** A stream that failed stays as it is, but for what it would write. *)
Lemma failed_op o s :
  failbit s = true -> op_sized o ->
  exists s' data, file_op o s = (Ok (false, data), s') /\ failbit s' = true /\ file s' = file s.
Proof.
  destruct s. cbn [failbit file]. intros -> Ho. destruct o as [offset len|offset data]; simpl in Ho.
  - unfold file_op, ReadFromFile, seekg, clear_eofbit, read, set_failbit. run_prog.
    cbn [failbit]. rewrite s64_small, (proj2 (Z.ltb_ge _ _)) by lia.
    unfold good. cbn [eofbit failbit negb andb]. run_prog.
    rewrite write_cells_ok by (simpl; lia). by eexists _, _.
  - unfold file_op, WriteToFile, seekp, write, set_failbit, flush, good. run_prog.
    cbn [failbit]. rewrite s64_small, (proj2 (Z.ltb_ge _ _)) by lia.
    destruct eofbit0; by eexists _, _.
Qed.

Lemma failed_ops l s :
  failbit s = true -> Forall op_sized l ->
  exists rs s', file_ops l s = (Ok rs, s') /\ Forall (fun x => x.1 = false) rs /\ file s' = file s.
Proof.
  revert s. induction l as [|o l IH]; intros s Hf Hl; [by exists [], s|].
  apply Forall_cons in Hl as [Ho Hl].
  destruct (failed_op o s Hf Ho) as (s1 & data & E1 & Hf1 & Hfile1).
  destruct (IH s1 Hf1 Hl) as (rs & s2 & E2 & Hrs & Hfile2).
  exists ((false, data) :: rs), s2. cbn [file_ops].
  rewrite (bind_ok _ _ _ _ _ E1), (bind_ok _ _ _ _ _ E2).
  split; [done|]. split; [by constructor|congruence].
Qed.

(** ** A disk that fails *)

(** Reads of any range, writes within the size; a read inside. *)
Definition op_bounded (o : disk_op) (size : nat) : Prop :=
  match o with
  | DiskRead offset length => 0 <= offset < 2 ^ 63 /\ 0 <= length < 2 ^ 63
  | DiskWrite _ _ => op_within o size
  end.

Definition op_fits (o : disk_op) (size : nat) : Prop :=
  match o with
  | DiskRead offset length => length = 0 \/ offset + length <= Z.of_nat size
  | DiskWrite _ _ => True
  end.

(** The file [d'] after an operation on [d] that failed: a write left a prefix of
    its data. *)
Definition torn (o : disk_op) (d d' : cells) : Prop :=
  match o with
  | DiskRead _ _ => d' = d
  | DiskWrite offset data => exists n, (n < length data)%nat
      /\ d' = take (Z.to_nat offset) d ++ take n data ++ drop (Z.to_nat offset + n) d
  end.

Lemma read_or_fails offset len d s :
  shows d s -> 0 <= offset < 2 ^ 63 -> 0 <= len < 2 ^ 63 ->
  let data := take (Z.to_nat len) (drop (Z.to_nat offset) d) in
  let o := DiskRead offset len in
  (exists s', file_op o s = (Ok (true, data), s') /\ shows d s' /\ op_fits o (length d))
  \/ (exists got s', file_op o s = (Ok (false, got), s') /\ failbit s' = true /\ file s' = d).
Proof.
  intros Hs Ho Hl data o. destruct (ReadFromFile_eq offset len d s Hs Ho Hl) as (got & s' & Er & E).
  unfold o, file_op. rewrite E. unfold read_disk in Er. cbn [disk position file is_open eofbit failbit pending orb] in Er.
  fold data in Er. assert (Hdata : length data = (Z.to_nat len `min` (length d - Z.to_nat offset))%nat)
    by (unfold data; by rewrite length_take, length_drop).
  assert (Hcase : forall s0, (Ok data, mk_fstream true d (offset + Z.of_nat (length data)) []
      (Z.of_nat (length data) <? len) (Z.of_nat (length data) <? len) s0) = (Ok got, s') ->
    (exists s'', (Ok (good s', got ++ replicate (Z.to_nat len - length got) None), s') = (Ok (true, data), s'')
       /\ shows d s'' /\ op_fits o (length d))
    \/ (exists got' s'', (Ok (good s', got ++ replicate (Z.to_nat len - length got) None), s') = (Ok (false, got'), s'')
       /\ failbit s'' = true /\ file s'' = d)).
  { intros s0 [= <- <-]. destruct (Z.ltb_spec (Z.of_nat (length data)) len) as [Hlt|Hge]; [right; by eexists _, _|left].
    replace (Z.to_nat len - length data)%nat with 0%nat by lia. rewrite app_nil_r.
    eexists. split; [reflexivity|]. split; [done|]. simpl. lia. }
  destruct (disk s) as [|[k keep] later]; cbn [negb andb] in Er; [rewrite !orb_false_r in Er; by eapply Hcase|].
  destruct ((k <? Z.to_nat len)%nat && (k <=? length data)%nat) eqn:Ee; cbn [negb andb] in Er; [|rewrite !orb_false_r in Er; by eapply Hcase].
  injection Er as <- <-. right. by eexists _, _.
Qed.

Lemma write_or_fails offset data d s :
  shows d s -> op_within (DiskWrite offset data) (length d) -> Z.of_nat (length d) < 2 ^ 63 ->
  let o := DiskWrite offset data in
  (exists s', file_op o s = (Ok (true, []), s') /\ shows (write_at (Z.to_nat offset) data d) s'
     /\ forall n rest later, disk s = (n, rest) :: later -> (length data <= n)%nat)
  \/ (exists s', file_op o s = (Ok (false, []), s') /\ failbit s' = true /\ torn o d (file s')
       /\ exists n rest later, disk s = (n, rest) :: later /\ (n < length data)%nat
          /\ file s' = write_at (Z.to_nat offset) (take n data) d).
Proof.
  intros Hs Hin Hmax o. simpl in Hin.
  assert (Hdata : data_cells (Some data) (Z.of_nat (length data)) = data)
    by (simpl; rewrite Nat2Z.id; by apply read_cells_exact).
  assert (E := WriteToFile_eq offset (Z.of_nat (length data)) (Some data) d s Hs ltac:(lia) ltac:(lia)
    ltac:(left; by eexists)).
  rewrite Hdata in E. revert E. unfold flush. run_prog. unfold good. cbn [eofbit failbit negb andb].
  unfold sync. cbn [pending disk is_open file position eofbit failbit].
  unfold o, file_op. run_prog. intros ->.
  destruct data as [|x data]; [left; eexists; split_and!; [done..|simpl; lia]|].
  destruct (disk s) as [|[n rest] later] eqn:Ed; [left; by eexists|].
  destruct (Nat.leb_spec (length (x :: data)) n) as [Hle|Hlt];
    [left; eexists; split_and!; [done..|by intros ??? [= <- _ _]]|right].
  eexists. split; [reflexivity|]. split; [done|]. cbn [file fst snd]. split.
  - exists n. split; [done|]. rewrite write_at_within by (rewrite length_take; simpl in *; lia).
    by rewrite length_take_le by lia.
  - by exists n, rest, later.
Qed.

Lemma file_op_or_fails o d s :
  shows d s -> op_bounded o (length d) -> Z.of_nat (length d) < 2 ^ 63 ->
  (exists s', file_op o s = (Ok (array_op o d).1, s') /\ shows (array_op o d).2 s' /\ op_fits o (length d)
     /\ length (array_op o d).2 = length d)
  \/ (exists data s', file_op o s = (Ok (false, data), s') /\ failbit s' = true /\ torn o d (file s')).
Proof.
  intros Hs Ho Hmax. destruct o as [offset len|offset data].
  - destruct (read_or_fails offset len d s Hs) as [(s' & E & Hs' & Hf)|(got & s' & E & Hf & Hd)];
      [apply Ho|apply Ho|left; by exists s'|right; by exists got, s'].
  - destruct (write_or_fails offset data d s Hs Ho Hmax) as [(s' & E & Hs' & _)|(s' & E & Hf & Ht & _)];
      [left|right; by exists [], s'].
    exists s'. simpl in Ho |- *. rewrite <-write_at_within by lia. split; [done|]. split; [done|]. split; [done|].
    apply length_write_at. lia.
Qed.

Lemma file_ops_length l s rs s' : file_ops l s = (Ok rs, s') -> length rs = length l.
Proof.
  revert s rs s'. induction l as [|o l IH]; intros s rs s' E; [by injection E as <- <-|]. cbn [file_ops] in E.
  apply bind_ok_inv in E as (r & s1 & _ & E). apply bind_ok_inv in E as (rs' & s2 & E2 & E).
  injection E as <- _. simpl. by rewrite (IH _ _ _ E2).
Qed.

(** One read past the end of the file disables the minion: the read itself
    fails, and so does every later read and write, whatever its range; the file
    never changes again. Nothing in the code clears the stream's [failbit]. *)
Theorem short_read_disables (d : cells) (s : fstream) (offset len : Z) (l : list disk_op)
    (Hs : shows d s) (Hmax : Z.of_nat (length d) < 2 ^ 63) (Ho : 0 <= offset < 2 ^ 63) (Hlen : 0 < len < 2 ^ 63)
    (Hpast : Z.of_nat (length d) < offset + len)
    (Hl : Forall op_sized l) :
  exists r rs s', file_ops (DiskRead offset len :: l) s = (Ok (r :: rs), s')
    /\ Forall (fun x => x.1 = false) (r :: rs) /\ file s' = d.
Proof.
  destruct (file_op_or_fails (DiskRead offset len) d s Hs) as [(s1 & _ & _ & Hfits & _)|(data & s1 & E & Hf & Htorn)];
    [simpl; lia|done|simpl in Hfits; lia|].
  destruct (failed_ops l s1 Hf Hl) as (rs & s2 & E2 & Hrs & Hfile).
  eexists _, rs, s2. cbn [file_ops]. rewrite (bind_ok _ _ _ _ _ E), (bind_ok _ _ _ _ _ E2).
  split; [done|]. split; [by constructor|]. by rewrite Hfile.
Qed.

Lemma short_read_disables_witness :
  let d := replicate 8 (Some Byte.x00) in
  exists r rs s', file_ops [DiskRead 6 4; DiskWrite 0 [Some Byte.x61]; DiskRead 0 1]
      (mk_fstream true d 0 [] false false []) = (Ok (r :: rs), s')
    /\ Forall (fun x => x.1 = false) (r :: rs) /\ file s' = d.
Proof.
  intros d. apply (short_read_disables d (mk_fstream true d 0 [] false false []) 6 4
    [DiskWrite 0 [Some Byte.x61]; DiskRead 0 1]); [by repeat split|simpl; lia|lia|lia|simpl; lia|].
  repeat constructor; simpl length; lia.
Defined.

(** One write that the disk does not take completely disables the minion: the
    write fails, its range of the file has a prefix of the data, and every later
    read and write fails, whatever its range, also when the disk has room again;
    the file never changes again. Nothing in the code clears the stream's bits. *)
Theorem full_disk_disables (d data rest : cells) (s : fstream) (offset : Z) (n : nat)
    (later : list (nat * cells)) (l : list disk_op)
    (Hs : shows d s) (Hdisk : disk s = (n, rest) :: later) (Ho : 0 <= offset < 2 ^ 63)
    (Hin : offset + Z.of_nat (length data) <= Z.of_nat (length d)) (Hmax : Z.of_nat (length d) < 2 ^ 63)
    (Hn : (n < length data)%nat)
    (Hl : Forall op_sized l) :
  exists rs s', file_ops (DiskWrite offset data :: l) s = (Ok ((false, []) :: rs), s')
    /\ Forall (fun x => x.1 = false) rs
    /\ file s' = take (Z.to_nat offset) d ++ take n data ++ drop (Z.to_nat offset + n) d.
Proof.
  destruct (write_or_fails offset data d s Hs) as [(s1 & _ & _ & Hle)|(s1 & E & Hf & _ & n' & rest' & later' & Ed & _ & Hfile1)];
    [simpl; lia|done| |].
  - specialize (Hle _ _ _ Hdisk). lia.
  - rewrite Hdisk in Ed. injection Ed as <- <- <-.
    destruct (failed_ops l s1 Hf Hl) as (rs & s2 & E2 & Hrs & Hfile).
    exists rs, s2. cbn [file_ops]. rewrite (bind_ok _ _ _ _ _ E), (bind_ok _ _ _ _ _ E2).
    split; [done|]. split; [done|]. rewrite Hfile, Hfile1, write_at_within by (rewrite length_take; lia).
    by rewrite length_take_le by lia.
Qed.

(** The disk takes one of two bytes, and then everything. *)
Lemma full_disk_disables_witness :
  let d := replicate 8 (Some Byte.x00) in
  exists rs s', file_ops [DiskWrite 3 [Some Byte.x61; Some Byte.x62]; DiskWrite 0 [Some Byte.x63]; DiskRead 0 1]
      (mk_fstream true d 0 [] false false [(1%nat, [])]) = (Ok ((false, []) :: rs), s')
    /\ Forall (fun x => x.1 = false) rs
    /\ file s' = take (Z.to_nat 3) d ++ take 1 [Some Byte.x61; Some Byte.x62] ++ drop (Z.to_nat 3 + 1) d.
Proof.
  intros d. apply (full_disk_disables d [Some Byte.x61; Some Byte.x62] []
    (mk_fstream true d 0 [] false false [(1%nat, [])]) 3 1 [] [DiskWrite 0 [Some Byte.x63]; DiskRead 0 1]);
    try (simpl; lia); try done.
  repeat constructor; simpl length; lia.
Defined.

(** Up to the first failure a minion's file is an array of bytes, after it
    everything fails. *)
Definition answers_then_fails (l1 l2 : list disk_op) (d : cells) (rs : list (bool * cells)) (s : fstream) : Prop :=
  let '(answers, d') := array_ops l1 d in
  Forall (fun o => op_fits o (length d)) l1
  /\ (exists failures, rs = answers ++ failures /\ length failures = length l2
       /\ Forall (fun x => x.1 = false) failures)
  /\ match l2 with [] => shows d' s | o :: _ => torn o d' (file s) end.

Lemma fail_stop_file l d s :
  shows d s -> Forall (fun o => op_bounded o (length d)) l -> Z.of_nat (length d) < 2 ^ 63 ->
  exists l1 l2 rs s', l = l1 ++ l2 /\ file_ops l s = (Ok rs, s') /\ answers_then_fails l1 l2 d rs s'.
Proof.
  revert d s. induction l as [|o l IH]; intros d s Hs Hl Hmax.
  { exists [], [], [], s. split; [done|]. split; [done|]. split; [done|]. split; [by exists []|done]. }
  apply Forall_cons in Hl as [Ho Hl].
  destruct (file_op_or_fails o d s Hs Ho Hmax) as [(s1 & E1 & Hs1 & Hfits & Hlen)|(data & s1 & E1 & Hf & Ht)].
  - rewrite <-Hlen in Hl, Hmax. destruct (IH _ s1 Hs1 Hl Hmax) as (l1 & l2 & rs & s2 & -> & E2 & H2).
    exists (o :: l1), l2, ((array_op o d).1 :: rs), s2. split; [done|]. cbn [file_ops].
    rewrite (bind_ok _ _ _ _ _ E1), (bind_ok _ _ _ _ _ E2). split; [done|].
    unfold answers_then_fails in *. cbn [array_ops]. destruct (array_op o d) as [r1 d1]. cbn [fst snd] in *.
    destruct (array_ops l1 d1) as [rs1 d2]. rewrite Hlen in H2. destruct H2 as (Hall & (fs & -> & Hfs) & Hend).
    split; [by constructor|]. split; [by exists fs|done].
  - destruct (failed_ops l s1 Hf) as (rs & s2 & E2 & Hrs & Hfile).
    { eapply Forall_impl; [exact Hl|]. intros [off len|off da]; simpl; lia. }
    assert (Hlen : length rs = length l) by by eapply file_ops_length.
    exists [], (o :: l), ((false, data) :: rs), s2. split; [done|]. cbn [file_ops].
    rewrite (bind_ok _ _ _ _ _ E1), (bind_ok _ _ _ _ _ E2). split; [done|].
    split; [done|]. split; [|by rewrite Hfile].
    exists ((false, data) :: rs). split; [done|]. split; [by simpl; rewrite Hlen|by constructor].
Qed.

(** A stream that shows an array, whose disk may fail from now on or has failed. *)
Definition keeps (may_fail : bool) (d : cells) (s : fstream) : Prop :=
  if may_fail then shows d s \/ failbit s = true else holds d s.

(** An operation succeeds as on the array, or fails, if the disk may. *)
Lemma keeps_op may_fail o d s :
  keeps may_fail d s -> op_within o (length d) -> Z.of_nat (length d) < 2 ^ 63 ->
  exists ok data s', file_op o s = (Ok (ok, data), s') /\ keeps may_fail (array_op o d).2 s'
    /\ (ok = true -> data = (array_op o d).1.2) /\ (may_fail = false -> ok = true).
Proof.
  intros Hs Hin Hmax.
  assert (Hgood : (array_op o d).1 = (true, (array_op o d).1.2)) by by destruct o.
  destruct may_fail; cbn [keeps] in *.
  - assert (Hsized : op_sized o) by (destruct o; simpl in *; lia).
    assert (Hb : op_bounded o (length d)) by (destruct o; simpl in *; [lia|done]).
    destruct Hs as [Hs|Hf].
    + destruct (file_op_or_fails o d s Hs Hb Hmax) as [(s' & E & Hs' & _)|(data & s' & E & Hf & _)].
      * rewrite Hgood in E. eexists _, _, s'. split; [exact E|]. by split; [left|].
      * exists false, data, s'. split; [exact E|]. by split; [right|].
    + destruct (failed_op o s Hf Hsized) as (s' & data & E & Hf' & _).
      exists false, data, s'. split; [exact E|]. by split; [right|].
  - destruct (file_op_refines o d s Hs Hin Hmax) as (s' & E & Hs' & _). rewrite Hgood in E.
    eexists _, _, s'. by split; [exact E|].
Qed.

Lemma length_array_ops l d : length (array_ops l d).1 = length l.
Proof.
  revert d. induction l as [|o l IH]; intros d; [done|]. cbn [array_ops].
  destruct (array_op o d) as [r d1]. specialize (IH d1). destruct (array_ops l d1). simpl in *. by rewrite IH.
Qed.

(** Whatever the disk does, a minion never reports a wrong result: for every
    sequence of reads of any range and writes within the size, and any failures of
    the disk, there is a point up to which every operation succeeds and reads give
    the bytes last written, and from which on every operation reports a failure;
    the file then is the array of bytes of that point, but for a prefix of the
    write that failed. *)
Theorem fail_stop (d : cells) (s : fstream) (l : list disk_op)
    (Hs : shows d s) (Hl : Forall (fun o => op_bounded o (length d)) l) (Hmax : Z.of_nat (length d) < 2 ^ 63) :
  exists l1 l2 rs s', l = l1 ++ l2 /\ file_ops l s = (Ok rs, s') /\ answers_then_fails l1 l2 d rs s'.
Proof. by apply fail_stop_file. Qed.

(** The disk fails when it reads for the second time. *)
Lemma fail_stop_witness :
  let d := replicate 4 (Some Byte.x00) in
  let l := [DiskWrite 1 [Some Byte.x61]; DiskRead 0 2; DiskRead 0 3; DiskRead 0 1] in
  exists l1 l2 rs s', l = l1 ++ l2
    /\ file_ops l (mk_fstream true d 0 [] false false [(9, []); (9, []); (2, [])]%nat) = (Ok rs, s')
    /\ answers_then_fails l1 l2 d rs s'.
Proof.
  intros d l. apply (fail_stop d _ l); [by repeat split| |simpl; lia].
  repeat constructor; simpl; lia.
Defined.
