(* ===== verification/MasterProxy.v ===== *)
(** * MasterProxy

    [concrete/src/MasterProxy.cpp]: the minion's end of the link to the master.
    It turns the master's requests into tasks and sends the responses, to the
    address the last datagram came from. *)

From S2P Require Import Prelude Bytes Message TaskArgs Factory Sockets Logger.

(** [std::optional<UDPSocket>]; [value()] of an empty one throws. *)
Record MasterProxy : Type := mk_MasterProxy {
  m_socket : option UDPSocket.t;
}.

(** The two process-wide factories: the classes of messages, and the creators of
    arguments. *)
Definition creator : Type := Z -> TaskArgs -> ATaskArgs.

Record factories : Type := mk_factories {
  messages : gmap Z MESSAGE_TYPE;
  arguments : gmap Z creator;
}.

(** [socket] is the result of the constructor [UDPSocket(port)]. *)
Definition Init (socket : UDPSocket.t) : prog (MasterProxy * factories) unit :=
  on_fst (modify (fun _ => mk_MasterProxy (Some socket))) ;;
  on_snd (modify (fun f => mk_factories (messages f)
    (Register (type_value READ_SEND) MinionReadArgs (arguments f)))) ;;
  on_snd (modify (fun f => mk_factories (messages f)
    (Register (type_value WRITE_SEND) MinionWriteArgs (arguments f)))) ;;
  on_snd (modify (fun f => mk_factories
    (Register (type_value READ_SEND) READ_SEND (messages f)) (arguments f))) ;;
  on_snd (modify (fun f => mk_factories
    (Register (type_value WRITE_SEND) WRITE_SEND (messages f)) (arguments f))).

(** What [Init] leaves in the factories of a new process. *)
Definition minion_factories : factories :=
  mk_factories
    (Register (type_value WRITE_SEND) WRITE_SEND (Register (type_value READ_SEND) READ_SEND ∅))
    (Register (type_value WRITE_SEND) MinionWriteArgs
       (Register (type_value READ_SEND) MinionReadArgs ∅)).

Section MasterProxy.
Context {W : Type} `{HasLog W}.

(** [m_socket.value().f()]. *)
Definition on_socket {A} (f : prog UDPSocket.t A) : prog (MasterProxy * W) A := fun s =>
  match m_socket s.1 with
  | None => (Throw bad_optional_access, s)
  | Some socket => let '(r, socket) := f socket in (r, (mk_MasterProxy (Some socket), s.2))
  end.

Definition GetTaskArgs (f : factories) : prog (MasterProxy * W) (option ATaskArgs) :=
  packet ← on_socket (UDPSocket.ReceiveFrom (BUFSIZ - 1));
  let bytes := Z.of_nat (length packet) in
  let buffer := receive_buffer packet in
  if bytes <? 4 * 2 then on_snd (Log "MasterProxy: short UDP packet" WARNING) ;; mret None
  else
    '(msgSize, runner) ← lift (load 4 buffer);
    if u32 bytes <? msgSize then
      on_snd (Log "MasterProxy: UDP packet size mismatch" WARNING) ;; mret None
    else
      '(messageType, runner) ← lift (load 4 runner);
      type ← lift (Create messageType (messages f));
      '(inputMessage, _) ← lift (FromBuffer type runner);
      on_snd (Log ("Minion got: " +:+ pretty (GetUID inputMessage) +:+ " "
                   +:+ pretty (GetOffset inputMessage) +:+ " "
                   +:+ pretty (GetLength inputMessage)) DEBUG) ;;
      create ← lift (Create messageType (arguments f));
      mret (Some (create (GetUID inputMessage)
        (mk_TaskArgs (GetOffset inputMessage) (GetLength inputMessage) (GetData inputMessage)))).

Definition SendReadResponse (uid : Z) (result : bool) (length : Z) (data : option cells)
    : prog (MasterProxy * W) unit :=
  let rMsg := ReadReceive (MessageReadReceive.make uid result length data) in
  buffer ← lift (make_packet rMsg);
  on_socket (UDPSocket.SendTo buffer).

Definition SendWriteResponse (uid : Z) (result : bool) : prog (MasterProxy * W) unit :=
  let wMsg := WriteReceive (MessageWriteReceive.make uid result) in
  buffer ← lift (make_packet wMsg);
  on_socket (UDPSocket.SendTo buffer).

Definition GetSocketFD : prog (MasterProxy * W) Z := on_socket (fun s => (Ok (UDPSocket.GetFD s), s)).

(** ** Receiving *)

(** The task of a request. *)
Definition request_task (m : AMessage) : ATaskArgs :=
  let args := mk_TaskArgs (GetOffset m) (GetLength m) (GetData m) in
  match m with
  | WriteSend _ => MinionWriteArgs (GetUID m) args
  | _ => MinionReadArgs (GetUID m) args
  end.

Definition is_request (m : AMessage) : Prop :=
  match m with ReadSend _ | WriteSend _ => True | _ => False end.

Definition got_request (m : AMessage) (w : W) : W :=
  log_entry ("Minion got: " +:+ pretty (GetUID m) +:+ " " +:+ pretty (GetOffset m) +:+ " "
             +:+ pretty (GetLength m)) DEBUG w.

Lemma GetTaskArgs_packet m addr rest socket (w : W) :
  is_request m -> message_wf m -> Z.of_nat (length (packet_of m)) <= BUFSIZ - 1 ->
  UDPSocket.incoming socket = Some (addr, packet_of m) :: rest ->
  GetTaskArgs minion_factories (mk_MasterProxy (Some socket), w)
  = (Ok (Some (request_task (message_seen m))),
     (mk_MasterProxy (Some (UDPSocket.received addr rest socket)), got_request (message_seen m) w)).
Proof.
  intros Hreq Hwf Hlen Hin.
  assert (Hm : messages minion_factories !! type_value (GetMessageType m) = Some (GetMessageType m)
    /\ Create (type_value (GetMessageType m)) (arguments minion_factories)
       = Ok (match m with WriteSend _ => MinionWriteArgs | _ => MinionReadArgs end))
    by (destruct m; by split).
  destruct Hm as [Hm Ha].
  unfold GetTaskArgs, on_socket, UDPSocket.ReceiveFrom, Log. run_prog.
  cbn [fst snd m_socket]. rewrite Hin. cbn [fst snd m_socket].
  rewrite (take_ge (packet_of m)) by lia.
  destruct (packet_parse m Hwf Hlen) as (r1 & r2 & r3 & E1 & E2 & E3 & Esz & E8).
  rewrite E8, E1, Esz, E2, (Create_ok _ _ _ Hm), E3. cbn [fst snd m_socket]. rewrite Ha.
  destruct m; done.
Qed.
End MasterProxy.

(** ** Properties *)

Section properties.
Context {W : Type} `{HasLog W}.

(** A request that does not fit into the receive buffer of 8191 bytes is
    dropped: a write of more than 8158 bytes leaves a warning, no task, and no
    response. *)
Theorem oversized_request_dropped (m : AMessage) (addr : Z) rest (socket : UDPSocket.t) (w : W)
    (f : factories) (Hwf : message_wf m)
    (Hlen : BUFSIZ - 1 < Z.of_nat (length (packet_of m)) < 2 ^ 32)
    (Hin : UDPSocket.incoming socket = Some (addr, packet_of m) :: rest) :
  GetTaskArgs f (mk_MasterProxy (Some socket), w)
  = (Ok None, (mk_MasterProxy (Some (UDPSocket.received addr rest socket)),
               log_entry "MasterProxy: UDP packet size mismatch" WARNING w)).
Proof.
  destruct (packet_oversized m Hwf Hlen) as (runner & E1 & E2 & E3).
  unfold GetTaskArgs, on_socket, UDPSocket.ReceiveFrom, Log. run_prog.
  cbn [fst snd m_socket]. rewrite Hin. cbn [fst snd m_socket]. by rewrite E3, E1, E2.
Qed.

(** Any datagram whose type field is not that of a request makes the handler
    throw, and the reactor of the framework does not catch: with [f] the
    factories of a minion, such a datagram, whoever sent it, ends the program. *)
Theorem unknown_type_throws (addr type : Z) (body : cells) rest (socket : UDPSocket.t) (w : W)
    (Htype : in_u32 type)
    (Hunknown : type <> type_value READ_SEND /\ type <> type_value WRITE_SEND)
    (Hlen : Z.of_nat (length body) <= BUFSIZ - 1 - 8)
    (Hin : UDPSocket.incoming socket
           = Some (addr, store 4 (8 + Z.of_nat (length body)) ++ store 4 type ++ body) :: rest) :
  GetTaskArgs minion_factories (mk_MasterProxy (Some socket), w)
  = (Throw (out_of_range "Key doesn't exist."),
     (mk_MasterProxy (Some (UDPSocket.received addr rest socket)), w)).
Proof.
  set (packet := store 4 _ ++ store 4 type ++ body) in *.
  assert (Hp : Z.of_nat (length packet) = 8 + Z.of_nat (length body))
    by (unfold packet; rewrite !length_app, !length_store; lia).
  unfold BUFSIZ in Hlen.
  unfold GetTaskArgs, on_socket, UDPSocket.ReceiveFrom. run_prog.
  cbn [fst snd m_socket]. rewrite Hin. cbn [fst snd m_socket].
  rewrite (take_ge packet) by (unfold BUFSIZ; lia). rewrite (proj2 (Z.ltb_ge _ _)) by lia.
  unfold receive_buffer. unfold packet at 1. rewrite <-!app_assoc, load_store by (simpl; lia).
  rewrite Hp, u32_small, (proj2 (Z.ltb_ge _ _)) by lia. rewrite load_store by (simpl; lia).
  unfold Create, minion_factories, Register. cbn [messages].
  rewrite !lookup_insert_ne by naive_solver. by rewrite lookup_empty.
Qed.
End properties.

Lemma oversized_request_dropped_witness :
  let m := WriteSend (MessageWriteSend.mk 7 0 9000 (Some [])) in
  let socket := UDPSocket.mk 3 0 [Some (9, packet_of m)] [] [] in
  GetTaskArgs minion_factories (mk_MasterProxy (Some socket), [])
  = (Ok None, (mk_MasterProxy (Some (UDPSocket.received 9 [] socket)),
               log_entry "MasterProxy: UDP packet size mismatch" WARNING [])).
Proof.
  intros m socket. apply (oversized_request_dropped m 9 [] socket []); [|vm_compute; done|done].
  simpl. split; [lia|]. split; [lia|]. split; [lia|by eexists].
Defined.

Lemma unknown_type_throws_witness :
  let socket := UDPSocket.mk 3 0 [Some (9, store 4 9 ++ store 4 77 ++ [Some Byte.x61])] [] [] in
  GetTaskArgs minion_factories (mk_MasterProxy (Some socket), [])
  = (Throw (out_of_range "Key doesn't exist."),
     (mk_MasterProxy (Some (UDPSocket.received 9 [] socket)), [])).
Proof.
  intros socket. apply (unknown_type_throws 9 77 [Some Byte.x61] []); simpl; lia || done.
Defined.
