(* ===== verification/Minion.v ===== *)
(** * Minion

    The minion program: [concrete/src/MinionCommands.cpp], and the components put
    together as [framework/test/TestFirstMinion.cpp] does it. *)

From S2P Require Import Prelude Bytes StripeSplitter Message TaskArgs Factory Sockets Logger.
From S2P Require Import Commands Framework FileManager MasterProxy MinionManager.

Record Minion : Type := mk_Minion {
  proxy : MasterProxy;
  stream : fstream;
  m_queue : list ATaskArgs;
  m_log : list (string * Severity);
}.

#[export] Instance Minion_log : HasLog Minion := fun message sev s =>
  mk_Minion (proxy s) (stream s) (m_queue s) (m_log s ++ [(message, sev)]).

Definition on_proxy {A} (f : prog (MasterProxy * list (string * Severity)) A) : prog Minion A :=
  zoom (fun s => (proxy s, m_log s)) (fun t s => mk_Minion t.1 (stream s) (m_queue s) t.2) f.

Definition on_file {A} (f : prog fstream A) : prog Minion A :=
  zoom stream (fun t s => mk_Minion (proxy s) t (m_queue s) (m_log s)) f.

(** ** The commands *)

(** [new char[n]]: more bytes than an object can have. *)
Definition new_chars (n : Z) : prog Minion cells :=
  if 2 ^ 63 <=? n then throw bad_array_new_length else mret (replicate (Z.to_nat n) None).

Definition MinionReadCommand_Run (args : ATaskArgs) : prog Minion (option Empty_set) :=
  match args with
  | MinionReadArgs uid a =>
      logging_exceptions "MinionReadCommand: "
        (readBuffer ← new_chars (m_length a);
         '(result, readBuffer) ← on_file (ReadFromFile (m_offset a) (m_length a) readBuffer);
         on_proxy (SendReadResponse uid result (m_length a) (Some readBuffer))) ;;
      mret None
  | _ => Log "MinionReadCommand: invalid task args" ERROR ;; mret None
  end.

Definition MinionWriteCommand_Run (args : ATaskArgs) : prog Minion (option Empty_set) :=
  match args with
  | MinionWriteArgs uid a =>
      logging_exceptions "MinionWriteCommand: "
        (result ← on_file (WriteToFile (m_offset a) (m_length a) (m_buffer a));
         on_proxy (SendWriteResponse uid result)) ;;
      mret None
  | _ => Log "MinionWriteCommand: invalid task args" ERROR ;; mret None
  end.

Inductive minion_command : Set := MinionReadCommand | MinionWriteCommand.

Definition run_minion_command (c : minion_command) (args : ATaskArgs)
    : prog Minion (option Empty_set) :=
  match c with
  | MinionReadCommand => MinionReadCommand_Run args
  | MinionWriteCommand => MinionWriteCommand_Run args
  end.

(** ** The program *)

Definition minion_commands : gmap Z minion_command :=
  (Framework_init (PROXY := unit) []
     [(fdmode_value FD_WRITE, MinionWriteCommand); (fdmode_value FD_READ, MinionReadCommand)] ∅).2.

(** [proxy->Init], [FileManager::Init] with the chunk size, and the framework;
    [found] is the contents of a file of that name. *)
Definition minion_boot (socket : UDPSocket.t) (found : cells) (chunkSize : Z) : res Minion :=
  let '(r, s) := FileManager.Init true true chunkSize (fresh found) in
  r ;; mret (mk_Minion (mk_MasterProxy (Some socket)) s [] []).

(** The two handlers: the socket is readable; a thread of the pool takes the task
    at position [i] of the queue. *)
Definition minion_input : prog Minion unit :=
  on_input (on_proxy (MasterProxy.GetTaskArgs minion_factories))
    (fun args => modify (fun s => mk_Minion (proxy s) (stream s) (m_queue s ++ [args]) (m_log s))).

Definition minion_run_task (i : nat) : prog Minion unit := fun s =>
  match m_queue s !! i with
  | None => (Blocked, s)
  | Some args =>
      FW_TPTask_Run minion_commands run_minion_command (Empty_set_rect _) args
        (mk_Minion (proxy s) (stream s) (delete i (m_queue s)) (m_log s))
  end.

(** A datagram arrives. *)
Definition minion_deliver (addr : Z) (datagram : cells) (s : Minion) : Minion :=
  mk_Minion (mk_MasterProxy (UDPSocket.deliver addr datagram <$> m_socket (proxy s)))
    (stream s) (m_queue s) (m_log s).

(** A request arrives, is read, and its task is run. *)
Definition serve (x : Z * AMessage) : prog Minion unit :=
  modify (minion_deliver x.1 (packet_of x.2)) ;; minion_input ;; minion_run_task 0.

(** ** A request is served *)

(** The minion waits for requests, with a disk of contents [d]. *)
Definition ready (d : cells) (s : Minion) : Prop :=
  holds d (stream s) /\ m_queue s = []
  /\ exists socket, proxy s = mk_MasterProxy (Some socket)
     /\ UDPSocket.incoming socket = [] /\ UDPSocket.reliable socket.

Definition sent_by (s : Minion) : list (Z * cells) :=
  match m_socket (proxy s) with Some socket => UDPSocket.sent socket | None => [] end.

(** A request as a disk operation, and the response that it is owed. *)
Definition request_op (m : AMessage) : disk_op :=
  match m with
  | WriteSend _ => DiskWrite (GetOffset m)
      (data_cells (GetData m) (GetLength m))
  | _ => DiskRead (GetOffset m) (GetLength m)
  end.

Definition response (m : AMessage) (d : cells) : AMessage :=
  let '(ok, data) := (array_op (request_op m) d).1 in
  match m with
  | WriteSend _ => WriteReceive (MessageWriteReceive.make (GetUID m) ok)
  | _ => ReadReceive (MessageReadReceive.make (GetUID m) ok (GetLength m) (Some data))
  end.

(** A request that a packet can carry and the disk can serve. *)
Definition servable_by (size : nat) (m : AMessage) : Prop :=
  is_request m /\ message_wf m /\ Z.of_nat (length (packet_of m)) <= BUFSIZ - 1
  /\ 0 <= GetLength m /\ op_within (request_op m) size.

Lemma minion_command_of a :
  Create (fdmode_value (GetKey a)) minion_commands
  = Ok (match GetKey a with FD_READ => MinionReadCommand | FD_WRITE => MinionWriteCommand end).
Proof. by destruct a. Qed.

(** Sending a response over a reliable socket. *)
Lemma send_response m (socket : UDPSocket.t) :
  message_wf m -> Z.of_nat (length (header m ++ message_payload m)) < 2 ^ 32 ->
  UDPSocket.reliable socket ->
  make_packet m = Ok (packet_of m) /\
  exists socket', UDPSocket.SendTo (packet_of m) socket = (Ok tt, socket')
    /\ UDPSocket.reliable socket' /\ UDPSocket.incoming socket' = UDPSocket.incoming socket
    /\ UDPSocket.m_serveraddr socket' = UDPSocket.m_serveraddr socket
    /\ UDPSocket.sent socket' = UDPSocket.sent socket ++ [(UDPSocket.m_serveraddr socket, packet_of m)].
Proof.
  intros Hwf Hlen Hr. split; [by apply make_packet_ok|].
  rewrite UDPSocket.SendTo_reliable by done. eexists. split; [done|]. split; [|done].
  by apply UDPSocket.reliable_tail.
Qed.

Lemma data_cells_seen b len :
  0 <= len -> is_Some b ->
  data_cells (Some (data_cells b (len + 1))) len = data_cells b len.
Proof.
  intros Hl [l ->]. simpl. apply read_cells_twice. lia.
Qed.

(** What a minion sends when the operation of a request ended with [ok] and, for a
    read, [data] in the buffer. *)
Definition minion_answer (m : AMessage) (ok : bool) (data : cells) : AMessage :=
  match m with
  | WriteSend _ => WriteReceive (MessageWriteReceive.make (GetUID m) ok)
  | _ => ReadReceive (MessageReadReceive.make (GetUID m) ok (GetLength m) (Some data))
  end.

Lemma response_answer m d :
  response m d = minion_answer m (array_op (request_op m) d).1.1 (array_op (request_op m) d).1.2.
Proof. unfold response. destruct (array_op (request_op m) d) as [[ok data] d']. by destruct m. Qed.

(** A write depends on its data only. *)
Lemma WriteToFile_data off len b s :
  data_wf b len -> 0 <= len < 2 ^ 63 ->
  WriteToFile off len b s
  = WriteToFile off (Z.of_nat (length (data_cells b len))) (Some (data_cells b len)) s.
Proof.
  intros Hb Hl. assert (Hlen := length_data_cells b len ltac:(lia) Hb). rewrite Hlen.
  assert (Hw : forall s0, write b len s0 = write (Some (data_cells b len)) len s0); [|unfold WriteToFile; run_prog].
  { intros s0. unfold write. rewrite copy_from_ok by done. rewrite copy_from_ok by (left; by eexists).
    unfold data_cells at 2. rewrite read_cells_exact by lia. done. }
  destruct (seekp off s) as [[[]|e| |] s0]; try done. by rewrite Hw.
Qed.

(** A task is run, wherever it is in the queue and however its operation ends. *)
Lemma run_request i q m size socket fs log ok data fs' :
  q !! i = Some (request_task (message_seen m)) ->
  servable_by size m -> Z.of_nat size < 2 ^ 32 - 64 -> UDPSocket.reliable socket ->
  file_op (request_op m) fs = (Ok (ok, data), fs') ->
  exists socket',
    minion_run_task i (mk_Minion (mk_MasterProxy (Some socket)) fs q log)
    = (Ok tt, mk_Minion (mk_MasterProxy (Some socket')) fs' (delete i q) log)
    /\ UDPSocket.reliable socket'
    /\ UDPSocket.incoming socket' = UDPSocket.incoming socket
    /\ UDPSocket.m_serveraddr socket' = UDPSocket.m_serveraddr socket
    /\ UDPSocket.sent socket'
       = UDPSocket.sent socket ++ [(UDPSocket.m_serveraddr socket, packet_of (minion_answer m ok data))].
Proof.
  intros Hq (Hreq & Hwf & Hlen & Hl & Hin) Hsize Hr E.
  assert (Hanswer : message_wf (minion_answer m ok data)
    /\ Z.of_nat (length (header (minion_answer m ok data) ++ message_payload (minion_answer m ok data))) < 2 ^ 32).
  { destruct m as [[uid off len]|[uid off len b]| |]; try done; simpl in Hin, Hl, Hwf |- *; unfold header; simpl;
      rewrite !length_app, !length_store, ?length_read_cells.
    - split; [|lia]. split; [lia|]. split; [by destruct ok|]. split; [lia|]. left. by eexists.
    - split; [|lia]. split; [lia|]. by destruct ok. }
  destruct Hanswer as [Hawf Halen].
  destruct (send_response (minion_answer m ok data) socket Hawf Halen Hr) as (Ep & socket' & Es & Hsent).
  exists socket'. split; [|done]. unfold minion_run_task, FW_TPTask_Run. cbn [m_queue]. rewrite Hq. run_prog.
  rewrite minion_command_of.
  destruct m as [[uid off len]|[uid off len b]| |]; try done; simpl in Hin, Hl, Hwf;
    cbn [request_task message_seen GetKey run_minion_command].
  - unfold MinionReadCommand_Run, new_chars, on_file, on_proxy, SendReadResponse, on_socket. run_prog.
    rewrite logging_exceptions_eq. cbn [m_length m_offset GetLength GetOffset GetUID wire_seen ReadSend_wire
      MessageReadSend.m_length MessageReadSend.m_offset MessageReadSend.m_uid].
    rewrite (proj2 (Z.leb_gt _ _)) by lia. cbn [stream fst snd]. simpl in E. rewrite E. cbn [fst snd].
    cbn [minion_answer GetUID GetLength MessageReadSend.m_uid MessageReadSend.m_length] in Ep, Es.
    rewrite Ep. cbn [fst snd proxy m_socket stream m_queue m_log]. rewrite Es. reflexivity.
  - destruct Hwf as (Hu & Ho & Hlb & Hb).
    pose proof (length_data_cells b len ltac:(lia) ltac:(by left)) as Hdata.
    assert (Hw : WriteToFile off len (Some (data_cells b (len + 1))) fs = (Ok ok, fs')).
    { rewrite WriteToFile_data by first [lia|left; by eexists]. rewrite data_cells_seen by (done || lia).
      revert E. simpl. run_prog. destruct (WriteToFile _ _ _ _) as [[ok0|e| |] s0]; try done. by intros [= -> _ ->]. }
    unfold MinionWriteCommand_Run, on_file, on_proxy, SendWriteResponse, on_socket. run_prog.
    rewrite logging_exceptions_eq. cbn [m_length m_offset m_buffer GetLength GetOffset GetUID GetData
      wire_seen WriteSend_wire MessageWriteSend.m_length MessageWriteSend.m_offset MessageWriteSend.m_uid
      MessageWriteSend.m_buffer stream fst snd].
    rewrite Hw. cbn [fst snd]. cbn [minion_answer GetUID MessageWriteSend.m_uid] in Ep, Es.
    rewrite Ep. cbn [fst snd proxy m_socket stream m_queue m_log]. rewrite Es. reflexivity.
Qed.

(** Nothing waits in the queue or at the socket. *)
Definition idle (s : Minion) : Prop :=
  m_queue s = []
  /\ exists socket, proxy s = mk_MasterProxy (Some socket)
     /\ UDPSocket.incoming socket = [] /\ UDPSocket.reliable socket.

Lemma serve_op x size s ok data fs' :
  idle s -> servable_by size x.2 -> Z.of_nat size < 2 ^ 32 - 64 ->
  file_op (request_op x.2) (stream s) = (Ok (ok, data), fs') ->
  exists s', serve x s = (Ok tt, s') /\ stream s' = fs' /\ idle s'
    /\ sent_by s' = sent_by s ++ [(x.1, packet_of (minion_answer x.2 ok data))].
Proof.
  destruct x as [addr m], s as [p fs q log]. cbn [fst snd].
  intros (Hq & socket & Hp & Hin & Hr) Hm Hsize E. cbn [proxy stream m_queue] in *. subst p q.
  pose proof Hm as (Hreq & Hwf & Hlen & _).
  pose proof (GetTaskArgs_packet m addr [] (UDPSocket.deliver addr (packet_of m) socket) log
    Hreq Hwf Hlen) as E1.
  specialize (E1 ltac:(unfold UDPSocket.deliver; simpl; by rewrite Hin)).
  set (socket1 := UDPSocket.received addr [] (UDPSocket.deliver addr (packet_of m) socket)) in *.
  destruct (run_request 0 [request_task (message_seen m)] m size socket1 fs (got_request (message_seen m) log) ok data fs'
    eq_refl Hm Hsize Hr E)
    as (socket2 & E2 & Hr2 & Hin2 & _ & Hsent2).
  eexists. split; [|split; [|split]].
  - unfold serve, minion_input, on_input, minion_deliver, on_proxy. run_prog.
    cbn [fst snd proxy m_socket stream m_queue m_log fmap option_fmap option_map].
    rewrite E1. cbn [fst snd proxy m_socket stream m_queue m_log app]. exact E2.
  - done.
  - split; [done|]. exists socket2. split; [done|]. by rewrite Hin2.
  - exact Hsent2.
Qed.

Lemma serve_request x d s :
  ready d s -> servable_by (length d) x.2 -> Z.of_nat (length d) < 2 ^ 32 - 64 ->
  exists s', serve x s = (Ok tt, s') /\ ready (array_op (request_op x.2) d).2 s'
    /\ sent_by s' = sent_by s ++ [(x.1, packet_of (response x.2 d))].
Proof.
  intros [Hd Hs] Hm Hsize. pose proof Hm as (_ & _ & _ & _ & Hin).
  destruct (file_op_refines (request_op x.2) d (stream s) Hd Hin ltac:(lia)) as (fs' & E & Hd' & _).
  rewrite response_answer. destruct (array_op (request_op x.2) d) as [[ok data] d'].
  destruct (serve_op x (length d) s ok data fs' Hs Hm Hsize E) as (s' & E' & <- & Hs' & Hsent).
  by exists s'.
Qed.

(** Serving requests is operating on the file. *)
Definition ops (l : list (Z * AMessage)) : list disk_op := (fun x => request_op x.2) <$> l.
Definition minion_answers (l : list (Z * AMessage)) (rs : list (bool * cells)) : list (Z * cells) :=
  zip_with (fun x r => (x.1, packet_of (minion_answer x.2 r.1 r.2))) l rs.

Lemma serve_ops l size s rs fs' :
  idle s -> Forall (fun x => servable_by size x.2) l -> Z.of_nat size < 2 ^ 32 - 64 ->
  file_ops (ops l) (stream s) = (Ok rs, fs') ->
  exists s', for_each serve l s = (Ok tt, s') /\ stream s' = fs' /\ sent_by s' = sent_by s ++ minion_answers l rs.
Proof.
  intros Hs Hl Hsize. revert s rs Hs. induction l as [|x l IH]; intros s rs Hs E.
  { injection E as <- <-. exists s. by rewrite app_nil_r. }
  apply Forall_cons in Hl as [Hx Hl]. cbn [ops fmap list_fmap file_ops] in E.
  apply bind_ok_inv in E as ([ok data] & fs1 & E1 & E). apply bind_ok_inv in E as (rs1 & fs2 & E2 & E).
  injection E as <- <-. destruct (serve_op x size s ok data fs1 Hs Hx Hsize E1) as (s1 & Es1 & <- & Hs1 & Hsent1).
  destruct (IH Hl s1 rs1 Hs1 E2) as (s2 & Es2 & Hfs & Hsent2).
  exists s2. cbn [for_each]. rewrite (bind_ok _ _ _ _ _ Es1). split; [done|]. split; [done|].
  rewrite Hsent2, Hsent1, <-app_assoc. done.
Qed.

(** The responses to a sequence of requests, by the array. *)
Fixpoint responses (l : list (Z * AMessage)) (d : cells) : list (Z * cells) * cells :=
  match l with
  | [] => ([], d)
  | x :: l =>
      let '(sent, d') := responses l (array_op (request_op x.2) d).2 in
      ((x.1, packet_of (response x.2 d)) :: sent, d')
  end.

Lemma responses_answers l d : (responses l d).1 = minion_answers l (array_ops (ops l) d).1.
Proof.
  revert d. induction l as [|x l IH]; intros d; [done|]. cbn [responses ops fmap list_fmap array_ops].
  specialize (IH (array_op (request_op x.2) d).2). rewrite response_answer.
  destruct (array_op (request_op x.2) d) as [r d1]. cbn [fst snd] in *. unfold ops in IH.
  destruct (responses l d1) as [sent d2], (array_ops _ d1) as [rs d3]. cbn [fst] in *. by rewrite IH.
Qed.

Lemma length_array_op m d :
  op_within (request_op m) (length d) -> length (array_op (request_op m) d).2 = length d.
Proof.
  destruct (request_op m) as [off len|off data]; simpl; [done|]. intros [? ?].
  rewrite !length_app, length_take, length_drop. lia.
Qed.

Lemma serve_all l d s :
  ready d s -> Forall (fun x => servable_by (length d) x.2) l -> Z.of_nat (length d) < 2 ^ 32 - 64 ->
  exists s', for_each serve l s = (Ok tt, s') /\ ready (responses l d).2 s'
    /\ sent_by s' = sent_by s ++ (responses l d).1.
Proof.
  revert d s. induction l as [|x l IH]; intros d s Hs Hl Hsize.
  { exists s. cbn [responses fst snd]. by rewrite app_nil_r. }
  apply Forall_cons in Hl as [Hx Hl].
  destruct (serve_request x d s Hs Hx Hsize) as (s1 & E1 & Hs1 & Hsent1).
  pose proof (length_array_op x.2 d ltac:(apply Hx)) as Hlen.
  destruct (IH _ s1 Hs1) as (s2 & E2 & Hs2 & Hsent2); [by rewrite Hlen|by rewrite Hlen|].
  exists s2. cbn [for_each responses]. rewrite (bind_ok _ _ _ _ _ E1).
  destruct (responses l _) as [sent d']. cbn [fst snd] in *. split; [done|]. split; [done|].
  by rewrite Hsent2, Hsent1, <-app_assoc.
Qed.

(** A minion after its start. *)
Lemma boot_ready socket found chunkSize :
  0 < chunkSize < 2 ^ 63 -> UDPSocket.incoming socket = [] -> UDPSocket.reliable socket ->
  exists s, minion_boot socket found chunkSize = Ok s
    /\ ready (replicate (Z.to_nat chunkSize) (Some Byte.x00)) s /\ sent_by s = UDPSocket.sent socket.
Proof.
  intros Hc Hin Hr. destruct (Init_holds found chunkSize Hc) as (fs & E & Hfs).
  unfold minion_boot. rewrite E. eexists. split; [reflexivity|]. split; [|done].
  split; [done|]. split; [done|]. by exists socket.
Qed.

(** ** Properties *)

(** A minion serves its master: from its start, for any sequence of requests
    (packets of the master's messages, from any addresses, within the chunk), it
    answers every request in order, to the address it came from, with success,
    and a read with the bytes last written to its range. *)
Theorem minion_serves (socket : UDPSocket.t) (found : cells) (chunkSize : Z)
    (l : list (Z * AMessage)) (Hchunk : 0 < chunkSize < 2 ^ 32 - 64)
    (Hin : UDPSocket.incoming socket = []) (Hr : UDPSocket.reliable socket)
    (Hl : Forall (fun x => servable_by (Z.to_nat chunkSize) x.2) l) :
  exists s s', minion_boot socket found chunkSize = Ok s /\ for_each serve l s = (Ok tt, s')
    /\ sent_by s' = UDPSocket.sent socket
         ++ (responses l (replicate (Z.to_nat chunkSize) (Some Byte.x00))).1.
Proof.
  destruct (boot_ready socket found chunkSize ltac:(lia) Hin Hr) as (s & E & Hs & Hsent).
  destruct (serve_all l _ s Hs) as (s' & E' & _ & Hsent'); [by rewrite length_replicate
    |rewrite length_replicate; lia|].
  exists s, s'. split; [done|]. split; [done|]. by rewrite Hsent', Hsent.
Qed.

Definition write_two : AMessage :=
  WriteSend (MessageWriteSend.mk 7 3 2 (Some [Some Byte.x61; Some Byte.x62])).
Definition read_two : AMessage := ReadSend (MessageReadSend.mk 8 3 2).

Lemma servable_two : Forall (fun x => servable_by 8 x.2) [(9, write_two); (10, read_two)].
Proof.
  repeat constructor; simpl; try lia; try (vm_compute; discriminate); by eexists.
Qed.

Lemma minion_serves_witness :
  let socket := UDPSocket.mk 3 0 [] [] [] in
  exists s s', minion_boot socket [] 8 = Ok s
    /\ for_each serve [(9, write_two); (10, read_two)] s = (Ok tt, s')
    /\ sent_by s' = UDPSocket.sent socket
         ++ (responses [(9, write_two); (10, read_two)] (replicate 8 (Some Byte.x00))).1.
Proof.
  intros socket. apply (minion_serves socket [] 8); [lia|done|constructor|exact servable_two].
Defined.

(** C23: a minion whose disk fails is never wrong: for every sequence of requests
    within its chunk and whatever the disk does, there is a point up to which the
    minion answers as [minion_serves] says and from which on it answers every
    request, a read as well as a write, with a failure. *)
Theorem minion_fail_stop (d : cells) (s : Minion) (l : list (Z * AMessage))
    (Hd : shows d (stream s)) (Hs : idle s) (Hsize : Z.of_nat (length d) < 2 ^ 32 - 64)
    (Hl : Forall (fun x => servable_by (length d) x.2) l) :
  exists l1 l2 failures s', l = l1 ++ l2 /\ for_each serve l s = (Ok tt, s')
    /\ sent_by s' = sent_by s ++ (responses l1 d).1 ++ failures
    /\ Forall2 (fun x y => exists data, y = (x.1, packet_of (minion_answer x.2 false data))) l2 failures.
Proof.
  destruct (fail_stop_file (ops l) d (stream s) Hd) as (k1 & k2 & rs & fs' & Hops & E & Hstop); [|lia|].
  { apply Forall_fmap. eapply Forall_impl; [exact Hl|]. intros x (_ & _ & _ & Hlen & Hin). cbn [compose].
    destruct (request_op x.2) as [off len|]; [|done]. simpl in Hin |- *. lia. }
  apply fmap_app_inv in Hops as (l1 & l2 & -> & -> & ->).
  destruct (serve_ops (l1 ++ l2) (length d) s rs fs' Hs Hl Hsize E) as (s' & Es & _ & Hsent).
  unfold answers_then_fails in Hstop. pose proof (responses_answers l1 d) as Hr. unfold ops in Hr.
  pose proof (length_array_ops ((fun x => request_op x.2) <$> l1) d) as Hlen.
  destruct (array_ops _ d) as [good d1]. cbn [fst] in *.
  destruct Hstop as (_ & (bad & -> & Hbad & Hall) & _).
  exists l1, l2, (minion_answers l2 bad), s'. split; [done|]. split; [done|].
  rewrite length_fmap in Hlen, Hbad. split.
  - rewrite Hsent, Hr. unfold minion_answers. by rewrite zip_with_app.
  - clear -Hbad Hall. revert bad Hbad Hall. induction l2 as [|x l2 IH]; intros [|[ok data] bad] Hbad Hall; try done.
    apply Forall_cons in Hall as [Hok Hall]. simpl in Hok, Hbad. subst ok.
    constructor; [by exists data|apply IH; [lia|done]].
Qed.

(** The disk fails when the second request is served. *)
Lemma minion_fail_stop_witness :
  let d := replicate 8 (Some Byte.x00) in
  let s := mk_Minion (mk_MasterProxy (Some (UDPSocket.mk 3 0 [] [] [])))
    (mk_fstream true d 0 [] false false [(9, []); (1, [])]%nat) [] [] in
  let l := [(9, write_two); (10, read_two); (10, read_two)] in
  exists l1 l2 failures s', l = l1 ++ l2 /\ for_each serve l s = (Ok tt, s')
    /\ sent_by s' = sent_by s ++ (responses l1 d).1 ++ failures
    /\ Forall2 (fun x y => exists data, y = (x.1, packet_of (minion_answer x.2 false data))) l2 failures.
Proof.
  intros d s l. apply (minion_fail_stop d s l); [by repeat split| |simpl; lia|].
  - split; [done|]. eexists. split; [done|]. split; [done|constructor].
  - pose proof servable_two as H. apply Forall_cons in H as [H1 [H2 _]%Forall_cons].
    repeat (apply Forall_cons; split); [exact H1|exact H2|exact H2|constructor].
Defined.
