(* ===== verification/Mirror.v ===== *)
(** * Mirror

    Master and minion together: what the minions hold after the messages that
    [MinionManager] sends them. *)

From S2P Require Import Prelude Bytes StripeSplitter Message TaskArgs Factory Sockets Logger.
From S2P Require Import Commands Framework FileManager MasterProxy MinionManager Service Minion.

(** The size of the packets of a request for [len] bytes. *)
Lemma write_packet_length uid buffer seg :
  0 <= seg_length seg ->
  Z.of_nat (length (packet_of (write_message uid buffer seg))) = 33 + seg_length seg.
Proof.
  intros Hl. unfold packet_of, header. simpl. rewrite !length_app, !length_store, length_read_cells. lia.
Qed.

Lemma read_packet_length uid seg : Z.of_nat (length (packet_of (read_message uid seg))) = 32.
Proof. unfold packet_of, header. simpl. by rewrite !length_app, !length_store. Qed.

Lemma write_message_op uid buffer seg :
  0 <= seg_length seg ->
  request_op (write_message uid buffer seg)
  = DiskWrite (localOffset seg)
      (read_cells (Z.to_nat (seg_length seg)) (drop (Z.to_nat (bufferOffset seg)) buffer)).
Proof. intros Hl. simpl. by rewrite read_cells_twice. Qed.

(** The messages that the manager sends for a segment are ones that the minion
    serves, on a disk of one chunk. *)
Lemma write_message_servable len chunk n uid buffer seg :
  segment_ok len chunk n seg -> in_u64 uid -> 0 < chunk < 2 ^ 32 -> seg_length seg <= BUFSIZ - 1 - 33 ->
  servable_by (Z.to_nat chunk) (write_message uid buffer seg).
Proof.
  intros (Hlo & Hsl & Hin & _) Hu Hc Hmax. split; [done|]. split; [|split; [|split]].
  - simpl. split; [lia|]. split; [lia|]. split; [lia|by eexists].
  - rewrite write_packet_length by lia. lia.
  - simpl. lia.
  - rewrite write_message_op by lia. cbn [op_within]. rewrite length_read_cells. lia.
Qed.

Lemma read_message_servable len chunk n uid seg :
  segment_ok len chunk n seg -> in_u64 uid -> 0 < chunk < 2 ^ 32 ->
  servable_by (Z.to_nat chunk) (read_message uid seg).
Proof.
  intros (Hlo & Hsl & Hin & _) Hu Hc. split; [done|]. split; [|split; [|split]].
  - simpl. lia.
  - rewrite read_packet_length. by vm_compute.
  - simpl. lia.
  - simpl. lia.
Qed.

(** What is read back after writes to an array. *)
Lemma read_after_write off (data d : cells) :
  (off + length data <= length d)%nat ->
  take (length data) (drop off (take off d ++ data ++ drop (off + length data) d)) = data.
Proof.
  intros Hle. rewrite drop_app_length' by (rewrite length_take; lia). apply take_app_length.
Qed.

(** Two writes of a minion to the same range, and a read of it: the second
    write is read. *)
Lemma second_write_wins uidA uidB uidR A B segA segB addr d :
  localOffset segA = localOffset segB -> seg_length segA = seg_length segB ->
  0 <= localOffset segB -> 0 <= seg_length segB ->
  localOffset segB + seg_length segB <= Z.of_nat (length d) ->
  (responses [(addr, write_message uidA A segA); (addr, write_message uidB B segB);
              (addr, read_message uidR segA)] d).1
  = [(addr, packet_of (WriteReceive (MessageWriteReceive.make uidA true)));
     (addr, packet_of (WriteReceive (MessageWriteReceive.make uidB true)));
     (addr, packet_of (ReadReceive (MessageReadReceive.make uidR true (seg_length segB)
        (Some (read_cells (Z.to_nat (seg_length segB)) (drop (Z.to_nat (bufferOffset segB)) B))))))].
Proof.
  intros Ho Hl Hlo Hlen Hin.
  set (dataB := read_cells (Z.to_nat (seg_length segB)) (drop (Z.to_nat (bufferOffset segB)) B)).
  set (d1 := (array_op (request_op (write_message uidA A segA)) d).2).
  assert (Hd1 : length d1 = length d).
  { unfold d1. apply length_array_op. rewrite write_message_op by lia.
    cbn [op_within]. rewrite length_read_cells. lia. }
  assert (Hread : (array_op (request_op (read_message uidR segA))
      (array_op (request_op (write_message uidB B segB)) d1).2).1 = (true, dataB)).
  { rewrite write_message_op by lia. cbn [array_op snd]. fold dataB.
    assert (HlenB : length dataB = Z.to_nat (seg_length segB)) by apply length_read_cells.
    simpl. rewrite Ho, Hl. f_equal. rewrite <-HlenB. apply read_after_write. lia. }
  assert (Hw : forall uid buffer seg d', 0 <= seg_length seg ->
    response (write_message uid buffer seg) d' = WriteReceive (MessageWriteReceive.make uid true)).
  { intros uid buffer seg d' Hs. unfold response. by rewrite write_message_op by done. }
  cbn [responses fst snd]. rewrite !Hw by lia. fold d1. unfold response at 1. rewrite Hread.
  simpl. by rewrite Hl.
Qed.

(** ** Property *)

(** C22: the mirror overwrites the data: the backup of a chunk is kept by the next
    minion at the same offsets as that minion's own chunk. After a write of [A]
    to the range one chunk further on and a write of [B] to a range, both inside
    their chunks, a read of the first range from its primary minion succeeds and
    returns [B]. *)
Theorem mirror_overwrites (chunk n offset len : Z) (A B : cells) (uidA uidB uidR addr : Z)
    (d : cells) (s : Minion)
    (Hchunk : 0 < chunk < 2 ^ 32 - 64) (Hn : 0 < n) (Hdrive : n * chunk < 2 ^ 64)
    (Ho : 0 <= offset) (Hlen : 0 < len <= BUFSIZ - 1 - 33)
    (Hin : offset `mod` chunk + len <= chunk) (Hnext : offset + chunk + len <= n * chunk)
    (Hu : in_u64 uidA /\ in_u64 uidB /\ in_u64 uidR)
    (HB : Z.of_nat (length B) = len)
    (Hd : Z.of_nat (length d) = chunk) (Hs : ready d s) :
  exists seg seg' s',
    Split offset len chunk n = Ok [seg] /\ Split (offset + chunk) len chunk n = Ok [seg']
    /\ backupMinionIndex seg = primaryMinionIndex seg'
    /\ for_each serve [(addr, write_message uidA A seg'); (addr, write_message uidB B seg);
                       (addr, read_message uidR seg')] s = (Ok tt, s')
    /\ last (sent_by s')
       = Some (addr, packet_of (ReadReceive (MessageReadReceive.make uidR true len (Some B)))).
Proof.
  set (seg := first_segment chunk n len offset 0).
  set (seg' := first_segment chunk n len (offset + chunk) 0).
  assert (Hmod : (offset + chunk) `mod` chunk = offset `mod` chunk)
    by (rewrite <-(Z.mul_1_l chunk) at 1; apply Z.mod_add; lia).
  assert (Hdiv : (offset + chunk) `div` chunk = offset `div` chunk + 1)
    by (rewrite <-(Z.mul_1_l chunk) at 1; apply Z.div_add; lia).
  assert (E : Split offset len chunk n = Ok [seg])
    by (apply Split_one; [lia|split; [lia|nia]|unfold BUFSIZ in Hlen; lia|done]).
  assert (E' : Split (offset + chunk) len chunk n = Ok [seg'])
    by (apply Split_one; [lia|split; [lia|nia]|unfold BUFSIZ in Hlen; lia|by rewrite Hmod]).
  assert (Hseg : seg_length seg = len /\ localOffset seg = offset `mod` chunk /\ bufferOffset seg = 0)
    by (unfold seg, first_segment, first_len; simpl; lia).
  assert (Hseg' : seg_length seg' = len /\ localOffset seg' = offset `mod` chunk)
    by (unfold seg', first_segment, first_len; simpl; lia).
  assert (Hok : Forall (segment_ok len chunk n) [seg]) by (eapply Split_ok; [..|exact E]; nia).
  assert (Hok' : Forall (segment_ok len chunk n) [seg']) by (eapply Split_ok; [..|exact E']; nia).
  apply Forall_cons in Hok as [Hok _], Hok' as [Hok' _].
  destruct (serve_all [(addr, write_message uidA A seg'); (addr, write_message uidB B seg);
    (addr, read_message uidR seg')] d s Hs) as (s' & Es & _ & Hsent).
  { replace (length d) with (Z.to_nat chunk) by lia.
    apply Forall_cons; split; [apply (write_message_servable len chunk n uidA A seg' Hok'); lia|].
    apply Forall_cons; split; [apply (write_message_servable len chunk n uidB B seg Hok); lia|].
    apply Forall_cons; split; [apply (read_message_servable len chunk n uidR seg' Hok'); lia|done]. }
  { lia. }
  exists seg, seg', s'. split; [done|]. split; [done|]. split; [|split; [done|]].
  - destruct Hok' as (_ & _ & _ & _ & _ & Hp & _). unfold seg', first_segment in Hp |- *.
    simpl in Hp |- *. rewrite Hdiv in Hp |- *. unfold seg, first_segment. simpl.
    pose proof (Z.div_pos offset chunk ltac:(lia) ltac:(lia)).
    rewrite u64_small by nia. apply Z.mod_small. lia.
  - destruct Hseg as (Hl & Hlo & Hb), Hseg' as (Hl' & Hlo').
    pose proof (Z.mod_pos_bound offset chunk ltac:(lia)).
    rewrite Hsent, (second_write_wins uidA uidB uidR A B seg' seg addr d) by lia.
    rewrite last_app. cbn [last]. rewrite Hl, Hb, drop_0, read_cells_exact by lia. done.
Qed.

(** Three minions with chunks of eight bytes; ranges [2, 4) and [10, 12). *)
Lemma mirror_overwrites_witness :
  let socket := UDPSocket.mk 3 0 [] [] [] in
  let s := mk_Minion (mk_MasterProxy (Some socket))
             (mk_fstream true (replicate 8 (Some Byte.x00)) 0 [] false false []) [] [] in
  let A := [Some Byte.x61; Some Byte.x62] in
  let B := [Some Byte.x63; Some Byte.x64] in
  exists seg seg' s',
    Split 2 2 8 3 = Ok [seg] /\ Split (2 + 8) 2 8 3 = Ok [seg']
    /\ backupMinionIndex seg = primaryMinionIndex seg'
    /\ for_each serve [(9, write_message 1 A seg'); (9, write_message 2 B seg);
                       (9, read_message 3 seg')] s = (Ok tt, s')
    /\ last (sent_by s')
       = Some (9, packet_of (ReadReceive (MessageReadReceive.make 3 true 2 (Some B)))).
Proof.
  intros socket s A B.
  apply (mirror_overwrites 8 3 2 2 A B 1 2 3 9 (replicate 8 (Some Byte.x00)) s);
    try lia; try (vm_compute; done).
  split; [done|]. split; [done|]. exists socket. split; [done|]. split; [done|constructor].
Defined.
