(* ===== verification/Scheduler.v ===== *)
(** * Scheduler

    [framework/src/scheduler.cpp]: tasks that run at a given time.  One POSIX
    timer is set for the earliest task; each expiry starts a thread that runs
    [RunTask].  Times are nanoseconds of the system clock. *)

From S2P Require Import Prelude.

(** [Scheduler::Task]; [a < b] holds when [a] is due later, so that the top of the
    [std::priority_queue] is a task that is due first. *)
Record Task (T : Type) : Type := mk_Task {
  m_task : T;
  m_time_to_run : Z;
}.
Arguments mk_Task {T}.
Arguments m_task {T} t.
Arguments m_time_to_run {T} t.

Definition Task_lt {T} (a b : Task T) : bool := m_time_to_run b <? m_time_to_run a.

(** Position [i] of the queue can be its top. *)
Definition is_top {T} (q : list (Task T)) (x : Task T) : bool :=
  forallb (fun y => negb (Task_lt x y)) q.

(** The due time of the top, which does not depend on the choice among equals. *)
Fixpoint top_time {T} (q : list (Task T)) : option Z :=
  match q with
  | [] => None
  | x :: q => Some (match top_time q with
                    | Some t => Z.min (m_time_to_run x) t
                    | None => m_time_to_run x
                    end)
  end.

(** [m_its.it_value] and the timer: [timer] is the value of [timer_settime], if it
    is armed. *)
Record Scheduler (T : Type) : Type := mk_Scheduler {
  m_queue : list (Task T);
  m_counter : Z;
  timer : option (Z * Z);
}.
Arguments mk_Scheduler {T}.
Arguments m_queue {T} s.
Arguments m_counter {T} s.
Arguments timer {T} s.

(** [tv_sec] and [tv_nsec] of a time, and the time they stand for. *)
Definition it_value (t : Z) : Z * Z := (t `div` 10 ^ 9, t `mod` 10 ^ 9).
Definition value_time (v : Z * Z) : Z := v.1 * 10 ^ 9 + v.2.

Section Scheduler.
Context {T : Type}.
Implicit Types s : Scheduler T.

(** The constructor; [created] tells whether [timer_create] succeeds. *)
Definition new_Scheduler : Scheduler T := mk_Scheduler [] 0 None.

Definition make_Scheduler (created : bool) : res (Scheduler T) :=
  if created then Ok new_Scheduler else Throw (runtime_error "Failed to create timer").

(** [StartTimer] looks at the top of a queue that is not empty; a timer set to
    zero is disarmed. [set] tells whether [timer_settime] succeeds. *)
Definition StartTimer (set : bool) : prog (Scheduler T) unit := fun s =>
  match top_time (m_queue s) with
  | None => (Undefined, s)
  | Some t =>
      if set then
        (Ok tt, mk_Scheduler (m_queue s) (m_counter s)
                  (if t =? 0 then None else Some (it_value t)))
      else (Throw (runtime_error "failed to set timer"), s)
  end.

Definition AddTask (set : bool) (task : T) (now interval : Z) : prog (Scheduler T) unit :=
  modify (fun s => mk_Scheduler (m_queue s ++ [mk_Task task (now + interval)])
                     (u64 (m_counter s + 1)) (timer s)) ;;
  StartTimer set.

(** [RunTask] up to the run of the task; [i] is the position of the top. *)
Definition RunTask_begin (i : nat) : prog (Scheduler T) (option (Task T)) := fun s =>
  match m_queue s with
  | [] => (Ok None, s)
  | _ =>
      match m_queue s !! i with
      | Some x =>
          if is_top (m_queue s) x then
            (Ok (Some x), mk_Scheduler (delete i (m_queue s)) (m_counter s) (timer s))
          else (Blocked, s)
      | None => (Blocked, s)
      end
  end.

(** [RunTask] behind the run of the task, whether it threw or not. *)
Definition RunTask_end (set : bool) : prog (Scheduler T) unit :=
  modify (fun s => mk_Scheduler (m_queue s) (u64 (m_counter s - 1)) (timer s)) ;;
  s ← gets id;
  if m_counter s =? 0 then mret tt
  else if bool_decide (m_queue s = []) then mret tt
  else StartTimer set.

(** The destructor disarms and deletes the timer and empties the queue. It does not
    wait for the threads that the timer has started. *)
Definition delete_Scheduler : prog (Scheduler T) unit := modify (fun _ => mk_Scheduler [] 0 None).

(** ** The threads

    [expired] are the threads started by the timer that did not lock the mutex
    yet, [running] the tasks that run, [clock] is the system clock. *)
Record machine : Type := mk_machine {
  sched : Scheduler T;
  expired : nat;
  running : list (Task T);
  clock : Z;
}.

(** The tasks that were not finished. *)
Definition outstanding (m : machine) : Z :=
  Z.of_nat (length (m_queue (sched m)) + length (running m)).

(** Any thread adds a task (there is no memory for [2 ^ 64]); time passes; the timer
    expires; a thread of the timer takes a task, or finds none; a task ends.  The
    calls of [timer_settime] succeed; [fstep] is about those that fail. *)
Inductive tstep : machine -> machine -> Prop :=
  | tstep_add task interval m s' :
      0 <= interval -> outstanding m < 2 ^ 64 - 1 ->
      AddTask true task (clock m) interval (sched m) = (Ok tt, s') ->
      tstep m (mk_machine s' (expired m) (running m) (clock m))
  | tstep_tick m now :
      clock m <= now -> tstep m (mk_machine (sched m) (expired m) (running m) now)
  | tstep_expire m v :
      timer (sched m) = Some v -> value_time v <= clock m ->
      tstep m (mk_machine (mk_Scheduler (m_queue (sched m)) (m_counter (sched m)) None)
                 (S (expired m)) (running m) (clock m))
  | tstep_begin i m n x s' :
      expired m = S n -> RunTask_begin i (sched m) = (Ok (Some x), s') ->
      tstep m (mk_machine s' n (x :: running m) (clock m))
  | tstep_none m n s' :
      expired m = S n -> RunTask_begin 0 (sched m) = (Ok None, s') ->
      tstep m (mk_machine s' n (running m) (clock m))
  | tstep_end l1 x l2 m s' :
      running m = l1 ++ x :: l2 -> RunTask_end true (sched m) = (Ok tt, s') ->
      tstep m (mk_machine s' (expired m) (l1 ++ l2) (clock m)).

Definition tsteps : machine -> machine -> Prop := rtc tstep.

(** A thread adds a task and [AddTask] throws.  In a thread of the timer nothing
    catches the exception, and the program ends. *)
Inductive fstep : machine -> machine -> Prop :=
  | fstep_ok m m' : tstep m m' -> fstep m m'
  | fstep_add_fails task interval m e s' :
      0 <= interval -> outstanding m < 2 ^ 64 - 1 ->
      AddTask false task (clock m) interval (sched m) = (Throw e, s') ->
      fstep m (mk_machine s' (expired m) (running m) (clock m)).

Definition fsteps : machine -> machine -> Prop := rtc fstep.

Definition start (now : Z) : machine := mk_machine new_Scheduler 0 [] now.

(** ** The invariant *)

Lemma top_time_spec (q : list (Task T)) t :
  top_time q = Some t ->
  (exists x, x ∈ q /\ m_time_to_run x = t) /\ Forall (fun y => t <= m_time_to_run y) q.
Proof.
  revert t. induction q as [|x q IH]; intros t; [done|]. cbn [top_time]. intros [= <-].
  destruct (top_time q) as [t|] eqn:E.
  - destruct (IH t eq_refl) as [(y & Hy & Ht) Hall]. split.
    + destruct (Z.min_spec (m_time_to_run x) t) as [[_ ->]|[_ ->]];
        [exists x|exists y]; (split; [set_solver|done]).
    + constructor; [lia|]. eapply Forall_impl; [exact Hall|]. simpl. lia.
  - destruct q; [|done]. split; [exists x; split; [set_solver|done]|]. constructor; [lia|constructor].
Qed.

Lemma top_time_Some (q : list (Task T)) : q <> [] -> exists t, top_time q = Some t.
Proof. destruct q; [done|]. intros _. by eexists. Qed.

Lemma is_top_time (q : list (Task T)) x :
  x ∈ q -> is_top q x = true -> top_time q = Some (m_time_to_run x).
Proof.
  intros Hx Htop. destruct (top_time_Some q) as [t Ht]; [by intros ->; apply not_elem_of_nil in Hx|].
  rewrite Ht. f_equal. destruct (top_time_spec q t Ht) as [(y & Hy & <-) Hall].
  rewrite Forall_forall in Hall. specialize (Hall x Hx).
  unfold is_top in Htop. rewrite forallb_forall in Htop.
  specialize (Htop y ltac:(by apply list_elem_of_In)). unfold Task_lt in Htop.
  apply negb_true_iff, Z.ltb_ge in Htop. lia.
Qed.

Lemma value_it t : value_time (it_value t) = t.
Proof. unfold value_time, it_value. cbn [fst snd]. pose proof (Z.div_mod t (10 ^ 9)). lia. Qed.

(** The counter counts the tasks that were not finished; a queue that is not
    empty is looked after: by the timer, set for the earliest task, or by a
    thread that will take a task or set the timer.  The latter is lost when a call
    of [timer_settime] fails; [set] says that none did. *)
Record timed (set : Prop) (m : machine) : Prop := {
  td_counter : m_counter (sched m) = outstanding m /\ outstanding m < 2 ^ 64;
  td_clock : 0 < clock m /\ Forall (fun x => 0 < m_time_to_run x) (m_queue (sched m));
  td_timer : set -> m_queue (sched m) <> [] -> expired m = 0%nat -> running m = [] ->
    exists t, top_time (m_queue (sched m)) = Some t /\ timer (sched m) = Some (it_value t);
}.

Lemma StartTimer_ok s :
  m_queue s <> [] -> Forall (fun x => 0 < m_time_to_run x) (m_queue s) ->
  exists t, top_time (m_queue s) = Some t
    /\ StartTimer true s = (Ok tt, mk_Scheduler (m_queue s) (m_counter s) (Some (it_value t))).
Proof.
  intros Hne Hpos. destruct (top_time_Some _ Hne) as [t Ht]. exists t. split; [done|].
  unfold StartTimer. rewrite Ht. destruct (top_time_spec _ _ Ht) as [(x & Hx & <-) _].
  rewrite Forall_forall in Hpos. specialize (Hpos x Hx).
  by rewrite (proj2 (Z.eqb_neq _ _)) by lia.
Qed.

Lemma AddTask_ok task now interval s :
  0 < now + interval -> Forall (fun x => 0 < m_time_to_run x) (m_queue s) ->
  let queue := m_queue s ++ [mk_Task task (now + interval)] in
  exists t, top_time queue = Some t /\ Forall (fun x => 0 < m_time_to_run x) queue
    /\ AddTask true task now interval s
       = (Ok tt, mk_Scheduler queue (u64 (m_counter s + 1)) (Some (it_value t))).
Proof.
  intros Hpos Hq queue.
  assert (Hq' : Forall (fun x => 0 < m_time_to_run x) queue)
    by (apply Forall_app; split; [done|]; by constructor).
  destruct (StartTimer_ok (mk_Scheduler queue (u64 (m_counter s + 1)) (timer s))) as (t & Ht & E);
    [by unfold queue; destruct (m_queue s)|done|].
  exists t. split; [done|]. split; [done|]. unfold AddTask. run_prog. exact E.
Qed.

Lemma RunTask_begin_Some i s x s' :
  RunTask_begin i s = (Ok (Some x), s') ->
  m_queue s ≡ₚ x :: m_queue s' /\ is_top (m_queue s) x = true
  /\ m_counter s' = m_counter s /\ timer s' = timer s.
Proof.
  unfold RunTask_begin. destruct (m_queue s) as [|y q] eqn:Eq; [done|]. rewrite <-Eq.
  destruct (m_queue s !! i) as [z|] eqn:Ei; [|done].
  destruct (is_top (m_queue s) z) eqn:Et; [|done]. intros [= <- <-].
  split; [by apply delete_Permutation|done].
Qed.

Lemma tstep_timed set m m' : timed set m -> tstep m m' -> timed set m'.
Proof.
  intros [[Hc Hmax] [Hclock Hpos] Ht] Hstep.
  destruct Hstep as [task interval m s' Hi Hroom E|m now Hnow|m v Ev Hv|i m n x s' En E|m n s' En E
    |l1 x l2 m s' Er E].
  - destruct (AddTask_ok task (clock m) interval (sched m)) as (t & Htop & Hpos' & E'); [lia|done|].
    rewrite E' in E. injection E as <-.
    assert (Ho : outstanding (mk_machine (mk_Scheduler (m_queue (sched m) ++ [mk_Task task (clock m + interval)])
      (u64 (m_counter (sched m) + 1)) (Some (it_value t))) (expired m) (running m) (clock m))
      = outstanding m + 1)
      by (unfold outstanding; cbn [sched m_queue running]; rewrite length_app; simpl; lia).
    constructor; cbn [sched m_queue m_counter timer running clock expired]; [|done|by intros; exists t].
    rewrite Ho, u64_small by (unfold outstanding in *; lia). lia.
  - constructor; cbn [sched m_queue m_counter timer running clock expired]; [done| |done].
    split; [lia|done].
  - by constructor.
  - destruct (RunTask_begin_Some i (sched m) x s' E) as (Hq & _ & Hc' & _).
    constructor; cbn [sched running clock expired]; [| |done].
    + unfold outstanding in *. cbn [sched running]. rewrite Hq in Hmax, Hc. simpl in *. lia.
    + split; [done|]. rewrite Hq in Hpos. by apply Forall_cons in Hpos as [_ ?].
  - assert (Hq : m_queue (sched m) = [] /\ s' = sched m).
    { revert E. unfold RunTask_begin. destruct (m_queue (sched m)) as [|y q]; [by intros [= <-]|].
      cbn [lookup list_lookup]. by destruct (is_top (y :: q) y). }
    destruct Hq as [Hq ->]. constructor; [done|done|]. cbn [sched]. by intros _ Hne.
  - assert (Hlen : length (running m) = S (length (l1 ++ l2)))
      by (rewrite Er, !length_app; simpl; lia).
    unfold outstanding in Hc, Hmax. rewrite Hlen in Hc, Hmax.
    set (s1 := mk_Scheduler (m_queue (sched m)) (u64 (m_counter (sched m) - 1)) (timer (sched m))).
    assert (Hc1 : m_counter s1 = Z.of_nat (length (m_queue (sched m)) + length (l1 ++ l2)))
      by (unfold s1; cbn [m_counter]; rewrite Hc, u64_small by lia; lia).
    assert (Hcases : (s' = s1 /\ m_queue s1 = []) \/ (exists t, top_time (m_queue s1) = Some t
      /\ s' = mk_Scheduler (m_queue s1) (m_counter s1) (Some (it_value t)))).
    { revert E. unfold RunTask_end. run_prog. fold s1. unfold id.
      destruct (Z.eqb_spec (m_counter s1) 0) as [E0|E0].
      - intros [= <-]. left. split; [done|]. destruct (m_queue (sched m)) eqn:Eq; [done|].
        rewrite Hc1 in E0. simpl in E0. lia.
      - case_bool_decide as Hq; [by intros [= <-]; left|].
        destruct (StartTimer_ok s1 Hq Hpos) as (t & Htop & E'). rewrite E'.
        intros [= <-]. right. by exists t. }
    destruct Hcases as [[-> Hq]|(t & Htop & ->)];
      constructor; cbn [sched m_queue m_counter timer running clock expired]; try done.
    + unfold outstanding. cbn [sched running]. rewrite Hc1. unfold s1. cbn [m_queue]. lia.
    + unfold outstanding. cbn [sched running m_queue]. rewrite Hc1. unfold s1. cbn [m_queue]. lia.
    + intros _ _ _ _. by exists t.
Qed.

Lemma tsteps_timed set m m' : timed set m -> tsteps m m' -> timed set m'.
Proof. intros Hm Hs. induction Hs as [|m1 m2 m3 Hstep _ IH]; [done|]. by eapply IH, tstep_timed. Qed.

Lemma start_timed set now : 0 < now -> timed set (start now).
Proof. intros Hn. by repeat constructor. Qed.

(** An [AddTask] that throws has queued and counted the task. *)
Lemma AddTask_fails task now interval s :
  AddTask false task now interval s
  = (Throw (runtime_error "failed to set timer"),
     mk_Scheduler (m_queue s ++ [mk_Task task (now + interval)]) (u64 (m_counter s + 1)) (timer s)).
Proof.
  unfold AddTask, StartTimer. run_prog. cbn [m_queue].
  by destruct (top_time_Some (m_queue s ++ [mk_Task task (now + interval)])) as [t ->]; [destruct (m_queue s)|].
Qed.

Lemma fstep_timed m m' : timed False m -> fstep m m' -> timed False m'.
Proof.
  intros Hm Hstep. destruct Hstep as [m m' Hstep|task interval m e s' Hi Hroom E]; [by eapply tstep_timed|].
  destruct Hm as [[Hc Hmax] [Hclock Hpos] _]. rewrite AddTask_fails in E. injection E as _ <-.
  assert (Ho : forall c, outstanding (mk_machine (mk_Scheduler (m_queue (sched m) ++ [mk_Task task (clock m + interval)])
    c (timer (sched m))) (expired m) (running m) (clock m)) = outstanding m + 1)
    by (intros c; unfold outstanding; cbn [sched m_queue running]; rewrite length_app; simpl; lia).
  constructor; [|split; [done|]|done].
  - rewrite Ho. cbn [sched m_counter]. rewrite u64_small by (unfold outstanding in *; lia). lia.
  - cbn [sched m_queue]. apply Forall_app. split; [done|]. constructor; [cbn; lia|constructor].
Qed.

Lemma fsteps_timed m m' : timed False m -> fsteps m m' -> timed False m'.
Proof. intros Hm Hs. induction Hs as [|m1 m2 m3 Hstep _ IH]; [done|]. by eapply IH, fstep_timed. Qed.

(** Nothing is going to happen by itself. *)
Definition stuck (m : machine) : Prop := expired m = 0%nat /\ running m = [] /\ timer (sched m) = None.

(** A stuck machine stays stuck, with its tasks, until a thread adds a task and
    the timer is set; it is then set for the earliest of all tasks. *)
Lemma stuck_step x m m' :
  timed False m -> stuck m -> x ∈ m_queue (sched m) -> fstep m m' ->
  (stuck m' /\ x ∈ m_queue (sched m'))
  \/ exists task interval t, AddTask true task (clock m) interval (sched m) = (Ok tt, sched m')
       /\ timer (sched m') = Some (it_value t) /\ t <= m_time_to_run x.
Proof.
  intros [_ [Hclock Hpos] _] (He & Hr & Ht) Hx Hstep. destruct Hstep as [m m' Hstep|task interval m e s' Hi Hroom E].
  - destruct Hstep as [task interval m s' Hi Hroom E|m now Hnow|m v Ev Hv|i m n y s' En E|m n s' En E
      |l1 y l2 m s' Er E]; [right|by left|congruence..|by rewrite Hr in Er; destruct l1].
    destruct (AddTask_ok task (clock m) interval (sched m)) as (t & Htop & _ & E'); [lia|done|].
    exists task, interval, t. cbn [sched]. split; [done|]. rewrite E' in E. injection E as <-. split; [done|].
    destruct (top_time_spec _ _ Htop) as [_ Hall]. rewrite Forall_forall in Hall. apply Hall. set_solver.
  - left. rewrite AddTask_fails in E. injection E as _ <-. split; [done|]. cbn [sched m_queue]. set_solver.
Qed.
End Scheduler.

(** ** Properties *)

Section properties.
Context {T : Type}.
Implicit Types m : machine (T := T).

Lemma top_exists (q : list (Task T)) t :
  top_time q = Some t -> exists i x, q !! i = Some x /\ m_time_to_run x = t /\ is_top q x = true.
Proof.
  intros Ht. destruct (top_time_spec q t Ht) as [(x & Hx & <-) Hall].
  apply list_elem_of_lookup in Hx as [i Hi]. exists i, x. split; [done|]. split; [done|].
  unfold is_top. rewrite forallb_forall. intros y Hy. apply list_elem_of_In in Hy.
  rewrite Forall_forall in Hall. specialize (Hall y Hy). unfold Task_lt.
  apply negb_true_iff, Z.ltb_ge. lia.
Qed.

(** C24: no task is forgotten: whatever threads add, and however the threads of
    the timer interleave, the counter counts the tasks that were not finished,
    and when the scheduler is idle with tasks waiting, the timer is set for the
    earliest of them; at its time (at once, if that has passed) that task starts. *)
Theorem idle_timer_is_set (now : Z) (m : machine) (Hnow : 0 < now) (Hm : tsteps (start now) m)
    (Hidle : expired m = 0%nat /\ running m = []) (Hwaiting : m_queue (sched m) <> []) :
  m_counter (sched m) = outstanding m /\
  exists t, timer (sched m) = Some (it_value t)
    /\ Forall (fun x => t <= m_time_to_run x) (m_queue (sched m))
    /\ exists x m', tsteps m m' /\ x ∈ m_queue (sched m) /\ m_time_to_run x = t
       /\ running m' = [x] /\ clock m' = Z.max (clock m) t.
Proof.
  destruct (tsteps_timed True _ m (start_timed _ now Hnow) Hm) as [[Hc _] _ Ht].
  destruct Hidle as [He Hr]. destruct (Ht I Hwaiting He Hr) as (t & Htop & Htimer).
  split; [done|]. exists t. split; [done|]. split; [by apply top_time_spec|].
  destruct (top_exists _ t Htop) as (i & x & Hi & Hx & Hist).
  set (s1 := mk_Scheduler (m_queue (sched m)) (m_counter (sched m)) None).
  exists x, (mk_machine (mk_Scheduler (delete i (m_queue (sched m))) (m_counter (sched m)) None)
    0 [x] (Z.max (clock m) t)).
  split; [|split; [by eapply list_elem_of_lookup_2|done]].
  eapply rtc_l; [apply (tstep_tick m (Z.max (clock m) t)); lia|].
  eapply rtc_l; [eapply tstep_expire; [exact Htimer|]; cbn [clock]; rewrite value_it; lia|].
  cbn [sched expired running clock]. rewrite He, Hr. apply rtc_once.
  apply (tstep_begin i (mk_machine s1 1 [] (Z.max (clock m) t)) 0); [done|].
  unfold RunTask_begin. cbn [sched m_queue s1]. rewrite Hi, Hist.
  by destruct (m_queue (sched m)).
Qed.

(** An [AddTask] that throws has taken the task all the same: it is in the queue
    and counted. If the scheduler is idle and its timer not set, nothing runs it,
    until another call of [AddTask] succeeds; then the timer is set for its time, or an
    earlier one. *)
Theorem failed_add_stays (now interval : Z) (task : T) (m : machine) (Hnow : 0 < now)
    (Hm : fsteps (start now) m) (Hi : 0 <= interval) (Hroom : outstanding m < 2 ^ 64 - 1) :
  exists s', AddTask false task (clock m) interval (sched m) = (Throw (runtime_error "failed to set timer"), s')
    /\ let m' := mk_machine s' (expired m) (running m) (clock m) in
    m_queue s' = m_queue (sched m) ++ [mk_Task task (clock m + interval)] /\ m_counter s' = outstanding m'
    /\ (stuck m -> forall m2, fsteps m' m2 -> stuck m2
        \/ exists m1 other interval2 t m1', fsteps m' m1
             /\ AddTask true other (clock m1) interval2 (sched m1) = (Ok tt, sched m1')
             /\ timer (sched m1') = Some (it_value t) /\ t <= clock m + interval /\ fsteps m1' m2).
Proof.
  eexists. split; [apply AddTask_fails|]. intros m'. split; [done|].
  assert (Hm' : timed False m').
  { eapply fsteps_timed; [by apply start_timed|]. etrans; [exact Hm|]. apply rtc_once.
    eapply fstep_add_fails; [exact Hi|exact Hroom|apply AddTask_fails]. }
  split; [apply Hm'|]. intros Hstuck m2 Hs. assert (Hstuck' : stuck m') by done. clear Hstuck.
  assert (Hx : mk_Task task (clock m + interval) ∈ m_queue (sched m')) by (cbn; set_solver).
  clearbody m'. revert Hm' Hstuck' Hx.
  induction Hs as [m'|m0 m1 m2 Hstep Hs IH]; intros Hm' Hst Hx; [by left|].
  destruct (stuck_step _ m0 m1 Hm' Hst Hx Hstep) as [[Hst1 Hx1]|(other & i2 & t & E & Et & Hle)].
  - destruct (IH (fstep_timed _ _ Hm' Hstep) Hst1 Hx1) as [?|(n1 & other & i2 & t & n2 & Hn & Hrest)]; [by left|].
    right. exists n1, other, i2, t, n2. split; [|done]. by eapply rtc_l.
  - right. exists m0, other, i2, t, m1. split; [apply rtc_refl|done].
Qed.

(** The destructor returns while a task runs; what the thread of the timer then
    does to the destroyed object wraps the counter around. *)
Lemma destructor_does_not_wait (now : Z) (a : T) :
  0 < now ->
  exists m s1 s2, tsteps (start now) m /\ running m = [mk_Task a now]
    /\ delete_Scheduler (sched m) = (Ok tt, s1) /\ RunTask_end true s1 = (Ok tt, s2)
    /\ m_counter s2 = 2 ^ 64 - 1.
Proof.
  intros Hn. destruct (AddTask_ok a now 0 new_Scheduler) as (t & Htop & _ & E); [lia|done|].
  cbn in Htop. injection Htop as <-. rewrite Z.add_0_r in E. cbn [m_queue new_Scheduler app] in E.
  exists (mk_machine (mk_Scheduler [] 1 None) 0 [mk_Task a now] now), (mk_Scheduler [] 0 None),
    (mk_Scheduler [] (2 ^ 64 - 1) None).
  split; [|by repeat split].
  eapply rtc_l; [by apply (tstep_add a 0 (start now)); [..|exact E]|].
  eapply rtc_l; [eapply tstep_expire; [done|]; rewrite value_it; cbn; lia|].
  apply rtc_once. apply (tstep_begin 0 (mk_machine (mk_Scheduler [mk_Task a now] 1 None) 1 [] now) 0); [done|].
  unfold RunTask_begin. cbn [sched m_queue lookup list_lookup]. unfold is_top, Task_lt. cbn.
  by rewrite Z.ltb_irrefl.
Qed.

(** A task can run before its time: the timer that expired is set again, for
    a time that has passed, when another task is added before the thread of the
    first expiry takes the mutex; the second expiry starts a second thread, and
    it runs the added task, however far its time lies ahead. *)
Theorem task_runs_early (now delay : Z) (a b : T) (Hnow : 0 < now) (Hdelay : 0 < delay) :
  exists m x, tsteps (start now) m /\ x ∈ running m /\ m_task x = b
    /\ m_time_to_run x = clock m + delay.
Proof.
  set (xa := mk_Task a (now + 0)). set (xb := mk_Task b (now + delay)).
  exists (mk_machine (mk_Scheduler [] 2 None) 0 [xb; xa] now), xb.
  split; [|split; [set_solver|done]].
  assert (Hna : (now + 0 =? 0) = false) by (apply Z.eqb_neq; lia).
  assert (Hmin : Z.min (now + 0) (now + delay) = now + 0) by lia.
  eapply rtc_l; [apply (tstep_add a 0); [lia|by vm_compute|unfold AddTask, StartTimer; run_prog;
    cbn [sched m_queue app top_time m_time_to_run clock start new_Scheduler]; rewrite Hna; reflexivity]|].
  eapply rtc_l; [eapply tstep_expire; [reflexivity|cbn [clock]; rewrite value_it; simpl; lia]|].
  eapply rtc_l; [apply (tstep_add b delay); [lia|by vm_compute|unfold AddTask, StartTimer; run_prog;
    cbn [sched m_queue app top_time m_time_to_run clock start new_Scheduler]; rewrite Hmin, Hna; reflexivity]|].
  eapply rtc_l; [eapply tstep_expire; [reflexivity|cbn [clock]; rewrite value_it; simpl; lia]|].
  cbn [sched m_queue m_counter expired running clock start new_Scheduler app].
  eapply rtc_l.
  { apply (tstep_begin 0 _ 1 xa (mk_Scheduler [xb] 2 None)); [done|].
    unfold RunTask_begin, is_top, Task_lt. cbn [sched m_queue lookup list_lookup forallb m_time_to_run].
    rewrite !(proj2 (Z.ltb_ge _ _)) by lia. done. }
  apply rtc_once. cbn [running clock].
  apply (tstep_begin 0 (mk_machine (mk_Scheduler [xb] 2 None) 1 [xa] now) 0 xb (mk_Scheduler [] 2 None)); [done|].
  unfold RunTask_begin, is_top, Task_lt. cbn [sched m_queue lookup list_lookup forallb m_time_to_run].
  by rewrite !(proj2 (Z.ltb_ge _ _)) by lia.
Qed.
End properties.

Lemma idle_timer_is_set_witness :
  let m := mk_machine (mk_Scheduler [mk_Task 1%nat 12] 1 (Some (it_value 12))) 0 [] 5 in
  m_counter (sched m) = outstanding m /\
  exists t, timer (sched m) = Some (it_value t)
    /\ Forall (fun x => t <= m_time_to_run x) (m_queue (sched m))
    /\ exists x m', tsteps m m' /\ x ∈ m_queue (sched m) /\ m_time_to_run x = t
       /\ running m' = [x] /\ clock m' = Z.max (clock m) t.
Proof.
  intros m. apply (idle_timer_is_set 5 m); [lia| |done|done].
  apply rtc_once, (tstep_add 1%nat 7 (start 5)); [lia|by vm_compute|reflexivity].
Defined.

Lemma task_runs_early_witness :
  exists m x, tsteps (start 5) m /\ x ∈ running m /\ m_task x = 2%nat
    /\ m_time_to_run x = clock m + 1000.
Proof. apply (task_runs_early 5 1000 1%nat 2%nat); lia. Defined.

Lemma failed_add_stays_witness :
  exists s', AddTask false 1%nat 5 7 new_Scheduler = (Throw (runtime_error "failed to set timer"), s')
    /\ let m' := mk_machine s' 0 [] 5 in
    m_queue s' = [mk_Task 1%nat 12] /\ m_counter s' = outstanding m'
    /\ (stuck (start (T := nat) 5) -> forall m2, fsteps m' m2 -> stuck m2
        \/ exists m1 other interval2 t m1', fsteps m' m1
             /\ AddTask true other (clock m1) interval2 (sched m1) = (Ok tt, sched m1')
             /\ timer (sched m1') = Some (it_value t) /\ t <= 5 + 7 /\ fsteps m1' m2).
Proof. apply (failed_add_stays 5 7 1%nat (start 5)); [lia|apply rtc_refl|lia|by vm_compute]. Defined.
