(* ===== verification/AsyncInjection.v ===== *)
(** * AsyncInjection

    [framework/src/AsyncInjection.cpp]: an action that is repeated until it
    returns [true].  The scheduler holds a task with a [weak_ptr] to the
    injection; the object lives as long as a [shared_ptr] to it does. *)

From S2P Require Import Prelude Scheduler.

(** An injection: its interval, and the number of [shared_ptr]s to it. An object
    without owners is destroyed. *)
Record Injection : Set := mk_Injection {
  m_interval : Z;
  owners : nat;
}.

(** The objects, by the order of their creation; the scheduler, whose tasks name
    the object their [weak_ptr] points to; the actions performed. *)
Record State : Type := mk_State {
  objects : list Injection;
  scheduler : Scheduler nat;
  performed : list nat;
}.

Definition on_scheduler {A} (f : prog (Scheduler nat) A) : prog State A :=
  zoom scheduler (fun t s => mk_State (objects s) t (performed s)) f.

Definition on_object (id : nat) (f : Injection -> Injection) : prog State unit :=
  modify (fun s => mk_State (alter f id (objects s)) (scheduler s) (performed s)).

(** Copies and ends of [shared_ptr]s. *)
Definition retain (id : nat) : prog State unit :=
  on_object id (fun x => mk_Injection (m_interval x) (S (owners x))).
Definition release (id : nat) : prog State unit :=
  on_object id (fun x => mk_Injection (m_interval x) (pred (owners x))).

(** [Schedule]: the local [shared_ptr] is the only owner, and ends with the
    function, after [Schedule_end]. *)
Definition Schedule_begin (interval now : Z) : prog State nat :=
  id ← gets (fun s => length (objects s));
  modify (fun s => mk_State (objects s ++ [mk_Injection interval 1]) (scheduler s) (performed s)) ;;
  on_scheduler (AddTask true id now interval) ;;
  mret id.

Definition Schedule_end (id : nat) : prog State unit := release id.

(** [Reschedule]: the task is made from [shared_from_this()], whose temporary
    [shared_ptr] is gone when the function returns. *)
Definition Reschedule (id : nat) (now : Z) : prog State unit :=
  retain id ;;
  interval ← gets (fun s => from_option m_interval 0 (objects s !! id));
  on_scheduler (AddTask true id now interval) ;;
  release id.

(** [PerformAction]; [finished] is what the action returns. *)
Definition PerformAction (id : nat) (finished : bool) (now : Z) : prog State unit :=
  modify (fun s => mk_State (objects s) (scheduler s) (performed s ++ [id])) ;;
  (if finished then mret tt else Reschedule id now).

(** [m_async.lock()] in [AsyncInjectionTask::Run]: it tells whether the object is
    still alive, and owns it if it is. *)
Definition lock (id : nat) : prog State bool :=
  found ← gets (fun s => objects s !! id);
  match found with
  | Some x => if (owners x =? 0)%nat then mret false else (retain id ;; mret true)
  | None => mret false
  end.

(** The rest of [AsyncInjectionTask::Run] when the lock succeeded. *)
Definition Run_locked (id : nat) (finished : bool) (now : Z) : prog State unit :=
  PerformAction id finished now ;; release id.

(** ** The threads

    [scheduling] are the calls of [Schedule] that have not returned, [tasks] the
    runs of tasks whose lock succeeded. *)
Record world : Type := mk_world {
  state : State;
  scheduling : list nat;
  tasks : list nat;
}.

(** [RunTask] takes any task of the queue that can be its top; the timer decides
    when. *)
Inductive astep : world -> world -> Prop :=
  | astep_schedule interval now w id s' :
      Schedule_begin interval now (state w) = (Ok id, s') ->
      astep w (mk_world s' (id :: scheduling w) (tasks w))
  | astep_return l1 id l2 w s' :
      scheduling w = l1 ++ id :: l2 -> Schedule_end id (state w) = (Ok tt, s') ->
      astep w (mk_world s' (l1 ++ l2) (tasks w))
  | astep_run i w x s1 s2 locked :
      on_scheduler (RunTask_begin i) (state w) = (Ok (Some x), s1) ->
      lock (m_task x) s1 = (Ok locked, s2) ->
      astep w (mk_world s2 (scheduling w)
                 (if locked : bool then m_task x :: tasks w else tasks w))
  | astep_perform l1 id l2 finished now w s' :
      tasks w = l1 ++ id :: l2 -> Run_locked id finished now (state w) = (Ok tt, s') ->
      astep w (mk_world s' (scheduling w) (l1 ++ l2))
  | astep_end w s' :
      on_scheduler (RunTask_end true) (state w) = (Ok tt, s') ->
      astep w (mk_world s' (scheduling w) (tasks w)).

Definition asteps : world -> world -> Prop := rtc astep.

Definition init : world := mk_world (mk_State [] new_Scheduler []) [] [].

(** ** What the operations do to the objects *)

Definition count (id : nat) (l : list nat) : nat := count_occ Nat.eq_dec l id.

Lemma on_scheduler_frame {A} (f : prog (Scheduler nat) A) s r s' :
  on_scheduler f s = (r, s') -> objects s' = objects s /\ performed s' = performed s.
Proof.
  unfold on_scheduler, zoom. destruct (f (scheduler s)) as [r1 t]. by intros [= _ <-].
Qed.

Lemma Schedule_begin_effect interval now s id s' :
  Schedule_begin interval now s = (Ok id, s') ->
  id = length (objects s) /\ objects s' = objects s ++ [mk_Injection interval 1]
  /\ performed s' = performed s.
Proof.
  intros E. unfold Schedule_begin in E.
  apply bind_ok_inv in E as (n & s0 & E0 & E). injection E0 as <- <-.
  apply bind_ok_inv in E as ([] & s1 & E1 & E). injection E1 as <-.
  apply bind_ok_inv in E as ([] & s2 & E2 & E). apply on_scheduler_frame in E2 as [Ho Hp].
  by injection E as <- <-.
Qed.

(** The temporary owner of [Reschedule] comes and goes. *)
Lemma Reschedule_effect id now s s' :
  Reschedule id now s = (Ok tt, s') -> objects s' = objects s /\ performed s' = performed s.
Proof.
  intros E. unfold Reschedule in E.
  apply bind_ok_inv in E as ([] & s1 & E1 & E). injection E1 as <-.
  apply bind_ok_inv in E as (interval & s2 & E2 & E). injection E2 as _ <-.
  apply bind_ok_inv in E as ([] & s3 & E3 & E). apply on_scheduler_frame in E3 as [Ho Hp].
  injection E as <-. cbn [objects performed] in *. rewrite Ho, Hp. split; [|done].
  apply list_eq. intros j. rewrite !list_lookup_alter. repeat case_decide; try done.
  subst. by destruct (objects s !! _) as [[]|].
Qed.

Lemma Run_locked_effect id finished now s s' :
  Run_locked id finished now s = (Ok tt, s') ->
  objects s' = alter (fun x => mk_Injection (m_interval x) (pred (owners x))) id (objects s)
  /\ performed s' = performed s ++ [id].
Proof.
  intros E. unfold Run_locked in E. apply bind_ok_inv in E as ([] & s1 & E1 & E). injection E as <-.
  unfold PerformAction in E1. apply bind_ok_inv in E1 as ([] & s2 & E2 & E1). injection E2 as <-.
  cbn [objects performed].
  assert (Hs1 : objects s1 = objects s /\ performed s1 = performed s ++ [id])
    by (destruct finished; [by injection E1 as <-|by apply Reschedule_effect in E1]).
  by destruct Hs1 as [-> ->].
Qed.

Lemma lock_effect id s locked s' :
  lock id s = (Ok locked, s') ->
  performed s' = performed s /\
  if locked then
    (exists x, objects s !! id = Some x /\ owners x <> 0%nat)
    /\ objects s' = alter (fun x => mk_Injection (m_interval x) (S (owners x))) id (objects s)
  else objects s' = objects s.
Proof.
  unfold lock. run_prog. destruct (objects s !! id) as [x|] eqn:Ex; [|by intros [= <- <-]].
  destruct (Nat.eqb_spec (owners x) 0); intros [= <- <-]; [done|].
  split; [done|]. split; [by exists x|done].
Qed.

(** ** Who owns an injection *)

(** The owners of an object are the calls of [Schedule] that created it and have
    not returned, and the runs that hold it. *)
Definition owned (w : world) : Prop :=
  (forall id x, objects (state w) !! id = Some x ->
     owners x = (count id (scheduling w) + count id (tasks w))%nat)
  /\ Forall (fun id => id < length (objects (state w)))%nat (scheduling w ++ tasks w).

Lemma count_cons id y l : count id (y :: l) = ((if decide (y = id) then 1 else 0) + count id l)%nat.
Proof. unfold count. cbn [count_occ]. destruct (Nat.eq_dec y id), (decide (y = id)); done. Qed.

Lemma count_middle id l1 y l2 : count id (l1 ++ y :: l2) = count id (y :: l1 ++ l2).
Proof. unfold count. rewrite count_occ_app. cbn [count_occ]. rewrite count_occ_app.
  destruct (Nat.eq_dec y id); lia. Qed.

Lemma count_zero id l : count id l = 0%nat <-> id ∉ l.
Proof. unfold count. rewrite <-count_occ_not_In. by rewrite list_elem_of_In. Qed.

Lemma owned_step w w' : owned w -> astep w w' -> owned w'.
Proof.
  intros [Hown Hlt] Hstep.
  destruct Hstep as [interval now w id' s' E|l1 id' l2 w s' El E|i w y s1 s2 locked E1 E2
    |l1 id' l2 finished now w s' El E|w s' E]; unfold owned; cbn [state scheduling tasks].
  - destruct (Schedule_begin_effect _ _ _ _ _ E) as (-> & -> & _). split.
    + intros id x Hx. rewrite count_cons. apply lookup_snoc_Some in Hx as [[Hid Hx]|[-> <-]].
      * rewrite decide_False by lia. by apply Hown.
      * rewrite decide_True by done. cbn [owners].
        assert (Hz : count (length (objects (state w))) (scheduling w ++ tasks w) = 0%nat).
        { apply count_zero. intros Hin. rewrite Forall_forall in Hlt. apply Hlt in Hin. lia. }
        unfold count in *. rewrite count_occ_app in Hz. lia.
    + rewrite length_app. constructor; [simpl; lia|]. eapply Forall_impl; [exact Hlt|simpl; lia].
  - injection E as <-. cbn [objects]. rewrite El in Hown, Hlt. split.
    + intros id x Hx. apply list_lookup_alter_Some in Hx as [(<- & y & Hy & ->)|[Hne Hx]].
      * apply Hown in Hy. rewrite count_middle, count_cons, decide_True in Hy by done. cbn [owners]. lia.
      * apply Hown in Hx. rewrite count_middle, count_cons, decide_False in Hx by done. lia.
    + rewrite length_alter. rewrite <-app_assoc in Hlt |- *. apply Forall_app in Hlt as [? Hlt].
      cbn [app] in Hlt. apply Forall_cons in Hlt as [_ ?]. by apply Forall_app.
  - apply on_scheduler_frame in E1 as [Ho1 _]. apply lock_effect in E2 as [_ Hl].
    rewrite Ho1 in Hl. destruct locked.
    + destruct Hl as [(z & Hz & _) ->]. split.
      * intros id x Hx. rewrite count_cons.
        apply list_lookup_alter_Some in Hx as [(<- & u & Hu & ->)|[Hne Hx]].
        -- rewrite decide_True by done. apply Hown in Hu. cbn [owners]. lia.
        -- rewrite decide_False by done. apply Hown in Hx. lia.
      * rewrite length_alter. apply Forall_app in Hlt as [? ?]. apply Forall_app. split; [done|].
        constructor; [by eapply lookup_lt_Some|done].
    + by rewrite Hl.
  - apply Run_locked_effect in E as [-> _]. rewrite El in Hown, Hlt. split.
    + intros id x Hx. apply list_lookup_alter_Some in Hx as [(<- & y & Hy & ->)|[Hne Hx]].
      * apply Hown in Hy. rewrite count_middle, count_cons, decide_True in Hy by done. cbn [owners]. lia.
      * apply Hown in Hx. rewrite count_middle, count_cons, decide_False in Hx by done. lia.
    + rewrite length_alter. rewrite app_assoc in Hlt |- *. apply Forall_app in Hlt as [? Hlt].
      apply Forall_cons in Hlt as [_ ?]. by apply Forall_app.
  - apply on_scheduler_frame in E as [-> _]. done.
Qed.

Lemma init_owned w : asteps init w -> owned w.
Proof.
  intros Hs. assert (H0 : owned init) by (split; [by intros [|id]|constructor]).
  revert H0. induction Hs as [|w1 w2 w3 Hstep _ IH]; intros H; [done|]. by eapply IH, owned_step.
Qed.

(** An injection that exists and is not in use. *)
Definition idle (id : nat) (w : world) : Prop :=
  id ∉ scheduling w /\ id ∉ tasks w /\ (id < length (objects (state w)))%nat.

Lemma idle_step id w w' :
  owned w -> idle id w -> astep w w' ->
  idle id w' /\ count id (performed (state w')) = count id (performed (state w)).
Proof.
  intros [Hown _] (Hns & Hnt & Hlt) Hstep.
  destruct (lookup_lt_is_Some_2 _ _ Hlt) as [x Hx].
  assert (H0 : owners x = 0%nat)
    by (rewrite (Hown id x Hx), (proj2 (count_zero _ _) Hns), (proj2 (count_zero _ _) Hnt); done).
  destruct Hstep as [interval now w id' s' E|l1 id' l2 w s' El E|i w y s1 s2 locked E1 E2
    |l1 id' l2 finished now w s' El E|w s' E]; unfold idle; cbn [state scheduling tasks].
  - destruct (Schedule_begin_effect _ _ _ _ _ E) as (-> & -> & ->). split; [|done].
    rewrite length_app. split; [|split; [done|lia]].
    intros [?|?]%elem_of_cons; [lia|done].
  - injection E as <-. rewrite El in Hns. cbn [objects performed]. split; [|done].
    rewrite length_alter. split; [set_solver|done].
  - apply on_scheduler_frame in E1 as [Ho1 Hp1]. apply lock_effect in E2 as [Hp2 Hl].
    rewrite Hp2, Hp1, Ho1 in *. split; [|done]. destruct locked; [|by rewrite Hl].
    destruct Hl as [(z & Hz & Hne) ->]. rewrite length_alter. split; [done|]. split; [|done].
    intros [->|?]%elem_of_cons; [|done]. congruence.
  - apply Run_locked_effect in E as [-> ->]. rewrite El in Hnt. rewrite length_alter. split.
    + split; [done|]. split; [set_solver|done].
    + unfold count. rewrite count_occ_app. cbn [count_occ].
      destruct (Nat.eq_dec id' id); [set_solver|lia].
  - by apply on_scheduler_frame in E as [-> ->].
Qed.

(** ** Property *)

(** An injected action is lost: the scheduler does not keep an injection alive
    (its task has a [weak_ptr]), so that from the moment at which [Schedule] has
    returned and no run of the injection is in progress, its action is never
    performed again, whatever the timer and other injections do. If that is
    before the first run, it is never performed. *)
Theorem injection_is_lost (w w' : world) (id : nat) (Hw : asteps init w)
    (Hid : (id < length (objects (state w)))%nat)
    (Hreturned : id ∉ scheduling w) (Hidle : id ∉ tasks w) (Hsteps : asteps w w') :
  count id (performed (state w')) = count id (performed (state w)).
Proof.
  assert (Ho : owned w) by by apply init_owned. assert (Hi : idle id w) by by split.
  clear Hw Hid Hreturned Hidle. induction Hsteps as [|w1 w2 w3 Hstep _ IH]; [done|].
  destruct (idle_step id w1 w2 Ho Hi Hstep) as [Hi2 <-]. apply IH; [|done]. by eapply owned_step.
Qed.

(** An injection is scheduled, the call returns, the timer runs the task: the
    action is not performed. *)
Lemma injection_is_lost_witness :
  exists w w', asteps init w /\ asteps w w'
    /\ m_queue (scheduler (state w)) = [mk_Task 0%nat 12] /\ m_queue (scheduler (state w')) = []
    /\ count 0 (performed (state w')) = count 0 (performed (state w)).
Proof.
  set (o0 := [mk_Injection 7 0]).
  set (w := mk_world (mk_State o0 (mk_Scheduler [mk_Task 0%nat 12] 1 (Some (it_value 12))) []) [] []).
  set (w' := mk_world (mk_State o0 (mk_Scheduler [] 1 (Some (it_value 12))) []) [] []).
  assert (Hw : asteps init w).
  { eapply rtc_l; [apply (astep_schedule 7 5); reflexivity|].
    apply rtc_once. by apply (astep_return [] 0%nat []). }
  assert (Hw' : asteps w w') by by apply rtc_once, (astep_run 0 w (mk_Task 0%nat 12) (state w') (state w') false).
  exists w, w'. split; [done|]. split; [done|]. split; [done|]. split; [done|].
  apply (injection_is_lost w w' 0); [done|simpl; lia|by apply not_elem_of_nil..|done].
Defined.
