(* ===== verification/ThreadPool.v ===== *)
(** * ThreadPool

    [framework/src/thread_pool.cpp] and [framework/include/waitable_queue.hpp]: the
    threads that run the tasks, in the order of a priority queue. *)

From S2P Require Import Prelude.

(** ** The queue

    [WaitableQueue] and [WaitablePQ]: every operation runs under the mutex of the
    queue, so that each is one step; [Pop] of an empty queue waits. *)

Module WaitableQueue.
Section WaitableQueue.
Context {A : Type}.

Definition Push (value : A) : prog (list A) unit := modify (fun q => q ++ [value]).

Definition Pop : prog (list A) A := fun q =>
  match q with [] => (Blocked, q) | x :: q => (Ok x, q) end.

(** [Pop] with a timeout; [in_time] tells whether the wait ended before it. *)
Definition Pop_timeout (in_time : bool) : prog (list A) (option A) := fun q =>
  match q with
  | x :: q' => if in_time then (Ok (Some x), q') else (Ok None, q)
  | [] => (Ok None, q)
  end.

Definition IsEmpty : prog (list A) bool := gets (fun q => bool_decide (q = [])).
End WaitableQueue.
End WaitableQueue.

(** [lt] is [operator<] of the elements; the top is an element that is less than
    no other, which one of several is not specified: [i] is its position. *)
Module WaitablePQ.
Section WaitablePQ.
Context {A : Type} (lt : A -> A -> bool).

Definition is_top (q : list A) (x : A) : bool := forallb (fun y => negb (lt x y)) q.

Definition Push (value : A) : prog (list A) unit := modify (fun q => q ++ [value]).

Definition Pop (i : nat) : prog (list A) A := fun q =>
  match q !! i with
  | Some x => if is_top q x then (Ok x, delete i q) else (Blocked, q)
  | None => (Blocked, q)
  end.

Definition Pop_timeout (in_time : bool) (i : nat) : prog (list A) (option A) := fun q =>
  if in_time && negb (bool_decide (q = [])) then (x ← Pop i; mret (Some x)) q else (Ok None, q).

Definition IsEmpty : prog (list A) bool := gets (fun q => bool_decide (q = [])).
End WaitablePQ.
End WaitablePQ.

(** ** Tasks *)

(** The values of [InnerPriority]; those of [Priority] are the middle ones. *)
Definition LOW : Z := 1.
Definition MEDIUM : Z := 2.
Definition HIGH : Z := 3.
Definition CRITICAL : Z := 4.

(** What a thread runs: a task of the client, or one of the pool's own. *)
Inductive job (T : Type) : Type :=
  | Work (t : T)
  | EndThread
  | PauseThread.
Arguments Work {T} t.
Arguments EndThread {T}.
Arguments PauseThread {T}.

Record TPTask (T : Type) : Type := mk_TPTask {
  m_task : job T;
  m_priority : Z;
  m_time_created : Z;
}.
Arguments mk_TPTask {T}.
Arguments m_task {T} t.
Arguments m_priority {T} t.
Arguments m_time_created {T} t.

(** [operator<]: a product and a sum of truth values. *)
Definition TPTask_lt {T} (a b : TPTask T) : bool :=
  negb (Z.b2z (m_time_created a <? m_time_created b) * Z.b2z (m_priority a =? m_priority b)
        + Z.b2z (m_priority a <? m_priority b) =? 0).

(** ** The pool *)

(** A thread: in front of [Pop], running a job, inside the wait of
    [PauseThreadTask], or at its end. *)
Inductive thread (T : Type) : Type :=
  | Idle
  | Running (j : job T)
  | Waiting
  | Ended.
Arguments Idle {T}.
Arguments Running {T} j.
Arguments Waiting {T}.
Arguments Ended {T}.

Record ThreadPool (T : Type) : Type := mk_ThreadPool {
  m_pq : list (TPTask T);
  m_deleted_threads : list nat;
  m_threads : gmap nat (thread T);
  m_total_threads : nat;
  m_tid : nat;
  m_pause_sem : nat;
  m_paused : bool;
}.
Arguments mk_ThreadPool {T}.
Arguments m_pq {T} t.
Arguments m_deleted_threads {T} t.
Arguments m_threads {T} t.
Arguments m_total_threads {T} t.
Arguments m_tid {T} t.
Arguments m_pause_sem {T} t.
Arguments m_paused {T} t.

Section ThreadPool.
Context {T : Type}.
Implicit Types p : ThreadPool T.

Definition set_pq (q : list (TPTask T)) p : ThreadPool T :=
  mk_ThreadPool q (m_deleted_threads p) (m_threads p) (m_total_threads p) (m_tid p)
    (m_pause_sem p) (m_paused p).

Definition set_thread (tid : nat) (t : thread T) p : ThreadPool T :=
  mk_ThreadPool (m_pq p) (m_deleted_threads p) (<[tid := t]> (m_threads p)) (m_total_threads p)
    (m_tid p) (m_pause_sem p) (m_paused p).

(** [n] pushes of the same task; [now] is the time of the first, each push takes
    a moment. *)
Fixpoint push_many (n : nat) (j : job T) (pr now : Z) : prog (ThreadPool T) unit :=
  match n with
  | O => mret tt
  | S n =>
      zoom m_pq set_pq (WaitablePQ.Push (mk_TPTask j pr now)) ;;
      push_many n j pr (now + 1)
  end.

Definition RemoveThreadsFromPool (amount : nat) (pr now : Z) : prog (ThreadPool T) unit :=
  push_many amount EndThread pr now.

(** The first loop gives the numbers of ended threads to new ones ([at] throws
    for a number that is not in the map), the second takes new numbers. *)
Fixpoint reuse_threads (amount : nat) (deleted : list nat) p : res (ThreadPool T * nat) :=
  match amount, deleted with
  | S n, tid :: deleted' =>
      match m_threads p !! tid with
      | Some _ => reuse_threads n deleted'
          (mk_ThreadPool (m_pq p) deleted' (<[tid := Idle]> (m_threads p)) (m_total_threads p)
             (m_tid p) (m_pause_sem p) (m_paused p))
      | None => Throw (out_of_range "map::at")
      end
  | _, _ => Ok (p, amount)
  end.

Fixpoint new_threads (amount : nat) p : ThreadPool T :=
  match amount with
  | O => p
  | S n => new_threads n
      (mk_ThreadPool (m_pq p) (m_deleted_threads p)
         (match m_threads p !! m_tid p with
          | Some _ => m_threads p
          | None => <[m_tid p := Idle]> (m_threads p)
          end) (m_total_threads p) (S (m_tid p)) (m_pause_sem p) (m_paused p))
  end.

Definition AddThreadsToPool (amount : nat) : prog (ThreadPool T) unit := fun p =>
  match reuse_threads amount (m_deleted_threads p) p with
  | Ok (p', rest) => (Ok tt, new_threads rest p')
  | Throw e => (Throw e, p)
  | _ => (Undefined, p)
  end.

(** The constructor. *)
Definition new_ThreadPool (n_threads : nat) : ThreadPool T :=
  (AddThreadsToPool n_threads (mk_ThreadPool [] [] ∅ n_threads 0 0 false)).2.

Definition AddTask (t : T) (pr now : Z) : prog (ThreadPool T) unit :=
  zoom m_pq set_pq (WaitablePQ.Push (mk_TPTask (Work t) pr now)).

Definition SetNumThreads (n_threads : nat) (now : Z) : prog (ThreadPool T) unit :=
  total ← gets m_total_threads;
  (if (total <? n_threads)%nat then AddThreadsToPool (n_threads - total)
   else RemoveThreadsFromPool (total - n_threads) CRITICAL now) ;;
  modify (fun p => mk_ThreadPool (m_pq p) (m_deleted_threads p) (m_threads p) n_threads (m_tid p)
                     (m_pause_sem p) (m_paused p)).

(** [Pause] up to the loop of [acquire]s, and its end, when all of them got
    through. *)
Definition Pause_begin (now : Z) : prog (ThreadPool T) unit :=
  modify (fun p => mk_ThreadPool (m_pq p) (m_deleted_threads p) (m_threads p) (m_total_threads p)
                     (m_tid p) (m_pause_sem p) true) ;;
  total ← gets m_total_threads;
  push_many total PauseThread CRITICAL now.

Definition Pause_end : prog (ThreadPool T) unit := fun p =>
  if (m_total_threads p <=? m_pause_sem p)%nat then
    (Ok tt, mk_ThreadPool (m_pq p) (m_deleted_threads p) (m_threads p) (m_total_threads p) (m_tid p)
              (m_pause_sem p - m_total_threads p) (m_paused p))
  else (Blocked, p).

(** [notify_all] lets the waiting threads look at [m_paused] again, one after
    the other ([wake]). *)
Definition Resume : prog (ThreadPool T) unit :=
  modify (fun p => mk_ThreadPool (m_pq p) (m_deleted_threads p) (m_threads p) (m_total_threads p)
                     (m_tid p) (m_pause_sem p) false).

(** [ThreadRunTask] of thread [tid]: [Pop]; the job; the end of the wait. *)
Definition thread_pop (tid i : nat) : prog (ThreadPool T) unit := fun p =>
  match m_threads p !! tid with
  | Some Idle =>
      let '(r, q) := WaitablePQ.Pop TPTask_lt i (m_pq p) in
      match r with
      | Ok x => (Ok tt, set_thread tid (Running (m_task x)) (set_pq q p))
      | _ => (Blocked, p)
      end
  | _ => (Blocked, p)
  end.

Definition thread_done (tid : nat) : prog (ThreadPool T) unit := fun p =>
  match m_threads p !! tid with
  | Some (Running (Work _)) => (Ok tt, set_thread tid Idle p)
  | Some (Running EndThread) =>
      (Ok tt, mk_ThreadPool (m_pq p) (m_deleted_threads p ++ [tid]) (<[tid := Ended]> (m_threads p))
                (m_total_threads p) (m_tid p) (m_pause_sem p) (m_paused p))
  | Some (Running PauseThread) =>
      (Ok tt, mk_ThreadPool (m_pq p) (m_deleted_threads p) (<[tid := Waiting]> (m_threads p))
                (m_total_threads p) (m_tid p) (S (m_pause_sem p)) (m_paused p))
  | _ => (Blocked, p)
  end.

Definition thread_wake (tid : nat) : prog (ThreadPool T) unit := fun p =>
  match m_threads p !! tid with
  | Some Waiting => if m_paused p then (Blocked, p) else (Ok tt, set_thread tid Idle p)
  | _ => (Blocked, p)
  end.
End ThreadPool.

(** ** Order *)

Lemma TPTask_lt_true {T} (a b : TPTask T) :
  TPTask_lt a b = true <->
  m_priority a < m_priority b \/ m_priority a = m_priority b /\ m_time_created a < m_time_created b.
Proof.
  unfold TPTask_lt. rewrite negb_true_iff, Z.eqb_neq.
  destruct (Z.ltb_spec (m_time_created a) (m_time_created b)), (Z.eqb_spec (m_priority a) (m_priority b)),
    (Z.ltb_spec (m_priority a) (m_priority b)); simpl; lia.
Qed.

(** [operator<] is a strict weak order, as [std::priority_queue] needs it. *)
Lemma TPTask_lt_strict_weak {T} :
  (forall a : TPTask T, TPTask_lt a a = false)
  /\ (forall a b c : TPTask T, TPTask_lt a b = true -> TPTask_lt b c = true -> TPTask_lt a c = true)
  /\ (forall a b c : TPTask T, TPTask_lt a b = false -> TPTask_lt b a = false ->
        TPTask_lt b c = false -> TPTask_lt c b = false -> TPTask_lt a c = false).
Proof.
  split; [|split]; intros; rewrite <-?not_true_iff_false in *; rewrite TPTask_lt_true in *; lia.
Qed.

Lemma Pop_top {A} (lt : A -> A -> bool) i q x q' :
  WaitablePQ.Pop lt i q = (Ok x, q') -> q ≡ₚ x :: q' /\ Forall (fun y => lt x y = false) q.
Proof.
  unfold WaitablePQ.Pop. destruct (q !! i) as [y|] eqn:Ei; [|done].
  destruct (WaitablePQ.is_top lt q y) eqn:Et; [|done]. intros [= <- <-].
  split; [by apply delete_Permutation|]. unfold WaitablePQ.is_top in Et.
  rewrite forallb_forall in Et. rewrite Forall_forall. intros z Hz.
  by apply negb_true_iff, Et, list_elem_of_In.
Qed.

Lemma thread_pop_Ok {T} tid i (p p' : ThreadPool T) :
  thread_pop tid i p = (Ok tt, p') ->
  m_threads p !! tid = Some Idle /\ exists x q, m_pq p ≡ₚ x :: q
    /\ Forall (fun y => TPTask_lt x y = false) (m_pq p)
    /\ p' = set_thread tid (Running (m_task x)) (set_pq q p).
Proof.
  unfold thread_pop. destruct (m_threads p !! tid) as [[]|]; try done.
  destruct (WaitablePQ.Pop TPTask_lt i (m_pq p)) as [r q] eqn:E. destruct r as [x|e| |]; try done.
  intros [= <-]. apply Pop_top in E as [Hq Htop]. split; [done|]. by exists x, q.
Qed.

(** ** Pausing

    The threads of a pool of fixed size, any threads that add tasks, and one
    thread that calls [Pause] and [Resume] in turn. *)

Inductive phase : Set := Normal | Pausing | Paused.

Section pausing.
Context {T : Type}.

Record system : Type := mk_system { pool : ThreadPool T; control : phase }.

Inductive pstep : system -> system -> Prop :=
  | pstep_add t pr now s p' :
      pr = LOW \/ pr = MEDIUM \/ pr = HIGH -> AddTask t pr now (pool s) = (Ok tt, p') ->
      pstep s (mk_system p' (control s))
  | pstep_pause now s p' :
      control s = Normal -> Pause_begin now (pool s) = (Ok tt, p') ->
      pstep s (mk_system p' Pausing)
  | pstep_paused s p' :
      control s = Pausing -> Pause_end (pool s) = (Ok tt, p') -> pstep s (mk_system p' Paused)
  | pstep_resume s p' :
      control s = Paused -> Resume (pool s) = (Ok tt, p') -> pstep s (mk_system p' Normal)
  | pstep_pop tid i s p' :
      thread_pop tid i (pool s) = (Ok tt, p') -> pstep s (mk_system p' (control s))
  | pstep_done tid s p' :
      thread_done tid (pool s) = (Ok tt, p') -> pstep s (mk_system p' (control s))
  | pstep_wake tid s p' :
      thread_wake tid (pool s) = (Ok tt, p') -> pstep s (mk_system p' (control s)).

Definition psteps : system -> system -> Prop := rtc pstep.

(** Counting threads and tasks. *)
Definition threads_that (P : thread T -> bool) (p : ThreadPool T) : nat :=
  size (filter (fun kv => P kv.2 = true) (m_threads p)).

Definition waits (t : thread T) : bool := match t with Waiting => true | _ => false end.
Definition goes_to_wait (t : thread T) : bool :=
  match t with Running PauseThread => true | _ => false end.
Definition pause_task (x : TPTask T) : bool :=
  match m_task x with PauseThread => true | _ => false end.
Definition pause_tasks (p : ThreadPool T) : nat :=
  length (filter (fun x => pause_task x = true) (m_pq p)).

Lemma threads_insert P tid old new (p : ThreadPool T) :
  m_threads p !! tid = Some old ->
  exists rest, threads_that P p = ((if P old then 1 else 0) + rest)%nat
    /\ threads_that P (set_thread tid new p) = ((if P new then 1 else 0) + rest)%nat.
Proof.
  intros Hold. exists (size (filter (fun kv : nat * thread T => P kv.2 = true) (delete tid (m_threads p)))).
  assert (Hins : forall x, size (filter (fun kv : nat * thread T => P kv.2 = true)
      (<[tid := x]> (delete tid (m_threads p))))
    = ((if P x then 1 else 0) + size (filter (fun kv : nat * thread T => P kv.2 = true)
         (delete tid (m_threads p))))%nat).
  { intros x. rewrite map_filter_insert. case_decide as Hx; simpl in Hx.
    - rewrite Hx, map_size_insert_None; [done|].
      apply map_lookup_filter_None. left. apply lookup_delete_eq.
    - apply not_true_is_false in Hx. rewrite Hx. by rewrite delete_delete_eq. }
  split.
  - rewrite <-Hins, insert_delete_id by done. done.
  - rewrite <-Hins. unfold set_thread, threads_that. cbn [m_threads].
    by rewrite insert_delete_eq.
Qed.

Lemma threads_le P (p : ThreadPool T) : (threads_that P p <= size (m_threads p))%nat.
Proof. unfold threads_that. apply map_subseteq_size, map_filter_subseteq. Qed.

Lemma push_many_eq n (j : job T) pr now (p : ThreadPool T) :
  exists l, push_many n j pr now p = (Ok tt, set_pq (m_pq p ++ l) p)
    /\ length l = n /\ Forall (fun x => m_task x = j) l.
Proof.
  revert now p. induction n as [|n IH]; intros now p.
  { exists []. split; [|done]. rewrite app_nil_r. by destruct p. }
  set (x := mk_TPTask j pr now).
  destruct (IH (now + 1) (set_pq (m_pq p ++ [x]) p)) as (l & E & Hl & Hall).
  exists (x :: l). split; [|split; [by simpl; rewrite Hl|by constructor]].
  cbn [push_many]. assert (E1 : zoom m_pq set_pq (WaitablePQ.Push x) p = (Ok tt, set_pq (m_pq p ++ [x]) p))
    by reflexivity.
  rewrite (bind_ok _ _ _ _ _ E1), E. unfold set_pq. cbn [m_pq m_deleted_threads m_threads m_total_threads
    m_tid m_pause_sem m_paused]. by rewrite <-app_assoc.
Qed.

Lemma pause_tasks_app (q l : list (TPTask T)) p :
  pause_tasks (set_pq (q ++ l) p)
  = (pause_tasks (set_pq q p) + pause_tasks (set_pq l p))%nat.
Proof. unfold pause_tasks, set_pq. cbn [m_pq]. by rewrite filter_app, length_app. Qed.

(** A pool of [n] threads that does not end, and the phases of [Pause]. *)
Record pausable (n : nat) (s : system) : Prop := {
  pz_size : m_total_threads (pool s) = n /\ size (m_threads (pool s)) = n;
  pz_tasks : Forall (fun x => m_task x <> EndThread) (m_pq (pool s));
  pz_threads : map_Forall (fun _ t => t <> Ended /\ t <> Running EndThread) (m_threads (pool s));
  pz_phase :
    match control s with
    | Normal => m_paused (pool s) = false /\ m_pause_sem (pool s) = 0%nat
        /\ pause_tasks (pool s) = 0%nat /\ threads_that goes_to_wait (pool s) = 0%nat
    | Pausing => m_paused (pool s) = true
        /\ (pause_tasks (pool s) + threads_that goes_to_wait (pool s) + m_pause_sem (pool s))%nat = n
        /\ (m_pause_sem (pool s) <= threads_that waits (pool s))%nat
    | Paused => m_paused (pool s) = true /\ m_pause_sem (pool s) = 0%nat
        /\ pause_tasks (pool s) = 0%nat /\ threads_that goes_to_wait (pool s) = 0%nat
        /\ threads_that waits (pool s) = n
    end;
}.

(** A thread waits that did not release the semaphore for the present call. *)
Definition stale (s : system) : Prop :=
  control s = Pausing /\ (m_pause_sem (pool s) < threads_that waits (pool s))%nat.

Lemma pausable_pop n s tid i p' :
  pausable n s -> thread_pop tid i (pool s) = (Ok tt, p') ->
  pausable n (mk_system p' (control s)) /\ (stale s -> stale (mk_system p' (control s))).
Proof.
  intros [[Ht Hs] Hq Hth Hph] E.
  destruct (thread_pop_Ok _ _ _ _ E) as (Hidle & x & q & Hperm & _ & ->).
  assert (Hx : m_task x <> EndThread /\ Forall (fun x => m_task x <> EndThread) q)
    by (rewrite Hperm in Hq; by apply Forall_cons in Hq).
  destruct (threads_insert waits tid Idle (Running (m_task x)) (set_pq q (pool s)) Hidle) as (rw & W0 & W1).
  destruct (threads_insert goes_to_wait tid Idle (Running (m_task x)) (set_pq q (pool s)) Hidle) as (rr & R0 & R1).
  assert (HQ : pause_tasks (pool s) = ((if pause_task x then 1 else 0) + length (filter (fun x => pause_task x = true) q))%nat).
  { unfold pause_tasks. rewrite Hperm, filter_cons. case_decide as Hd; rewrite ?Hd; [done|].
    apply not_true_is_false in Hd. by rewrite Hd. }
  change (threads_that waits (set_pq q (pool s))) with (threads_that waits (pool s)) in W0.
  change (threads_that goes_to_wait (set_pq q (pool s))) with (threads_that goes_to_wait (pool s)) in R0.
  set (p' := set_thread tid (Running (m_task x)) (set_pq q (pool s))) in *.
  assert (Hp' : pause_tasks p' = length (filter (fun x => pause_task x = true) q)
    /\ m_paused p' = m_paused (pool s) /\ m_pause_sem p' = m_pause_sem (pool s)) by done.
  destruct Hp' as (HQ' & Hpa & Hse).
  assert (HR : goes_to_wait (Running (m_task x)) = pause_task x) by (unfold pause_task; by destruct (m_task x)).
  cbn [waits goes_to_wait] in W0, W1, R0. rewrite HR in R1.
  split.
  - constructor; cbn [pool control].
    + split; [done|]. unfold p', set_thread, set_pq. cbn [m_threads].
      by rewrite map_size_insert_Some by by eexists.
    + apply Hx.
    + apply map_Forall_insert_2; [|done]. split; [done|]. intros [= Hbad]. by apply Hx.
    + destruct (control s); rewrite ?Hpa, ?Hse, ?HQ', ?W1, ?R1; lia || (split_and?; try tauto; lia).
  - intros [Hc Hlt]. split; [done|]. cbn [pool]. lia.
Qed.
Lemma pausable_done n s tid p' :
  pausable n s -> thread_done tid (pool s) = (Ok tt, p') ->
  pausable n (mk_system p' (control s)) /\ (stale s -> stale (mk_system p' (control s))).
Proof.
  intros [[Ht Hs] Hq Hth Hph] E. unfold thread_done in E.
  destruct (m_threads (pool s) !! tid) as [old|] eqn:Ei; [|done].
  assert (Hsize : forall new, size (<[tid := new]> (m_threads (pool s))) = n)
    by (intros new; rewrite map_size_insert_Some by (by eexists); done).
  assert (Hnew : forall new : thread T, new <> Ended -> new <> Running EndThread ->
    map_Forall (fun _ t => t <> Ended /\ t <> Running EndThread) (<[tid := new]> (m_threads (pool s))))
    by (intros new ? ?; by apply map_Forall_insert_2).
  pose proof (threads_insert waits tid old) as HW. pose proof (threads_insert goes_to_wait tid old) as HR.
  destruct old as [|[w| |]| |]; try done; injection E as <-.
  - destruct (HW Idle (pool s) Ei) as (rw & W0 & W1). destruct (HR Idle (pool s) Ei) as (rr & R0 & R1).
    cbn [waits goes_to_wait] in W0, W1, R0, R1. split.
    + constructor; cbn [pool control set_thread m_total_threads m_threads m_pq]; [done|done|by apply Hnew|].
      change (pause_tasks (set_thread tid Idle (pool s))) with (pause_tasks (pool s)).
      rewrite W1, R1, <-W0, <-R0. exact Hph.
    + intros [Hc Hlt]. split; [done|]. cbn [pool set_thread m_pause_sem]. fold (set_thread tid Idle (pool s)).
      lia.
  - by destruct (Hth tid _ Ei) as [_ []].
  - destruct (HW Waiting (pool s) Ei) as (rw & W0 & W1). destruct (HR Waiting (pool s) Ei) as (rr & R0 & R1).
    cbn [waits goes_to_wait] in W0, W1, R0, R1. unfold threads_that, set_thread in W1, R1.
    cbn [m_threads] in W1, R1.
    set (p' := mk_ThreadPool _ _ _ _ _ _ _).
    change (threads_that waits p' = 1 + rw)%nat in W1. change (threads_that goes_to_wait p' = 0 + rr)%nat in R1.
    assert (Hp' : pause_tasks p' = pause_tasks (pool s) /\ m_paused p' = m_paused (pool s)
      /\ m_pause_sem p' = S (m_pause_sem (pool s))) by done.
    destruct Hp' as (HQ' & Hpa & Hse). split.
    + constructor; cbn [pool control]; [split; [done|apply Hsize]|done|by apply Hnew|].
      destruct (control s); rewrite ?Hpa, ?Hse, ?HQ', ?W1, ?R1; lia || (split_and?; try tauto; lia).
    + intros [Hc Hlt]. split; [done|]. cbn [pool]. lia.
Qed.

Lemma pausable_wake n s tid p' :
  pausable n s -> thread_wake tid (pool s) = (Ok tt, p') ->
  pausable n (mk_system p' (control s)) /\ (stale s -> stale (mk_system p' (control s))).
Proof.
  intros [[Ht Hs] Hq Hth Hph] E. unfold thread_wake in E.
  destruct (m_threads (pool s) !! tid) as [[]|] eqn:Ei; try done.
  destruct (m_paused (pool s)) eqn:Ep; [done|]. injection E as <-.
  destruct (threads_insert goes_to_wait tid Waiting Idle (pool s) Ei) as (rr & R0 & R1).
  cbn [goes_to_wait] in R0, R1.
  assert (Hc : control s = Normal) by (destruct (control s); [done|by destruct Hph..]).
  rewrite Hc in Hph |- *. destruct Hph as (_ & Hsem & HQ & HR). split.
  - constructor; cbn [pool control].
    + split; [done|]. unfold set_thread. cbn [m_threads]. by rewrite map_size_insert_Some by (by eexists).
    + done.
    + by apply map_Forall_insert_2.
    + split; [done|]. split; [done|]. split; [exact HQ|lia].
  - by intros [Hbad _]; rewrite Hc in Hbad.
Qed.

Lemma pausable_step n s s' : pausable n s -> pstep s s' -> pausable n s' /\ (stale s -> stale s').
Proof.
  intros Hs Hstep.
  destruct Hstep as [t pr now s p' Hpr E|now s p' Hc E|s p' Hc E|s p' Hc E|tid i s p' E|tid s p' E|tid s p' E].
  - injection E as <-. destruct Hs as [Hsize Hq Hth Hph].
    set (p' := set_pq _ _).
    assert (HQ : pause_tasks p' = pause_tasks (pool s)).
    { unfold p', pause_tasks, set_pq. cbn [m_pq]. rewrite filter_app, length_app. simpl. lia. }
    split; [|done]. constructor; cbn [pool control]; [done| |done|].
    + apply Forall_app. split; [done|]. by repeat constructor.
    + rewrite HQ. exact Hph.
  - destruct Hs as [[Ht Hsz] Hq Hth Hph]. rewrite Hc in Hph. destruct Hph as (Hp & Hsem & HQ & HR).
    unfold Pause_begin in E. apply bind_ok_inv in E as ([] & p1 & E1 & E). injection E1 as <-.
    apply bind_ok_inv in E as (total & p2 & E2 & E). injection E2 as <- <-. cbn [m_total_threads] in E.
    destruct (push_many_eq (m_total_threads (pool s)) (PauseThread (T := T)) CRITICAL now
      (mk_ThreadPool (m_pq (pool s)) (m_deleted_threads (pool s)) (m_threads (pool s))
        (m_total_threads (pool s)) (m_tid (pool s)) (m_pause_sem (pool s)) true)) as (l & E' & Hl & Hall).
    rewrite E' in E. injection E as <-. cbn [m_pq].
    assert (HQl : length (filter (fun x : TPTask T => pause_task x = true) l) = n).
    { rewrite <-Ht, <-Hl. f_equal. apply filter_all. eapply Forall_impl; [exact Hall|].
      intros x Hx. unfold pause_task. by rewrite Hx. }
    split; [|by intros [Hbad _]; rewrite Hc in Hbad].
    constructor; cbn [pool control]; [done| |done|].
    + unfold set_pq. cbn [m_pq]. apply Forall_app. split; [done|].
      eapply Forall_impl; [exact Hall|]. by intros x ->.
    + split; [done|]. split; [|cbn [set_pq m_pause_sem]; lia].
      unfold pause_tasks at 1. cbn [set_pq m_pq m_pause_sem]. rewrite filter_app, length_app, HQl.
      unfold pause_tasks in HQ. rewrite HQ.
      change (threads_that goes_to_wait _) with (threads_that goes_to_wait (pool s)). lia.
  - destruct Hs as [[Ht Hsz] Hq Hth Hph]. rewrite Hc in Hph. destruct Hph as (Hp & Hsum & Hle).
    unfold Pause_end in E. destruct (Nat.leb_spec (m_total_threads (pool s)) (m_pause_sem (pool s))) as [Hge|]; [|done].
    injection E as <-. pose proof (threads_le waits (pool s)) as Hw. split.
    + constructor; cbn [pool control]; [done|done|done|]. cbn [m_pause_sem m_paused].
      change (pause_tasks _) with (pause_tasks (pool s)).
      change (threads_that goes_to_wait _) with (threads_that goes_to_wait (pool s)).
      change (threads_that waits _) with (threads_that waits (pool s)). split_and!; (done || lia).
    + intros [_ Hlt]. lia.
  - destruct Hs as [Hsize Hq Hth Hph]. rewrite Hc in Hph. injection E as <-. split.
    + constructor; cbn [pool control]; [done|done|done|]. cbn [m_pause_sem m_paused].
      change (pause_tasks _) with (pause_tasks (pool s)).
      change (threads_that goes_to_wait _) with (threads_that goes_to_wait (pool s)). tauto.
    + by intros [Hbad _]; rewrite Hc in Hbad.
  - by eapply pausable_pop.
  - by eapply pausable_done.
  - by eapply pausable_wake.
Qed.
Lemma pausable_steps n s s' :
  pausable n s -> psteps s s' -> pausable n s' /\ (stale s -> stale s').
Proof.
  intros Hs Hsteps. induction Hsteps as [|s1 s2 s3 Hstep _ IH]; [done|].
  destruct (pausable_step n s1 s2 Hs Hstep) as [Hs2 Hst]. destruct (IH Hs2) as [? ?]. tauto.
Qed.

(** The threads of a new pool. *)
Lemma new_threads_spec amount (p : ThreadPool T) :
  (forall tid, (m_tid p <= tid)%nat -> m_threads p !! tid = None) ->
  map_Forall (fun _ t => t = Idle) (m_threads p) ->
  let p' := new_threads amount p in
  m_pq p' = m_pq p /\ m_total_threads p' = m_total_threads p /\ m_pause_sem p' = m_pause_sem p
  /\ m_paused p' = m_paused p /\ size (m_threads p') = (size (m_threads p) + amount)%nat
  /\ map_Forall (fun _ t => t = Idle) (m_threads p').
Proof.
  revert p. induction amount as [|n IH]; intros p Hfree Hidle; [by rewrite Nat.add_0_r|].
  cbn [new_threads]. rewrite (Hfree (m_tid p)) by lia.
  set (p1 := mk_ThreadPool _ _ _ _ _ _ _).
  destruct (IH p1) as (-> & -> & -> & -> & -> & Hall).
  - intros tid Hle. unfold p1 in Hle |- *. cbn [m_tid m_threads] in *.
    rewrite lookup_insert_ne by lia. apply Hfree. lia.
  - by apply map_Forall_insert_2.
  - split_and!; try done. unfold p1. cbn [m_threads].
    rewrite map_size_insert_None by (apply Hfree; lia). lia.
Qed.

Lemma new_pausable n : pausable n (mk_system (new_ThreadPool n) Normal).
Proof.
  unfold new_ThreadPool, AddThreadsToPool. cbn [m_deleted_threads].
  set (p0 := mk_ThreadPool [] [] ∅ n 0 0 false).
  assert (Hr : reuse_threads n [] p0 = Ok (p0, n)) by (by destruct n). rewrite Hr. cbn [snd].
  destruct (new_threads_spec n p0) as (Hpq & Htot & Hsem & Hpa & Hsize & Hidle);
    [by intros; apply (lookup_empty (M := gmap nat))|by apply map_Forall_empty|].
  constructor; cbn [pool control].
  - split; [done|]. rewrite Hsize. change (size (m_threads p0)) with 0%nat. lia.
  - by rewrite Hpq.
  - eapply map_Forall_impl; [exact Hidle|]. by intros tid t ->.
  - split; [done|]. split; [done|]. unfold pause_tasks, threads_that. rewrite Hpq. split; [done|].
    rewrite map_size_empty_iff, map_empty. intros tid.
    apply map_lookup_filter_None_2. right. intros t Ht. by rewrite (Hidle tid t Ht).
Qed.

(** All threads wait when their number does. *)
Lemma all_wait n (p : ThreadPool T) :
  size (m_threads p) = n -> threads_that waits p = n ->
  map_Forall (fun _ t => t = Waiting) (m_threads p).
Proof.
  intros Hs Hw tid t Ht. destruct (waits t) eqn:E; [by destruct t|].
  destruct (threads_insert waits tid t Waiting p Ht) as (rest & W0 & W1). rewrite E in W0.
  pose proof (threads_le waits (set_thread tid Waiting p)) as Hle. unfold set_thread in Hle at 2.
  cbn [m_threads] in Hle. rewrite map_size_insert_Some in Hle by (by eexists).
  cbn [waits] in W1. lia.
Qed.

(** ** Properties *)

(** The pool runs the tasks by priority, and among equals the newest first:
    [operator<] is a strict weak order, as the priority queue needs, and the task
    that a thread takes has the highest priority of all that wait and was added
    last among those of its priority. *)
Theorem newest_first tid i (p p' : ThreadPool T) (E : thread_pop tid i p = (Ok tt, p')) :
  exists x q, m_pq p ≡ₚ x :: q /\ m_pq p' = q /\ m_threads p' !! tid = Some (Running (m_task x))
    /\ Forall (fun y => m_priority y < m_priority x
         \/ m_priority y = m_priority x /\ m_time_created y <= m_time_created x) (m_pq p).
Proof.
  destruct (thread_pop_Ok _ _ _ _ E) as (_ & x & q & Hq & Htop & ->).
  exists x, q. split; [done|]. split; [done|]. split; [apply lookup_insert_eq|].
  eapply Forall_impl; [exact Htop|]. intros y Hy. rewrite <-not_true_iff_false, TPTask_lt_true in Hy. lia.
Qed.

(** After [Pause] has returned, and until [Resume] is called, no task runs:
    every thread of the pool waits, none can take a task or be in the middle of
    one; tasks that are added stay in the queue. *)
Theorem fixed_pause_stops_work n s (Hs : psteps (mk_system (new_ThreadPool n) Normal) s)
    (Hp : control s = Paused) :
  size (m_threads (pool s)) = n
  /\ map_Forall (fun _ t => t = Waiting) (m_threads (pool s))
  /\ forall tid i, (thread_pop tid i (pool s)).1 = Blocked /\ (thread_done tid (pool s)).1 = Blocked
       /\ (thread_wake tid (pool s)).1 = Blocked.
Proof.
  destruct (pausable_steps n _ s (new_pausable n) Hs) as [[[Ht Hsz] _ _ Hph] _].
  rewrite Hp in Hph. destruct Hph as (Hpa & _ & _ & _ & Hw).
  pose proof (all_wait n (pool s) Hsz Hw) as Hall. split; [done|]. split; [done|].
  intros tid i. unfold thread_pop, thread_done, thread_wake. rewrite Hpa.
  destruct (m_threads (pool s) !! tid) as [t|] eqn:Et; [|done]. by rewrite (Hall tid t Et).
Qed.

(** [Pause] soon after [Resume] can hang: if a thread has not left the wait of
    the previous pause when [Pause] sets the flag again, it goes on waiting and
    never releases the semaphore, and [Pause] never returns, whatever the other
    threads do. *)
Theorem early_pause_hangs n s p' now (Hs : psteps (mk_system (new_ThreadPool n) Normal) s)
    (Hc : control s = Normal) (Hw : (0 < threads_that waits (pool s))%nat)
    (E : Pause_begin now (pool s) = (Ok tt, p')) :
  forall s', psteps (mk_system p' Pausing) s' -> control s' = Pausing.
Proof.
  destruct (pausable_steps n _ s (new_pausable n) Hs) as [Hpz _].
  destruct (pausable_step n s (mk_system p' Pausing) Hpz) as [Hpz' _]; [by eapply pstep_pause|].
  assert (Hst : stale (mk_system p' Pausing)).
  { split; [done|]. destruct Hpz as [_ _ _ Hph]. rewrite Hc in Hph. destruct Hph as (_ & Hsem & _ & _).
    unfold Pause_begin in E. apply bind_ok_inv in E as ([] & p1 & E1 & E). injection E1 as <-.
    apply bind_ok_inv in E as (total & p2 & E2 & E). injection E2 as <- <-.
    edestruct (push_many_eq (m_total_threads (pool s)) (PauseThread (T := T)) CRITICAL now) as (l & E' & _).
    cbn [m_total_threads] in E. rewrite E' in E. injection E as <-. cbn [pool set_pq m_pause_sem].
    rewrite Hsem. exact Hw. }
  intros s' Hs'. by apply (pausable_steps n _ s' Hpz' Hs').
Qed.
End pausing.

Lemma newest_first_witness :
  let p := mk_ThreadPool [mk_TPTask (Work 1%nat) LOW 3; mk_TPTask (Work 2%nat) LOW 4] []
             {[ 0%nat := Idle ]} 1 1 0 false in
  exists p' x q, thread_pop 0 1 p = (Ok tt, p')
    /\ m_pq p ≡ₚ x :: q /\ m_pq p' = q /\ m_threads p' !! 0%nat = Some (Running (m_task x))
    /\ Forall (fun y => m_priority y < m_priority x
         \/ m_priority y = m_priority x /\ m_time_created y <= m_time_created x) (m_pq p).
Proof.
  intros p. set (p' := (thread_pop 0 1 p).2).
  destruct (newest_first 0 1 p p' ltac:(vm_compute; reflexivity)) as (x & q & Hx).
  by exists p', x, q.
Defined.

(** A pool of one thread is paused. *)
Lemma one_thread_paused :
  exists s, psteps (mk_system (new_ThreadPool (T := nat) 1) Normal) s /\ control s = Paused
    /\ threads_that waits (pool s) = 1%nat.
Proof.
  eexists. split; [|split].
  - eapply rtc_l; [eapply (pstep_pause 5); vm_compute; reflexivity|].
    eapply rtc_l; [eapply (pstep_pop 0 0); vm_compute; reflexivity|].
    eapply rtc_l; [eapply (pstep_done 0); vm_compute; reflexivity|].
    eapply rtc_once, pstep_paused; vm_compute; reflexivity.
  - reflexivity.
  - vm_compute. reflexivity.
Qed.

Lemma fixed_pause_stops_work_witness :
  exists s : system (T := nat), control s = Paused
    /\ size (m_threads (pool s)) = 1%nat
    /\ map_Forall (fun _ t => t = Waiting) (m_threads (pool s))
    /\ forall tid i, (thread_pop tid i (pool s)).1 = Blocked /\ (thread_done tid (pool s)).1 = Blocked
         /\ (thread_wake tid (pool s)).1 = Blocked.
Proof.
  destruct one_thread_paused as (s & Hs & Hc & _). exists s. split; [done|].
  apply (fixed_pause_stops_work 1 s Hs Hc).
Defined.

Lemma early_pause_hangs_witness :
  exists (s : system (T := nat)) p', Pause_begin 9 (pool s) = (Ok tt, p')
    /\ forall s', psteps (mk_system p' Pausing) s' -> control s' = Pausing.
Proof.
  destruct one_thread_paused as (s & Hs & Hc & Hw).
  set (s1 := mk_system (Resume (pool s)).2 Normal).
  assert (Hs1 : psteps (mk_system (new_ThreadPool 1) Normal) s1)
    by (eapply rtc_r; [exact Hs|]; by apply pstep_resume).
  assert (E : Pause_begin 9 (pool s1) = (Ok tt, (Pause_begin 9 (pool s1)).2)).
  { unfold Pause_begin. run_prog.
    match goal with |- context [push_many ?n ?j ?pr ?t ?p] =>
      destruct (push_many_eq n j pr t p) as (l & -> & _) end. done. }
  exists s1, (Pause_begin 9 (pool s1)).2. split; [exact E|].
  apply (early_pause_hangs 1 s1 _ 9 Hs1); [done|change (threads_that waits (pool s1)) with (threads_that waits (pool s)); lia|exact E].
Defined.
