(* ===== verification/LoggerThread.v ===== *)
(** * LoggerThread

    [framework/src/logger.cpp] from the inside: the queue of messages, the thread
    that writes them to the file, and the destructor, which runs in another
    thread.  The rest of the development uses [Logger.v]. *)

From S2P Require Import Prelude Logger ThreadPool.

(** [std::tm], as far as it is used, and [std::localtime]. *)
Record tm : Set := mk_tm { tm_mday : Z; tm_mon : Z; tm_year : Z; tm_hour : Z; tm_min : Z }.

Record Message : Set := mk_Message {
  time_created : Z;
  text : string;
  sev : Severity;
}.

Definition s_sev_lut (s : Severity) : string :=
  match s with DEBUG => "DEBUG" | WARNING => "WARNING" | ERROR => "ERROR" end.

(** [std::setfill('0') << std::setw(n)] for a number. *)
Fixpoint zeros (n : nat) : string :=
  match n with O => "" | S n => "0" +:+ zeros n end.
Definition setw (n : nat) (z : Z) : string :=
  zeros (n - String.length (pretty z)) +:+ pretty z.

(** The worker: at the condition of its loop, in [Pop], with a message, at its
    end. The destructor: not called, after the push, after the assignment to
    [m_running], after the join. *)
Inductive worker : Set := AtLoop | InPop | Has (m : Message) | Finished.
Inductive destructor : Set := NotCalled | Pushed | Stopped | Joined.

#[export] Instance destructor_eq_dec : EqDecision destructor.
Proof. solve_decision. Defined.

Record Logger : Set := mk_Logger {
  m_queue : list Message;
  s_logger : list string;
  m_running : bool;
  m_thread : worker;
  m_destructor : destructor;
}.

Section LoggerThread.
Context (localtime : Z -> tm).

(** The line that [LogMessageTask] writes. *)
Definition LogMessageTask (message : Message) : string :=
  let now_tm := localtime (time_created message) in
  setw 2 (tm_mday now_tm) +:+ "." +:+ setw 2 (tm_mon now_tm + 1) +:+ "."
  +:+ setw 4 (tm_year now_tm + 1900) +:+ " " +:+ setw 2 (tm_hour now_tm) +:+ ":"
  +:+ setw 2 (tm_min now_tm) +:+ " [" +:+ s_sev_lut (sev message) +:+ "] " +:+ text message.

(** The constructor starts the thread. *)
Definition new_Logger : Logger := mk_Logger [] [] true AtLoop NotCalled.

Definition set_queue (q : list Message) (l : Logger) : Logger :=
  mk_Logger q (s_logger l) (m_running l) (m_thread l) (m_destructor l).

Definition Log (message : string) (s : Severity) (now : Z) : prog Logger unit :=
  zoom m_queue set_queue (WaitableQueue.Push (mk_Message now message s)).

(** One step of [LoggerRun]. *)
Definition LoggerRun_step : prog Logger unit := fun l =>
  match m_thread l with
  | AtLoop =>
      let go := m_running l || negb (bool_decide (m_queue l = [])) in
      (Ok tt, mk_Logger (m_queue l) (s_logger l) (m_running l) (if go then InPop else Finished)
                (m_destructor l))
  | InPop =>
      let '(r, q) := WaitableQueue.Pop (m_queue l) in
      match r with
      | Ok log => (Ok tt, mk_Logger q (s_logger l) (m_running l) (Has log) (m_destructor l))
      | _ => (Blocked, l)
      end
  | Has log =>
      (Ok tt, mk_Logger (m_queue l) (s_logger l ++ [LogMessageTask log]) (m_running l) AtLoop
                (m_destructor l))
  | Finished => (Blocked, l)
  end.

(** One step of [~Logger]. *)
Definition shutdown (now : Z) : Message := mk_Message now "Logger shut down" WARNING.

Definition destructor_step (now : Z) : prog Logger unit := fun l =>
  match m_destructor l with
  | NotCalled =>
      (Ok tt, mk_Logger (m_queue l ++ [shutdown now]) (s_logger l) (m_running l) (m_thread l) Pushed)
  | Pushed => (Ok tt, mk_Logger (m_queue l) (s_logger l) false (m_thread l) Stopped)
  | Stopped =>
      match m_thread l with
      | Finished => (Ok tt, mk_Logger (m_queue l) (s_logger l) (m_running l) (m_thread l) Joined)
      | _ => (Blocked, l)
      end
  | Joined => (Blocked, l)
  end.

(** Any thread logs until the destructor is called; [logged] is the history. *)
Inductive lstep : list Message * Logger -> list Message * Logger -> Prop :=
  | lstep_log message s now h l l' :
      m_destructor l = NotCalled -> Log message s now l = (Ok tt, l') ->
      lstep (h, l) (h ++ [mk_Message now message s], l')
  | lstep_worker h l l' : LoggerRun_step l = (Ok tt, l') -> lstep (h, l) (h, l')
  | lstep_destructor now h l l' :
      destructor_step now l = (Ok tt, l') ->
      lstep (h, l) (if decide (m_destructor l' = Pushed) then h ++ [shutdown now] else h, l').

Definition lsteps : list Message * Logger -> list Message * Logger -> Prop := rtc lstep.

(** ** The invariant *)

Definition in_hand (l : Logger) : list Message :=
  match m_thread l with Has m => [m] | _ => [] end.

Record in_order (s : list Message * Logger) : Prop := {
  io_lines : LogMessageTask <$> s.1
    = s_logger s.2 ++ (LogMessageTask <$> in_hand s.2 ++ m_queue s.2);
  io_running : m_running s.2 = false <-> m_destructor s.2 = Stopped \/ m_destructor s.2 = Joined;
  io_finished : m_thread s.2 = Finished -> m_running s.2 = false /\ m_queue s.2 = [];
  io_joined : m_destructor s.2 = Joined -> m_thread s.2 = Finished;
}.

Lemma lines_snoc h out x q m :
  LogMessageTask <$> h = out ++ (LogMessageTask <$> x ++ q) ->
  LogMessageTask <$> (h ++ [m]) = out ++ (LogMessageTask <$> x ++ (q ++ [m])).
Proof. intros E. rewrite fmap_app, E, !fmap_app, <-!app_assoc. done. Qed.

Lemma in_order_step s s' : in_order s -> lstep s s' -> in_order s'.
Proof.
  intros Hs Hstep. destruct Hstep as [message sv now h l l' Hd E|h l l' E|now h l l' E];
    destruct l as [q out run w d], Hs as [Hlines Hrun Hfin Hjoin];
    cbn [fst snd m_queue s_logger m_running m_thread m_destructor in_hand] in *.
  - injection E as <-. subst d.
    constructor; cbn [fst snd m_queue s_logger m_running m_thread m_destructor in_hand set_queue];
      [|done| |done].
    + by apply lines_snoc.
    + intros Hf. destruct (Hfin Hf) as [Hr _]. apply Hrun in Hr as [?|?]; done.
  - unfold LoggerRun_step in E. cbn [m_queue s_logger m_running m_thread m_destructor] in E.
    unfold in_hand in Hlines. cbn [m_thread] in Hlines.
    destruct w as [| |m|]; [| |injection E as <-|done].
    + injection E as <-. constructor; unfold in_hand;
        cbn [fst snd m_queue s_logger m_running m_thread m_destructor].
      * by destruct (run || negb (bool_decide (q = []))).
      * done.
      * destruct run; [done|]. case_bool_decide; done.
      * intros Hd. apply Hjoin in Hd. done.
    + destruct q as [|x q]; [done|]. injection E as <-. constructor; unfold in_hand;
        cbn [fst snd m_queue s_logger m_running m_thread m_destructor]; [done|done|done|].
      intros Hd. apply Hjoin in Hd. done.
    + constructor; unfold in_hand; cbn [fst snd m_queue s_logger m_running m_thread m_destructor];
        [|done|done|].
      * rewrite Hlines, <-app_assoc. done.
      * intros Hd. apply Hjoin in Hd. done.
  - unfold destructor_step in E. cbn [m_queue s_logger m_running m_thread m_destructor] in E.
    unfold in_hand in Hlines. cbn [m_thread] in Hlines.
    destruct d; [| |destruct w; try done|done]; injection E as <-;
      cbn [m_destructor]; (constructor; unfold in_hand;
        cbn [fst snd m_queue s_logger m_running m_thread m_destructor]).
    1: { rewrite decide_True by done. by apply lines_snoc. }
    all: try done; try tauto.
    all: try (rewrite decide_False by done; done).
    + rewrite Hrun. split; intros [?|?]; done.
    + intros Hf. destruct (Hfin Hf) as [Hr _]. apply Hrun in Hr as [?|?]; done.
Qed.

Lemma in_order_steps s s' : in_order s -> lsteps s s' -> in_order s'.
Proof. intros Hs H. induction H as [|s1 s2 s3 Hstep _ IH]; [done|]. by eapply IH, in_order_step. Qed.

Lemma new_in_order : in_order ([], new_Logger).
Proof. constructor; cbn; [done| |done|done]. split; [done|]. by intros [?|?]. Qed.

(** The worker can write everything and wait for more while the flag is set. *)
Lemma drain q w h out d :
  w <> Finished ->
  exists out', lsteps (h, mk_Logger q out true w d) (h, mk_Logger [] out' true InPop d).
Proof.
  assert (Hpop : forall q out, exists out',
    lsteps (h, mk_Logger q out true InPop d) (h, mk_Logger [] out' true InPop d)).
  { clear. induction q as [|x q IH]; intros out; [by exists out|].
    destruct (IH (out ++ [LogMessageTask x])) as [out' Hsteps]. exists out'.
    eapply rtc_l; [by apply lstep_worker|]. eapply rtc_l; [by apply lstep_worker|].
    eapply rtc_l; [by apply lstep_worker|]. exact Hsteps. }
  intros Hw. destruct w as [| |m|]; [| |destruct (Hpop q (out ++ [LogMessageTask m])) as [out' Hs]|done].
  - destruct (Hpop q out) as [out' Hs]. exists out'. eapply rtc_l; [by apply lstep_worker|]. exact Hs.
  - apply Hpop.
  - exists out'. eapply rtc_l; [by apply lstep_worker|]. eapply rtc_l; [by apply lstep_worker|]. exact Hs.
Qed.

(** ** Properties *)

(** C29: the log keeps the order: at every moment the lines in the file are the
    first of the messages logged, formatted, in order, and none is lost: the
    others are in the hand of the thread or in the queue; when the destructor has
    ended, all of them are in the file, the shutdown message last. *)
Theorem log_in_order h l (Hs : lsteps ([], new_Logger) (h, l)) :
  LogMessageTask <$> h = s_logger l ++ (LogMessageTask <$> in_hand l ++ m_queue l)
  /\ (m_destructor l = Joined -> s_logger l = LogMessageTask <$> h).
Proof.
  destruct (in_order_steps _ _ new_in_order Hs) as [Hlines _ Hfin Hjoin]. cbn [fst snd] in *.
  split; [done|]. intros Hd. specialize (Hjoin Hd). destruct (Hfin Hjoin) as [_ Hq].
  rewrite Hlines. unfold in_hand. by rewrite Hjoin, Hq, app_nil_r.
Qed.

(** The shutdown can deadlock: from every state in which the program can be
    when it destroys the logger, the worker can write the shutdown message and
    enter [Pop] again before the destructor clears [m_running]; then the worker
    waits for a message and the destructor for the worker, for ever. *)
Theorem shutdown_can_deadlock h l (Hs : lsteps ([], new_Logger) (h, l))
    (Hd : m_destructor l = NotCalled) :
  exists h' l', lsteps (h, l) (h', l') /\ m_destructor l' = Stopped
    /\ forall s, ~ lstep (h', l') s.
Proof.
  destruct (in_order_steps _ _ new_in_order Hs) as [_ Hrun Hfin _]. cbn [fst snd] in *.
  destruct l as [q out run w d]. cbn [m_queue s_logger m_running m_thread m_destructor] in *. subst d.
  assert (run = true) as -> by (destruct run; [done|by destruct (proj1 Hrun eq_refl)]).
  assert (Hw : w <> Finished) by (intros Hw; by destruct (Hfin Hw)).
  destruct (drain (q ++ [shutdown 0]) w (h ++ [shutdown 0]) out Pushed Hw) as [out' Hdrain].
  exists (h ++ [shutdown 0]), (mk_Logger [] out' false InPop Stopped). split; [|split; [done|]].
  - eapply rtc_l; [exact (lstep_destructor 0 h (mk_Logger q out true w NotCalled)
      (mk_Logger (q ++ [shutdown 0]) out true w Pushed) eq_refl)|].
    rewrite decide_True by done. eapply rtc_r; [exact Hdrain|].
    exact (lstep_destructor 0 (h ++ [shutdown 0]) (mk_Logger [] out' true InPop Pushed)
      (mk_Logger [] out' false InPop Stopped) eq_refl).
  - intros s Hstep. inversion Hstep; subst; done.
Qed.
End LoggerThread.

Definition epoch (now : Z) : tm := mk_tm 1 0 70 0 0.

Lemma log_in_order_witness :
  let l := mk_Logger [] ["01.01.1970 00:00 [DEBUG] hello"] true AtLoop NotCalled in
  let h := [mk_Message 5 "hello" DEBUG] in
  lsteps epoch ([], new_Logger) (h, l) /\
  LogMessageTask epoch <$> h = s_logger l ++ (LogMessageTask epoch <$> in_hand l ++ m_queue l)
  /\ (m_destructor l = Joined -> s_logger l = LogMessageTask epoch <$> h).
Proof.
  intros l h. assert (Hs : lsteps epoch ([], new_Logger) (h, l)).
  { eapply rtc_l; [by apply (lstep_log epoch "hello" DEBUG 5)|].
    eapply rtc_l; [by apply lstep_worker|]. eapply rtc_l; [by apply lstep_worker|].
    apply rtc_once. by apply lstep_worker. }
  split; [exact Hs|]. exact (log_in_order epoch h l Hs).
Defined.

Lemma shutdown_can_deadlock_witness :
  exists h' l', lsteps epoch ([], new_Logger) (h', l') /\ m_destructor l' = Stopped
    /\ forall s, ~ lstep epoch (h', l') s.
Proof. apply (shutdown_can_deadlock epoch [] new_Logger); [apply rtc_refl|reflexivity]. Defined.
