(* ===== verification/Reactor.v ===== *)
(** * Reactor

    [framework/src/reactor.cpp] and [listener.cpp]: the loop that waits for file
    descriptors and runs the functions registered for them.  The reactor is
    written against the interface [IListener] of the code; [LinuxListener]
    implements it with [select]. *)

From stdpp Require Import sorting.
From S2P Require Import Prelude TaskArgs.

(** ** IListener

    A listener waits for some of the pairs that it is given. *)
Class IListener (W : Type) : Type :=
  Listen : list (Z * FDMODE) -> prog W (list (Z * FDMODE)).

(** ** LinuxListener *)

(** The two sets of the code and [max_fd]. *)
Record fd_sets : Type := mk_fd_sets { read_fds : gset Z; write_fds : gset Z; max_fd : Z }.

Definition FD_SETSIZE : Z := 1024.

(** One step of the loop: [FD_SET] outside of the set is undefined. *)
Definition FD_SET (s : fd_sets) (x : Z * FDMODE) : res fd_sets :=
  let '(fd, mode) := x in
  require ((0 <=? fd) && (fd <? FD_SETSIZE)) ;;
  let m := max_fd s * Z.b2z (fd <? max_fd s) + fd * Z.b2z (max_fd s <=? fd) in
  mret match mode with
       | FD_READ => mk_fd_sets ({[fd]} ∪ read_fds s) (write_fds s) m
       | FD_WRITE => mk_fd_sets (read_fds s) ({[fd]} ∪ write_fds s) m
       end.

Fixpoint fill (fd_list : list (Z * FDMODE)) (s : fd_sets) : res fd_sets :=
  match fd_list with
  | [] => mret s
  | x :: fd_list => s ← FD_SET s x; fill fd_list s
  end.

Section LinuxListener.
Context {K : Type}.

(** [select n r w] waits and leaves the ready descriptors in the sets; [None] is
    the result [-1]. *)
Context (select : Z -> gset Z -> gset Z -> prog K (option (gset Z * gset Z))).

Definition LinuxListener_Listen (fd_list : list (Z * FDMODE)) : prog K (list (Z * FDMODE)) :=
  s ← lift (fill fd_list (mk_fd_sets ∅ ∅ 0));
  selected ← select (max_fd s + 1) (read_fds s) (write_fds s);
  match selected with
  | None => throw (runtime_error "select failed")
  | Some (r, w) => mret (filter (fun x => x.1 ∈ r \/ x.1 ∈ w) fd_list)
  end.
End LinuxListener.

(** ** Reactor *)

Record Reactor (H : Type) : Type := mk_Reactor {
  m_listen_funcs : gmap (Z * FDMODE) H;
  m_running : bool;
}.
Arguments mk_Reactor {H}.
Arguments m_listen_funcs {H} r.
Arguments m_running {H} r.

(** The order of [std::map] on its keys: descriptor, then mode. *)
Definition key_le (x y : Z * FDMODE) : Prop :=
  x.1 < y.1 \/ x.1 = y.1 /\ fdmode_value x.2 <= fdmode_value y.2.

#[export] Instance key_le_dec x y : Decision (key_le x y).
Proof. unfold key_le. apply _. Defined.

Definition keys {H} (m : gmap (Z * FDMODE) H) : list (Z * FDMODE) :=
  merge_sort key_le (map_to_list m).*1.

Section Reactor.
Context {H W : Type} `{!IListener W}.

(** [invoke h fd mode] runs a registered function; it can use the reactor. *)
Context (invoke : H -> Z -> FDMODE -> prog (Reactor H * W) unit).

(** [map::emplace] keeps an entry that exists. *)
Definition Register (fd : Z) (mode : FDMODE) (func : H) : prog (Reactor H) unit := fun r =>
  match m_listen_funcs r !! (fd, mode) with
  | Some _ => (Ok tt, r)
  | None => (Ok tt, mk_Reactor (<[(fd, mode) := func]> (m_listen_funcs r)) (m_running r))
  end.

Definition Unregister (fd : Z) (mode : FDMODE) : prog (Reactor H) unit :=
  modify (fun r => mk_Reactor (delete (fd, mode) (m_listen_funcs r)) (m_running r)).

Definition set_running (b : bool) : prog (Reactor H) unit :=
  modify (fun r => mk_Reactor (m_listen_funcs r) b).

Definition Stop : prog (Reactor H) unit := set_running false.

(** [m_listen_funcs.at(pair)(pair.first, pair.second)]. *)
Definition call (x : Z * FDMODE) : prog (Reactor H * W) unit :=
  func ← gets (fun s => m_listen_funcs s.1 !! x);
  match func with
  | Some func => invoke func x.1 x.2
  | None => throw (out_of_range "map::at")
  end.

(** One round of the loop of [Run]. *)
Definition round : prog (Reactor H * W) unit :=
  fd_list ← gets (fun s => keys (m_listen_funcs s.1));
  selected_fds ← on_snd (Listen fd_list);
  for_each call selected_fds.

(** [fuel] bounds the number of rounds; the loop of the code has no bound. *)
Fixpoint Run_loop (fuel : nat) : prog (Reactor H * W) unit :=
  running ← gets (fun s => m_running s.1);
  if running : bool then
    match fuel with
    | O => lift Blocked
    | S fuel => round ;; Run_loop fuel
    end
  else mret tt.

Definition Run (fuel : nat) : prog (Reactor H * W) unit :=
  on_fst (set_running true) ;; Run_loop fuel.
End Reactor.

(** ** The order of the keys *)

#[export] Instance key_le_total : Total key_le.
Proof. intros [a ma] [b mb]. unfold key_le. cbn [fst snd]. lia. Qed.

#[export] Instance key_le_trans : Transitive key_le.
Proof. intros [a ma] [b mb] [c mc]. unfold key_le. cbn [fst snd]. lia. Qed.

Section keys.
Context {H : Type}.
Implicit Types m : gmap (Z * FDMODE) H.

Lemma keys_sorted m : StronglySorted key_le (keys m).
Proof. apply StronglySorted_merge_sort; apply _. Qed.

Lemma keys_NoDup m : NoDup (keys m).
Proof. unfold keys. rewrite merge_sort_Permutation. apply NoDup_fst_map_to_list. Qed.

Lemma elem_of_keys m x : x ∈ keys m <-> is_Some (m !! x).
Proof.
  unfold keys. rewrite merge_sort_Permutation, list_elem_of_fmap. split.
  - intros ([y h] & -> & Hy%elem_of_map_to_list). by eexists.
  - intros [h Hx]. exists (x, h). by rewrite elem_of_map_to_list.
Qed.
End keys.

Lemma StronglySorted_filter {A} (R : relation A) (P : A -> Prop) `{forall x, Decision (P x)} l :
  StronglySorted R l -> StronglySorted R (filter P l).
Proof.
  induction 1 as [|x l Hl IH Hx]; [constructor|]. rewrite filter_cons.
  case_decide; [|done]. constructor; [done|].
  rewrite Forall_forall in *. intros y [_ Hy]%list_elem_of_filter. by apply Hx.
Qed.

(** ** What the listener does *)

Lemma FD_SET_ok s x :
  0 <= x.1 < FD_SETSIZE -> 0 <= max_fd s ->
  exists s', FD_SET s x = Ok s'
    /\ (forall fd, fd ∈ read_fds s' <-> (fd, FD_READ) = x \/ fd ∈ read_fds s)
    /\ (forall fd, fd ∈ write_fds s' <-> (fd, FD_WRITE) = x \/ fd ∈ write_fds s)
    /\ max_fd s <= max_fd s' /\ x.1 <= max_fd s'.
Proof.
  destruct x as [fd mode]. cbn [fst]. intros Hfd Hs. unfold FD_SET.
  rewrite (proj2 (Z.leb_le 0 fd)), (proj2 (Z.ltb_lt fd FD_SETSIZE)) by lia. cbn [andb require].
  set (m := max_fd s * _ + _).
  assert (Hm : max_fd s <= m /\ fd <= m).
  { unfold m. destruct (Z.ltb_spec fd (max_fd s)), (Z.leb_spec (max_fd s) fd); cbn [Z.b2z]; lia. }
  destruct mode; (eexists; split; [reflexivity|]); cbn [read_fds write_fds max_fd];
    (split; [|split; [|lia]]); intros fd'; rewrite ?elem_of_union, ?elem_of_singleton; naive_solver.
Qed.

(** After the loop the sets hold the descriptors of the list, by mode, and
    [max_fd] is not smaller than any of them. *)
Lemma fill_ok fd_list s :
  Forall (fun x => 0 <= x.1 < FD_SETSIZE) fd_list -> 0 <= max_fd s ->
  exists s', fill fd_list s = Ok s'
    /\ (forall fd, fd ∈ read_fds s' <-> (fd, FD_READ) ∈ fd_list \/ fd ∈ read_fds s)
    /\ (forall fd, fd ∈ write_fds s' <-> (fd, FD_WRITE) ∈ fd_list \/ fd ∈ write_fds s)
    /\ max_fd s <= max_fd s' /\ Forall (fun x => x.1 <= max_fd s') fd_list.
Proof.
  intros Hl. revert s. induction Hl as [|x l Hx _ IH]; intros s Hs.
  { exists s. split; [done|]. repeat setoid_rewrite elem_of_nil. split; [tauto|]. split; [tauto|].
    split; [lia|constructor]. }
  destruct (FD_SET_ok s x Hx Hs) as (s1 & E1 & Hr1 & Hw1 & Hle1 & Hx1).
  destruct (IH s1 ltac:(lia)) as (s2 & E2 & Hr2 & Hw2 & Hle2 & Hall). exists s2.
  cbn [fill]. rewrite E1. split; [exact E2|].
  split; [intros fd; rewrite Hr2, Hr1, elem_of_cons; tauto|].
  split; [intros fd; rewrite Hw2, Hw1, elem_of_cons; tauto|].
  split; [lia|]. constructor; [lia|exact Hall].
Qed.

Section properties.
Context {H K : Type} (select : Z -> gset Z -> gset Z -> prog K (option (gset Z * gset Z))).
Context (ready : K -> gset (Z * FDMODE)).

(** [select] looks at the descriptors below its first argument; it returns as soon
    as one of them is ready. *)
Definition select_spec : Prop := forall n r w k,
  let r' := filter (fun fd => fd < n /\ (fd, FD_READ) ∈ ready k) r in
  let w' := filter (fun fd => fd < n /\ (fd, FD_WRITE) ∈ ready k) w in
  r' ∪ w' <> ∅ -> select n r w k = (Ok (Some (r', w')), k).

(** Some entry of [m] for the descriptor [fd] is ready. *)
Definition awake (m : gmap (Z * FDMODE) H) (k : K) (fd : Z) : Prop :=
  exists mode, is_Some (m !! (fd, mode)) /\ (fd, mode) ∈ ready k.

Lemma Listen_ok (m : gmap (Z * FDMODE) H) k (Hselect : select_spec)
    (Hfds : forall x, is_Some (m !! x) -> 0 <= x.1 < FD_SETSIZE)
    (Hready : exists fd, awake m k fd) :
  exists r w, LinuxListener_Listen select (keys m) k
      = (Ok (filter (fun x => x.1 ∈ (r : gset Z) \/ x.1 ∈ (w : gset Z)) (keys m)), k)
    /\ forall fd, fd ∈ r \/ fd ∈ w <-> awake m k fd.
Proof.
  destruct (fill_ok (keys m) (mk_fd_sets ∅ ∅ 0)) as (s & E & Hr & Hw & _ & Hmax); [|done|].
  { rewrite Forall_forall. intros x Hx. by apply Hfds, elem_of_keys. }
  cbn [read_fds write_fds] in Hr, Hw. rewrite Forall_forall in Hmax.
  set (r := filter (fun fd => fd < max_fd s + 1 /\ (fd, FD_READ) ∈ ready k) (read_fds s)).
  set (w := filter (fun fd => fd < max_fd s + 1 /\ (fd, FD_WRITE) ∈ ready k) (write_fds s)).
  assert (Hawake : forall fd, fd ∈ r \/ fd ∈ w <-> awake m k fd).
  { intros fd. unfold r, w. rewrite !elem_of_filter, Hr, Hw. split.
    - intros [[[_ Hk] [Hin|?]]|[[_ Hk] [Hin|?]]]; [|set_solver| |set_solver];
        eexists; (split; [by apply elem_of_keys|exact Hk]).
    - intros (mode & Hin%elem_of_keys & Hk). pose proof (Hmax _ Hin) as Hle. cbn [fst] in Hle.
      destruct mode; [right|left]; (split; [split; [lia|done]|by left]). }
  exists r, w. split; [|done]. unfold LinuxListener_Listen. run_prog. rewrite E. cbn [fst snd].
  rewrite Hselect; [done|]. fold r w. destruct Hready as [fd [Hfd|Hfd]%Hawake]; set_solver.
Qed.

#[local] Instance linux : IListener K := LinuxListener_Listen select.
Context (invoke : H -> Z -> FDMODE -> prog (Reactor H * K) unit).

Lemma call_ok h x s : m_listen_funcs s.1 !! x = Some h -> call invoke x s = invoke h x.1 x.2 s.
Proof. intros E. unfold call. run_prog. by rewrite E. Qed.

(** The calls of a round, when no function removes an entry. *)
Lemma calls_ok (sel : list ((Z * FDMODE) * H)) s :
  (forall h fd mode s, m_listen_funcs s.1 ⊆ m_listen_funcs (invoke h fd mode s).2.1) ->
  Forall (fun p => m_listen_funcs s.1 !! p.1 = Some p.2) sel ->
  for_each (call invoke) sel.*1 s = for_each (fun p => invoke p.2 p.1.1 p.1.2) sel s.
Proof.
  intros Hkeep Hsel. revert s Hsel. induction sel as [|[[fd mode] h] sel IH]; intros s Hsel; [done|].
  apply Forall_cons in Hsel as [Hh Hsel]. cbn [fst snd] in Hh. cbn [fmap list_fmap for_each fst snd].
  run_prog. rewrite (call_ok h) by done. cbn [fst snd]. pose proof (Hkeep h fd mode s) as Hsub.
  destruct (invoke h fd mode s) as [[[]|e| |] s1]; try done. apply IH.
  eapply Forall_impl; [exact Hsel|]. intros p Hp. exact (lookup_weaken _ _ _ _ Hp Hsub).
Qed.

Lemma sel_of (m : gmap (Z * FDMODE) H) (l : list (Z * FDMODE)) :
  (forall x, x ∈ l -> is_Some (m !! x)) ->
  exists sel, sel.*1 = l /\ Forall (fun p => m !! p.1 = Some p.2) sel.
Proof.
  induction l as [|x l IH]; intros Hl; [by exists []|].
  destruct (Hl x) as [h Hx]; [apply list_elem_of_here|].
  destruct IH as (sel & E & Hsel); [intros y Hy; apply Hl; by apply list_elem_of_further|].
  exists ((x, h) :: sel). split; [cbn; by rewrite E|by constructor].
Qed.

(** C30: a round of the reactor runs the functions whose descriptor is ready, each
    once, in the order of the map: with [select] as documented, descriptors that
    fit into an [fd_set] and functions that do not unregister, none that is ready
    is missed. A descriptor is ready when any of its entries is: the listener
    does not keep the modes apart. *)
Theorem round_runs_ready (s : Reactor H * K) (Hselect : select_spec)
    (Hfds : forall x, is_Some (m_listen_funcs s.1 !! x) -> 0 <= x.1 < FD_SETSIZE)
    (Hready : exists fd, awake (m_listen_funcs s.1) s.2 fd)
    (Hkeep : forall h fd mode s, m_listen_funcs s.1 ⊆ m_listen_funcs (invoke h fd mode s).2.1) :
  exists sel : list ((Z * FDMODE) * H),
    (forall x h, (x, h) ∈ sel <->
       m_listen_funcs s.1 !! x = Some h /\ awake (m_listen_funcs s.1) s.2 x.1)
    /\ NoDup sel.*1 /\ StronglySorted key_le sel.*1
    /\ round invoke s = for_each (fun p => invoke p.2 p.1.1 p.1.2) sel s.
Proof.
  destruct s as [rc k]. cbn [fst snd] in *.
  destruct (Listen_ok _ k Hselect Hfds Hready) as (r & w & E & Hawake).
  set (l := filter _ _) in E.
  assert (Hl : forall x, x ∈ l <-> is_Some (m_listen_funcs rc !! x) /\ awake (m_listen_funcs rc) k x.1).
  { intros x. unfold l. rewrite list_elem_of_filter, Hawake, elem_of_keys. tauto. }
  destruct (sel_of (m_listen_funcs rc) l) as (sel & Esel & Hsel); [intros x Hx; by apply Hl|].
  exists sel. split; [|split; [|split]].
  - intros x h. split.
    + intros Hin. rewrite Forall_forall in Hsel. split; [exact (Hsel _ Hin)|].
      apply Hl. rewrite <-Esel. by apply (list_elem_of_fmap_2 fst) in Hin.
    + intros [Hx Ha]. assert (Hin : x ∈ l) by (apply Hl; split; [by eexists|done]).
      rewrite <-Esel in Hin. apply list_elem_of_fmap in Hin as ([x' h'] & -> & Hin).
      rewrite Forall_forall in Hsel. specialize (Hsel _ Hin). cbn [fst snd] in *. congruence.
  - rewrite Esel. apply NoDup_filter, keys_NoDup.
  - rewrite Esel. apply StronglySorted_filter, keys_sorted.
  - unfold round, Listen, linux. run_prog. cbn [fst snd]. rewrite E. cbn [fst snd].
    rewrite <-Esel. by apply calls_ok.
Qed.

(** [n] rounds that find [m_running] set. *)
Inductive rounds : nat -> Reactor H * K -> Reactor H * K -> Prop :=
  | rounds_O s : rounds 0 s s
  | rounds_S n s s1 s2 :
      m_running s.1 = true -> round invoke s = (Ok tt, s1) -> rounds n s1 s2 -> rounds (S n) s s2.

(** [Run] returns after the round in which a function calls [Stop]; the functions
    of that round that come later still run. *)
Lemma Run_stops n fuel s s' :
  rounds n (mk_Reactor (m_listen_funcs s.1) true, s.2) s' -> m_running s'.1 = false ->
  (n <= fuel)%nat -> Run invoke fuel s = (Ok tt, s').
Proof.
  intros Hn Hs' Hfuel. unfold Run, set_running. run_prog. cbn [fst snd].
  revert fuel Hfuel. induction Hn as [s0|n s0 s1 s2 Hr E _ IH]; intros fuel Hfuel;
    destruct fuel as [|fuel]; try lia; cbn [Run_loop]; run_prog; rewrite ?Hs', ?Hr; try done.
  rewrite E. apply IH; [done|lia].
Qed.

(** When the function of a descriptor unregisters one that was selected in the
    same round, [map::at] throws, and [Run] ends. *)
Lemma unregistered_in_round_throws x y f (rest : list (Z * FDMODE)) fuel (rc rc' : Reactor H) k k' :
  Listen (keys (m_listen_funcs rc)) k = (Ok (x :: y :: rest), k) ->
  m_listen_funcs rc !! x = Some f ->
  invoke f x.1 x.2 (mk_Reactor (m_listen_funcs rc) true, k) = (Ok tt, (rc', k')) ->
  m_listen_funcs rc' !! y = None ->
  Run invoke (S fuel) (rc, k) = (Throw (out_of_range "map::at"), (rc', k')).
Proof.
  intros El Ex Ef Ey. unfold Run, set_running. run_prog. cbn [fst snd Run_loop]. run_prog.
  cbn [fst snd m_running]. unfold round. run_prog. cbn [fst snd m_listen_funcs]. rewrite El.
  cbn [fst snd for_each]. run_prog.
  rewrite (call_ok f) by done. rewrite Ef. unfold call. run_prog. cbn [fst snd]. by rewrite Ey.
Qed.
End properties.

(** A [select] over the set of the ready pairs; the log of the calls. *)
Definition sample_world : Type := gset (Z * FDMODE) * list (Z * FDMODE).

Definition sample_select (n : Z) (r w : gset Z) : prog sample_world (option (gset Z * gset Z)) :=
  fun k =>
    let r' := filter (fun fd => fd < n /\ (fd, FD_READ) ∈ k.1) r in
    let w' := filter (fun fd => fd < n /\ (fd, FD_WRITE) ∈ k.1) w in
    if decide (r' ∪ w' = ∅) then (Blocked, k) else (Ok (Some (r', w')), k).

Definition sample_invoke (h : unit) (fd : Z) (mode : FDMODE)
    : prog (Reactor unit * sample_world) unit :=
  on_snd (modify (fun k => (k.1, k.2 ++ [(fd, mode)]))).

Lemma sample_select_spec : select_spec sample_select fst.
Proof. intros n r w k r' w' Hne. unfold sample_select. by rewrite decide_False. Qed.

Definition sample_reactor : Reactor unit :=
  mk_Reactor {[ (0, FD_READ) := tt; (5, FD_READ) := tt; (5, FD_WRITE) := tt; (7, FD_READ) := tt ]} true.

(** Descriptor 5 can be written and has nothing to read: both its functions run. *)
Example wrong_mode_called :
  (round (IListener0 := linux sample_select) sample_invoke
    (sample_reactor, ({[ (0, FD_READ); (5, FD_WRITE) ]}, []))).2.2.2
  = [(0, FD_READ); (5, FD_WRITE); (5, FD_READ)].
Proof. by vm_compute. Qed.

Lemma round_runs_ready_witness :
  let s := (sample_reactor, (({[ (0, FD_READ); (5, FD_WRITE) ]} : gset (Z * FDMODE)),
                             ([] : list (Z * FDMODE)))) in
  exists sel : list ((Z * FDMODE) * unit),
    (forall x h, (x, h) ∈ sel <->
       m_listen_funcs s.1 !! x = Some h /\ awake fst (m_listen_funcs s.1) s.2 x.1)
    /\ NoDup sel.*1 /\ StronglySorted key_le sel.*1
    /\ round (IListener0 := linux sample_select) sample_invoke s
       = for_each (fun p => sample_invoke p.2 p.1.1 p.1.2) sel s.
Proof.
  intros s. apply (round_runs_ready sample_select fst sample_invoke s sample_select_spec).
  - intros x [h Hx]. cbn [fst s m_listen_funcs sample_reactor] in Hx.
    repeat (apply lookup_insert_Some in Hx as [[<- _]|[_ Hx]]; [cbn [fst]; unfold FD_SETSIZE; lia|]).
    apply lookup_singleton_Some in Hx as [<- _]. cbn [fst]. unfold FD_SETSIZE. lia.
  - exists 0, FD_READ. split; [by eexists|]. set_solver.
  - intros h fd mode s'. done.
Defined.
