(* ===== verification/DirMonitor.v ===== *)
(** * DirMonitor

    [framework/src/dir_monitor.cpp]: the thread that reads the events of a
    directory from inotify, in the layout of the kernel, and reports the shared
    objects that were written or deleted. *)

From Stdlib.Strings Require Import Byte Ascii String.
From S2P Require Import Prelude Bytes Dispatcher.

(** [path.size() >= 3 && path.compare(path.size() - 3, 3, ".so") == 0]. *)
Definition IsSharedObject (path : string) : bool :=
  (3 <=? String.length path)%nat
  && bool_decide (substring (String.length path - 3) 3 path = ".so"%string).

Definition IN_CLOSE_WRITE : Z := 0x8.
Definition IN_DELETE : Z := 0x200.
Definition NAME_MAX : Z := 255.
Definition sizeof_inotify_event : Z := 16.

(** The size of [buffer]. *)
Definition buffer_size : Z := sizeof_inotify_event + NAME_MAX + 1.

(** A turn of the outer loop: the test finds [m_running] cleared; or [read] gives
    bytes, or [-1] and the value that [m_running] has then. *)
Inductive read_result : Set := Stopped | ReadBytes (bytes : list byte) | ReadFailed (running : bool).

(** A C string at the start of a buffer. *)
Fixpoint c_string (buffer : cells) : res string :=
  match buffer with
  | [] | None :: _ => Undefined
  | Some b :: buffer =>
      if Byte.eqb b Byte.x00 then mret EmptyString
      else s ← c_string buffer; mret (String (ascii_of_byte b) s)
  end.

Section DirMonitor.
Context {CB W : Type} (notify : CB -> string -> prog W unit).

Record DirMonitor : Type := mk_DirMonitor {
  m_dir_name : string;
  m_open_dispatcher : list CB;
  m_close_dispatcher : list CB;
}.

Definition RegisterOpen (plugin : CB) (m : DirMonitor) : DirMonitor :=
  mk_DirMonitor (m_dir_name m) (Register plugin (m_open_dispatcher m)) (m_close_dispatcher m).
Definition RegisterClose (plugin : CB) (m : DirMonitor) : DirMonitor :=
  mk_DirMonitor (m_dir_name m) (m_open_dispatcher m) (Register plugin (m_close_dispatcher m)).

(** The body of the inner loop behind the read of the event's fields; [name] is
    the memory behind the event. *)
Definition handle_event (m : DirMonitor) (mask : Z) (name : cells) : prog W unit :=
  opened ← lift (if negb (Z.land mask IN_CLOSE_WRITE =? 0)
                 then s ← c_string name; mret (IsSharedObject s) else mret false);
  if opened : bool then
    s ← lift (c_string name);
    Notify (fun cb => notify cb (m_dir_name m +:+ s)) (m_open_dispatcher m)
  else
    deleted ← lift (if negb (Z.land mask IN_DELETE =? 0)
                    then s ← c_string name; mret (IsSharedObject s) else mret false);
    if deleted : bool then
      s ← lift (c_string name);
      Notify (fun cb => notify cb (m_dir_name m +:+ s)) (m_close_dispatcher m)
    else mret tt.

(** The inner loop: [size] bytes are left, [buffer] starts at [ptr]. The fuel is
    the number of bytes: every event has 16 at least. *)
Fixpoint events_loop (m : DirMonitor) (fuel : nat) (size : Z) (buffer : cells) : prog W unit :=
  if 0 <? size then
    match fuel with
    | O => lift Blocked
    | S fuel =>
        '(_, rest) ← lift (load 4 buffer);
        '(mask, rest) ← lift (load 4 rest);
        '(_, rest) ← lift (load 4 rest);
        '(len, rest) ← lift (load 4 rest);
        handle_event m mask rest ;;
        events_loop m fuel (size - (sizeof_inotify_event + len)) (drop (Z.to_nat len) rest)
    end
  else mret tt.

(** [MonitorRun] over the turns of its loop; when there are no more it waits in
    [read]. A read overwrites the start of [buffer]. *)
Fixpoint MonitorRun_loop (m : DirMonitor) (buffer : cells) (reads : list read_result) : prog W unit :=
  match reads with
  | [] => lift Blocked
  | Stopped :: _ => mret tt
  | ReadFailed running :: _ =>
      if running : bool then throw (runtime_error "Error reading events") else mret tt
  | ReadBytes bytes :: reads =>
      let size := Z.of_nat (List.length bytes) in
      buffer ← lift (write_cells 0 (Some <$> bytes) buffer);
      (if size =? 0 then mret tt else events_loop m (List.length bytes) size buffer) ;;
      MonitorRun_loop m buffer reads
  end.

Definition MonitorRun (m : DirMonitor) (reads : list read_result) : prog W unit :=
  MonitorRun_loop m (replicate (Z.to_nat buffer_size) None) reads.
End DirMonitor.
Arguments DirMonitor CB : clear implicits.

(** ** The filter of names *)

Lemma append_length s1 s2 : String.length (s1 +:+ s2) = (String.length s1 + String.length s2)%nat.
Proof. induction s1 as [|c s1 IH]; [done|exact (f_equal S IH)]. Qed.

Lemma substring_all s : substring 0 (String.length s) s = s.
Proof. induction s as [|c s IH]; [done|]. cbn [substring String.length]. by rewrite IH. Qed.

Lemma substring_append s1 s2 :
  substring (String.length s1) (String.length s2) (s1 +:+ s2) = s2.
Proof. induction s1 as [|c s1 IH]; [apply substring_all|exact IH]. Qed.

Lemma split_at n s :
  (n <= String.length s)%nat -> exists s1, s = s1 +:+ substring n (String.length s - n) s.
Proof.
  revert n. induction s as [|c s IH]; intros n Hn; cbn [String.length] in *.
  - exists EmptyString. by destruct n.
  - destruct n as [|n].
    + exists EmptyString. cbn [Nat.sub substring]. by rewrite substring_all.
    + destruct (IH n ltac:(lia)) as [s1 E]. exists (String c s1).
      cbn [substring Nat.sub]. change (String c s = String c (s1 +:+ substring n (String.length s - n) s)).
      by f_equal.
Qed.

Lemma IsSharedObject_spec path :
  IsSharedObject path = true <-> exists name, path = name +:+ ".so"%string.
Proof.
  unfold IsSharedObject. rewrite andb_true_iff, Nat.leb_le, bool_decide_eq_true. split.
  - intros [Hlen E]. destruct (split_at (String.length path - 3) path) as [s1 Es]; [lia|].
    replace (String.length path - (String.length path - 3))%nat with 3%nat in Es by lia.
    exists s1. by rewrite E in Es.
  - intros [name ->]. rewrite append_length. split; [simpl; lia|].
    replace (_ - 3)%nat with (String.length name) by (simpl; lia). apply (substring_append name ".so").
Qed.

(** ** The events of the kernel *)

(** [struct inotify_event]: [pad] is the number of zero bytes behind the name; an
    event without a name has none. *)
Record event : Set := mk_event { wd : Z; mask : Z; cookie : Z; name : string; pad : nat }.

Definition event_len (e : event) : nat := (String.length (name e) + pad e)%nat.

Definition encode_event (e : event) : list byte :=
  le_bytes 4 (wd e) ++ le_bytes 4 (mask e) ++ le_bytes 4 (cookie e)
  ++ le_bytes 4 (Z.of_nat (event_len e))
  ++ list_byte_of_string (name e) ++ replicate (pad e) Byte.x00.

Definition encode_events (l : list event) : list byte := mjoin (encode_event <$> l).

Definition has (e : event) (bit : Z) : bool := negb (Z.land (mask e) bit =? 0).

(** Names hold no zero byte, and files that are closed or deleted have a name. *)
Record event_ok (e : event) : Prop := {
  ok_wd : in_u32 (wd e);
  ok_mask : in_u32 (mask e);
  ok_cookie : in_u32 (cookie e);
  ok_len : Z.of_nat (event_len e) < 2 ^ 32;
  ok_name : Forall (fun b => b <> Byte.x00) (list_byte_of_string (name e));
  ok_pad : has e IN_CLOSE_WRITE || has e IN_DELETE = true -> (0 < pad e)%nat;
}.

Section reports.
Context {CB W : Type} (notify : CB -> string -> prog W unit).
Implicit Types m : DirMonitor CB.

(** What an event stands for. *)
Definition report m (e : event) : prog W unit :=
  let path := m_dir_name m +:+ name e in
  if has e IN_CLOSE_WRITE && IsSharedObject (name e)
  then for_each (fun cb => notify cb path) (m_open_dispatcher m)
  else if has e IN_DELETE && IsSharedObject (name e)
  then for_each (fun cb => notify cb path) (m_close_dispatcher m)
  else mret tt.

Lemma c_string_ok s rest :
  Forall (fun b => b <> Byte.x00) (list_byte_of_string s) ->
  c_string ((Some <$> list_byte_of_string s) ++ Some Byte.x00 :: rest) = Ok s.
Proof.
  induction s as [|c s IH]; intros Hs; [done|].
  change (list_byte_of_string (String c s)) with (byte_of_ascii c :: list_byte_of_string s) in *.
  apply Forall_cons in Hs as [Hc Hs]. cbn [fmap list_fmap app c_string].
  destruct (Byte.eqb (byte_of_ascii c) Byte.x00) eqn:E.
  { by apply Byte.byte_dec_bl in E. }
  rewrite IH by done. cbn. by rewrite ascii_of_byte_of_ascii.
Qed.

Lemma handle_event_ok m e rest w :
  event_ok e ->
  handle_event notify m (mask e)
    ((Some <$> list_byte_of_string (name e) ++ replicate (pad e) Byte.x00) ++ rest) w
  = report m e w.
Proof.
  intros He. unfold handle_event, report. fold (has e IN_CLOSE_WRITE). fold (has e IN_DELETE).
  destruct (has e IN_CLOSE_WRITE || has e IN_DELETE) eqn:Hbits.
  2:{ apply orb_false_iff in Hbits as [-> ->]. done. }
  pose proof (ok_pad e He Hbits) as Hpad. destruct (pad e) as [|p]; [lia|].
  rewrite fmap_app. cbn [replicate fmap list_fmap]. rewrite <-app_assoc. cbn [app].
  rewrite (c_string_ok (name e)) by apply He.
  destruct (has e IN_CLOSE_WRITE), (has e IN_DELETE), (IsSharedObject (name e)) eqn:Es; try done;
    run_prog; rewrite Es; done.
Qed.

Lemma length_encode_event e : List.length (encode_event e) = (16 + event_len e)%nat.
Proof.
  unfold encode_event, event_len. rewrite !length_app, !length_le_bytes, length_replicate.
  unfold list_byte_of_string. rewrite length_map.
  assert (List.length (list_ascii_of_string (name e)) = String.length (name e)) as ->; [|lia].
  induction (name e) as [|c s IH]; [done|exact (f_equal S IH)].
Qed.

Lemma store_bytes n z : Some <$> le_bytes n z = store n z.
Proof. done. Qed.

Lemma events_loop_ok m l fuel rest w :
  Forall event_ok l -> (List.length l <= fuel)%nat ->
  events_loop notify m fuel (Z.of_nat (List.length (encode_events l)))
    ((Some <$> encode_events l) ++ rest) w
  = for_each (report m) l w.
Proof.
  intros Hl. revert fuel w. induction Hl as [|e l He _ IH]; intros fuel w Hfuel.
  { by destruct fuel. }
  cbn [List.length] in Hfuel. destruct fuel as [|fuel]; [lia|].
  change (encode_events (e :: l)) with (encode_event e ++ encode_events l).
  cbn [events_loop for_each]. rewrite length_app, length_encode_event.
  destruct (Z.ltb_spec 0 (Z.of_nat (16 + event_len e + List.length (encode_events l)))); [|lia].
  unfold encode_event. rewrite !fmap_app, <-!app_assoc.
  rewrite !store_bytes.
  pose proof He as [Hwd Hmask Hcookie Hlen Hname Hpad].
  run_prog. rewrite load_store by done. cbn [fst snd]. rewrite load_store by done. cbn [fst snd].
  rewrite load_store by done. cbn [fst snd]. rewrite load_store by (simpl; lia). cbn [fst snd].
  pose proof (handle_event_ok m e ((Some <$> encode_events l) ++ rest) w He) as Hh.
  rewrite fmap_app, <-app_assoc in Hh. rewrite Hh.
  destruct (report m e w) as [[[]|x| |] w']; try done.
  rewrite <-(IH fuel w') by lia. f_equal; [unfold sizeof_inotify_event; lia|].
  rewrite app_assoc, <-fmap_app, drop_app_length'; [done|].
  rewrite length_fmap. pose proof (length_encode_event e) as Hle. unfold encode_event in Hle.
  rewrite !length_app, !length_le_bytes in Hle. rewrite length_app. lia.
Qed.

Lemma length_encode_events l : (List.length l <= List.length (encode_events l))%nat.
Proof.
  induction l as [|e l IH]; [done|].
  change (encode_events (e :: l)) with (encode_event e ++ encode_events l).
  rewrite length_app, length_encode_event. cbn [List.length]. lia.
Qed.

Lemma read_into {A} data buffer (f : cells -> prog W A) w :
  (length data <= length buffer)%nat ->
  (lift (write_cells 0 data buffer) ≫= f) w = f (data ++ drop (List.length data) buffer) w.
Proof. intros H. by rewrite write_cells_ok by lia. Qed.

(** What every callback keeps is kept by the monitor, whatever bytes arrive and
    however it ends. *)
Lemma handle_event_inv (P : W -> Prop) m mask name w :
  (forall cb path w, P w -> P (notify cb path w).2) -> P w -> P (handle_event notify m mask name w).2.
Proof.
  intros HP Hw.
  assert (Hn : forall path l, P (for_each (fun cb => notify cb path) l w).2)
    by (intros path l; apply (for_each_inv P); [by intros cb w0 _; apply HP|done]).
  assert (Hlift : forall {A} (r : res A) (f : A -> prog W unit),
    (forall a, P (f a w).2) -> P ((lift r ≫= f) w).2)
    by (intros A [a|e| |] f Hf; [apply Hf|done..]).
  unfold handle_event, Notify. apply Hlift. intros [|].
  - apply Hlift. intros s. apply Hn.
  - apply Hlift. intros [|]; [|done]. apply Hlift. intros s. apply Hn.
Qed.

Lemma events_loop_inv (P : W -> Prop) m :
  (forall cb path w, P w -> P (notify cb path w).2) ->
  forall fuel size buffer w, P w -> P (events_loop notify m fuel size buffer w).2.
Proof.
  intros HP. induction fuel as [|fuel IH]; intros size buffer w Hw; cbn [events_loop];
    (destruct (0 <? size); [|done]); [done|].
  run_prog.
  destruct (load 4 buffer) as [[? r1]| | |]; cbn [fst snd]; try done.
  destruct (load 4 r1) as [[mask r2]| | |]; cbn [fst snd]; try done.
  destruct (load 4 r2) as [[? r3]| | |]; cbn [fst snd]; try done.
  destruct (load 4 r3) as [[len r4]| | |]; cbn [fst snd]; try done.
  pose proof (handle_event_inv P m mask r4 w HP Hw) as He.
  destruct (handle_event notify m mask r4 w) as [[[]|e| |] w']; cbn [fst snd] in *; try done.
  by apply IH.
Qed.

Lemma MonitorRun_inv (P : W -> Prop) m :
  (forall cb path w, P w -> P (notify cb path w).2) ->
  forall reads w, P w -> P (MonitorRun notify m reads w).2.
Proof.
  intros HP reads. unfold MonitorRun. generalize (replicate (Z.to_nat buffer_size) (None : cell)).
  induction reads as [|[|bytes|running] reads IH]; intros buffer w Hw; cbn [MonitorRun_loop];
    [done|done| |by destruct running].
  unfold mbind, prog_bind, lift. destruct (write_cells 0 _ buffer) as [buffer'|e| |]; try done.
  set (go := if Z.of_nat _ =? 0 then _ else _).
  assert (Hgo : P (go w).2).
  { unfold go. destruct (Z.of_nat (List.length bytes) =? 0); [done|]. by apply events_loop_inv. }
  destruct (go w) as [[[]|e| |] w']; cbn [fst snd] in *; try done. by apply IH.
Qed.

(** The loop on whole events, whatever the buffer held. *)
Lemma MonitorRun_loop_reports m (batches : list (list event)) (last : read_result) buffer (w : W) :
  last = Stopped \/ last = ReadFailed false ->
  Forall (Forall event_ok) batches ->
  Forall (fun l => Z.of_nat (List.length (encode_events l)) <= Z.of_nat (List.length buffer)) batches ->
  MonitorRun_loop notify m buffer (((fun l => ReadBytes (encode_events l)) <$> batches) ++ [last]) w
  = for_each (report m) (mjoin batches) w.
Proof.
  intros Hlast Hok. revert w buffer.
  induction Hok as [|l batches Hl _ IH]; intros w buffer Hsize; [by destruct Hlast as [-> | ->]|].
  apply Forall_cons in Hsize as [Hsz Hsize].
  change (mjoin (l :: batches)) with (l ++ mjoin batches). rewrite for_each_seq.
  cbn [fmap list_fmap app MonitorRun_loop]. rewrite read_into by (rewrite length_fmap; lia).
  set (go := if Z.of_nat _ =? 0 then _ else _).
  assert (Hgo : forall w, go w = for_each (report m) l w).
  { intros w'. unfold go. destruct (Z.eqb_spec (Z.of_nat (List.length (encode_events l))) 0) as [E|E].
    - destruct l as [|e l]; [done|]. change (encode_events (e :: l)) with (encode_event e ++ encode_events l) in E.
      rewrite length_app, length_encode_event in E. lia.
    - apply events_loop_ok; [done|]. apply length_encode_events. }
  unfold mbind, prog_bind. rewrite Hgo.
  destruct (for_each (report m) l w) as [[[]|e| |] w']; try done.
  apply IH. rewrite length_app, length_drop, length_fmap.
  by replace (_ + (_ - _))%nat with (List.length buffer) by lia.
Qed.
(** C31: the monitor reports the plugins: whatever the kernel puts into the reads,
    in whole events, the callbacks are told of every shared object that was
    closed after writing or deleted, with its path, once and in order, and of
    nothing else; the loop ends when [Stop] clears [m_running], whether the thread
    is told by the event that [inotify_rm_watch] queues or by a read that fails. *)
Theorem MonitorRun_reports m (batches : list (list event)) (last : read_result) (w : W)
    (Hlast : last = Stopped \/ last = ReadFailed false)
    (Hok : Forall (Forall event_ok) batches)
    (Hsize : Forall (fun l => Z.of_nat (List.length (encode_events l)) <= buffer_size) batches) :
  MonitorRun notify m (((fun l => ReadBytes (encode_events l)) <$> batches) ++ [last]) w
  = for_each (report m) (mjoin batches) w.
Proof.
  apply MonitorRun_loop_reports; [done..|]. by rewrite length_replicate, Z2Nat.id.
Qed.
End reports.

(** A read of two events, an empty one, and one more: the text file is ignored. *)
Definition sample_events : list (list event) :=
  [[mk_event 1 IN_CLOSE_WRITE 0 "read.so" 9; mk_event 1 IN_CLOSE_WRITE 0 "notes.txt" 7]; [];
   [mk_event 1 IN_DELETE 0 "read.so" 9]].

Definition sample_monitor : DirMonitor string := mk_DirMonitor "plugins/" ["load"] ["unload"].

Definition sample_notify (cb path : string) : prog (list (string * string)) unit :=
  modify (fun log => log ++ [(cb, path)]).

Lemma MonitorRun_reports_witness :
  MonitorRun sample_notify sample_monitor
    (((fun l => ReadBytes (encode_events l)) <$> sample_events) ++ [ReadFailed false]) []
  = for_each (report sample_notify sample_monitor) (mjoin sample_events) []
  /\ MonitorRun sample_notify sample_monitor
       (((fun l => ReadBytes (encode_events l)) <$> sample_events) ++ [ReadFailed false]) []
     = (Ok tt, [("load", "plugins/read.so"); ("unload", "plugins/read.so")]).
Proof.
  split; [|by vm_compute].
  apply MonitorRun_reports; unfold sample_events; [by right|..].
  - repeat constructor; done.
  - repeat constructor; done.
Defined.
