(* ===== verification/DLLLoader.v ===== *)
(** * DLLLoader

    [framework/src/dll_loader.cpp]: the plugins that are loaded, over the dynamic
    linker, and what the events of the plugin directory do to them. *)

From S2P Require Import Prelude Dispatcher DirMonitor.

(** ** The dynamic linker

    [refs l h] is the number of times that the handle [h] is open. *)
Class Linker (L : Type) : Type := {
  dlopen : string -> prog L (option Z);
  dlclose : Z -> prog L unit;
  refs : L -> Z -> nat;
}.

Class LinkerLaws (L : Type) `{!Linker L} : Prop := {
  dlopen_spec file l :
    (exists h l', dlopen file l = (Ok (Some h), l') /\ refs l' h = S (refs l h)
       /\ forall h', h' <> h -> refs l' h' = refs l h')
    \/ (exists l', dlopen file l = (Ok None, l') /\ forall h', refs l' h' = refs l h');
  dlclose_spec h l :
    refs l h <> 0%nat ->
    exists l', dlclose h l = (Ok tt, l') /\ S (refs l' h) = refs l h
      /\ forall h', h' <> h -> refs l' h' = refs l h';
}.

(** ** The loader *)

Section DLLLoader.
Context {L : Type} `{!Linker L}.

(** The state is [m_dll_map] and the linker. *)
Abbreviation DLLLoader := (gmap string Z).

Definition Load (file_name : string) : prog (DLLLoader * L) unit :=
  m_dll_map ← gets fst;
  match m_dll_map !! file_name with
  | Some _ => mret tt
  | None =>
      handler ← on_snd (dlopen file_name);
      match handler with
      | None => throw (runtime_error "Couldn't open plugin")
      | Some handler =>
          m_dll_map ← gets fst;
          match m_dll_map !! file_name with
          | Some _ => on_snd (dlclose handler)
          | None => on_fst (modify (insert file_name handler))
          end
      end
  end.

Definition Unload (file_name : string) : prog (DLLLoader * L) unit :=
  m_dll_map ← gets fst;
  match m_dll_map !! file_name with
  | None => throw (runtime_error "Plugin doesn't exist")
  | Some handler =>
      on_snd (dlclose handler) ;;
      on_fst (modify (delete file_name))
  end.

(** The destructor closes in the order of the map's iteration. *)
Definition delete_DLLLoader : prog (DLLLoader * L) unit :=
  m_dll_map ← gets fst;
  for_each (fun p : string * Z => on_snd (dlclose p.2)) (map_to_list m_dll_map).

(** ** The use by the framework

    [Framework::Framework] registers [Load] with the open dispatcher and [Unload]
    with the close dispatcher of its monitor. *)
Inductive plugin_callback : Set := OpenCallback | CloseCallback.

Definition notify_plugin (cb : plugin_callback) (path : string) : prog (DLLLoader * L) unit :=
  match cb with OpenCallback => Load path | CloseCallback => Unload path end.

Definition framework_monitor (plugins_dir_path : string) : DirMonitor plugin_callback :=
  RegisterClose CloseCallback (RegisterOpen OpenCallback (mk_DirMonitor plugins_dir_path [] [])).

(** ** The handles that the loader holds *)

Definition holding (m : gmap string Z) (h : Z) : nat := size (filter (fun p => p.2 = h) m).

Lemma holding_insert (m : gmap string Z) file h h' :
  m !! file = None ->
  holding (<[file := h]> m) h' = if decide (h' = h) then S (holding m h') else holding m h'.
Proof.
  intros Hm. unfold holding. rewrite map_filter_insert. cbn [snd].
  case_decide as E; case_decide; try congruence.
  - apply map_size_insert_None. apply map_lookup_filter_None. by left.
  - f_equal. by rewrite delete_id.
Qed.

Lemma holding_delete (m : gmap string Z) file h h' :
  m !! file = Some h ->
  holding m h' = if decide (h' = h) then S (holding (delete file m) h') else holding (delete file m) h'.
Proof.
  intros Hm. rewrite <-(insert_delete_id m file h) at 1 by done.
  apply holding_insert, lookup_delete_eq.
Qed.

(** Every handle is open as often as the loader holds it, on top of what was open
    before. *)
Definition balanced (l0 : L) (s : DLLLoader * L) : Prop :=
  forall h, refs s.2 h = (refs l0 h + holding s.1 h)%nat.

Context `{!LinkerLaws L}.

Lemma Load_balanced l0 file s : balanced l0 s -> balanced l0 (Load file s).2.
Proof.
  destruct s as [m l]. intros Hs. unfold Load. run_prog. cbn [fst snd].
  destruct (m !! file) as [h|] eqn:Em; [done|]. cbn [fst snd].
  destruct (dlopen_spec file l) as [(h & l' & -> & Hh & Hne)|(l' & -> & Hrefs)]; cbn [fst snd].
  - rewrite Em. intros h'. cbn [fst snd]. rewrite holding_insert by done. specialize (Hs h').
    cbn [fst snd] in Hs. case_decide as E; [subst; lia|]. by rewrite Hne.
  - intros h'. cbn [fst snd]. rewrite Hrefs. apply Hs.
Qed.

Lemma Unload_balanced l0 file s : balanced l0 s -> balanced l0 (Unload file s).2.
Proof.
  destruct s as [m l]. intros Hs. unfold Unload. run_prog. cbn [fst snd].
  destruct (m !! file) as [h|] eqn:Em; [|done]. cbn [fst snd].
  assert (Hh : refs l h <> 0%nat).
  { rewrite Hs. cbn [fst snd]. rewrite (holding_delete m file h h) by done. rewrite decide_True by done. lia. }
  destruct (dlclose_spec h l Hh) as (l' & -> & Hdec & Hne). cbn [fst snd]. intros h'. cbn [fst snd].
  specialize (Hs h'). cbn [fst snd] in Hs. rewrite (holding_delete m file h h') in Hs by done.
  case_decide as E; [subst; lia|]. by rewrite Hne.
Qed.

Lemma notify_plugin_balanced l0 cb path s : balanced l0 s -> balanced l0 (notify_plugin cb path s).2.
Proof. destruct cb; [apply Load_balanced|apply Unload_balanced]. Qed.

(** How often [h] is among the handles of a list of entries. *)
Definition among (h : Z) (l : list (string * Z)) : nat := count_occ Z.eq_dec l.*2 h.

Lemma among_map_to_list m h : among h (map_to_list m) = holding m h.
Proof.
  induction m as [|file h' m Hm IH] using map_ind; [done|].
  rewrite holding_insert by done. rewrite <-IH. clear IH. unfold among.
  assert (Hp : forall l1 l2 : list (string * Z), l1 ≡ₚ l2 ->
    count_occ Z.eq_dec l1.*2 h = count_occ Z.eq_dec l2.*2 h).
  { intros l1 l2 Hl. by apply Permutation_count_occ, fmap_Permutation. }
  rewrite (Hp _ _ (map_to_list_insert m file h' Hm)). cbn [fmap list_fmap snd count_occ].
  destruct (Z.eq_dec h' h); case_decide; congruence.
Qed.

Lemma close_all (es : list (string * Z)) (m : gmap string Z) l (n : Z -> nat) :
  (forall h, refs l h = (n h + among h es)%nat) ->
  exists l', for_each (fun p : string * Z => on_snd (S := gmap string Z) (dlclose p.2)) es (m, l) = (Ok tt, (m, l'))
    /\ forall h, refs l' h = n h.
Proof.
  revert l. induction es as [|[file h] es IH]; intros l Hl; cbn [for_each].
  { exists l. split; [done|]. intros h. rewrite Hl. unfold among. cbn. lia. }
  assert (Hc : forall h', among h' ((file, h) :: es) = if Z.eq_dec h h' then S (among h' es) else among h' es).
  { done. }
  destruct (dlclose_spec h l) as (l1 & E1 & Hdec & Hne).
  { rewrite Hl, Hc. destruct (Z.eq_dec h h); [lia|done]. }
  destruct (IH l1) as (l2 & E2 & Hl2).
  { intros h'. specialize (Hl h'). rewrite Hc in Hl. destruct (Z.eq_dec h h') as [<-|E]; [lia|].
    by rewrite Hne by congruence. }
  exists l2. split; [|done]. run_prog. cbn [fst snd]. rewrite E1. cbn [fst snd]. exact E2.
Qed.
End DLLLoader.

(** ** Properties *)

(** C32: the plugins that the framework loads are balanced: whatever the monitor
    reads from the kernel, and however its thread ends, every handle is open
    exactly as often as the loader holds it, and the destructor of the loader
    closes all of them, each as often as it was opened. *)
Theorem plugins_balanced {L} `{!Linker L} `{!LinkerLaws L} (dir : string) (reads : list read_result)
    (l0 : L) r m l1
    (E : MonitorRun notify_plugin (framework_monitor dir) reads (∅, l0) = (r, (m, l1))) :
  (forall h, refs l1 h = (refs l0 h + holding m h)%nat)
  /\ exists l2, delete_DLLLoader (m, l1) = (Ok tt, (m, l2)) /\ forall h, refs l2 h = refs l0 h.
Proof.
  assert (Hb : balanced l0 (m, l1)).
  { pose proof (MonitorRun_inv notify_plugin (balanced l0) (framework_monitor dir)
      (notify_plugin_balanced l0) reads (∅, l0)) as H. rewrite E in H. apply H.
    intros h. cbn [fst snd]. unfold holding. rewrite map_filter_empty, map_size_empty. lia. }
  split; [exact Hb|]. apply close_all. intros h. rewrite among_map_to_list. apply Hb.
Qed.

(** A shared object that was not loaded (it lay in the directory when the program
    started) is deleted: [Unload] throws in the thread of the monitor, where
    nothing catches. *)
Lemma unknown_plugin_throws {L} `{!Linker L} (dir : string) (e : event) reads m (l : L)
    (He : event_ok e) (Hsize : Z.of_nat (length (encode_event e)) <= buffer_size)
    (Hdel : has e IN_DELETE = true /\ has e IN_CLOSE_WRITE = false)
    (Hso : IsSharedObject (name e) = true) (Hm : m !! (dir +:+ name e) = None) :
  MonitorRun notify_plugin (framework_monitor dir) (ReadBytes (encode_event e) :: reads) (m, l)
  = (Throw (runtime_error "Plugin doesn't exist"), (m, l)).
Proof.
  destruct Hdel as [Hd Hc]. unfold MonitorRun. cbn [MonitorRun_loop].
  rewrite read_into by (rewrite length_fmap, length_replicate; lia).
  destruct (Z.eqb_spec (Z.of_nat (length (encode_event e))) 0) as [H0|H0];
    [rewrite length_encode_event in H0; lia|].
  set (rest := drop _ _).
  assert (Hl : encode_events [e] = encode_event e) by apply app_nil_r.
  pose proof (events_loop_ok notify_plugin (framework_monitor dir) [e] (length (encode_event e)) rest
    (m, l)) as H. rewrite Hl in H.
  unfold mbind, prog_bind. rewrite H; [|by apply Forall_singleton|cbn [length]; lia].
  cbn [for_each]. unfold report. rewrite Hc, Hd, Hso. cbn [andb].
  run_prog. cbn [for_each framework_monitor RegisterClose m_close_dispatcher Register app
    RegisterOpen m_dir_name notify_plugin]. unfold Unload. run_prog. cbn [fst snd]. by rewrite Hm.
Qed.

(** A file that is written again is not loaded again. *)
Lemma rewritten_plugin_ignored {L} `{!Linker L} file h (m : gmap string Z) (l : L) :
  m !! file = Some h -> notify_plugin OpenCallback file (m, l) = (Ok tt, (m, l)).
Proof. intros Hm. cbn [notify_plugin]. unfold Load. run_prog. cbn [fst snd]. by rewrite Hm. Qed.

(** A linker that opens every file; the handle is the length of the name. *)
#[export] Instance sample_linker : Linker (gmap Z nat) := {
  dlopen file := fun l =>
    let h := Z.of_nat (String.length file) in
    (Ok (Some h), <[h := S (default 0%nat (l !! h))]> l);
  dlclose h := fun l => (Ok tt, <[h := pred (default 0%nat (l !! h))]> l);
  refs l h := default 0%nat (l !! h);
}.

#[export] Instance sample_linker_laws : LinkerLaws (gmap Z nat).
Proof.
  split.
  - intros file l. left. eexists _, _. split; [reflexivity|]. unfold refs. cbn.
    rewrite lookup_insert_eq. split; [done|]. intros h' Hne. by rewrite lookup_insert_ne.
  - intros h l Hh. eexists. split; [reflexivity|]. unfold refs in *. cbn in *.
    rewrite lookup_insert_eq. cbn. split; [lia|]. intros h' Hne. by rewrite lookup_insert_ne.
Qed.

Lemma plugins_balanced_witness :
  let reads := [ReadBytes (encode_events
    [mk_event 1 IN_CLOSE_WRITE 0 "a.so" 4; mk_event 1 IN_CLOSE_WRITE 0 "b.so" 4;
     mk_event 1 IN_DELETE 0 "a.so" 4])] in
  let m : gmap string Z := {[ "plugins/b.so" := 12 ]} in
  let l1 : gmap Z nat := {[ 12 := 1%nat ]} in
  MonitorRun notify_plugin (framework_monitor "plugins/") reads (∅, ∅) = (Blocked, (m, l1)) /\
  (forall h, refs l1 h = (refs (∅ : gmap Z nat) h + holding m h)%nat)
  /\ exists l2, delete_DLLLoader (m, l1) = (Ok tt, (m, l2)) /\ forall h, refs l2 h = refs (∅ : gmap Z nat) h.
Proof.
  intros reads m l1.
  assert (E : MonitorRun notify_plugin (framework_monitor "plugins/") reads (∅, ∅) = (Blocked, (m, l1)))
    by by vm_compute.
  split; [exact E|]. exact (plugins_balanced "plugins/" reads ∅ Blocked m l1 E).
Defined.
