(* ===== verification/Shutdown.v ===== *)
(** * Shutdown

    The destructor of [framework/src/thread_pool.cpp]: it asks every thread to
    end, with the highest priority, and the members of the pool join them. *)

From S2P Require Import Prelude ThreadPool.

Section shutdown.
Context {T : Type}.
Implicit Types p : ThreadPool T.

(** [~ThreadPool]; after it the destructor of [m_threads] waits until every thread
    has ended. *)
Definition delete_ThreadPool (now : Z) : prog (ThreadPool T) unit :=
  total ← gets m_total_threads;
  RemoveThreadsFromPool total CRITICAL now.

Definition joined p : Prop := map_Forall (fun _ t => t = Ended) (m_threads p).

(** No thread can do a step. *)
Definition stuck p : Prop :=
  forall tid i, (thread_pop tid i p).1 = Blocked /\ (thread_done tid p).1 = Blocked.

(** ** The priorities of the tasks of the clients *)

Definition client_task (x : TPTask T) : Prop := m_priority x < CRITICAL /\ exists t, m_task x = Work t.

Definition ranked (s : system (T := T)) : Prop :=
  Forall (fun x => client_task x \/ m_task x = PauseThread) (m_pq (pool s)).

Lemma AddTask_Ok t pr now p p' :
  AddTask t pr now p = (Ok tt, p') -> p' = set_pq (m_pq p ++ [mk_TPTask (Work t) pr now]) p.
Proof. by intros [= <-]. Qed.

Lemma client_task_new t pr now :
  pr = LOW \/ pr = MEDIUM \/ pr = HIGH -> client_task (mk_TPTask (Work t) pr now).
Proof. intros Hpr. split; [by destruct Hpr as [->|[->| ->]]|by eexists]. Qed.

Lemma thread_done_pq tid p p' : thread_done tid p = (Ok tt, p') -> m_pq p' = m_pq p.
Proof.
  unfold thread_done. destruct (m_threads p !! tid) as [[|[]| |]|]; intros E; try discriminate E; by injection E as <-.
Qed.

Lemma ranked_step s s' : ranked s -> pstep s s' -> ranked s'.
Proof.
  unfold ranked. intros Hs Hstep.
  destruct Hstep as [t pr now s p' Hpr E|now s p' _ E|s p' _ E|s p' _ E|tid i s p' E|tid s p' E|tid s p' E];
    cbn [pool].
  - apply AddTask_Ok in E as ->. apply Forall_app. split; [done|].
    apply Forall_singleton. left. by apply client_task_new.
  - unfold Pause_begin in E. apply bind_ok_inv in E as ([] & p1 & E1 & E). injection E1 as <-.
    apply bind_ok_inv in E as (total & p2 & E2 & E). injection E2 as <- <-.
    match type of E with push_many ?n ?j ?pr ?t ?q = _ =>
      destruct (push_many_eq n j pr t q) as (l & E' & _ & Hall) end.
    rewrite E' in E. injection E as <-. apply Forall_app. split; [done|].
    eapply Forall_impl; [exact Hall|]. by right.
  - unfold Pause_end in E. destruct (_ <=? _)%nat; [|done]. by injection E as <-.
  - by injection E as <-.
  - apply thread_pop_Ok in E as (_ & x & q & Hq & _ & ->). rewrite Hq in Hs. apply Forall_cons in Hs as [_ Hs]. exact Hs.
  - by rewrite (thread_done_pq _ _ _ E).
  - unfold thread_wake in E. destruct (m_threads (pool s) !! tid) as [[]|]; try done.
    destruct (m_paused (pool s)); [done|]. by injection E as <-.
Qed.

Lemma ranked_steps s s' : ranked s -> psteps s s' -> ranked s'.
Proof. intros Hs H. induction H as [|s1 s2 s3 Hstep _ IH]; [done|]. by eapply IH, ranked_step. Qed.

(** ** The invariant of the shutdown *)

Definition end_task (x : TPTask T) : bool := match m_task x with EndThread => true | _ => false end.
Definition end_tasks p : nat := length (filter (fun x => end_task x = true) (m_pq p)).

(** Threads that have to take a task yet, and what is left to do for a thread: a
    job and an [EndThread], an [EndThread], the end of [EndThread]. *)
Definition needs (t : thread T) : bool :=
  match t with Idle | Running (Work _) => true | _ => false end.
Definition busy (t : thread T) : bool := match t with Running (Work _) => true | _ => false end.
Definition alive (t : thread T) : bool := match t with Ended => false | _ => true end.

Definition work_left p : nat :=
  (threads_that busy p + threads_that needs p + threads_that alive p)%nat.

Record ending p : Prop := {
  en_tasks : Forall (fun x => client_task x
    \/ m_task x = EndThread /\ m_priority x = CRITICAL) (m_pq p);
  en_count : end_tasks p = threads_that needs p;
  en_threads : map_Forall (fun _ t => t <> Waiting /\ t <> Running PauseThread) (m_threads p);
}.

Lemma count_pos P tid t p :
  m_threads p !! tid = Some t -> P t = true -> (0 < threads_that P p)%nat.
Proof.
  intros Ht HP. destruct (threads_insert P tid t t p Ht) as (r & E & _). rewrite HP in E. lia.
Qed.

(** An idle thread takes an [EndThread]. *)
Lemma ending_pop tid i p p' :
  ending p -> thread_pop tid i p = (Ok tt, p') -> ending p' /\ (work_left p' < work_left p)%nat.
Proof.
  intros [Htasks Hcount Hth] E. destruct (thread_pop_Ok _ _ _ _ E) as (Hidle & x & q & Hq & Htop & ->).
  assert (Hx : m_task x = EndThread).
  { assert (Hpos : (0 < end_tasks p)%nat) by (rewrite Hcount; by eapply count_pos).
    unfold end_tasks in Hpos. destruct (filter _ (m_pq p)) as [|y l] eqn:Ef; [simpl in Hpos; lia|].
    assert (Hy : y ∈ filter (fun x => end_task x = true) (m_pq p)) by (rewrite Ef; apply list_elem_of_here).
    apply list_elem_of_filter in Hy as [Hend Hin].
    rewrite Forall_forall in Htasks, Htop. specialize (Htop y Hin).
    destruct (Htasks y Hin) as [[_ [t Ht]]|[_ Hy]]; [unfold end_task in Hend; by rewrite Ht in Hend|].
    destruct (Htasks x) as [[Hlt _]|[Hx _]]; [rewrite Hq; apply list_elem_of_here| |done].
    rewrite <-not_true_iff_false, TPTask_lt_true in Htop. lia. }
  rewrite Hx. set (p1 := set_pq q p).
  destruct (threads_insert busy tid Idle (Running EndThread) p1 Hidle) as (rb & B0 & B1).
  destruct (threads_insert needs tid Idle (Running EndThread) p1 Hidle) as (rn & N0 & N1).
  destruct (threads_insert alive tid Idle (Running EndThread) p1 Hidle) as (ra & A0 & A1).
  cbn [busy needs alive] in *.
  change (threads_that busy p1) with (threads_that busy p) in B0.
  change (threads_that needs p1) with (threads_that needs p) in N0.
  change (threads_that alive p1) with (threads_that alive p) in A0.
  assert (HE : end_tasks p = S (length (filter (fun x => end_task x = true) q))).
  { unfold end_tasks. rewrite Hq, filter_cons, decide_True by (unfold end_task; by rewrite Hx). done. }
  split; [|unfold work_left; lia]. constructor.
  - rewrite Hq in Htasks. apply Forall_cons in Htasks as [_ Htasks]. exact Htasks.
  - rewrite N1. change (end_tasks _) with (length (filter (fun x => end_task x = true) q)). lia.
  - by apply map_Forall_insert_2.
Qed.

Lemma ending_done tid p p' :
  ending p -> thread_done tid p = (Ok tt, p') -> ending p' /\ (work_left p' < work_left p)%nat.
Proof.
  intros [Htasks Hcount Hth] E. unfold thread_done in E.
  destruct (m_threads p !! tid) as [old|] eqn:Ei; [|done].
  pose proof (fun new => threads_insert busy tid old new p Ei) as HB.
  pose proof (fun new => threads_insert needs tid old new p Ei) as HN.
  pose proof (fun new => threads_insert alive tid old new p Ei) as HA.
  destruct old as [|[w| |]| |]; try done; [| |by destruct (Hth tid _ Ei) as [_ []]].
  - injection E as <-. destruct (HB Idle) as (rb & B0 & B1), (HN Idle) as (rn & N0 & N1),
      (HA Idle) as (ra & A0 & A1). cbn [busy needs alive] in *. split; [|unfold work_left; lia].
    constructor; [done| |by apply map_Forall_insert_2].
    change (end_tasks (set_thread tid Idle p)) with (end_tasks p). lia.
  - destruct (HB Ended) as (rb & B0 & B1), (HN Ended) as (rn & N0 & N1), (HA Ended) as (ra & A0 & A1).
    cbn [busy needs alive] in *.
    assert (Hp : forall P, threads_that P p' = threads_that P (set_thread tid Ended p))
      by (by injection E as <-).
    assert (HE : end_tasks p' = end_tasks p) by (by injection E as <-).
    split; [|unfold work_left; rewrite !Hp; lia].
    constructor; [by injection E as <-|rewrite HE, Hp; lia|].
    injection E as <-. by apply map_Forall_insert_2.
Qed.

Lemma ending_add t pr now p p' :
  pr = LOW \/ pr = MEDIUM \/ pr = HIGH -> ending p -> AddTask t pr now p = (Ok tt, p') ->
  ending p' /\ work_left p' = work_left p.
Proof.
  intros Hpr [Htasks Hcount Hth] ->%AddTask_Ok. split; [|done]. constructor; [|..|done].
  - apply Forall_app. split; [done|]. apply Forall_singleton. left. by apply client_task_new.
  - change (threads_that needs (set_pq _ p)) with (threads_that needs p). rewrite <-Hcount.
    unfold end_tasks, set_pq. cbn [m_pq]. rewrite filter_app, length_app. simpl. lia.
Qed.

(** ** The state after the destructor's pushes *)

Lemma push_many_list n (j : job T) pr now p :
  exists l, push_many n j pr now p = (Ok tt, set_pq (m_pq p ++ l) p)
    /\ length l = n /\ Forall (fun x => m_task x = j /\ m_priority x = pr) l.
Proof.
  revert now p. induction n as [|n IH]; intros now p.
  { exists []. split; [|done]. rewrite app_nil_r. by destruct p. }
  destruct (IH (now + 1) (set_pq (m_pq p ++ [mk_TPTask j pr now]) p)) as (l & E & Hl & Hall).
  exists (mk_TPTask j pr now :: l). split; [|split; [by simpl; rewrite Hl|by constructor]].
  change (push_many n j pr (now + 1) (set_pq (m_pq p ++ [mk_TPTask j pr now]) p)
    = (Ok tt, set_pq (m_pq p ++ mk_TPTask j pr now :: l) p)).
  rewrite E. unfold set_pq. cbn [m_pq m_deleted_threads m_threads m_total_threads m_tid m_pause_sem
    m_paused]. by rewrite <-app_assoc.
Qed.

Lemma threads_all P p : map_Forall (fun _ t => P t = true) (m_threads p) ->
  threads_that P p = size (m_threads p).
Proof. intros HP. unfold threads_that. by rewrite map_filter_id by exact HP. Qed.

Lemma no_thread P tid t p : threads_that P p = 0%nat -> m_threads p !! tid = Some t -> P t = false.
Proof.
  intros H0 Ht. destruct (P t) eqn:E; [|done]. pose proof (count_pos P tid t p Ht E). lia.
Qed.

Lemma delete_ending n s p' now :
  pausable n s -> ranked s -> control s = Normal -> threads_that waits (pool s) = 0%nat ->
  delete_ThreadPool now (pool s) = (Ok tt, p') -> ending p' /\ size (m_threads p') = n.
Proof.
  intros [[Ht Hsz] Hq Hth Hph] Hrank Hc Hw E. rewrite Hc in Hph. destruct Hph as (_ & _ & HQ & HR).
  unfold delete_ThreadPool in E. apply bind_ok_inv in E as (total & p1 & E1 & E). injection E1 as <- <-.
  destruct (push_many_list (m_total_threads (pool s)) EndThread CRITICAL now (pool s)) as (l & E' & Hl & Hall).
  unfold RemoveThreadsFromPool in E. rewrite E' in E. injection E as <-. split; [|done].
  assert (Hclient : Forall client_task (m_pq (pool s))).
  { rewrite Forall_forall. intros x Hx. unfold ranked in Hrank. rewrite Forall_forall in Hrank.
    destruct (Hrank x Hx) as [?|Hp]; [done|]. exfalso.
    unfold pause_tasks in HQ. apply nil_length_inv in HQ.
    apply (not_elem_of_nil x). rewrite <-HQ. apply list_elem_of_filter. split; [|done].
    unfold pause_task. by rewrite Hp. }
  constructor.
  - apply Forall_app. split; (eapply Forall_impl; [eassumption|]); [by left|by right].
  - unfold end_tasks. cbn [set_pq m_pq]. rewrite filter_app, length_app.
    assert (H0 : length (filter (fun x : TPTask T => end_task x = true) (m_pq (pool s))) = 0%nat).
    { rewrite filter_none; [done|]. eapply Forall_impl; [exact Hclient|].
      intros x [_ [t Hx]]. unfold end_task. by rewrite Hx. }
    rewrite H0, filter_all, Hl.
    + cbn [Nat.add]. rewrite Ht, <-Hsz. symmetry. apply (threads_all needs (pool s)).
      intros tid t Htid. destruct (Hth tid t Htid) as [Hne He].
      pose proof (no_thread waits tid t (pool s) Hw Htid) as H1.
      pose proof (no_thread goes_to_wait tid t (pool s) HR Htid) as H2. by destruct t as [|[]| |].
    + eapply Forall_impl; [exact Hall|]. intros x [Hx _]. unfold end_task. by rewrite Hx.
  - intros tid t Htid.
    pose proof (no_thread waits tid t (pool s) Hw Htid) as H1.
    pose proof (no_thread goes_to_wait tid t (pool s) HR Htid) as H2. by destruct t as [|[]| |].
Qed.

(** A priority queue that is not empty has a top. *)
Lemma pq_top_exists {A} (lt : A -> A -> bool) (q : list A) :
  (forall a, lt a a = false) ->
  (forall a b c, lt a b = true -> lt b c = true -> lt a c = true) ->
  q <> [] -> exists x, x ∈ q /\ Forall (fun y => lt x y = false) q.
Proof.
  intros Hirr Htrans. induction q as [|x q IH]; [done|]. intros _.
  destruct q as [|y q]; [exists x; split; [apply list_elem_of_here|by apply Forall_singleton]|].
  destruct IH as (m & Hm & Hall); [done|]. destruct (lt m x) eqn:E.
  - exists x. split; [apply list_elem_of_here|]. constructor; [done|].
    eapply Forall_impl; [exact Hall|]. intros z Hz. cbn beta in *.
    destruct (lt x z) eqn:Exz; [|done]. by rewrite (Htrans m x z E Exz) in Hz.
  - exists m. split; [by apply list_elem_of_further|]. by constructor.
Qed.

(** A queue with elements has a top. *)
Lemma top_not_blocked {A} (lt : A -> A -> bool) (q : list A) :
  (forall a, lt a a = false) ->
  (forall a b c, lt a b = true -> lt b c = true -> lt a c = true) ->
  q <> [] -> exists i x q', WaitablePQ.Pop lt i q = (Ok x, q').
Proof.
  intros Hirr Htrans Hq. destruct (pq_top_exists lt q Hirr Htrans Hq) as (x & Hx & Htop).
  apply list_elem_of_lookup in Hx as [i Hi]. exists i, x, (delete i q).
  unfold WaitablePQ.Pop. rewrite Hi. unfold WaitablePQ.is_top.
  assert (forallb (fun y => negb (lt x y)) q = true) as ->; [|done].
  rewrite forallb_forall. intros y Hy%list_elem_of_In. rewrite Forall_forall in Htop. by rewrite Htop.
Qed.

Lemma Pop_not_blocked (q : list (TPTask T)) :
  q <> [] -> exists i x q', WaitablePQ.Pop TPTask_lt i q = (Ok x, q').
Proof. destruct (TPTask_lt_strict_weak (T := T)) as (Hirr & Htrans & _). by apply top_not_blocked. Qed.

Lemma stuck_joined p : ending p -> stuck p -> joined p.
Proof.
  intros [_ Hcount Hth] Hstuck tid t Ht. destruct (Hth tid t Ht) as [Hw Hp].
  destruct t as [|j| |]; [|exfalso|done|done].
  - exfalso. pose proof (count_pos needs tid Idle p Ht eq_refl) as Hpos.
    destruct (Pop_not_blocked (m_pq p)) as (i & x & q & E).
    { intros Hq. unfold end_tasks in Hcount. rewrite Hq in Hcount. simpl in Hcount. lia. }
    destruct (Hstuck tid i) as [Hb _]. unfold thread_pop in Hb. by rewrite Ht, E in Hb.
  - destruct (Hstuck tid 0%nat) as [_ Hb]. unfold thread_done in Hb. rewrite Ht in Hb. by destruct j.
Qed.

Lemma joined_stuck p : joined p -> stuck p.
Proof.
  intros Hj tid i. unfold thread_pop, thread_done.
  destruct (m_threads p !! tid) as [t|] eqn:Et; [|done]. by rewrite (Hj tid t Et).
Qed.
End shutdown.
