(* ===== verification/Handleton.v ===== *)
(** * Handleton

    [framework/include/handleton.hpp]: the registry of the objects of which the
    program has one each.  [GetInstance] as the steps of the threads that call it,
    from the executable and from shared objects. *)

From S2P Require Import Prelude.

(** The state of a [std::once_flag]; a flag that is not in the map was not used. *)
Inductive once : Set := RunBy (tid : nat) | Done.

(** Where a thread is in [GetInstance<T>], called from the shared object [lib]: at
    [call_once]; in the lambda, in front of the lock; behind the test of
    [contains], with the lock held, where either nothing is left to do or
    [operator[]] comes next; in [operator[]], which changes the table; at [new T],
    which is evaluated behind [operator[]] (C++17); behind [call_once], at [at]; with
    the result, a pointer that is null when there is no object. *)
Inductive point (K : Type) : Type :=
  | AtOnce (lib : nat) (T : K)
  | AtLock (lib : nat) (T : K)
  | AtInsert (lib : nat) (T : K)
  | Inserting (lib : nat) (T : K)
  | AtNew (lib : nat) (T : K)
  | AtUnlock (lib : nat) (T : K)
  | AtAt (lib : nat) (T : K)
  | Got (T : K) (object : option nat).
Arguments AtOnce {K}.
Arguments AtLock {K}.
Arguments AtInsert {K}.
Arguments Inserting {K}.
Arguments AtNew {K}.
Arguments AtUnlock {K}.
Arguments AtAt {K}.
Arguments Got {K}.

Section Handleton.
Context {K : Type} `{Countable K}.

(** [m_handletons] maps a [type_info] to a [shared_ptr], which is empty until
    [reset]; [objects] is the memory: the type of each object that was created. The
    flags are static variables of the instances of the template: one for each type
    and shared object. *)
Record Handleton : Type := mk_Handleton {
  m_handletons : gmap K (option nat);
  m_mtx : option nat;
  flags : gmap (nat * K) once;
  objects : list K;
  threads : gmap nat (point K);
}.

Definition new_Handleton : Handleton := mk_Handleton ∅ None ∅ [] ∅.

Implicit Types s : Handleton.

Definition goto (tid : nat) (pt : point K) s : Handleton :=
  mk_Handleton (m_handletons s) (m_mtx s) (flags s) (objects s) (<[tid := pt]> (threads s)).
Definition set_mtx (m : option nat) s : Handleton :=
  mk_Handleton (m_handletons s) m (flags s) (objects s) (threads s).
Definition set_flag (f : nat * K) (o : option once) s : Handleton :=
  mk_Handleton (m_handletons s) (m_mtx s) (partial_alter (fun _ => o) f (flags s)) (objects s) (threads s).
Definition set_entry (T : K) (p : option nat) s : Handleton :=
  mk_Handleton (<[T := p]> (m_handletons s)) (m_mtx s) (flags s) (objects s) (threads s).
Definition set_objects (l : list K) s : Handleton :=
  mk_Handleton (m_handletons s) (m_mtx s) (flags s) l (threads s).
Definition leave (tid : nat) s : Handleton :=
  mk_Handleton (m_handletons s) (m_mtx s) (flags s) (objects s) (delete tid (threads s)).

(** A thread changes the table. *)
Definition is_inserting (pt : point K) : bool :=
  match pt with Inserting _ _ => true | _ => false end.
Definition inserting s : bool :=
  bool_decide (map_Exists (fun _ pt => is_inserting pt = true) (threads s)).

(** A thread calls [GetInstance]: a new one, or one that has its result. *)
Definition enter (tid lib : nat) (T : K) : prog Handleton unit := fun s =>
  match threads s !! tid with
  | None | Some (Got _ _) => (Ok tt, goto tid (AtOnce lib T) s)
  | _ => (Blocked, s)
  end.

(** A step of a thread. [constructed] tells whether [new T] returns; when it
    throws, the lock is released and the flag is as if it had not been used, but the
    empty entry stays. [at] has no lock: it is undefined while another thread changes
    the table. *)
Definition step (tid : nat) (constructed : bool) : prog Handleton unit := fun s =>
  match threads s !! tid with
  | Some (AtOnce lib T) =>
      match flags s !! (lib, T) with
      | None => (Ok tt, goto tid (AtLock lib T) (set_flag (lib, T) (Some (RunBy tid)) s))
      | Some Done => (Ok tt, goto tid (AtAt lib T) s)
      | Some (RunBy _) => (Blocked, s)
      end
  | Some (AtLock lib T) =>
      match m_mtx s with
      | Some _ => (Blocked, s)
      | None =>
          let s := set_mtx (Some tid) s in
          (Ok tt, goto tid (match m_handletons s !! T with
                            | None => AtInsert lib T
                            | Some _ => AtUnlock lib T
                            end) s)
      end
  | Some (AtInsert lib T) => (Ok tt, goto tid (Inserting lib T) s)
  | Some (Inserting lib T) => (Ok tt, goto tid (AtNew lib T) (set_entry T None s))
  | Some (AtNew lib T) =>
      if constructed then
        (Ok tt, goto tid (AtUnlock lib T)
          (set_objects (objects s ++ [T]) (set_entry T (Some (length (objects s))) s)))
      else (Ok tt, leave tid (set_mtx None (set_flag (lib, T) None s)))
  | Some (AtUnlock lib T) =>
      (Ok tt, goto tid (AtAt lib T) (set_mtx None (set_flag (lib, T) (Some Done) s)))
  | Some (AtAt lib T) =>
      if inserting s then (Undefined, s)
      else match m_handletons s !! T with
           | Some object => (Ok tt, goto tid (Got T object) s)
           | None => (Throw (out_of_range "_Map_base::at"), s)
           end
  | _ => (Blocked, s)
  end.

(** The steps of a program in which only the constructors of the types [throws]
    throw. *)
Inductive hstep (throws : K -> Prop) : Handleton -> Handleton -> Prop :=
  | hstep_enter tid lib T s s' : enter tid lib T s = (Ok tt, s') -> hstep throws s s'
  | hstep_step tid constructed s s' :
      (forall lib T, threads s !! tid = Some (AtNew lib T) -> constructed = false -> throws T) ->
      step tid constructed s = (Ok tt, s') -> hstep throws s s'.

Definition hsteps (throws : K -> Prop) : Handleton -> Handleton -> Prop := rtc (hstep throws).

(** ** The invariant *)

Definition holds_lock (pt : point K) : bool :=
  match pt with AtInsert _ _ | Inserting _ _ | AtNew _ _ | AtUnlock _ _ => true | _ => false end.

(** The thread is in the lambda of the flag. *)
Definition runs_flag (pt : point K) : option (nat * K) :=
  match pt with
  | AtLock lib T | AtInsert lib T | Inserting lib T | AtNew lib T | AtUnlock lib T => Some (lib, T)
  | _ => None
  end.

(** What holds of a thread at a point. *)
Definition point_ok s (tid : nat) (pt : point K) : Prop :=
  (m_mtx s = Some tid <-> holds_lock pt = true)
  /\ (forall f, runs_flag pt = Some f -> flags s !! f = Some (RunBy tid))
  /\ match pt with
     | AtOnce _ _ | AtLock _ _ => True
     | AtInsert _ T | Inserting _ T => m_handletons s !! T = None
     | AtNew _ T => m_handletons s !! T = Some None /\ forall lib, flags s !! (lib, T) <> Some Done
     | AtUnlock _ T => is_Some (m_handletons s !! T)
     | AtAt lib T => flags s !! (lib, T) = Some Done
     | Got T object => m_handletons s !! T = Some object /\ exists lib, flags s !! (lib, T) = Some Done
     end.

Record registry (throws : K -> Prop) (s : Handleton) : Prop := {
  rg_typed : forall T object, m_handletons s !! T = Some (Some object) <-> objects s !! object = Some T;
  rg_empty : forall T, m_handletons s !! T = Some None ->
    throws T \/ exists tid lib, threads s !! tid = Some (AtNew lib T);
  rg_done : forall lib T, flags s !! (lib, T) = Some Done -> is_Some (m_handletons s !! T);
  rg_run : forall f tid, flags s !! f = Some (RunBy tid) ->
    exists pt, threads s !! tid = Some pt /\ runs_flag pt = Some f;
  rg_lock : forall tid, m_mtx s = Some tid -> is_Some (threads s !! tid);
  rg_points : map_Forall (point_ok s) (threads s);
}.

(** What the step of one thread leaves to the others. *)
Record kept (tid : nat) s s' : Prop := {
  kp_threads : forall tid', tid' <> tid -> threads s' !! tid' = threads s !! tid';
  kp_lock : forall tid', tid' <> tid -> m_mtx s' = Some tid' <-> m_mtx s = Some tid';
  kp_flags : forall f o, flags s !! f = Some o -> o <> RunBy tid -> flags s' !! f = Some o;
  kp_runs : forall f tid', tid' <> tid -> flags s' !! f = Some (RunBy tid') -> flags s !! f = Some (RunBy tid');
  kp_done : forall f, flags s' !! f = Some Done -> flags s !! f = Some Done \/ m_mtx s = Some tid;
  kp_map : forall lib T p, flags s !! (lib, T) = Some Done -> m_handletons s !! T = Some p ->
    m_handletons s' !! T = Some p;
  kp_same : m_handletons s' = m_handletons s \/ m_mtx s = Some tid;
}.

Lemma kept_point tid s s' tid' pt :
  kept tid s s' -> tid' <> tid -> point_ok s tid' pt -> point_ok s' tid' pt.
Proof.
  intros Hk Hne (Hlock & Hrun & Hpt). split; [by rewrite (kp_lock _ _ _ Hk)|]. split.
  { intros f Hf. apply (kp_flags _ _ _ Hk); [by apply Hrun|]. by intros [= ?]. }
  assert (Hsame : holds_lock pt = true ->
    m_handletons s' = m_handletons s /\ forall f, flags s' !! f = Some Done -> flags s !! f = Some Done).
  { intros Hl. apply Hlock in Hl. split.
    - destruct (kp_same _ _ _ Hk); [done|congruence].
    - intros f Hf. destruct (kp_done _ _ _ Hk f Hf); [done|congruence]. }
  destruct pt as [lib T|lib T|lib T|lib T|lib T|lib T|lib T|T object]; try done;
    try (destruct (Hsame eq_refl) as [-> Hd]; try done).
  - destruct Hpt as [He Hn]. split; [done|]. intros lib' ?%Hd. by eapply Hn.
  - by apply (kp_flags _ _ _ Hk).
  - destruct Hpt as [Ho [lib Hl]]. split; [by eapply (kp_map _ _ _ Hk)|].
    exists lib. by apply (kp_flags _ _ _ Hk).
Qed.

(** The part of the invariant that is about the stepping thread is left to prove. *)
Lemma registry_kept throws tid s s' :
  registry throws s -> kept tid s s' ->
  (forall T object, m_handletons s' !! T = Some (Some object) <-> objects s' !! object = Some T) ->
  (forall T, m_handletons s' !! T = Some None -> throws T \/ (exists lib, threads s' !! tid = Some (AtNew lib T))
     \/ (m_handletons s !! T = Some None /\ forall lib, threads s !! tid <> Some (AtNew lib T))) ->
  (forall lib T, flags s' !! (lib, T) = Some Done -> is_Some (m_handletons s' !! T)) ->
  (forall f, flags s' !! f = Some (RunBy tid) -> exists pt, threads s' !! tid = Some pt /\ runs_flag pt = Some f) ->
  (m_mtx s' = Some tid -> is_Some (threads s' !! tid)) ->
  (forall pt, threads s' !! tid = Some pt -> point_ok s' tid pt) ->
  registry throws s'.
Proof.
  intros Hs Hk Htyped Hempty Hdone Hrun Hlock Hpt. constructor; [done| |done| | |].
  - intros T [Ht|[[lib Hl]|[Hn Hne]]]%Hempty; [by left|right; eauto|].
    destruct (rg_empty _ _ Hs T Hn) as [Ht|(tid' & lib & Hx)]; [by left|]. right. exists tid', lib.
    rewrite (kp_threads _ _ _ Hk); [done|]. intros ->. by eapply Hne.
  - intros f tid' Hf. destruct (decide (tid' = tid)) as [->|Hne]; [by apply Hrun|].
    rewrite (kp_threads _ _ _ Hk) by done. apply (rg_run _ _ Hs). by apply (kp_runs _ _ _ Hk).
  - intros tid' Hm. destruct (decide (tid' = tid)) as [->|Hne]; [by apply Hlock|].
    rewrite (kp_threads _ _ _ Hk) by done. apply (rg_lock _ _ Hs). by apply (kp_lock _ _ _ Hk).
  - intros tid' pt Hx. destruct (decide (tid' = tid)) as [->|Hne]; [by apply Hpt|].
    rewrite (kp_threads _ _ _ Hk) in Hx by done. by eapply kept_point, (rg_points _ _ Hs).
Qed.

(** A step that leaves the map alone, of a thread that is not at [new]. *)
Lemma registry_quiet throws tid s s' :
  registry throws s -> kept tid s s' -> m_handletons s' = m_handletons s -> objects s' = objects s ->
  (forall lib T, threads s !! tid <> Some (AtNew lib T)) ->
  (forall lib T, flags s' !! (lib, T) = Some Done -> is_Some (m_handletons s !! T)) ->
  (forall f, flags s' !! f = Some (RunBy tid) -> exists pt, threads s' !! tid = Some pt /\ runs_flag pt = Some f) ->
  (m_mtx s' = Some tid -> is_Some (threads s' !! tid)) ->
  (forall pt, threads s' !! tid = Some pt -> point_ok s' tid pt) ->
  registry throws s'.
Proof.
  intros Hs Hk Em Eo Hnew Hdone Hrun Hlock Hpt.
  eapply registry_kept; [exact Hs|exact Hk| | | |exact Hrun|exact Hlock|exact Hpt]; rewrite Em.
  - rewrite Eo. apply (rg_typed _ _ Hs).
  - intros T Hn. right; right. by split.
  - exact Hdone.
Qed.

Lemma lookup_flag f o (s : Handleton) f' :
  flags (set_flag f o s) !! f' = if decide (f = f') then o else flags s !! f'.
Proof.
  unfold set_flag. cbn [flags]. case_decide as E; [subst; by rewrite lookup_partial_alter_eq|].
  by rewrite lookup_partial_alter_ne.
Qed.

Lemma goto_other tid pt (s : Handleton) tid' :
  tid' <> tid -> threads (goto tid pt s) !! tid' = threads s !! tid'.
Proof. intros Hne. by apply lookup_insert_ne, not_eq_sym. Qed.
Lemma goto_same tid pt (s : Handleton) : threads (goto tid pt s) !! tid = Some pt.
Proof. apply lookup_insert_eq. Qed.

(** A step that only moves its thread. *)
Lemma kept_goto tid pt (s : Handleton) : kept tid s (goto tid pt s).
Proof. constructor; try done; [intros; by apply goto_other|by left|by left]. Qed.

Lemma registry_goto throws tid s pt :
  registry throws s -> (forall lib T, threads s !! tid <> Some (AtNew lib T)) ->
  (forall f, flags s !! f = Some (RunBy tid) -> runs_flag pt = Some f) ->
  point_ok s tid pt -> registry throws (goto tid pt s).
Proof.
  intros Hs Hnew Hrun Hpt. eapply registry_quiet; [exact Hs|apply kept_goto|done|done|exact Hnew| | | |].
  - apply (rg_done _ _ Hs).
  - intros f Hf. exists pt. by rewrite goto_same, (Hrun f Hf).
  - intros _. rewrite goto_same. by eexists.
  - intros pt'. rewrite goto_same. by intros [= <-].
Qed.

(** Of a thread that is not in a lambda. *)
Lemma no_run throws s tid pt f :
  registry throws s -> threads s !! tid = Some pt -> runs_flag pt = None -> flags s !! f <> Some (RunBy tid).
Proof. intros Hs Ht Hn Hf. destruct (rg_run _ _ Hs _ _ Hf) as (pt' & Hx & E). congruence. Qed.

Lemma run_of throws s tid pt f f' :
  registry throws s -> threads s !! tid = Some pt -> runs_flag pt = Some f ->
  flags s !! f' = Some (RunBy tid) -> f' = f.
Proof. intros Hs Ht Hn Hf. destruct (rg_run _ _ Hs _ _ Hf) as (pt' & Hx & E). congruence. Qed.

Lemma registry_enter throws tid lib T s s' :
  registry throws s -> enter tid lib T s = (Ok tt, s') -> registry throws s'.
Proof.
  intros Hs E. unfold enter in E.
  assert (Hs' : s' = goto tid (AtOnce lib T) s
    /\ (threads s !! tid = None \/ exists T' o, threads s !! tid = Some (Got T' o))).
  { destruct (threads s !! tid) as [[]|]; try done; injection E as <-; eauto. }
  destruct Hs' as [-> Hold].
  assert (Hno : m_mtx s <> Some tid).
  { intros Hm. destruct Hold as [Hn|(T' & o & Hg)].
    - destruct (rg_lock _ _ Hs _ Hm) as [? Hx]. congruence.
    - destruct (rg_points _ _ Hs _ _ Hg) as [Hl _]. by apply Hl in Hm. }
  apply registry_goto; [done| | |].
  - intros lib' T' Ht. destruct Hold as [|(? & ? & ?)]; congruence.
  - intros f Hf. destruct (rg_run _ _ Hs _ _ Hf) as (pt' & Hx & Er).
    destruct Hold as [|(? & ? & ?)]; [congruence|]. by simplify_eq.
  - split; [split; [done|discriminate]|done].
Qed.

(** The first step of [call_once]: the flag is taken. *)
Lemma registry_once throws tid lib T s :
  registry throws s -> threads s !! tid = Some (AtOnce lib T) -> flags s !! (lib, T) = None ->
  registry throws (goto tid (AtLock lib T) (set_flag (lib, T) (Some (RunBy tid)) s)).
Proof.
  intros Hs Ht Hf. destruct (rg_points _ _ Hs _ _ Ht) as [Hl _].
  assert (Hflag : forall f o, o <> RunBy tid ->
    flags (set_flag (lib, T) (Some (RunBy tid)) s) !! f = Some o <-> flags s !! f = Some o).
  { intros f o Ho. rewrite lookup_flag. case_decide as E; [subst|done]. rewrite Hf. split; congruence. }
  eapply registry_quiet; [exact Hs| |done|done|by intros ? ?; rewrite Ht| | | |].
  - constructor; try done; [intros ? ?; by rewrite goto_other|..|by left].
    + intros f o Hfo Hne. by apply Hflag.
    + intros f tid' Hne Hr. apply (Hflag f (RunBy tid')) in Hr; [done|]. by intros [= ?].
    + intros f Hd. left. by apply Hflag in Hd.
  - intros lib' T' Hd. apply Hflag in Hd; [|done]. by apply (rg_done _ _ Hs _ _ Hd).
  - intros f. rewrite goto_same. cbn [goto flags]. rewrite lookup_flag.
    case_decide as E; [subst; eauto|]. intros Hr. by destruct (no_run _ _ _ _ f Hs Ht eq_refl).
  - rewrite goto_same. by eexists.
  - intros pt. rewrite goto_same. intros [= <-]. split; [exact Hl|]. split; [|done].
    intros f [= <-]. cbn [goto flags]. rewrite lookup_flag. by rewrite decide_True.
Qed.

Lemma registry_lock throws tid lib T s :
  registry throws s -> threads s !! tid = Some (AtLock lib T) -> m_mtx s = None ->
  registry throws (goto tid (match m_handletons s !! T with None => AtInsert lib T | Some _ => AtUnlock lib T end)
    (set_mtx (Some tid) s)).
Proof.
  intros Hs Ht Hm. destruct (rg_points _ _ Hs _ _ Ht) as (_ & Hr & _).
  set (pt := match m_handletons s !! T with None => _ | Some _ => _ end).
  assert (Hpt : pt = AtInsert lib T /\ m_handletons s !! T = None
                \/ pt = AtUnlock lib T /\ is_Some (m_handletons s !! T)).
  { unfold pt. destruct (m_handletons s !! T); eauto. }
  clearbody pt. eapply registry_quiet; [exact Hs| |done|done|by intros ? ?; rewrite Ht| | | |].
  - constructor; try done; [intros ? ?; by rewrite goto_other|..|by left|by left].
    intros tid' Hne. rewrite Hm. cbn. naive_solver.
  - apply (rg_done _ _ Hs).
  - intros f Hf. exists pt. rewrite goto_same. split; [done|].
    rewrite (run_of _ _ _ _ _ _ Hs Ht eq_refl Hf). by destruct Hpt as [[-> _]|[-> _]].
  - rewrite goto_same. by eexists.
  - intros pt'. rewrite goto_same. intros [= <-].
    destruct Hpt as [[-> Hn]|[-> Hn]]; (split; [done|]; split; [exact Hr|exact Hn]).
Qed.

Lemma lock_holder throws s tid pt :
  registry throws s -> threads s !! tid = Some pt -> holds_lock pt = true -> m_mtx s = Some tid.
Proof. intros Hs Ht Hl. by apply (rg_points _ _ Hs tid pt Ht). Qed.

(** [operator[]] has made an empty entry. *)
Lemma registry_insert throws tid lib T s :
  registry throws s -> threads s !! tid = Some (Inserting lib T) ->
  registry throws (goto tid (AtNew lib T) (set_entry T None s)).
Proof.
  intros Hs Ht. pose proof (lock_holder _ _ _ _ Hs Ht eq_refl) as Hm.
  destruct (rg_points _ _ Hs _ _ Ht) as (Hl & Hr & Hn).
  assert (Hno : forall lib', flags s !! (lib', T) <> Some Done).
  { intros lib' [? Hd]%(rg_done _ _ Hs). congruence. }
  eapply registry_kept; [exact Hs|..]; cbn [goto set_entry m_handletons objects flags m_mtx].
  - constructor; try done; [intros ? ?; by rewrite goto_other|by left| |by right].
    intros lib' T' p Hd Hp. cbn [goto set_entry m_handletons]. rewrite lookup_insert_ne; congruence.
  - intros T' o. rewrite <-(rg_typed _ _ Hs). destruct (decide (T = T')) as [<-|Hne].
    + rewrite lookup_insert_eq. split; congruence.
    + by rewrite lookup_insert_ne.
  - intros T' Hx. destruct (decide (T = T')) as [<-|Hne].
    + right; left. exists lib. apply goto_same.
    + right; right. rewrite lookup_insert_ne in Hx by done. split; [done|congruence].
  - intros lib' T' Hd. destruct (decide (T = T')) as [<-|Hne]; [by destruct (Hno lib')|].
    rewrite lookup_insert_ne by done. by apply (rg_done _ _ Hs lib').
  - intros f Hf. exists (AtNew lib T). split; [apply goto_same|].
    by rewrite (run_of _ _ _ _ _ _ Hs Ht eq_refl Hf).
  - intros _. eexists. apply goto_same.
  - intros pt. rewrite (goto_same tid (AtNew lib T) (set_entry T None s)). intros [= <-].
    split; [done|]. split; [exact Hr|]. split; [|exact Hno].
    cbn [goto set_entry m_handletons]. apply lookup_insert_eq.
Qed.

(** The entry gets its object. *)
Lemma registry_new throws tid lib T s :
  registry throws s -> threads s !! tid = Some (AtNew lib T) ->
  registry throws (goto tid (AtUnlock lib T)
    (set_objects (objects s ++ [T]) (set_entry T (Some (length (objects s))) s))).
Proof.
  intros Hs Ht. pose proof (lock_holder _ _ _ _ Hs Ht eq_refl) as Hm.
  destruct (rg_points _ _ Hs _ _ Ht) as (Hl & Hr & He & Hno).
  eapply registry_kept; [exact Hs|..]; cbn [goto set_objects set_entry m_handletons objects flags m_mtx].
  - constructor; try done; [intros ? ?; by rewrite goto_other|by left| |by right].
    intros lib' T' p Hd Hp. cbn [goto set_objects set_entry m_handletons].
    rewrite lookup_insert_ne; [done|]. intros ->. by eapply Hno.
  - intros T' o. rewrite lookup_snoc_Some. destruct (decide (T = T')) as [<-|Hne].
    + rewrite lookup_insert_eq. split; [intros [= <-]; by right|].
      intros [[_ Ho]|[-> _]]; [|done]. apply (rg_typed _ _ Hs) in Ho. congruence.
    + rewrite lookup_insert_ne by done. rewrite (rg_typed _ _ Hs). split.
      * intros Ho. left. split; [by eapply lookup_lt_Some|done].
      * intros [[_ Ho]|[_ ?]]; [done|congruence].
  - intros T' Hx. destruct (decide (T = T')) as [<-|Hne]; [by rewrite lookup_insert_eq in Hx|].
    rewrite lookup_insert_ne in Hx by done. right; right. split; [done|congruence].
  - intros lib' T' Hd. destruct (decide (T = T')) as [<-|Hne]; [by destruct (Hno lib')|].
    rewrite lookup_insert_ne by done. by apply (rg_done _ _ Hs lib').
  - intros f Hf. exists (AtUnlock lib T). split; [apply goto_same|].
    by rewrite (run_of _ _ _ _ _ _ Hs Ht eq_refl Hf).
  - intros _. eexists. apply goto_same.
  - intros pt. rewrite (goto_same tid (AtUnlock lib T)). intros [= <-].
    split; [done|]. split; [exact Hr|]. cbn [goto set_objects set_entry m_handletons].
    rewrite lookup_insert_eq. by eexists.
Qed.

(** The lambda of [call_once] ends, by a return or an exception. *)
Lemma kept_unlock tid f o s s' :
  m_mtx s = Some tid -> flags s !! f = Some (RunBy tid) -> (forall tid', o <> Some (RunBy tid')) ->
  s' = set_mtx None (set_flag f o s) ->
  forall s'', m_handletons s'' = m_handletons s' -> m_mtx s'' = m_mtx s' -> flags s'' = flags s' ->
    (forall tid', tid' <> tid -> threads s'' !! tid' = threads s !! tid') -> kept tid s s''.
Proof.
  intros Hm Hf Ho -> s'' E1 E2 E3 Ht. constructor; rewrite ?E1, ?E2, ?E3; try done; cbn [set_mtx flags m_mtx].
  - intros tid' Hne. rewrite Hm. naive_solver.
  - intros f' o' Hf' Hne. rewrite lookup_flag. case_decide; [congruence|done].
  - intros f' tid' Hne. rewrite lookup_flag. case_decide; [|done]. intros E. by destruct (Ho tid').
  - intros f' _. by right.
  - by left.
Qed.

Lemma registry_unlock throws tid lib T s :
  registry throws s -> threads s !! tid = Some (AtUnlock lib T) ->
  registry throws (goto tid (AtAt lib T) (set_mtx None (set_flag (lib, T) (Some Done) s))).
Proof.
  intros Hs Ht. pose proof (lock_holder _ _ _ _ Hs Ht eq_refl) as Hm.
  destruct (rg_points _ _ Hs _ _ Ht) as (_ & Hr & Hsome).
  eapply registry_quiet; [exact Hs| |done|done|by intros ? ?; rewrite Ht| |..]; cbn [goto set_mtx flags m_mtx].
  - eapply (kept_unlock tid (lib, T) (Some Done)); [exact Hm|by apply Hr|done|reflexivity|done|done|done|].
    intros ? ?; by rewrite goto_other.
  - intros lib' T'. rewrite lookup_flag. case_decide as E; [by injection E as <- <-|apply (rg_done _ _ Hs)].
  - intros f. rewrite lookup_flag. case_decide as E; [done|]. intros Hf.
    by destruct E; rewrite (run_of _ _ _ _ _ _ Hs Ht eq_refl Hf).
  - done.
  - intros pt. rewrite (goto_same tid (AtAt lib T)). intros [= <-]. split; [done|]. split; [done|].
    cbn [goto set_mtx flags]. rewrite lookup_flag. by rewrite decide_True.
Qed.

Lemma registry_throw (throws : K -> Prop) tid lib T s :
  registry throws s -> threads s !! tid = Some (AtNew lib T) -> throws T ->
  registry throws (leave tid (set_mtx None (set_flag (lib, T) None s))).
Proof.
  intros Hs Ht HT. pose proof (lock_holder _ _ _ _ Hs Ht eq_refl) as Hm.
  destruct (rg_points _ _ Hs _ _ Ht) as (_ & Hr & He & Hno).
  eapply registry_kept; [exact Hs|..]; cbn [leave set_mtx flags m_mtx m_handletons objects threads].
  - eapply (kept_unlock tid (lib, T) None); [exact Hm|by apply Hr|done|reflexivity|done|done|done|].
    intros tid' Hne. by apply lookup_delete_ne, not_eq_sym.
  - apply (rg_typed _ _ Hs).
  - intros T' Hn. destruct (decide (T' = T)) as [->|Hne]; [by left|]. right; right. split; [done|congruence].
  - intros lib' T'. rewrite lookup_flag. case_decide; [done|]. apply (rg_done _ _ Hs).
  - intros f. rewrite lookup_flag. case_decide as E; [done|]. intros Hf.
    by destruct E; rewrite (run_of _ _ _ _ _ _ Hs Ht eq_refl Hf).
  - done.
  - intros pt. by rewrite lookup_delete_eq.
Qed.

Lemma registry_step throws s s' : registry throws s -> hstep throws s s' -> registry throws s'.
Proof.
  intros Hs Hstep. destruct Hstep as [tid lib T s0 s1 E|tid constructed s0 s1 Hc E]; [by eapply registry_enter|].
  unfold step in E. destruct (threads s0 !! tid) as [pt|] eqn:Ht; [|done].
  pose proof (rg_points _ _ Hs _ _ Ht) as (Hl & Hr & Hpt).
  destruct pt as [lib T|lib T|lib T|lib T|lib T|lib T|lib T|T object]; [..|done].
  - destruct (flags s0 !! (lib, T)) as [[]|] eqn:Ef; try done; injection E as <-; [|by apply registry_once].
    apply registry_goto; [done|by intros ? ?; rewrite Ht| |by split].
    intros f Hf. by destruct (no_run _ _ _ _ f Hs Ht eq_refl).
  - destruct (m_mtx s0) eqn:Em; [done|]. injection E as <-. by apply registry_lock.
  - injection E as <-. apply registry_goto; [done|by intros ? ?; rewrite Ht| |done].
    intros f Hf. by rewrite (run_of _ _ _ _ _ _ Hs Ht eq_refl Hf).
  - injection E as <-. by apply registry_insert.
  - destruct constructed; injection E as <-; [by apply registry_new|].
    eapply registry_throw; [done|done|by eapply Hc].
  - injection E as <-. by apply registry_unlock.
  - destruct (inserting s0); [done|]. destruct (m_handletons s0 !! T) as [object|] eqn:Eo; [|done].
    injection E as <-. apply registry_goto; [done|by intros ? ?; rewrite Ht| |].
    + intros f Hf. by destruct (no_run _ _ _ _ f Hs Ht eq_refl).
    + split; [exact Hl|]. split; [done|]. eauto.
Qed.

Lemma new_registry throws : registry throws new_Handleton.
Proof.
  constructor; cbn [new_Handleton m_handletons objects flags m_mtx threads].
  - intros T o. rewrite lookup_empty, lookup_nil. done.
  - intros T. by rewrite lookup_empty.
  - intros lib T. by rewrite lookup_empty.
  - intros f tid. by rewrite lookup_empty.
  - done.
  - apply map_Forall_empty.
Qed.

Lemma registry_from throws s s' : registry throws s -> hsteps throws s s' -> registry throws s'.
Proof. intros Hs Hsteps. induction Hsteps as [|s1 s2 s3 Hstep _ IH]; [done|]. by eapply IH, registry_step. Qed.

Lemma registry_steps throws s : hsteps throws new_Handleton s -> registry throws s.
Proof. apply registry_from, new_registry. Qed.

Lemma inserting_true s :
  inserting s = true <-> exists tid lib T, threads s !! tid = Some (Inserting lib T).
Proof.
  unfold inserting. rewrite bool_decide_eq_true. split.
  - intros (tid & pt & Ht & Hp). destruct pt; try done. eauto.
  - intros (tid & lib & T & Ht). by exists tid, (Inserting lib T).
Qed.

(** [at] finds the entry, unless it runs while another thread makes a new one. *)
Lemma at_step throws s tid lib T constructed :
  registry throws s -> threads s !! tid = Some (AtAt lib T) ->
  if inserting s then
    step tid constructed s = (Undefined, s)
    /\ exists tid' lib' T', tid' <> tid /\ T' <> T /\ threads s !! tid' = Some (Inserting lib' T')
         /\ m_handletons s !! T' = None
  else exists p, step tid constructed s = (Ok tt, goto tid (Got T p) s).
Proof.
  intros Hs Ht. destruct (rg_points _ _ Hs tid _ Ht) as (_ & _ & Hd).
  destruct (rg_done _ _ Hs _ _ Hd) as [p Hp]. unfold step. rewrite Ht, Hp.
  destruct (inserting s) eqn:Ei; [|by eexists]. split; [done|].
  apply inserting_true in Ei as (tid' & lib' & T' & Hi).
  destruct (rg_points _ _ Hs _ _ Hi) as (_ & _ & Hn). exists tid', lib', T'. repeat split; congruence.
Qed.

(** An entry stays as it is, unless its constructor runs. *)
Lemma entry_kept throws s s' T p :
  registry throws s -> hstep throws s s' -> m_handletons s !! T = Some p ->
  (forall tid lib, threads s !! tid <> Some (AtNew lib T)) ->
  m_handletons s' !! T = Some p /\ forall tid lib, threads s' !! tid <> Some (AtNew lib T).
Proof.
  intros Hs Hstep Hp Hn.
  assert (Hgoto : forall tid pt (s1 : Handleton), threads s1 = threads s -> (forall lib, pt <> AtNew lib T) ->
    forall tid' lib, threads (goto tid pt s1) !! tid' <> Some (AtNew lib T)).
  { intros tid pt s1 E Hpt tid' lib. destruct (decide (tid' = tid)) as [->|Hne].
    - rewrite goto_same. intros [= ->]. by eapply Hpt.
    - rewrite goto_other, E by done. apply Hn. }
  destruct Hstep as [tid lib T0 s s' E|tid constructed s s' _ E]; unfold enter, step in E;
    destruct (threads s !! tid) as [[lib1 T1|lib1 T1|lib1 T1|lib1 T1|lib1 T1|lib1 T1|lib1 T1|T1 o]|] eqn:Ht;
    try done; try (injection E as <-; split; [done|by apply Hgoto]).
  - destruct (flags s !! (lib1, T1)) as [[]|]; try done; injection E as <-; (split; [done|by apply Hgoto]).
  - destruct (m_mtx s); [done|]. injection E as <-. split; [done|]. apply Hgoto; [done|].
    intros lib. by destruct (m_handletons s !! T1).
  - injection E as <-. destruct (rg_points _ _ Hs _ _ Ht) as (_ & _ & Hx).
    split; [cbn [goto set_entry m_handletons]; rewrite lookup_insert_ne; congruence|].
    apply Hgoto; [done|]. intros lib [= _ ->]. congruence.
  - assert (T1 <> T) by (intros ->; by apply (Hn tid lib1)).
    destruct constructed; injection E as <-.
    + split; [by cbn [goto set_objects set_entry m_handletons]; rewrite lookup_insert_ne|by apply Hgoto].
    + split; [done|]. intros tid' lib. cbn [leave threads]. rewrite lookup_delete_Some. intros [_ Hx].
      by apply (Hn tid' lib).
  - destruct (inserting s); [done|]. destruct (m_handletons s !! T1); [|done].
    injection E as <-. split; [done|by apply Hgoto].
Qed.

(** ** Properties *)

(** C34: the registry is well-typed and has one object of each type. In every
    interleaving of calls of [GetInstance] from any threads and shared objects, in
    which the constructors of the types [throws] may throw and no undefined step was
    done: a result for the type [T] is an object that was created as a [T], the only
    one of its type, so that the [static_cast] is right, or it is null and [T] is one
    of [throws]; all results for [T] are equal; [at] never throws, and it is undefined
    exactly while another thread inserts the entry of another type that nobody asked
    for before. *)
Theorem GetInstance_typed throws s (Hs : hsteps throws new_Handleton s) :
  (forall tid T p, threads s !! tid = Some (Got T p) ->
     match p with
     | Some object => objects s !! object = Some T
         /\ forall object', objects s !! object' = Some T -> object' = object
     | None => throws T
     end)
  /\ (forall tid tid' T p p', threads s !! tid = Some (Got T p) -> threads s !! tid' = Some (Got T p') -> p = p')
  /\ forall tid lib T constructed, threads s !! tid = Some (AtAt lib T) ->
       if inserting s then
         step tid constructed s = (Undefined, s)
         /\ exists tid' lib' T', tid' <> tid /\ T' <> T /\ threads s !! tid' = Some (Inserting lib' T')
              /\ m_handletons s !! T' = None
       else exists p, step tid constructed s = (Ok tt, goto tid (Got T p) s).
Proof.
  pose proof (registry_steps throws s Hs) as Hreg.
  assert (Hgot : forall tid T p, threads s !! tid = Some (Got T p) -> m_handletons s !! T = Some p
    /\ forall tid' lib, threads s !! tid' <> Some (AtNew lib T)).
  { intros tid T p Ht. destruct (rg_points _ _ Hreg _ _ Ht) as (_ & _ & Hp & lib & Hd). split; [done|].
    intros tid' lib' Hx. destruct (rg_points _ _ Hreg _ _ Hx) as (_ & _ & _ & Hn). by eapply Hn. }
  split; [|split].
  - intros tid T [object|] [Hp Hn]%Hgot.
    + split; [by apply (rg_typed _ _ Hreg)|]. intros object' Ho'. apply (rg_typed _ _ Hreg) in Ho'. congruence.
    + destruct (rg_empty _ _ Hreg T Hp) as [|(tid' & lib & Hx)]; [done|]. by destruct (Hn tid' lib).
  - intros tid tid' T p p' [Hp _]%Hgot [Hp' _]%Hgot. congruence.
  - intros tid lib T constructed Ht. by eapply at_step.
Qed.

(** An entry that a failed constructor left empty stays empty: every later result
    for the type is null. *)
Lemma null_for_ever throws s s' T :
  hsteps throws new_Handleton s -> hsteps throws s s' -> m_handletons s !! T = Some None ->
  (forall tid lib, threads s !! tid <> Some (AtNew lib T)) ->
  forall tid p, threads s' !! tid = Some (Got T p) -> p = None.
Proof.
  intros H0%registry_steps Hsteps Hp Hn tid p Ht.
  assert (Hs' : registry throws s' /\ m_handletons s' !! T = Some None).
  { clear Ht. induction Hsteps as [|s1 s2 s3 Hstep _ IH]; [done|].
    destruct (entry_kept _ _ _ _ _ H0 Hstep Hp Hn) as [Hp' Hn']. apply IH; [by eapply registry_step|done..]. }
  destruct Hs' as [Hreg Hp']. destruct (rg_points _ _ Hreg _ _ Ht) as (_ & _ & Hx & _). congruence.
Qed.

(** No call hangs: when a thread is in [GetInstance], some thread can do a step. *)
Lemma some_step throws s tid pt :
  hsteps throws new_Handleton s -> threads s !! tid = Some pt -> (forall T o, pt <> Got T o) ->
  exists tid' s', step tid' true s = (Ok tt, s').
Proof.
  intros Hs Ht Hpt. pose proof (registry_steps throws s Hs) as Hreg.
  assert (Hlocked : forall t p, threads s !! t = Some p -> holds_lock p = true ->
    exists s', step t true s = (Ok tt, s')).
  { intros t p Hp Hl. unfold step. rewrite Hp. destruct p; try done; by eexists. }
  assert (Hrun : forall t p f, threads s !! t = Some p -> runs_flag p = Some f ->
    exists tid' s', step tid' true s = (Ok tt, s')).
  { intros t p f Hp Hf. destruct (holds_lock p) eqn:El; [exists t; by eapply Hlocked|].
    destruct p as [lib T|lib T|lib T|lib T|lib T|lib T|lib T|T object]; try done.
    destruct (m_mtx s) as [h|] eqn:Em.
    - destruct (rg_lock _ _ Hreg h Em) as [p Hh]. exists h. apply (Hlocked h p Hh).
      by apply (rg_points _ _ Hreg h p Hh).
    - exists t. unfold step. rewrite Hp, Em. by eexists. }
  destruct (runs_flag pt) as [f|] eqn:Ef; [by eapply Hrun|].
  destruct pt as [lib T|lib T|lib T|lib T|lib T|lib T|lib T|T object]; try done.
  - destruct (flags s !! (lib, T)) as [[t|]|] eqn:Efl.
    + destruct (rg_run _ _ Hreg _ t Efl) as (p & Hp & Hf). by eapply Hrun.
    + exists tid. unfold step. rewrite Ht, Efl. by eexists.
    + exists tid. unfold step. rewrite Ht, Efl. by eexists.
  - pose proof (at_step _ _ _ _ _ true Hreg Ht) as Hat. destruct (inserting s).
    + destruct Hat as (_ & t & lib' & T' & _ & _ & Hi & _). exists t. by eapply Hlocked.
    + destruct Hat as [p E]. by eexists _, _.
  - by destruct (Hpt T object).
Qed.
End Handleton.
Arguments Handleton K {_ _} : assert.

(** Runs of [GetInstance] and constructors: the threads that step, each with what
    its constructor does if it is there. *)
Fixpoint run_steps {K} `{Countable K} (l : list (nat * bool)) : prog (Handleton K) unit :=
  match l with [] => mret tt | (tid, constructed) :: l => step tid constructed ;; run_steps l end.

Lemma run_steps_hsteps {K} `{Countable K} (throws : K -> Prop) l (s s' : Handleton K) :
  (forall T, throws T) -> run_steps l s = (Ok tt, s') -> hsteps throws s s'.
Proof.
  intros Hthrows. revert s. induction l as [|[tid constructed] l IH]; intros s; cbn [run_steps].
  - intros [= <-]. apply rtc_refl.
  - intros ([] & s1 & E1 & E2)%bind_ok_inv. eapply rtc_l; [|by apply IH].
    by apply (hstep_step throws tid constructed).
Qed.

Lemma run_steps_good {K} `{Countable K} (throws : K -> Prop) l (s s' : Handleton K) :
  run_steps ((fun tid => (tid, true)) <$> l) s = (Ok tt, s') -> hsteps throws s s'.
Proof.
  revert s. induction l as [|tid l IH]; intros s; cbn [run_steps fmap list_fmap].
  - intros [= <-]. apply rtc_refl.
  - intros ([] & s1 & E1 & E2)%bind_ok_inv. eapply rtc_l; [|by apply IH].
    by apply (hstep_step throws tid true).
Qed.

Lemma enter_hsteps {K} `{Countable K} (throws : K -> Prop) tid lib T (s s' s'' : Handleton K) :
  enter tid lib T s = (Ok tt, s') -> hsteps throws s' s'' -> hsteps throws s s''.
Proof. intros E Hs. eapply rtc_l; [by eapply hstep_enter|done]. Qed.

(** While one thread inserts an object of another type, a second one can be at [at]:
    the lookup without the lock is undefined. *)
Lemma lookup_races : exists s : Handleton nat, hsteps (fun _ => False) new_Handleton s
  /\ threads s !! 1%nat = Some (AtAt 0 7%nat) /\ step 1 true s = (Undefined, s).
Proof.
  assert (E : exists s, (enter 1 0 7%nat ;; run_steps ((fun tid => (tid, true)) <$> [1; 1; 1; 1; 1; 1]%nat) ;;
      enter 2 0 8%nat ;; run_steps ((fun tid => (tid, true)) <$> [2; 2; 2]%nat))
    (new_Handleton (K := nat)) = (Ok tt, s)
    /\ threads s !! 1%nat = Some (AtAt 0 7%nat) /\ step 1 true s = (Undefined, s)).
  { eexists. split; [vm_compute; reflexivity|]. by vm_compute. }
  destruct E as (s & E & H12). exists s. split; [|exact H12].
  apply bind_ok_inv in E as ([] & s1 & E1 & E). apply bind_ok_inv in E as ([] & s2 & E2 & E).
  apply bind_ok_inv in E as ([] & s3 & E3 & E).
  eapply enter_hsteps; [exact E1|]. etrans; [by eapply run_steps_good|].
  eapply enter_hsteps; [exact E3|]. by eapply run_steps_good.
Qed.

(** A constructor throws, the call is repeated: the second one gives a null pointer,
    and so do all later ones ([null_for_ever]). *)
Lemma failed_constructor_null : exists s : Handleton nat, hsteps (fun _ => True) new_Handleton s
  /\ threads s !! 1%nat = Some (Got 7%nat None).
Proof.
  assert (E : exists s, (enter 1 0 7%nat ;; run_steps [(1, true); (1, true); (1, true); (1, true); (1, false)]%nat ;;
      enter 1 0 7%nat ;; run_steps [(1, true); (1, true); (1, true); (1, true)]%nat)
    (new_Handleton (K := nat)) = (Ok tt, s) /\ threads s !! 1%nat = Some (Got 7%nat None)).
  { eexists. split; [vm_compute; reflexivity|]. by vm_compute. }
  destruct E as (s & E & H1). exists s. split; [|exact H1].
  apply bind_ok_inv in E as ([] & s1 & E1 & E). apply bind_ok_inv in E as ([] & s2 & E2 & E).
  apply bind_ok_inv in E as ([] & s3 & E3 & E).
  eapply enter_hsteps; [exact E1|]. etrans; [by eapply run_steps_hsteps|].
  eapply enter_hsteps; [exact E3|]. by eapply run_steps_hsteps.
Qed.

(** Two threads ask for the same type from two shared objects. *)
Lemma GetInstance_typed_witness :
  exists s : Handleton nat, hsteps (fun _ => False) new_Handleton s
    /\ threads s !! 1%nat = Some (Got 7%nat (Some 0%nat)) /\ threads s !! 2%nat = Some (Got 7%nat (Some 0%nat))
    /\ objects s !! 0%nat = Some 7%nat.
Proof.
  assert (E : exists s, (enter 1 0 7%nat ;; enter 2 1 7%nat ;;
      run_steps ((fun tid => (tid, true)) <$> [1; 2; 2; 2; 2; 2; 2; 1; 1; 2; 1]%nat))
    (new_Handleton (K := nat)) = (Ok tt, s)
    /\ threads s !! 1%nat = Some (Got 7%nat (Some 0%nat)) /\ threads s !! 2%nat = Some (Got 7%nat (Some 0%nat))).
  { eexists. split; [vm_compute; reflexivity|]. by vm_compute. }
  destruct E as (s & E & H1 & H2). exists s.
  assert (Hs : hsteps (fun _ => False) new_Handleton s).
  { apply bind_ok_inv in E as ([] & s1 & E1 & E). apply bind_ok_inv in E as ([] & s2 & E2 & E).
    eapply enter_hsteps; [exact E1|]. eapply enter_hsteps; [exact E2|]. by eapply run_steps_good. }
  split; [exact Hs|]. split; [exact H1|]. split; [exact H2|].
  exact (proj1 (proj1 (GetInstance_typed _ s Hs) 1%nat 7%nat (Some 0%nat) H1)).
Defined.
