(* ===== verification/Descriptors.v ===== *)
(** * Descriptors

    Who owns a file descriptor: [concrete/include/SocketBase.hpp] and the
    constructors of [UdpSocket.cpp] and [TcpClientSocket.cpp], over a kernel whose
    calls may fail. *)

From S2P Require Import Prelude.

(** ** The kernel

    [open_fds] are the open descriptors and [next_fd] is larger than all of them
    (a number is not used twice, so that a stale one is noticed); [bad_closes]
    counts calls of [close] for descriptors that were not open; [addrinfos] are
    the results of [getaddrinfo] that were not freed; [script] says of the
    coming calls whether they succeed (they do when it is empty); [calls] is the
    history. *)
Record kernel : Type := mk_kernel {
  open_fds : gset Z;
  next_fd : Z;
  bad_closes : nat;
  addrinfos : nat;
  script : list bool;
  calls : list string;
}.

Record kernel_ok (k : kernel) : Prop := {
  k_next : 0 <= next_fd k;
  k_open : forall fd, fd ∈ open_fds k -> 0 <= fd < next_fd k;
}.

(** A call that may fail. *)
Definition syscall (name : string) : prog kernel bool := fun k =>
  (Ok (default true (head (script k))),
   mk_kernel (open_fds k) (next_fd k) (bad_closes k) (addrinfos k) (tail (script k)) (calls k ++ [name])).

(** A new descriptor, or [-1]. *)
Definition new_fd : prog kernel Z := fun k =>
  (Ok (next_fd k), mk_kernel ({[next_fd k]} ∪ open_fds k) (next_fd k + 1) (bad_closes k) (addrinfos k)
     (script k) (calls k)).
Definition sys_fd (name : string) : prog kernel Z :=
  ok ← syscall name; if ok : bool then new_fd else mret (-1).

Definition close (fd : Z) : prog kernel unit := modify (fun k =>
  mk_kernel (open_fds k ∖ {[fd]}) (next_fd k)
    (if decide (fd ∈ open_fds k) then bad_closes k else S (bad_closes k))
    (addrinfos k) (script k) (calls k)).

Definition getaddrinfo : prog kernel bool :=
  ok ← syscall "getaddrinfo";
  if ok : bool then
    modify (fun k => mk_kernel (open_fds k) (next_fd k) (bad_closes k) (S (addrinfos k)) (script k) (calls k)) ;;
    mret true
  else mret false.
Definition freeaddrinfo : prog kernel unit := modify (fun k =>
  mk_kernel (open_fds k) (next_fd k) (bad_closes k) (pred (addrinfos k)) (script k) (calls k)).

(** ** SocketBase

    The object is its [m_fd]; [-1] is none. *)
Module SocketBase.
Definition Reset (fd : Z) : prog (Z * kernel) unit :=
  m_fd ← gets fst;
  (if m_fd =? -1 then mret tt else on_snd (close m_fd)) ;;
  modify (fun s => (fd, s.2)).

(** The move constructor gives the new object and what is left of the other. *)
Definition move (other : Z) : Z * Z := (other, -1).

(** The move assignment to another object; the state has both. *)
Definition move_assign : prog ((Z * kernel) * Z) unit :=
  other ← gets snd;
  on_fst (Reset other) ;;
  modify (fun s => (s.1, -1)).

Definition delete : prog (Z * kernel) unit := Reset (-1).
End SocketBase.

(** ** The constructors

    A constructor that throws destroys the base class, which has no descriptor
    yet. *)
Definition failing {A} (what : string) : prog (Z * kernel) A :=
  SocketBase.delete ;; throw (runtime_error what).

(** [UDPSocket::UDPSocket]; [ip_addr] tells whether an address is given. The state
    starts with [SocketBase(-1)]. *)
Definition UDPSocket_new (ip_addr : bool) : prog (Z * kernel) unit :=
  found ← on_snd getaddrinfo;
  if negb found then failing "failed to getaddrinfo" else
  fd ← on_snd (sys_fd "socket");
  if fd =? -1 then failing "failed to socket" else
  bound ← on_snd (if ip_addr then mret true else syscall "bind");
  if negb bound then on_snd (close fd) ;; failing "failed to bind" else
  SocketBase.Reset fd ;;
  on_snd freeaddrinfo.

(** [TCPClient::TCPClient]. *)
Definition TCPClient_new : prog (Z * kernel) unit :=
  found ← on_snd getaddrinfo;
  if negb found then failing "failed to getaddrinfo" else
  fd ← on_snd (sys_fd "socket");
  if fd =? -1 then failing "failed to socket" else
  connected ← on_snd (syscall "connect");
  if negb connected then on_snd (close fd) ;; failing "failed to connect" else
  SocketBase.Reset fd ;;
  on_snd freeaddrinfo.

(** [UDPSocket::EnableBroadcast]. *)
Definition EnableBroadcast : prog (Z * kernel) unit :=
  ok ← on_snd (syscall "setsockopt");
  if ok : bool then mret tt else throw (runtime_error "failed to enable broadcast").

(** ** Laws of the kernel's calls *)

(** [k'] is [k] with the new descriptors [X] and [n] more results of
    [getaddrinfo]; nothing was closed that was not open. *)
Record owns (X : gset Z) (n : nat) (k k' : kernel) : Prop := {
  ow_new : X ## open_fds k;
  ow_fds : open_fds k' = X ∪ open_fds k;
  ow_bad : bad_closes k' = bad_closes k;
  ow_infos : addrinfos k' = (n + addrinfos k)%nat;
  ow_ok : kernel_ok k';
}.

Section owns.
Implicit Types k : kernel.
Context (k : kernel).

Lemma owns_refl : kernel_ok k -> owns ∅ 0 k k.
Proof. intros Hk. constructor; [set_solver|set_solver|done|done|done]. Qed.

Lemma owns_syscall X n k1 name : owns X n k k1 ->
  exists ok k2, syscall name k1 = (Ok ok, k2) /\ owns X n k k2.
Proof.
  intros [Hx Hf Hb Hi [Hn Ho]]. eexists _, _. split; [reflexivity|]. by constructor; [..|constructor].
Qed.

Lemma owns_new_fd X n k1 : owns X n k k1 ->
  exists fd k2, new_fd k1 = (Ok fd, k2)
    /\ fd <> -1 /\ fd ∉ X /\ fd ∉ open_fds k /\ owns ({[fd]} ∪ X) n k k2.
Proof.
  intros [Hx Hf Hb Hi [Hn Ho]]. eexists _, _. split; [reflexivity|].
  assert (Hnew : next_fd k1 ∉ open_fds k1) by (intros Hin%Ho; lia). rewrite Hf in Hnew.
  split; [lia|]. split; [set_solver|]. split; [set_solver|].
  constructor; cbn [open_fds bad_closes addrinfos]; [set_solver|rewrite Hf; set_solver|done|done|].
  constructor; cbn [open_fds next_fd]; [lia|].
  intros fd [->%elem_of_singleton|Hin%Ho]%elem_of_union; lia.
Qed.

Lemma owns_sys_fd X n k1 name : owns X n k k1 ->
  exists fd k2, sys_fd name k1 = (Ok fd, k2)
    /\ ((fd = -1 /\ owns X n k k2)
        \/ (fd <> -1 /\ fd ∉ X /\ fd ∉ open_fds k /\ owns ({[fd]} ∪ X) n k k2)).
Proof.
  intros H. destruct (owns_syscall X n k1 name H) as (ok & k2 & E & H2). unfold sys_fd.
  rewrite (bind_ok _ _ _ _ _ E). destruct ok.
  - destruct (owns_new_fd X n k2 H2) as (fd & k3 & E3 & H3). exists fd, k3. split; [done|by right].
  - exists (-1), k2. split; [done|by left].
Qed.

Lemma owns_close X n k1 fd : owns X n k k1 -> fd ∈ X ->
  exists k2, close fd k1 = (Ok tt, k2) /\ owns (X ∖ {[fd]}) n k k2.
Proof.
  intros [Hx Hf Hb Hi [Hn Ho]] Hfd. eexists. split; [reflexivity|].
  constructor; cbn [open_fds bad_closes addrinfos].
  - set_solver.
  - rewrite Hf. set_solver.
  - rewrite decide_True by set_solver. done.
  - done.
  - constructor; [done|]. cbn [open_fds next_fd]. intros fd' Hin. apply Ho. set_solver.
Qed.

Lemma owns_getaddrinfo X n k1 : owns X n k k1 ->
  exists ok k2, getaddrinfo k1 = (Ok ok, k2) /\ owns X (if ok then S n else n) k k2.
Proof.
  intros [Hx Hf Hb Hi [Hn Ho]]. unfold getaddrinfo, syscall. run_prog. destruct (default true _);
    eexists _, _; (split; [reflexivity|]); by constructor; [..|cbn; rewrite ?Hi|constructor].
Qed.

Lemma owns_freeaddrinfo X n k1 : owns X (S n) k k1 ->
  exists k2, freeaddrinfo k1 = (Ok tt, k2) /\ owns X n k k2.
Proof.
  intros [Hx Hf Hb Hi [Hn Ho]]. eexists. split; [reflexivity|].
  by constructor; [..|cbn; rewrite ?Hi|constructor].
Qed.
End owns.

(** ** The constructors own what they return *)

(** A constructor returns with one new descriptor, or throws and leaves none. *)
Definition constructs (leak : nat) (ctor : prog (Z * kernel) unit) : Prop := forall k,
  kernel_ok k -> exists r fd k', ctor (-1, k) = (r, (fd, k')) /\
    match r with
    | Ok _ => fd <> -1 /\ owns {[fd]} 0 k k'
    | Throw _ => fd = -1 /\ exists n, (n <= leak)%nat /\ owns ∅ n k k'
    | _ => False
    end.

Lemma failing_eq {A} what k : failing (A := A) what (-1, k) = (Throw (runtime_error what), (-1, k)).
Proof. done. Qed.

Lemma Reset_new fd k : SocketBase.Reset fd (-1, k) = (Ok tt, (fd, k)).
Proof. done. Qed.

(** The common end of both constructors, behind [socket]: [call] is [bind] or
    [connect]. *)
Definition establish (call : prog kernel bool) (what : string) (fd : Z) : prog (Z * kernel) unit :=
  done ← on_snd call;
  if negb done then on_snd (close fd) ;; failing what else
  SocketBase.Reset fd ;;
  on_snd freeaddrinfo.

Definition connecting (call : prog kernel bool) (what : string) : prog (Z * kernel) unit :=
  found ← on_snd getaddrinfo;
  if negb found then failing "failed to getaddrinfo" else
  fd ← on_snd (sys_fd "socket");
  if fd =? -1 then failing "failed to socket" else establish call what fd.

Lemma connecting_constructs call what :
  (forall k X n k1, owns X n k k1 -> exists ok k2, call k1 = (Ok ok, k2) /\ owns X n k k2) ->
  constructs 1 (connecting call what).
Proof.
  intros Hcall k Hk. pose proof (owns_refl k Hk) as H0. unfold connecting, establish. run_prog.
  cbn [fst snd]. destruct (owns_getaddrinfo k ∅ 0 k H0) as (found & k1 & -> & H1).
  destruct found; cbn [fst snd negb].
  2:{ rewrite failing_eq. eexists _, _, _. split; [done|]. split; [done|]. exists 0%nat. split; [lia|done]. }
  destruct (owns_sys_fd k ∅ 1 k1 "socket" H1) as (fd & k2 & -> & [[-> H2]|(Hne & _ & _ & H2)]); cbn [fst snd].
  { eexists _, _, _. split; [done|]. split; [done|]. exists 1%nat. split; [lia|done]. }
  rewrite (proj2 (Z.eqb_neq fd (-1))) by done. cbv beta iota. cbn [fst snd].
  rewrite (right_id_L ∅ (∪)) in H2.
  destruct (Hcall k {[fd]} 1%nat k2 H2) as (ok & k3 & -> & H3). destruct ok; cbn [fst snd negb].
  - rewrite Reset_new. cbn [fst snd].
    destruct (owns_freeaddrinfo k {[fd]} 0 k3 H3) as (k4 & -> & H4). eexists _, _, _. split; [done|]. done.
  - destruct (owns_close k {[fd]} 1 k3 fd H3) as (k4 & -> & H4); [set_solver|]. cbn [fst snd].
    rewrite failing_eq. eexists _, _, _. split; [done|]. split; [done|]. exists 1%nat. split; [lia|].
    by rewrite (difference_diag_L {[fd]}) in H4.
Qed.

Lemma UDPSocket_new_constructs ip_addr : constructs 1 (UDPSocket_new ip_addr).
Proof.
  apply (connecting_constructs (if ip_addr then mret true else syscall "bind") "failed to bind").
  intros k X n k1 H. destruct ip_addr; [by exists true, k1|]. by apply owns_syscall.
Qed.

Lemma TCPClient_new_constructs : constructs 1 TCPClient_new.
Proof.
  apply (connecting_constructs (syscall "connect") "failed to connect").
  intros k X n k1 H. by apply owns_syscall.
Qed.
