(* ===== verification/NBDDevice.v ===== *)
(** * NBDDevice

    The device of [concrete/src/NBD.cpp]: its construction with the process that
    serves the kernel, the request to disconnect, and its destruction. *)

From S2P Require Import Prelude Logger Descriptors.

(** [m_device] and [m_clientSocket] are [FDWrapper]s, [m_serverSocket] is a
    [TCPClient]; all are given by their descriptor. *)
Record NBD : Type := mk_NBD {
  m_device : Z;
  m_clientSocket : option Z;
  m_serverSocket : option Z;
  m_driveSize : Z;
  m_childPid : Z;
}.

(** The process: the kernel, the static [s_nbdDevToDisconnect], whether the device
    was told to disconnect, the results of the coming calls of the child, and the
    log. *)
Record process : Type := mk_process {
  kern : kernel;
  s_nbdDevToDisconnect : Z;
  disconnected : bool;
  child_script : list bool;
  logged : list (string * Severity);
}.

#[export] Instance process_log : HasLog process := {
  log_entry message sev w := mk_process (kern w) (s_nbdDevToDisconnect w) (disconnected w) (child_script w)
    (logged w ++ [(message, sev)])
}.

Definition on_kern {A} (f : prog kernel A) : prog process A :=
  zoom kern (fun k w => mk_process k (s_nbdDevToDisconnect w) (disconnected w) (child_script w) (logged w)) f.

Definition set_dev (fd : Z) : prog process unit := modify (fun w =>
  mk_process (kern w) fd (disconnected w) (child_script w) (logged w)).

(** [ioctl] fails for a descriptor that is not open. *)
Definition ioctl (fd : Z) (name : string) : prog kernel bool :=
  ok ← syscall name;
  is_open ← gets (fun k => bool_decide (fd ∈ open_fds k));
  mret (ok && is_open).

(** [f() || g()], for calls that return zero on success. *)
Definition both (f g : prog kernel bool) : prog kernel bool :=
  ok ← f; if ok : bool then g else mret false.

(** ** The child process *)

(** [RunClient] over the child's copy of the kernel's state; [NBD_DO_IT] returns when
    the device was told to disconnect, or fails. *)
Definition RunClient (n : NBD) (told : bool) : prog kernel unit :=
  blocked ← both (syscall "sigfillset") (syscall "sigprocmask");
  if negb blocked then throw (runtime_error "failed to block signals in client") else
  client ← lift (match m_clientSocket n with Some fd => Ok fd | None => Throw bad_optional_access end);
  ok ← ioctl (m_device n) "NBD_SET_SOCK";
  if negb ok then throw (runtime_error "ioctl NBD_SET_SOCK failed") else
  ok ← ioctl (m_device n) "NBD_DO_IT";
  if negb ok then throw (runtime_error "ioctl NBD_DO_IT failed") else
  (if told then mret tt else lift Blocked) ;;
  ok ← ioctl (m_device n) "NBD_CLEAR_QUE";
  if negb ok then throw (runtime_error "ioctl NBD_CLEAR_QUE failed") else
  ok ← ioctl (m_device n) "NBD_CLEAR_SOCK";
  if negb ok then throw (runtime_error "ioctl client NBD_CLEAR_SOCK failed") else
  mret tt.

(** The exit status of the child, if it has ended. *)
Definition child_status (n : NBD) (w : process) : option Z :=
  let k := kern w in
  match (RunClient n (disconnected w)
    (mk_kernel (open_fds k) (next_fd k) (bad_closes k) (addrinfos k) (child_script w) [])).1 with
  | Ok _ => Some 0
  | Throw _ => Some 1
  | _ => None
  end.

(** ** The parent *)

Definition SocketsInit : prog (NBD * process) unit :=
  paired ← on_snd (on_kern (syscall "socketpair"));
  if negb paired then throw (runtime_error "socketpair failed") else
  server ← on_snd (on_kern new_fd);
  client ← on_snd (on_kern new_fd);
  on_fst (modify (fun n => mk_NBD (m_device n) (m_clientSocket n) (Some server) (m_driveSize n) (m_childPid n))) ;;
  on_fst (modify (fun n => mk_NBD (m_device n) (Some client) (m_serverSocket n) (m_driveSize n) (m_childPid n))) ;;
  device ← gets (fun s => m_device s.1);
  ok ← on_snd (on_kern (ioctl device "NBD_SET_SIZE"));
  if negb ok then throw (runtime_error "ioctl NBD_SET_SIZE failed") else
  ok ← on_snd (on_kern (ioctl device "NBD_CLEAR_SOCK"));
  if negb ok then throw (runtime_error "ioctl NBD_CLEAR_SOCK failed") else
  mret tt.

(** The body of the constructor; [pid] is what [fork] returns to the parent. *)
Definition NBD_body (pid : Z) : prog (NBD * process) unit :=
  SocketsInit ;;
  forked ← on_snd (on_kern (syscall "fork"));
  if negb forked then throw (runtime_error "fork failed") else
  on_fst (modify (fun n => mk_NBD (m_device n) (m_clientSocket n) (m_serverSocket n) (m_driveSize n) pid)) ;;
  device ← gets (fun s => m_device s.1);
  on_snd (set_dev device) ;;
  masked ← on_snd (on_kern (both (syscall "sigemptyset")
    (both (syscall "sigaddset SIGINT") (syscall "sigaddset SIGTERM"))));
  if negb masked then throw (runtime_error "failed to prepare signal mask in server") else
  handled ← on_snd (on_kern (both (syscall "sigaction SIGINT") (syscall "sigaction SIGTERM")));
  if negb handled then throw (runtime_error "failed to set server signals") else
  mret tt.

(** The members, destroyed in the reverse order of their declarations. *)
Definition destroy_members (n : NBD) : prog process unit :=
  (match m_serverSocket n with
   | Some fd => on_kern (fun k => let '(r, s) := SocketBase.delete (fd, k) in (r, s.2))
   | None => mret tt
   end) ;;
  (match m_clientSocket n with Some fd => on_kern (close fd) | None => mret tt end) ;;
  on_kern (close (m_device n)).

(** The constructor: when the body throws, the members are destroyed, the destructor
    does not run. *)
Definition NBD_new (driveSize pid : Z) : prog process NBD :=
  device ← on_kern (sys_fd "open");
  if device =? -1 then throw (runtime_error "FDWrapper failed") else
  fun w =>
    match NBD_body pid (mk_NBD device None None driveSize (-1), w) with
    | (Ok _, (n, w')) => (Ok n, w')
    | (Throw e, (n, w')) => (destroy_members n ;; throw e) w'
    | (Undefined, (_, w')) => (Undefined, w')
    | (Blocked, (_, w')) => (Blocked, w')
    end.

Definition GetTCPSocket (n : NBD) : res Z :=
  match m_serverSocket n with Some fd => Ok fd | None => Throw bad_optional_access end.

(** [DisconnectNBD], also the handler of the signals. *)
Definition DisconnectNBD : prog process unit :=
  dev ← gets s_nbdDevToDisconnect;
  if dev =? -1 then mret tt else
  ok ← on_kern (ioctl dev "NBD_DISCONNECT");
  if negb ok then Log "failed to request disconect on nbd device" WARNING else
  modify (fun w => mk_process (kern w) (s_nbdDevToDisconnect w) true (child_script w) (logged w)) ;;
  set_dev (-1) ;;
  Log "sucessfuly requested disconnect on nbd device" DEBUG.

(** [~NBD]. *)
Definition NBD_delete (n : NBD) : prog process unit :=
  DisconnectNBD ;;
  (if 0 <? m_childPid n
   then fun w => match child_status n w with Some _ => (Ok tt, w) | None => (Blocked, w) end
   else mret tt) ;;
  destroy_members n.

(** ** The body of the constructor *)

Definition set_kern (k : kernel) (w : process) : process :=
  mk_process k (s_nbdDevToDisconnect w) (disconnected w) (child_script w) (logged w).

Lemma on_kern_eq {A} (f : prog kernel A) w r k' :
  f (kern w) = (r, k') -> on_kern f w = (r, set_kern k' w).
Proof. intros E. unfold on_kern, zoom. by rewrite E. Qed.

(** [f] may fail, and changes no descriptor. *)
Definition harmless (f : prog kernel bool) : Prop := forall k X n k1,
  owns X n k k1 -> exists ok k2, f k1 = (Ok ok, k2) /\ owns X n k k2.

Lemma harmless_syscall name : harmless (syscall name).
Proof. intros k X n k1. apply owns_syscall. Qed.

Lemma harmless_ioctl fd name : harmless (ioctl fd name).
Proof.
  intros k X n k1 H. destruct (owns_syscall k X n k1 name H) as (ok & k2 & E & H2).
  unfold ioctl. rewrite (bind_ok _ _ _ _ _ E). by eexists _, k2.
Qed.

Lemma harmless_both f g : harmless f -> harmless g -> harmless (both f g).
Proof.
  intros Hf Hg k X n k1 H. destruct (Hf k X n k1 H) as (ok & k2 & E & H2). unfold both.
  rewrite (bind_ok _ _ _ _ _ E). destruct ok; [by apply Hg|by exists false, k2].
Qed.

#[local] Hint Resolve harmless_syscall harmless_ioctl harmless_both : raid.

Section body.
Context (k : kernel).

Definition of_option (o : option Z) : gset Z :=
  match o with Some fd => {[fd]} | None => ∅ end.

(** The object and the process: the members of [n] are the new descriptors. *)
Definition fds (n : NBD) : gset Z :=
  {[m_device n]} ∪ of_option (m_clientSocket n)
  ∪ of_option (m_serverSocket n).

Definition distinct (n : NBD) : Prop :=
  NoDup (m_device n :: option_list (m_clientSocket n) ++ option_list (m_serverSocket n)).

Definition holds (s : NBD * process) : Prop :=
  owns (fds s.1) 0 k (kern s.2) /\ distinct s.1.

(** A step of the constructor: a call, and an exception when it fails. *)
Lemma guarded f what (rest : prog (NBD * process) unit) s (Q : res unit * (NBD * process) -> Prop) :
  harmless f -> holds s ->
  (forall s', holds s' -> Q (Throw (runtime_error what), s')) ->
  (forall k', holds (s.1, set_kern k' s.2) -> Q (rest (s.1, set_kern k' s.2))) ->
  Q ((ok ← on_snd (on_kern f); if negb ok then throw (runtime_error what) else rest) s).
Proof.
  intros Hf [Hs Hd] HQt HQ. destruct s as [n w]. destruct (Hf k (fds n) 0%nat (kern w) Hs) as (ok & k' & E & H').
  assert (Es : on_snd (on_kern f) (n, w) = (Ok ok, (n, set_kern k' w))).
  { unfold on_snd at 1, zoom at 1. cbn [fst snd]. by rewrite (on_kern_eq f w (Ok ok) k' E). }
  rewrite (bind_ok _ _ _ _ _ Es). destruct ok; cbn [negb]; [apply HQ|apply HQt]; by split.
Qed.

(** What the body of the constructor does. *)
Definition built (pid : Z) (x : res unit * (NBD * process)) : Prop :=
  match x.1 with
  | Ok _ => holds x.2 /\ is_Some (m_clientSocket x.2.1) /\ is_Some (m_serverSocket x.2.1)
      /\ m_childPid x.2.1 = pid /\ s_nbdDevToDisconnect x.2.2 = m_device x.2.1
  | Throw _ => holds x.2
  | _ => False
  end.

Definition connected (x : res unit * (NBD * process)) : Prop :=
  match x.1 with
  | Ok _ => holds x.2 /\ is_Some (m_clientSocket x.2.1) /\ is_Some (m_serverSocket x.2.1)
  | Throw _ => holds x.2
  | _ => False
  end.

Lemma SocketsInit_ok device size w :
  holds (mk_NBD device None None size (-1), w) ->
  connected (SocketsInit (mk_NBD device None None size (-1), w)).
Proof.
  intros Hs. unfold SocketsInit. apply (guarded (syscall "socketpair")); [auto with raid|done|done|].
  intros k1 [H1 _]. cbn [fst snd kern set_kern] in H1 |- *.
  destruct (owns_new_fd k _ _ _ H1) as (server & k2 & E2 & _ & Hnew2 & _ & H2).
  destruct (owns_new_fd k _ _ _ H2) as (client & k3 & E3 & _ & Hnew3 & _ & H3).
  set (w1 := set_kern k1 w). set (n0 := mk_NBD device None None size (-1)).
  assert (F2 : on_snd (on_kern new_fd) (n0, w1) = (Ok server, (n0, set_kern k2 w1))).
  { unfold on_snd at 1, zoom at 1. cbn [fst snd]. by rewrite (on_kern_eq new_fd w1 _ k2 E2). }
  assert (F3 : on_snd (on_kern new_fd) (n0, set_kern k2 w1) = (Ok client, (n0, set_kern k3 w1))).
  { unfold on_snd at 1, zoom at 1. cbn [fst snd]. by rewrite (on_kern_eq new_fd (set_kern k2 w1) _ k3 E3). }
  rewrite (bind_ok _ _ _ _ _ F2), (bind_ok _ _ _ _ _ F3).
  set (n1 := mk_NBD device (Some client) (Some server) size (-1)).
  assert (Hn1 : holds (n1, set_kern k3 w1)).
  { assert (Ef : fds n1 = {[client]} ∪ ({[server]} ∪ fds n0))
      by (unfold fds, n0, n1; cbn [m_device m_clientSocket m_serverSocket of_option];
          set_solver).
    split; cbn [fst snd kern set_kern]; [by rewrite Ef|].
    unfold fds, n0 in Hnew2, Hnew3. unfold distinct, n1.
    cbn [m_device m_clientSocket m_serverSocket of_option option_list app] in *.
    repeat (apply NoDup_cons; split); [set_solver..|apply NoDup_nil_2]. }
  change (connected ((ok ← on_snd (on_kern (ioctl device "NBD_SET_SIZE"));
    if negb ok then throw (runtime_error "ioctl NBD_SET_SIZE failed") else
    ok ← on_snd (on_kern (ioctl device "NBD_CLEAR_SOCK"));
    if negb ok then throw (runtime_error "ioctl NBD_CLEAR_SOCK failed") else mret tt) (n1, set_kern k3 w1))).
  apply guarded; [auto with raid|done|done|]. intros k4 H4.
  apply guarded; [auto with raid|done|done|]. intros k5 H5.
  split; [exact H5|]. split; by eexists.
Qed.

Lemma NBD_body_ok device size pid w :
  holds (mk_NBD device None None size (-1), w) ->
  built pid (NBD_body pid (mk_NBD device None None size (-1), w)).
Proof.
  intros Hs. pose proof (SocketsInit_ok device size w Hs) as Hc. unfold NBD_body.
  destruct (SocketsInit (mk_NBD device None None size (-1), w)) as [[[]|e| |] [n w1]] eqn:E; try done.
  2:{ by rewrite (bind_throw _ _ _ _ _ E). }
  destruct Hc as (H1 & Hcl & Hsv). cbn [fst snd] in *. rewrite (bind_ok _ _ _ _ _ E).
  apply guarded; [auto with raid|done|done|]. intros k2 H2. cbn [fst snd] in *.
  set (n2 := mk_NBD (m_device n) (m_clientSocket n) (m_serverSocket n) (m_driveSize n) pid).
  set (w2 := mk_process k2 (m_device n) (disconnected w1) (child_script w1) (logged w1)).
  change (built pid ((masked ← on_snd (on_kern (both (syscall "sigemptyset")
      (both (syscall "sigaddset SIGINT") (syscall "sigaddset SIGTERM"))));
    if negb masked then throw (runtime_error "failed to prepare signal mask in server") else
    handled ← on_snd (on_kern (both (syscall "sigaction SIGINT") (syscall "sigaction SIGTERM")));
    if negb handled then throw (runtime_error "failed to set server signals") else
    mret tt) (n2, w2))).
  assert (Hn2 : holds (n2, w2)) by exact H2.
  apply guarded; [auto with raid|done|done|]. intros k3 H3. cbn [fst snd] in *.
  apply guarded; [auto with raid|done|done|]. intros k4 H4. cbn [fst snd] in *.
  split; [exact H4|]. by split.
Qed.

Lemma on_kern_close X w fd : owns X 0 k (kern w) -> fd ∈ X ->
  exists w', on_kern (close fd) w = (Ok tt, w') /\ owns (X ∖ {[fd]}) 0 k (kern w')
    /\ disconnected w' = disconnected w /\ s_nbdDevToDisconnect w' = s_nbdDevToDisconnect w.
Proof.
  intros H Hfd. destruct (owns_close k X 0 (kern w) fd H Hfd) as (k2 & E & H2).
  exists (set_kern k2 w). by rewrite (on_kern_eq _ w _ k2 E).
Qed.

Lemma delete_close fd (k1 : kernel) : fd <> -1 ->
  (let '(r, s) := SocketBase.delete (fd, k1) in (r, s.2)) = close fd k1.
Proof.
  intros Hfd. unfold SocketBase.delete, SocketBase.Reset. run_prog. cbn [fst snd].
  by rewrite (proj2 (Z.eqb_neq fd (-1)) Hfd).
Qed.

(** The client's descriptor and the device, then the server's before them. *)
Lemma close_rest dev (c : option Z) w :
  let X := {[dev]} ∪ of_option c : gset Z in
  owns X 0 k (kern w) -> dev ∉ option_list c ->
  exists w', ((match c with Some fd => on_kern (close fd) | None => mret tt end) ;; on_kern (close dev)) w
      = (Ok tt, w') /\ owns ∅ 0 k (kern w')
    /\ disconnected w' = disconnected w /\ s_nbdDevToDisconnect w' = s_nbdDevToDisconnect w.
Proof.
  intros X H Hc. assert (Hlast : forall w0, owns {[dev]} 0 k (kern w0) ->
    exists w', on_kern (close dev) w0 = (Ok tt, w') /\ owns ∅ 0 k (kern w')
      /\ disconnected w' = disconnected w0 /\ s_nbdDevToDisconnect w' = s_nbdDevToDisconnect w0).
  { intros w0 H0. destruct (on_kern_close _ w0 dev H0) as (w1 & E & H1 & Hrest); [set_solver|].
    rewrite (difference_diag_L {[dev]}) in H1. by exists w1. }
  destruct c as [c|]; cbn [of_option option_list] in *.
  - destruct (on_kern_close _ w c H) as (w1 & E1 & H1 & Hd & Hs); [set_solver|].
    assert (EX : X ∖ {[c]} = {[dev]}) by (unfold X; set_solver). rewrite EX in H1.
    destruct (Hlast w1 H1) as (w2 & E2 & H2 & Hd2 & Hs2). exists w2.
    rewrite (bind_ok _ _ _ _ _ E1), Hd2, Hs2. done.
  - unfold X in H. rewrite (right_id_L ∅ (∪)) in H. by apply Hlast.
Qed.

Lemma destroy_ok n w : holds (n, w) ->
  exists w', destroy_members n w = (Ok tt, w') /\ owns ∅ 0 k (kern w')
    /\ disconnected w' = disconnected w /\ s_nbdDevToDisconnect w' = s_nbdDevToDisconnect w.
Proof.
  intros [Hs Hd]. cbn [fst snd] in *. unfold destroy_members, fds, distinct in *.
  apply NoDup_cons in Hd as [Hdev Hd]. apply not_elem_of_app in Hdev as [Hc Hsv].
  set (X := {[m_device n]} ∪ of_option (m_clientSocket n) : gset Z) in *.
  destruct (m_serverSocket n) as [fd|]; cbn [of_option option_list] in *.
  - assert (Hfd : fd <> -1).
    { destruct Hs as [_ Hf _ _ [_ Ho]]. assert (Hin : fd ∈ open_fds (kern w)) by (rewrite Hf; set_solver).
      apply Ho in Hin. lia. }
    assert (E : on_kern (fun k => let '(r, s) := SocketBase.delete (fd, k) in (r, s.2)) w
      = on_kern (close fd) w) by (unfold on_kern, zoom; by rewrite delete_close).
    destruct (on_kern_close (X ∪ {[fd]}) w fd Hs) as (w1 & E1 & H1 & Hd1 & Hs1);
      [by apply elem_of_union_r, elem_of_singleton|].
    assert (EX : (X ∪ {[fd]}) ∖ {[fd]} = X).
    { assert (Hfx : fd ∉ X); [|clear -Hfx; clearbody X; set_solver].
      unfold X. clear -Hd Hsv. destruct (m_clientSocket n) as [c|];
        cbn [of_option option_list app] in *; [|set_solver].
      apply NoDup_cons in Hd as [Hcs _]. set_solver. }
    rewrite EX in H1. rewrite E1 in E. rewrite (bind_ok _ _ _ _ _ E).
    destruct (close_rest (m_device n) (m_clientSocket n) w1 H1 Hc) as (w2 & E2 & H2 & Hd2 & Hs2).
    exists w2. by rewrite Hd2, Hs2.
  - rewrite (right_id_L ∅ (∪)) in Hs. rewrite (bind_ok _ _ _ tt w) by done.
    by apply close_rest.
Qed.
End body.

(** ** The destructor *)

Lemma DisconnectNBD_holds k n w : holds k (n, w) ->
  exists w', DisconnectNBD w = (Ok tt, w') /\ holds k (n, w')
    /\ (disconnected w' = false -> disconnected w = false).
Proof.
  intros Hs. unfold DisconnectNBD. rewrite (bind_ok _ _ _ (s_nbdDevToDisconnect w) w) by done.
  destruct (s_nbdDevToDisconnect w =? -1); [by exists w|].
  destruct Hs as [H Hd]. cbn [fst snd] in *.
  destruct (harmless_ioctl (s_nbdDevToDisconnect w) "NBD_DISCONNECT" k _ _ _ H) as (ok & k2 & E & H2).
  rewrite (bind_ok _ _ _ _ _ (on_kern_eq _ w _ k2 E)).
  destruct ok; cbn [negb]; (eexists; split; [reflexivity|]); (split; [by split|done]).
Qed.

(** Code that returns or throws. *)
Definition answers {A} (m : prog kernel A) : Prop :=
  forall k, match (m k).1 with Ok _ | Throw _ => True | _ => False end.

Lemma answers_bind {A B} (m : prog kernel A) (f : A -> prog kernel B) :
  answers m -> (forall a, answers (f a)) -> answers (m ≫= f).
Proof.
  intros Hm Hf k. specialize (Hm k). unfold mbind, prog_bind.
  destruct (m k) as [[a|e| |] k']; cbn [fst] in *; [apply Hf|done..].
Qed.

Ltac answering :=
  repeat lazymatch goal with
  | |- answers (_ ≫= _) => apply answers_bind
  | |- answers (if ?b then _ else _) => destruct b
  | |- answers (match ?x with _ => _ end) => destruct x
  | |- forall _, _ => intros ?
  | |- _ => done
  end.

(** The child is in [NBD_DO_IT] as long as the device was not told to disconnect. *)
Lemma RunClient_told n : answers (RunClient n true).
Proof.
  unfold RunClient, both. answering. by destruct (m_clientSocket n).
Qed.

Lemma child_status_told n w : disconnected w = true -> is_Some (child_status n w).
Proof.
  intros Hd. unfold child_status. rewrite Hd.
  pose proof (RunClient_told n (mk_kernel (open_fds (kern w)) (next_fd (kern w)) (bad_closes (kern w))
    (addrinfos (kern w)) (child_script w) [])) as H. by destruct (RunClient _ _ _) as [[]].
Qed.

(** ** Properties *)

(** C35: the device releases what it takes: whichever system calls fail, a
    constructor that throws has closed every descriptor it opened, once; one that
    returns owns three different new ones (the device and both ends of a pair of
    sockets), and its destructor closes them all.
    The destructor can only wait for ever when the request to disconnect was
    never accepted: the child process is then still in [NBD_DO_IT]. *)
Theorem NBD_releases (size pid : Z) (w : process) (Hk : kernel_ok (kern w)) :
  let k := kern w in
  match NBD_new size pid w with
  | (Ok n, w1) =>
      owns (fds n) 0 k (kern w1) /\ distinct n /\ is_Some (m_clientSocket n) /\ is_Some (m_serverSocket n)
      /\ match NBD_delete n w1 with
         | (Ok _, w2) => owns ∅ 0 k (kern w2)
         | (Blocked, w2) => disconnected w2 = false /\ disconnected w1 = false
         | _ => False
         end
  | (Throw _, w1) => owns ∅ 0 k (kern w1)
  | _ => False
  end.
Proof.
  intros k. assert (H0 := owns_refl k Hk). unfold NBD_new.
  destruct (owns_sys_fd k ∅ 0 k "open" H0) as (device & k1 & E1 & Hcase).
  rewrite (bind_ok _ _ _ _ _ (on_kern_eq _ w _ k1 E1)).
  destruct Hcase as [[-> H1]|(Hne & _ & _ & H1)]; [exact H1|].
  rewrite (proj2 (Z.eqb_neq device (-1)) Hne).
  set (n0 := mk_NBD device None None size (-1)). set (w1 := set_kern k1 w).
  assert (Hs : holds k (n0, w1)).
  { split; cbn [fst snd]; [|by apply NoDup_singleton].
    assert (Ef : fds n0 = {[device]} ∪ ∅) by (unfold fds, n0; cbn [m_device m_clientSocket m_serverSocket of_option]; set_solver).
    by rewrite Ef. }
  pose proof (NBD_body_ok k device size pid w1 Hs) as Hb. fold n0 in Hb.
  destruct (NBD_body pid (n0, w1)) as [[[]|e| |] [n w2]]; unfold built in Hb; cbn [fst snd] in Hb; try done.
  - destruct Hb as ([H2 Hd2] & Hcl & Hsv & Hpid & Hdev). cbn [fst snd] in *.
    split; [exact H2|]. split; [exact Hd2|]. split; [exact Hcl|]. split; [exact Hsv|]. unfold NBD_delete.
    destruct (DisconnectNBD_holds k n w2) as (w3 & E3 & H3 & Hdis); [by split|].
    rewrite (bind_ok _ _ _ _ _ E3).
    destruct (destroy_ok k n w3 H3) as (w4 & E4 & H4 & Hd4 & _).
    destruct (0 <? m_childPid n).
    + destruct (child_status n w3) as [st|] eqn:Est.
      * rewrite (bind_ok _ _ w3 tt w3) by (cbn; by rewrite Est). by rewrite E4.
      * unfold mbind, prog_bind. rewrite Est.
        assert (Hno : disconnected w3 = false).
        { destruct (disconnected w3) eqn:Ed; [|done].
          destruct (child_status_told n w3 Ed) as [? Hx]. congruence. }
        split; [done|by apply Hdis].
    + rewrite (bind_ok _ _ w3 tt w3) by done. by rewrite E4.
  - destruct (destroy_ok k n w2 Hb) as (w3 & E3 & H3 & _). rewrite (bind_ok _ _ _ _ _ E3). exact H3.
Qed.

(** The process starts with its standard streams; the second [ioctl] of the
    constructor fails. *)
Definition started_process (script : list bool) : process :=
  mk_process (mk_kernel {[ 0; 1; 2 ]} 3 0 0 script []) (-1) false [] [].

Lemma started_ok script : kernel_ok (kern (started_process script)).
Proof.
  constructor; cbn [started_process kern next_fd open_fds]; [lia|]. intros fd Hfd.
  rewrite !elem_of_union, !elem_of_singleton in Hfd. lia.
Qed.

(** With no failure the descriptors 3, 4 and 5 are opened, the child serves until it
    is told to disconnect, and the destructor returns. *)
Example NBD_lifetime :
  match NBD_new 100 77 (started_process []) with
  | (Ok n, w1) => m_device n = 3 /\ GetTCPSocket n = Ok 4 /\ m_clientSocket n = Some 5
      /\ child_status n w1 = None /\ (NBD_delete n w1).1 = Ok tt
  | _ => False
  end.
Proof. by vm_compute. Qed.

Lemma NBD_releases_witness :
  let w := started_process [true; true; true; false] in
  NBD_new 100 77 w = (Throw (runtime_error "ioctl NBD_CLEAR_SOCK failed"), (NBD_new 100 77 w).2)
  /\ let k := kern w in
     match NBD_new 100 77 w with
     | (Ok n, w1) =>
         owns (fds n) 0 k (kern w1) /\ distinct n /\ is_Some (m_clientSocket n) /\ is_Some (m_serverSocket n)
         /\ match NBD_delete n w1 with
            | (Ok _, w2) => owns ∅ 0 k (kern w2)
            | (Blocked, w2) => disconnected w2 = false /\ disconnected w1 = false
            | _ => False
            end
     | (Throw _, w1) => owns ∅ 0 k (kern w1)
     | _ => False
     end.
Proof. intros w. split; [by vm_compute|]. apply (NBD_releases 100 77 w). apply started_ok. Defined.
