(* ===== verification/Watch.v ===== *)
(** * Watch

    The life of a [DirMonitor] of [framework/src/dir_monitor.cpp]: the descriptors
    of its construction, the thread that [Run] starts, and [Stop], which runs in
    another thread.  What the thread does with the events is [DirMonitor.v]. *)

From S2P Require Import Prelude Descriptors.

(** Where the thread of the monitor is: at the test of the loop; at the call of
    [read]; inside of it; behind it, with an event or with [-1]; at its end; or
    [std::terminate] was called because an exception left it. *)
Inductive wpoint (EV : Type) : Type :=
  | AtTest
  | AtRead
  | InRead
  | Handling (event : EV)
  | AtFailed
  | WEnded
  | Terminated.
Arguments AtTest {EV}.
Arguments AtRead {EV}.
Arguments InRead {EV}.
Arguments Handling {EV} event.
Arguments AtFailed {EV}.
Arguments WEnded {EV}.
Arguments Terminated {EV}.

(** Where the thread is that calls the member functions: outside of them, or in
    [Stop], at [inotify_rm_watch], at [close], or at [join]. *)
Inductive mpoint : Set := Outside | AtRemove | AtClose | AtJoin | Stopped.

Section Watch.
Context {EV W : Type}.

(** [Ignored] is the event that the kernel queues for a removed watch; [handle]
    is the inner loop of [MonitorRun] on what one [read] gave. *)
Context (Ignored : EV) (handle : EV -> prog W unit).

(** [queue] are the events in the kernel and [watching] tells whether the watch
    exists; [m_worker] is the joinable thread. *)
Record monitor : Type := mk_monitor {
  kern : kernel;
  m_notify_fd : Z;
  watching : bool;
  queue : list EV;
  m_running : bool;
  m_worker : option (wpoint EV);
  caller : mpoint;
  world : W;
}.

Implicit Types s : monitor.

Definition set_kern k s : monitor :=
  mk_monitor k (m_notify_fd s) (watching s) (queue s) (m_running s) (m_worker s) (caller s) (world s).
Definition set_notify_fd fd s : monitor :=
  mk_monitor (kern s) fd (watching s) (queue s) (m_running s) (m_worker s) (caller s) (world s).
Definition set_queue b q s : monitor :=
  mk_monitor (kern s) (m_notify_fd s) b q (m_running s) (m_worker s) (caller s) (world s).
Definition set_running b s : monitor :=
  mk_monitor (kern s) (m_notify_fd s) (watching s) (queue s) b (m_worker s) (caller s) (world s).
Definition set_worker p s : monitor :=
  mk_monitor (kern s) (m_notify_fd s) (watching s) (queue s) (m_running s) p (caller s) (world s).
Definition set_caller p s : monitor :=
  mk_monitor (kern s) (m_notify_fd s) (watching s) (queue s) (m_running s) (m_worker s) p (world s).
Definition set_world w s : monitor :=
  mk_monitor (kern s) (m_notify_fd s) (watching s) (queue s) (m_running s) (m_worker s) (caller s) w.

(** ** Construction *)

Definition GetNotifyFD : prog kernel Z :=
  fd ← sys_fd "inotify_init";
  if fd =? -1 then throw (runtime_error "Couldn't init inotify") else mret fd.

Definition GetWatchFD (m_notify_fd : Z) : prog kernel unit :=
  ok ← syscall "inotify_add_watch";
  if ok : bool then mret tt
  else close m_notify_fd ;; throw (runtime_error "Couldn't init watch").

Definition DirMonitor_new (w : W) : prog kernel monitor :=
  fd ← GetNotifyFD;
  GetWatchFD fd ;;
  k ← gets id;
  mret (mk_monitor k fd true [] false None Outside w).

(** ** Run and Stop *)

(** The assignment to a joinable [std::thread] calls [std::terminate]. *)
Definition Run : prog monitor unit := fun s =>
  let s := set_running true s in
  match m_worker s with
  | None => (Ok tt, set_worker (Some AtTest) s)
  | Some _ => (Ok tt, set_worker (Some Terminated) s)
  end.

(** A step of [Stop]. *)
Definition Stop_step : prog monitor unit := fun s =>
  match caller s with
  | Outside =>
      if negb (m_running s) && bool_decide (m_worker s = None) then (Ok tt, set_caller Stopped s)
      else
        (Ok tt, set_caller (if m_notify_fd s =? -1 then AtJoin else AtRemove) (set_running false s))
  | AtRemove =>
      (Ok tt, set_caller AtClose
        (if watching s then set_queue false (queue s ++ [Ignored]) s else s))
  | AtClose =>
      (Ok tt, set_caller AtJoin (set_notify_fd (-1) (set_kern (close (m_notify_fd s) (kern s)).2 s)))
  | AtJoin =>
      match m_worker s with
      | None => (Ok tt, set_caller Stopped s)
      | Some WEnded => (Ok tt, set_caller Stopped (set_worker None s))
      | Some _ => (Blocked, s)
      end
  | Stopped => (Blocked, s)
  end.

(** A step of [MonitorRun]. The call of [read] looks the descriptor up; from then on
    the kernel keeps the file, although the descriptor is closed. *)
Definition worker_step : prog monitor unit := fun s =>
  match m_worker s with
  | Some AtTest => (Ok tt, set_worker (Some (if m_running s then AtRead else WEnded)) s)
  | Some AtRead =>
      (Ok tt, set_worker (Some (if bool_decide (m_notify_fd s ∈ open_fds (kern s)) then InRead else AtFailed)) s)
  | Some InRead =>
      match queue s with
      | [] => (Blocked, s)
      | event :: q => (Ok tt, set_worker (Some (Handling event)) (set_queue (watching s) q s))
      end
  | Some (Handling event) =>
      match handle event (world s) with
      | (Ok _, w) => (Ok tt, set_worker (Some AtTest) (set_world w s))
      | (Throw _, w) => (Ok tt, set_worker (Some Terminated) (set_world w s))
      | (Undefined, w) => (Undefined, set_world w s)
      | (Blocked, w) => (Blocked, set_world w s)
      end
  | Some AtFailed => (Ok tt, set_worker (Some (if m_running s then Terminated else WEnded)) s)
  | _ => (Blocked, s)
  end.

(** ** The steps of the program and of the kernel

    An exception that leaves the thread of the monitor ends the program: no thread
    does a step behind it. *)

Definition alive s : Prop := m_worker s <> Some Terminated.

Inductive pstep : monitor -> monitor -> Prop :=
  | pstep_stop s s' : alive s -> caller s <> Outside -> Stop_step s = (Ok tt, s') -> pstep s s'
  | pstep_worker s s' : worker_step s = (Ok tt, s') -> pstep s s'.

Inductive kstep : monitor -> monitor -> Prop :=
  | kstep_event event s : watching s = true -> kstep s (set_queue true (queue s ++ [event]) s).

(** The monitor is run once and stopped once. *)
Inductive mstep : monitor -> monitor -> Prop :=
  | mstep_run s s' : caller s = Outside -> m_worker s = None -> Run s = (Ok tt, s') -> mstep s s'
  | mstep_stop s s' : alive s -> caller s = Outside -> Stop_step s = (Ok tt, s') -> mstep s s'
  | mstep_prog s s' : pstep s s' -> mstep s s'
  | mstep_kernel s s' : kstep s s' -> mstep s s'.

(** [n] steps of the program, among events of the kernel. *)
Inductive prun : nat -> monitor -> monitor -> Prop :=
  | prun_refl s : prun 0 s s
  | prun_prog n s s1 s' : pstep s s1 -> prun n s1 s' -> prun (S n) s s'
  | prun_kernel n s s1 s' : kstep s s1 -> prun n s1 s' -> prun n s s'.

(** ** The invariant *)

(** A function that a callback has for an event threw. *)
Definition handler_threw : Prop := exists event w e w', handle event w = (Throw e, w').

(** The worker is in a function that does not come back: it is undefined or waits
    for ever. *)
Definition handler_hangs s : Prop :=
  exists event, m_worker s = Some (Handling event)
    /\ (fst (handle event (world s)) = Undefined \/ fst (handle event (world s)) = Blocked).

(** What the caller's point says of the object; [p] is the worker's point. *)
Definition caller_ok s : Prop :=
  match caller s with
  | Outside => watching s = true /\ m_running s = bool_decide (m_worker s <> None)
  | AtRemove => watching s = true /\ m_running s = false /\ m_worker s <> None
  | AtClose | AtJoin => watching s = false /\ m_running s = false /\ m_worker s <> None
  | Stopped => m_running s = false /\ m_worker s = None
  end.

Definition worker_ok s : Prop :=
  match m_worker s with
  | Some AtFailed | Some WEnded => m_running s = false
  | Some AtRead | Some InRead => watching s = false -> queue s <> []
  | Some Terminated => handler_threw
  | _ => True
  end.

(** [k0] is the kernel in front of the constructor. *)
Record watch_ok (k0 : kernel) s : Prop := {
  wo_caller : caller_ok s;
  wo_worker : worker_ok s;
  wo_fds : if m_notify_fd s =? -1 then owns ∅ 0 k0 (kern s)
           else owns {[m_notify_fd s]} 0 k0 (kern s);
  wo_closed : m_notify_fd s = -1 -> caller s = AtJoin \/ caller s = Stopped;
  wo_join : caller s = AtJoin -> m_notify_fd s = -1;
}.

Lemma fd_open k0 s :
  watch_ok k0 s -> m_notify_fd s ∈ open_fds (kern s) <-> m_notify_fd s <> -1.
Proof.
  intros [_ _ Hfds _ _]. destruct (Z.eqb_spec (m_notify_fd s) (-1)) as [E|E].
  - split; [|done]. rewrite E. intros Hin. apply (k_open _ (ow_ok _ _ _ _ Hfds)) in Hin. lia.
  - split; [done|]. intros _. rewrite (ow_fds _ _ _ _ Hfds). set_solver.
Qed.

Lemma DirMonitor_new_ok k0 w r k :
  kernel_ok k0 -> DirMonitor_new w k0 = (r, k) ->
  match r with
  | Ok s => watch_ok k0 s /\ kern s = k
  | Throw _ => owns ∅ 0 k0 k
  | _ => False
  end.
Proof.
  intros Hk. pose proof (owns_refl k0 Hk) as H0. unfold DirMonitor_new, GetNotifyFD, GetWatchFD.
  destruct (owns_sys_fd k0 ∅ 0 k0 "inotify_init" H0) as (fd & k1 & E1 & [[-> H1]|(Hne & _ & _ & H1)]);
    run_prog; rewrite E1; [by intros [= <- <-]|].
  rewrite (proj2 (Z.eqb_neq fd (-1)) Hne). rewrite (right_id_L ∅ (∪)) in H1.
  destruct (owns_syscall k0 {[fd]} 0 k1 "inotify_add_watch" H1) as (ok & k2 & E2 & H2). rewrite E2.
  destruct ok.
  - intros [= <- <-]. split; [|done].
    constructor; cbn; try done. by rewrite (proj2 (Z.eqb_neq fd (-1)) Hne).
  - destruct (owns_close k0 {[fd]} 0 k2 fd H2) as (k3 & E3 & H3); [set_solver|]. rewrite E3.
    intros [= <- <-]. by rewrite (difference_diag_L {[fd]}) in H3.
Qed.

(** ** The steps keep the invariant *)

Lemma Run_ok k0 s s' :
  watch_ok k0 s -> caller s = Outside -> m_worker s = None -> Run s = (Ok tt, s') -> watch_ok k0 s'.
Proof.
  intros [Hc _ Hf Hcl Hj] Hout Hw. unfold caller_ok in Hc. rewrite Hout in Hc. destruct Hc as [Hc _].
  unfold Run. cbn [m_worker set_running]. rewrite Hw. intros [= <-].
  constructor; cbn; try done. unfold caller_ok. cbn. by rewrite Hout.
Qed.

Lemma Stop_step_ok k0 s s' : watch_ok k0 s -> Stop_step s = (Ok tt, s') -> watch_ok k0 s'.
Proof.
  intros [Hc Hw Hf Hcl Hj]. unfold Stop_step, caller_ok in *. destruct (caller s) eqn:Ec.
  - destruct Hc as [Hwatch Hrun].
    destruct (Z.eqb_spec (m_notify_fd s) (-1)) as [E|E]; [by destruct (Hcl E)|].
    apply Z.eqb_neq in E. destruct (m_worker s) as [pt|] eqn:Ew; cbn in Hrun; rewrite Hrun; cbn; intros [= <-].
    + constructor; cbn; rewrite ?E; try done; try (intros ?%Z.eqb_eq; congruence).
      * unfold caller_ok. cbn. by rewrite Ew.
      * unfold worker_ok in *. cbn. rewrite Ew in *. destruct pt; done || by rewrite Hwatch.
    + constructor; cbn; rewrite ?E; try done; try (intros ?%Z.eqb_eq; congruence).
  - destruct Hc as (Hwatch & Hrun & Hnone). rewrite Hwatch. intros [= <-].
    constructor; cbn; try done.
    + unfold worker_ok in *. cbn. destruct (m_worker s) as [[]|]; try done; intros _; by destruct (queue s).
    + intros E. destruct (Hcl E); congruence.
  - destruct Hc as (Hwatch & Hrun & Hnone). intros [= <-].
    destruct (Z.eqb_spec (m_notify_fd s) (-1)) as [E|E]; [destruct (Hcl E); congruence|].
    destruct (owns_close k0 _ 0 (kern s) (m_notify_fd s) Hf) as (k1 & E1 & H1); [set_solver|].
    rewrite (difference_diag_L {[m_notify_fd s]}) in H1. injection E1 as <-.
    by constructor; [..|by left|].
  - destruct Hc as (Hwatch & Hrun & Hnone). rewrite (Hj eq_refl) in *. cbn in Hf.
    destruct (m_worker s) as [[]|] eqn:Ew; try done. intros [= <-].
    constructor; cbn; rewrite ?(Hj eq_refl); try done. by right.
  - done.
Qed.

Lemma move_worker k0 s p q w :
  watch_ok k0 s -> m_worker s <> None ->
  let s' := set_worker (Some p) (set_world w (set_queue (watching s) q s)) in
  worker_ok s' -> watch_ok k0 s'.
Proof.
  intros [Hc Hw Hf Hcl Hj] Hn s' Hok. constructor; try done. unfold caller_ok in *. cbn.
  destruct (caller s); [|naive_solver..].
  by rewrite (bool_decide_eq_true_2 (m_worker s <> None)) in Hc by done.
Qed.

Lemma worker_step_ok k0 s s' : watch_ok k0 s -> worker_step s = (Ok tt, s') -> watch_ok k0 s'.
Proof.
  intros Hs. pose proof (fd_open k0 s Hs) as Hopen. pose proof (wo_caller k0 s Hs) as Hc.
  pose proof (wo_worker k0 s Hs) as Hw. pose proof (wo_closed k0 s Hs) as Hcl.
  assert (Hid : forall p, set_worker p s = set_worker p (set_world (world s) (set_queue (watching s) (queue s) s)))
    by by destruct s.
  unfold worker_step, worker_ok, caller_ok in *. destruct (m_worker s) as [pt|] eqn:Ew; [|done].
  assert (Hn : m_worker s <> None) by congruence.
  destruct pt as [| | |event| | |]; try done.
  - intros [= <-]. rewrite Hid. apply move_worker; [done|done|]. unfold worker_ok. cbn.
    destruct (m_running s) eqn:Er; [|done].
    intros Hwatch. destruct (caller s); destruct_and?; congruence.
  - intros [= <-]. rewrite Hid. apply move_worker; [done|done|]. unfold worker_ok. cbn.
    destruct (bool_decide (m_notify_fd s ∈ _)) eqn:Hin; [exact Hw|]. apply bool_decide_eq_false in Hin.
    destruct (Hcl ltac:(by destruct (decide (m_notify_fd s = -1)); [|tauto])) as [E|E];
      rewrite E in Hc; destruct_and?; congruence.
  - destruct (queue s) as [|event q]; [done|]. intros [= <-]. by apply (move_worker k0 s (Handling event) q (world s)).
  - destruct (handle event (world s)) as [[[]|e| |] w'] eqn:E; try done; intros [= <-].
    + exact (move_worker k0 s AtTest (queue s) w' Hs Hn I).
    + apply (move_worker k0 s Terminated (queue s) w' Hs Hn). unfold worker_ok. cbn. by exists event, (world s), e, w'.
  - intros [= <-]. rewrite Hid. apply move_worker; [done|done|]. unfold worker_ok. cbn. by rewrite Hw.
Qed.

Lemma mstep_ok k0 s s' : watch_ok k0 s -> mstep s s' -> watch_ok k0 s'.
Proof.
  intros Hs Hstep. destruct Hstep as [s s' Hc Hw E|s s' _ _ E|s s' Hp|s s' Hk].
  - by eapply Run_ok.
  - by eapply Stop_step_ok.
  - destruct Hp; [by eapply Stop_step_ok|by eapply worker_step_ok].
  - destruct Hk as [event s Hwatch]. destruct Hs as [Hc Hw Hf Hcl Hj]. constructor; try done.
    + unfold caller_ok in *. cbn. by rewrite Hwatch in Hc.
    + unfold worker_ok in *. cbn. by destruct (m_worker s) as [[]|].
Qed.

(** ** Termination of Stop *)

Lemma decide_handler s : handler_hangs s \/ ~ handler_hangs s.
Proof.
  unfold handler_hangs. destruct (m_worker s) as [[| | |event| | |]|]; try by right; intros (? & ? & _).
  destruct (fst (handle event (world s))) eqn:E; [right|right|left|left].
  1, 2: intros (event' & [= <-] & [|]); congruence.
  all: exists event; rewrite E; auto.
Qed.

Lemma alive_dec s : alive s \/ m_worker s = Some Terminated.
Proof. unfold alive. destruct (m_worker s) as [[]|]; auto. Qed.

Definition caller_left s : nat :=
  match caller s with Outside => 4 | AtRemove => 3 | AtClose => 2 | AtJoin => 1 | Stopped => 0 end.

Definition worker_left s : nat :=
  match m_worker s with
  | Some AtRead => 4 | Some InRead => 3 | Some (Handling _) => 2
  | Some AtTest | Some AtFailed => 1
  | _ => 0
  end.

(** The caller is in [Stop], or behind it. *)
Definition stopping s : Prop := caller s <> Outside /\ m_running s = false.

Lemma caller_stopping k0 s : watch_ok k0 s -> caller s <> Outside -> stopping s.
Proof.
  intros Hs Hc. split; [done|]. pose proof (wo_caller k0 s Hs) as H. unfold caller_ok in H.
  destruct (caller s); naive_solver.
Qed.

Lemma pstep_left k0 s s' :
  watch_ok k0 s -> stopping s -> pstep s s' ->
  stopping s' /\ (caller_left s' + worker_left s' < caller_left s + worker_left s)%nat.
Proof.
  intros Hs [Hc Hr] Hstep. pose proof (wo_caller k0 s Hs) as Hcaller. unfold caller_ok in Hcaller.
  unfold stopping, caller_left, worker_left. destruct Hstep as [s s' _ _ E|s s' E].
  - unfold Stop_step in E. destruct (caller s) eqn:Ec; try done.
    + destruct Hcaller as (Hw & _). rewrite Hw in E. injection E as <-. cbn. split; [done|lia].
    + injection E as <-. cbn. split; [done|lia].
    + destruct (m_worker s) as [[]|] eqn:Ew; try done; injection E as <-; cbn; rewrite ?Ew; by split; [|lia].
  - unfold worker_step in E. destruct (m_worker s) as [[| | |event| | |]|] eqn:Ew; try done.
    + injection E as <-. cbn. rewrite Hr. by split; [|lia].
    + injection E as <-. destruct (bool_decide (m_notify_fd s ∈ _)); cbn; by split; [|lia].
    + destruct (queue s); [done|]. injection E as <-. cbn. by split; [|lia].
    + destruct (handle event (world s)) as [[[]|e| |] w']; try done; injection E as <-; cbn; by split; [|lia].
    + injection E as <-. cbn. rewrite Hr. by split; [|lia].
Qed.

(** While [Stop] has not returned and the program lives, the caller or the worker
    can go on, if the worker is not held up in a function. *)
Lemma stopping_progress k0 s :
  watch_ok k0 s -> stopping s -> caller s <> Stopped -> alive s -> ~ handler_hangs s -> exists s', pstep s s'.
Proof.
  intros Hs [Hc Hr] Hns Hal Hh. pose proof (wo_caller k0 s Hs) as Hcaller. pose proof (wo_worker k0 s Hs) as Hw.
  unfold caller_ok, worker_ok in *. destruct (caller s) eqn:Ec; try done.
  - eexists. apply pstep_stop; [done|by rewrite Ec|]. unfold Stop_step. by rewrite Ec.
  - eexists. apply pstep_stop; [done|by rewrite Ec|]. unfold Stop_step. by rewrite Ec.
  - destruct Hcaller as (Hwatch & _ & Hn).
    assert (Hworker : forall s', worker_step s = (Ok tt, s') -> exists s', pstep s s')
      by (intros s' E; exists s'; by apply pstep_worker).
    unfold worker_step in Hworker. destruct (m_worker s) as [[| | |event| | |]|] eqn:Ew; try done;
      try by eapply Hworker.
    + destruct (queue s); [by destruct (Hw Hwatch)|]. by eapply Hworker.
    + unfold handler_hangs in Hh.
      destruct (handle event (world s)) as [[[]|e| |] w'] eqn:E; try by eapply Hworker.
      all: destruct Hh; exists event; rewrite E; by eauto.
    + eexists. apply pstep_stop; [done|by rewrite Ec|]. unfold Stop_step. by rewrite Ec, Ew.
Qed.

Lemma kstep_left s s' :
  stopping s -> kstep s s' ->
  stopping s' /\ (caller_left s' + worker_left s' = caller_left s + worker_left s)%nat.
Proof. intros Hs Hk. by destruct Hk. Qed.

Lemma prun_left k0 n s s' :
  watch_ok k0 s -> stopping s -> prun n s s' ->
  watch_ok k0 s' /\ stopping s' /\ (n + (caller_left s' + worker_left s') <= caller_left s + worker_left s)%nat.
Proof.
  intros Hs Hst Hrun. induction Hrun as [s|n s s1 s' Hp _ IH|n s s1 s' Hk _ IH]; [done| |].
  - destruct (pstep_left k0 s s1 Hs Hst Hp) as [Hst1 Hlt].
    destruct IH as (Hs' & Hst' & Hle); [by eapply mstep_ok; [|apply mstep_prog]|done|]. repeat (split; [done|]). lia.
  - destruct (kstep_left s s1 Hst Hk) as [Hst1 Heq].
    destruct IH as (Hs' & Hst' & Hle); [by eapply mstep_ok; [|apply mstep_kernel]|done|]. repeat (split; [done|]). lia.
Qed.

(** What [Stop] still has to close. *)
Definition closing s : Prop := caller s = AtRemove \/ caller s = AtClose \/ m_notify_fd s = -1.

Lemma mstep_closing k0 s s' : watch_ok k0 s -> caller s <> Outside -> closing s -> mstep s s' -> closing s'.
Proof.
  intros Hs Hout Hcl Hstep. unfold closing in *.
  destruct Hstep as [s s' Hc _ _|s s' _ Hc _|s s' Hp|s s' Hk]; [done|done| |by destruct Hk].
  destruct Hp as [s s' _ _ E|s s' E].
  - unfold Stop_step in E. destruct (caller s) eqn:Ec; try done.
    + destruct (watching s); injection E as <-; auto.
    + injection E as <-. auto.
    + pose proof (wo_join k0 s Hs Ec) as Hfd. destruct (m_worker s) as [[]|]; try done; injection E as <-; auto.
  - unfold worker_step in E. destruct (m_worker s) as [[| | |event| | |]|]; try done.
    1-2, 5: by injection E as <-.
    + destruct (queue s); [done|]. by injection E as <-.
    + destruct (handle event (world s)) as [[[]|e| |] w']; try done; by injection E as <-.
Qed.

Lemma prun_closing k0 n s s' :
  watch_ok k0 s -> caller s <> Outside -> closing s -> prun n s s' -> closing s'.
Proof.
  intros Hs Hout Hcl Hrun. revert Hs Hout Hcl. induction Hrun as [s|n s s1 s' Hp _ IH|n s s1 s' Hk _ IH]; [done| |];
    intros Hs Hout Hcl; pose proof (caller_stopping k0 s Hs Hout) as Hst.
  - apply IH; [by eapply mstep_ok; [|apply mstep_prog]|apply (pstep_left k0 s s1 Hs Hst Hp)|].
    by eapply mstep_closing; [..|apply mstep_prog].
  - apply IH; [by eapply mstep_ok; [|apply mstep_kernel]|apply (kstep_left s s1 Hst Hk)|].
    by eapply mstep_closing; [..|apply mstep_kernel].
Qed.

(** From the first step of [Stop] on. *)
Lemma Stop_ends (k0 : kernel) s (n : nat) s' :
  watch_ok k0 s -> caller s = AtRemove -> prun n s s' ->
  (n <= 7)%nat
  /\ (caller s' <> Stopped ->
       (exists s'', pstep s' s'') \/ handler_hangs s' \/ m_worker s' = Some Terminated /\ handler_threw)
  /\ (caller s' = Stopped -> m_running s' = false /\
       m_worker s' = None /\ open_fds (kern s') = open_fds k0 /\ bad_closes (kern s') = bad_closes k0).
Proof.
  intros Hok Hstop Hrun. pose proof (caller_stopping k0 s Hok ltac:(congruence)) as Hst.
  destruct (prun_left k0 n s s' Hok Hst Hrun) as (Hok' & Hst' & Hle). split; [|split].
  - unfold caller_left, worker_left in Hle. rewrite Hstop in Hle. destruct (m_worker s) as [[]|]; lia.
  - intros Hc. destruct (alive_dec s') as [E|E].
    + destruct (decide_handler s') as [Hh|Hh]; [by right; left|]. left. by apply (stopping_progress k0).
    + right; right. split; [done|]. pose proof (wo_worker k0 s' Hok') as Hw. unfold worker_ok in Hw. by rewrite E in Hw.
  - intros Hc. pose proof (wo_caller k0 s' Hok') as Hcaller. unfold caller_ok in Hcaller. rewrite Hc in Hcaller.
    split; [apply Hcaller|]. split; [apply Hcaller|]. pose proof (wo_fds k0 s' Hok') as Hf.
    destruct (prun_closing k0 n s s' Hok ltac:(congruence) (or_introl Hstop) Hrun) as [E|[E|E]]; [congruence..|].
    rewrite E in Hf. split; [rewrite (ow_fds _ _ _ _ Hf); set_solver|apply (ow_bad _ _ _ _ Hf)].
Qed.

(** What the functions keep, the monitor keeps. *)
Lemma pstep_world (P : W -> Prop) s s' :
  (forall event w, P w -> P (handle event w).2) -> P (world s) -> pstep s s' -> P (world s').
Proof.
  intros HP Hw Hp. destruct Hp as [s s' _ _ E|s s' E].
  - assert (Hs : world s' = world s); [|by rewrite Hs].
    unfold Stop_step in E. destruct (caller s); [case (_ && _) in E|destruct (watching s)| |destruct (m_worker s) as [[]|]|];
      try done; by injection E as <-.
  - unfold worker_step in E. destruct (m_worker s) as [[| | |event| | |]|]; try done; try by injection E as <-.
    + destruct (queue s); [done|]. by injection E as <-.
    + pose proof (HP event (world s) Hw) as Hev.
      destruct (handle event (world s)) as [[[]|e| |] w']; try done; by injection E as <-.
Qed.

Lemma mstep_world (P : W -> Prop) s s' :
  (forall event w, P w -> P (handle event w).2) -> P (world s) -> mstep s s' -> P (world s').
Proof.
  intros HP Hw Hstep. destruct Hstep as [s s' _ _ E|s s' _ Hc E|s s' Hp|s s' Hk].
  - unfold Run in E. destruct (m_worker (set_running true s)); by injection E as <-.
  - unfold Stop_step in E. rewrite Hc in E. case (_ && _) in E; by injection E as <-.
  - by eapply pstep_world.
  - by destruct Hk.
Qed.

Lemma prun_world (P : W -> Prop) n s s' :
  (forall event w, P w -> P (handle event w).2) -> P (world s) -> prun n s s' -> P (world s').
Proof.
  intros HP Hw Hrun. induction Hrun as [s|n s s1 s' Hp _ IH|n s s1 s' Hk _ IH]; [done| |].
  - by eapply IH, pstep_world.
  - apply IH. by destruct Hk.
Qed.

(** C36: [Stop] terminates and gives everything back, unless a function that runs
    for an event throws or does not come back.  For a monitor that is run once and
    stopped once: wherever its thread is when [Stop] begins, in front of [read],
    blocked in it, with events or behind a failure, and whatever the kernel still
    queues, the program makes at most seven steps more; before [Stop] has returned
    it can always do one (a blocked [read] is woken by the event of the removed
    watch), but in two cases: the thread of the monitor is in a function that is
    undefined or waits for ever, or such a function threw, which nothing catches, so
    that the program was terminated.  When [Stop] has returned, the thread is joined,
    and the open descriptors are those from before the construction of the monitor. *)
Theorem Stop_terminates (k0 k : kernel) (w : W) s0 s (n : nat) s'
    (Hk : kernel_ok k0) (Hnew : DirMonitor_new w k0 = (Ok s0, k)) (Hs : rtc mstep s0 s)
    (Hstop : caller s = AtRemove) (Hrun : prun n s s') :
  (n <= 7)%nat
  /\ (caller s' <> Stopped ->
       (exists s'', pstep s' s'') \/ handler_hangs s' \/ m_worker s' = Some Terminated /\ handler_threw)
  /\ (caller s' = Stopped ->
       m_worker s' = None /\ open_fds (kern s') = open_fds k0 /\ bad_closes (kern s') = bad_closes k0).
Proof.
  pose proof (DirMonitor_new_ok k0 w (Ok s0) k Hk Hnew) as [H0 _].
  assert (Hok : watch_ok k0 s) by (clear -H0 Hs; induction Hs; eauto using mstep_ok).
  destruct (Stop_ends k0 s n s' Hok Hstop Hrun) as (Hn & Hgo & Hend). split; [done|]. split; [done|].
  intros Hc. by apply Hend.
Qed.

(** A monitor that was never run keeps its descriptor: [Stop], which the
    destructor calls, returns at once. *)
Lemma never_run_leaks (k0 k : kernel) (w : W) s0 :
  kernel_ok k0 -> DirMonitor_new w k0 = (Ok s0, k) ->
  Stop_step s0 = (Ok tt, set_caller Stopped s0)
  /\ exists fd, fd ∉ open_fds k0 /\ open_fds (kern s0) = {[fd]} ∪ open_fds k0.
Proof.
  intros Hk Hnew. pose proof (DirMonitor_new_ok k0 w (Ok s0) k Hk Hnew) as [H0 _].
  assert (E0 : caller s0 = Outside /\ m_running s0 = false /\ m_worker s0 = None).
  { revert Hnew. unfold DirMonitor_new. intros (fd & k1 & _ & Hnew)%bind_ok_inv.
    apply bind_ok_inv in Hnew as ([] & k2 & _ & Hnew). by injection Hnew as <- <-. }
  destruct E0 as (Ec & Er & Ew). split; [by unfold Stop_step; rewrite Ec, Er, Ew|].
  exists (m_notify_fd s0). pose proof (wo_fds k0 s0 H0) as Hf.
  destruct (Z.eqb_spec (m_notify_fd s0) (-1)) as [E|E]; [destruct (wo_closed k0 s0 H0 E); congruence|].
  pose proof (ow_new _ _ _ _ Hf). split; [set_solver|apply (ow_fds _ _ _ _ Hf)].
Qed.
End Watch.

(** ** Runs *)

Section runs.
Context {EV W : Type} (Ignored : EV) (handle : EV -> prog W unit).

(** A step of the caller in a program that lives. *)
Definition stop_move : prog (monitor (EV := EV) (W := W)) unit := fun s =>
  match m_worker s with Some Terminated => (Blocked, s) | _ => Stop_step Ignored s end.

Lemma stop_move_ok (s s' : monitor (EV := EV) (W := W)) :
  stop_move s = (Ok tt, s') -> alive s /\ Stop_step Ignored s = (Ok tt, s').
Proof. unfold stop_move, alive. by destruct (m_worker s) as [[]|]. Qed.

(** The moves of the caller ([true]) and of the worker. *)
Fixpoint run_moves (l : list bool) : prog (monitor (EV := EV) (W := W)) unit :=
  match l with
  | [] => mret tt
  | b :: l => (if b then stop_move else worker_step handle) ;; run_moves l
  end.

Lemma Stop_step_caller (s s' : monitor (EV := EV) (W := W)) :
  Stop_step Ignored s = (Ok tt, s') -> caller s' <> Outside.
Proof.
  unfold Stop_step. destruct (caller s); try done; [case (_ && _)|destruct (watching s)| |destruct (m_worker s) as [[]|]];
    try done; intros [= <-]; cbn; try done. by destruct (_ =? _).
Qed.

Lemma worker_step_caller (s s' : monitor (EV := EV) (W := W)) :
  worker_step handle s = (Ok tt, s') -> caller s' = caller s.
Proof.
  unfold worker_step. destruct (m_worker s) as [[| | |event| | |]|]; try done; try by intros [= <-].
  - destruct (queue s); [done|]. by intros [= <-].
  - by destruct (handle event (world s)) as [[[]|e| |] w]; try done; intros [= <-].
Qed.

Lemma run_moves_prun l (s s' : monitor (EV := EV) (W := W)) :
  caller s <> Outside -> run_moves l s = (Ok tt, s') -> prun Ignored handle (length l) s s'.
Proof.
  revert s. induction l as [|[] l IH]; intros s Hc; cbn [run_moves]; [intros [= <-]; apply prun_refl|..];
    intros ([] & s1 & E1 & E2)%bind_ok_inv; (eapply prun_prog; [|apply IH; [|exact E2]]).
  - apply stop_move_ok in E1 as [Hal E1]. by apply pstep_stop.
  - apply stop_move_ok in E1 as [_ E1]. by eapply Stop_step_caller.
  - by apply pstep_worker.
  - by rewrite (worker_step_caller s s1 E1).
Qed.

Lemma worker_msteps n (s s' : monitor (EV := EV) (W := W)) :
  run_moves (replicate n false) s = (Ok tt, s') -> rtc (mstep Ignored handle) s s'.
Proof.
  revert s. induction n as [|n IH]; intros s; cbn [replicate run_moves]; [intros [= <-]; apply rtc_refl|].
  intros ([] & s1 & E1 & E2)%bind_ok_inv. eapply rtc_l; [apply mstep_prog; by apply pstep_worker|]. by apply IH.
Qed.
End runs.

(** Events are numbers; the handler counts them. *)
Definition sample_kernel : kernel := mk_kernel {[0; 1; 2]} 3 0 0 [] [].

Definition sample_handle (event : nat) : prog nat unit := modify (fun n => (n + event)%nat).

Lemma sample_kernel_ok : kernel_ok sample_kernel.
Proof. constructor; [done|]. cbn. intros fd. rewrite !elem_of_union, !elem_of_singleton. lia. Qed.

(** The states of a run in which the worker is blocked in [read] when [Stop]
    begins: made; run; two steps of the worker; the first step of [Stop]; its end. *)
Definition sample_made : monitor (EV := nat) (W := nat) :=
  mk_monitor (DirMonitor_new (EV := nat) 0%nat sample_kernel).2 3 true [] false None Outside 0%nat.
Definition sample_run : monitor := (Run sample_made).2.
Definition sample_read : monitor := (run_moves 0%nat sample_handle [false; false] sample_run).2.
Definition sample_stop : monitor := (Stop_step 0%nat sample_read).2.
Definition sample_moves : list bool := [true; false; false; true; false; true].
Definition sample_stopped : monitor := (run_moves 0%nat sample_handle sample_moves sample_stop).2.

Lemma sample_msteps : rtc (mstep 0%nat sample_handle) sample_made sample_stop.
Proof.
  eapply rtc_l; [apply mstep_run with (s' := sample_run); by vm_compute|].
  eapply rtc_r; [apply (worker_msteps 0%nat sample_handle 2) with (s' := sample_read); by vm_compute|].
  apply mstep_stop; by vm_compute.
Qed.

Lemma sample_prun : prun 0%nat sample_handle 6 sample_stop sample_stopped.
Proof. apply (run_moves_prun 0%nat sample_handle sample_moves); by vm_compute. Qed.

Lemma Stop_terminates_witness :
  m_worker sample_stop = Some InRead /\ queue sample_stop = [] /\ caller sample_stopped = Stopped /\
  ((6 <= 7)%nat
   /\ (caller sample_stopped <> Stopped ->
        (exists s'', pstep 0%nat sample_handle sample_stopped s'') \/ handler_hangs sample_handle sample_stopped
        \/ m_worker sample_stopped = Some Terminated /\ handler_threw sample_handle)
   /\ (caller sample_stopped = Stopped ->
        m_worker sample_stopped = None /\ open_fds (kern sample_stopped) = open_fds sample_kernel
        /\ bad_closes (kern sample_stopped) = bad_closes sample_kernel)).
Proof.
  repeat (split; [by vm_compute|]).
  apply (Stop_terminates 0%nat sample_handle sample_kernel
    (DirMonitor_new (EV := nat) 0%nat sample_kernel).2 0%nat sample_made sample_stop 6 sample_stopped
    sample_kernel_ok).
  - by vm_compute.
  - exact sample_msteps.
  - by vm_compute.
  - exact sample_prun.
Defined.

(** A function that throws for an event, as [DLLLoader.Load] and [Unload] do
    ([DLLLoader.unknown_plugin_throws]): the exception ends the program, and no step
    of [Stop] comes after it. *)
Definition throwing_handle (event : nat) : prog nat unit := throw (runtime_error "dlopen").

Lemma throwing_handler_terminates :
  let s := (run_moves 0%nat throwing_handle [true; true; true; false; false] sample_read).2 in
  caller s = AtJoin /\ m_worker s = Some Terminated /\ forall s', ~ pstep 0%nat throwing_handle s s'.
Proof.
  split; [by vm_compute|]. split; [by vm_compute|]. intros s' Hp.
  inversion Hp as [s0 s1 Hal _ _|s0 s1 E]; subst; [by apply Hal; vm_compute|]. by vm_compute in E.
Qed.

(** A monitor that is run again after [Stop]: the thread reads [-1] as descriptor
    and its exception ends the program. *)
Lemma restart_terminates :
  m_worker (run_moves 0%nat sample_handle [false; false; false] (Run sample_stopped).2).2 = Some Terminated.
Proof. by vm_compute. Qed.
