(* ===== verification/Lifetime.v ===== *)
(** * Lifetime

    [framework/src/Framework.cpp], the functions behind the constructor: [Run],
    [Stop] and the destructor, over the monitor with its thread ([Watch.v]), the
    reactor ([Reactor.v]) and the loader ([DLLLoader.v]) that a framework owns. *)

From S2P Require Import Prelude TaskArgs DirMonitor DLLLoader Reactor Descriptors Watch.

(** An event of the monitor is what one [read] gives; the handler is the inner loop
    of [MonitorRun], whose callbacks are the functions of the loader. *)
Definition IN_IGNORED : Z := 0x8000.

Definition ignored_read : list byte := encode_event (mk_event 1 IN_IGNORED 0 "" 0).

Definition handle_read {L} `{!Linker L} (dir : string) (bytes : list byte) : prog (gmap string Z * L) unit :=
  events_loop notify_plugin (framework_monitor dir) (length bytes) (Z.of_nat (length bytes)) (Some <$> bytes).

Section Lifetime.
Context {H L : Type} `{!Linker L}.

(** The reactor, and the monitor, whose world is the loader. *)
Abbreviation Framework := (Reactor H * monitor (EV := list byte) (W := gmap string Z * L))%type.

Context `{!IListener (monitor (EV := list byte) (W := gmap string Z * L))}.
Context (invoke : H -> Z -> FDMODE -> prog Framework unit).

(** [fuel] bounds the rounds of the reactor. *)
Definition Framework_Run (fuel : nat) : prog Framework unit :=
  on_snd Watch.Run ;;
  Reactor.Run invoke fuel.

(** [Framework::Stop] up to the first call of [DirMonitor::Stop] between which and
    its end the thread of the monitor, the steps of [DirMonitor::Stop] and the kernel
    are interleaved ([Watch.prun]). *)
Definition Framework_Stop_begin : prog Framework unit :=
  on_fst Reactor.Stop ;;
  on_snd (Stop_step ignored_read).

(** The destructor behind [Stop]: the members die in the reverse order, and what
    they do is: the loader closes what it holds, the monitor is stopped once more. *)
Definition delete_members : prog Framework unit :=
  on_snd (zoom world set_world delete_DLLLoader) ;;
  on_snd (modify (set_caller Outside) ;; Stop_step ignored_read).

(** [Run] starts the monitor before the reactor's loop; a framework that runs a
    second time while its monitor does ends the program. *)
Lemma Framework_Run_starts fuel (r : Reactor H) (s : monitor (EV := list byte)) :
  m_worker s = None ->
  Framework_Run fuel (r, s) = Reactor.Run invoke fuel (r, set_worker (Some AtTest) (set_running true s)).
Proof. intros Hw. unfold Framework_Run, Watch.Run. run_prog. cbn. by rewrite Hw. Qed.

Lemma Framework_Run_twice (r : Reactor H) (s : monitor (EV := list byte) (W := gmap string Z * L)) p :
  m_worker s = Some p -> m_worker (on_snd (S := Reactor H) Watch.Run (r, s)).2.2 = Some Terminated.
Proof. intros Hw. unfold Watch.Run. run_prog. cbn. by rewrite Hw. Qed.

(** The destructor's [Stop] of a monitor that was run begins with the descriptor. *)
Lemma Stop_begins dir k0 (r : Reactor H) (s : monitor (EV := list byte) (W := gmap string Z * L)) :
  watch_ok (handle_read dir) k0 s -> caller s = Outside -> m_worker s <> None ->
  let s1 := set_caller AtRemove (set_running false s) in
  Framework_Stop_begin (r, s) = (Ok tt, (mk_Reactor (m_listen_funcs r) false, s1))
  /\ Stop_step ignored_read s = (Ok tt, s1).
Proof.
  intros Hs Hc Hw s1.
  assert (E : (m_notify_fd s =? -1) = false).
  { apply Z.eqb_neq. intros E. destruct (wo_closed _ _ _ Hs E); congruence. }
  assert (E1 : Stop_step ignored_read s = (Ok tt, s1)).
  { unfold Stop_step. rewrite Hc, E. by rewrite bool_decide_eq_false_2, andb_false_r by done. }
  split; [|exact E1].
  transitivity (let '(x, t) := Stop_step ignored_read s in (x, (mk_Reactor (m_listen_funcs r) false, t))); [done|].
  by rewrite E1.
Qed.

Context `{!LinkerLaws L}.

Lemma handle_read_balanced (l0 : L) dir bytes w : balanced l0 w -> balanced l0 (handle_read dir bytes w).2.
Proof. apply events_loop_inv. intros. by apply notify_plugin_balanced. Qed.

(** The members of a framework whose monitor is stopped. *)
Lemma delete_members_ok (l0 : L) (r : Reactor H) (s : monitor (EV := list byte)) :
  balanced l0 (world s) -> m_running s = false -> m_worker s = None ->
  exists l, delete_members (r, s) = (Ok tt, (r, set_caller Stopped (set_world ((world s).1, l) s)))
    /\ forall h, refs l h = refs l0 h.
Proof.
  intros Hb Hr Hw. destruct (world s) as [m l1] eqn:Ew.
  destruct (close_all (map_to_list m) m l1 (refs l0)) as (l2 & E2 & Hl2).
  { intros h. rewrite among_map_to_list. apply Hb. }
  exists l2. split; [|exact Hl2].
  assert (E : delete_DLLLoader (m, l1) = (Ok tt, (m, l2))) by exact E2.
  unfold delete_members, on_snd, zoom. run_prog. cbn [fst snd]. rewrite Ew, E. cbn [fst snd].
  unfold Stop_step. cbn [caller set_caller m_running set_world m_worker]. by rewrite Hr, Hw.
Qed.

(** C37: a framework gives back what it took.  Its monitor was made over the
    descriptors [k0] and run, and after any run in which no exception left its thread,
    wherever this thread is and whatever events are queued, the framework is
    destroyed, and the steps of its [Stop], of the thread of the monitor and of the
    kernel are interleaved in any way.  Then: the reactor's loop is told to end; the
    program makes at most seven steps more until [Stop] has returned, and can always
    do one, unless a function that runs for an event is undefined or waits for ever,
    or threw, which ends the program; when [Stop] has returned, the rest of the
    destructor returns, the thread of the monitor is joined, every descriptor that
    the monitor opened is closed, and every plugin is closed as often as it was
    opened. *)
Theorem framework_released (dir : string) (k0 k : kernel) (l0 : L) (r : Reactor H) s0 s
    (Hk : kernel_ok k0) (Hnew : DirMonitor_new (∅, l0) k0 = (Ok s0, k))
    (Hs : rtc (mstep ignored_read (handle_read dir)) s0 s)
    (Hc : caller s = Outside) (Hw : m_worker s <> None) (Hal : alive s) :
  exists r1 s1, Framework_Stop_begin (r, s) = (Ok tt, (r1, s1)) /\ Reactor.m_running r1 = false
  /\ forall n s2, prun ignored_read (handle_read dir) n s1 s2 ->
    (n <= 7)%nat
    /\ (caller s2 <> Stopped ->
         (exists s3, pstep ignored_read (handle_read dir) s2 s3) \/ handler_hangs (handle_read dir) s2
         \/ m_worker s2 = Some Terminated /\ handler_threw (handle_read (L := L) dir))
    /\ (caller s2 = Stopped ->
         exists s3, delete_members (r1, s2) = (Ok tt, (r1, s3)) /\ m_worker s3 = None
           /\ open_fds (kern s3) = open_fds k0 /\ bad_closes (kern s3) = bad_closes k0
           /\ forall h, refs (world s3).2 h = refs l0 h).
Proof.
  pose proof (DirMonitor_new_ok (handle_read dir) k0 _ (Ok s0) k Hk Hnew) as [H0 _].
  assert (Hb0 : balanced l0 (world s0)).
  { revert Hnew. unfold DirMonitor_new. intros (fd & k1 & _ & Hnew)%bind_ok_inv.
    apply bind_ok_inv in Hnew as ([] & k2 & _ & Hnew). injection Hnew as <- _. intros h. cbn.
    unfold holding. rewrite map_filter_empty, map_size_empty. lia. }
  assert (Hinv : watch_ok (handle_read dir) k0 s /\ balanced l0 (world s)).
  { clear -H0 Hb0 Hs LinkerLaws0. induction Hs as [|s1 s2 s3 Hstep _ IH]; [done|]. apply IH.
    - by eapply mstep_ok.
    - eapply mstep_world; [|exact Hb0|exact Hstep]. intros. by apply handle_read_balanced. }
  destruct Hinv as [Hok Hb]. destruct (Stop_begins dir k0 r s Hok Hc Hw) as [Hbegin Hstop].
  eexists _, _. split; [exact Hbegin|]. split; [done|]. intros n s2 Hrun.
  assert (Hok1 : watch_ok (handle_read dir) k0 (set_caller AtRemove (set_running false s))).
  { eapply mstep_ok; [exact Hok|]. by apply mstep_stop with (1 := Hal). }
  destruct (Stop_ends ignored_read (handle_read dir) k0 _ n s2 Hok1 eq_refl Hrun) as (Hn & Hgo & Hend).
  split; [exact Hn|]. split; [exact Hgo|]. intros Hst. destruct (Hend Hst) as (Hr & Hw2 & Hfds & Hbad).
  assert (Hb2 : balanced l0 (world s2)).
  { apply (prun_world ignored_read (handle_read dir) (balanced l0) n _ s2) in Hrun; [exact Hrun| |exact Hb]. intros. by apply handle_read_balanced. }
  destruct (delete_members_ok l0 (mk_Reactor (m_listen_funcs r) false) s2 Hb2 Hr Hw2) as (l & E & Hl).
  eexists. split; [exact E|]. by repeat split.
Qed.
End Lifetime.

(** When the kernel gives whole events, no function hangs: the loader's functions
    return or throw. *)
Definition comes_back (r : res unit) : Prop := r = Ok tt \/ exists e, r = Throw e.

Section whole_events.
Context {L : Type} `{!Linker L} `{!LinkerLaws L} (l0 : L).

Lemma notify_comes_back cb path (w : gmap string Z * L) :
  balanced l0 w -> comes_back (notify_plugin cb path w).1 /\ balanced l0 (notify_plugin cb path w).2.
Proof.
  intros Hb. split; [|by apply notify_plugin_balanced]. destruct w as [m l]. unfold comes_back.
  destruct cb; cbn [notify_plugin]; [unfold Load|unfold Unload]; run_prog; cbn [fst snd];
    destruct (m !! path) as [h|] eqn:Em; cbn [fst snd]; eauto.
  - destruct (dlopen_spec path l) as [(h & l' & -> & _)|(l' & -> & _)]; cbn [fst snd]; [rewrite Em|]; eauto.
  - destruct (dlclose_spec h l) as (l' & -> & _); [|cbn; eauto].
    pose proof (Hb h) as Hh. cbn [fst snd] in Hh. rewrite (holding_delete m path h h) in Hh by done.
    rewrite decide_True in Hh by done. lia.
Qed.

Lemma for_each_comes_back {A} (f : A -> prog (gmap string Z * L) unit) l w :
  (forall x w, balanced l0 w -> comes_back (f x w).1 /\ balanced l0 (f x w).2) ->
  balanced l0 w -> comes_back (for_each f l w).1 /\ balanced l0 (for_each f l w).2.
Proof.
  intros Hf. revert w. induction l as [|x l IH]; intros w Hw; cbn [for_each]; [by split; [left|]|].
  pose proof (Hf x w Hw) as [[E|[e E]] Hb]; unfold mbind, prog_bind;
    destruct (f x w) as [r w'] eqn:Ef; cbn [fst snd] in *; subst r; [by apply IH|].
  split; [right; by exists e|done].
Qed.

Lemma whole_events_return dir (es : list event) w :
  Forall event_ok es -> balanced l0 w -> comes_back (handle_read dir (encode_events es) w).1.
Proof.
  intros Hes Hw. unfold handle_read. pose proof (events_loop_ok notify_plugin (framework_monitor dir) es
    (length (encode_events es)) [] w Hes (length_encode_events es)) as E.
  rewrite app_nil_r in E. rewrite E. apply (for_each_comes_back _ es w); [|done]. intros e w' Hw'.
  unfold report. case (_ && _); [|case (_ && _)]; [..|by split; [left|]];
    apply for_each_comes_back; auto using notify_comes_back.
Qed.
End whole_events.

(** ** A framework with a plugin

    Four steps after the worker was given the name of a new plugin. *)
Definition sample_made : monitor (EV := list byte) (W := gmap string Z * gmap Z nat) :=
  mk_monitor (DirMonitor_new (EV := nat) tt sample_kernel).2 3 true [] false None Outside (∅, ∅).
Definition sample_event : monitor :=
  set_queue true [encode_event (mk_event 1 IN_CLOSE_WRITE 0 "a.so" 4)] (Run sample_made).2.
Definition sample_waiting : monitor :=
  (run_moves ignored_read (handle_read "plugins/") (replicate 6 false) sample_event).2.
(** The end of the destructor's [Stop]. *)
Definition sample_moves : list bool := [true; false; false; true; false; true].
Definition sample_stopped : monitor :=
  (run_moves ignored_read (handle_read "plugins/") sample_moves (Stop_step ignored_read sample_waiting).2).2.

Lemma sample_waiting_run : rtc (mstep ignored_read (handle_read "plugins/")) sample_made sample_waiting.
Proof.
  eapply rtc_l; [apply mstep_run with (s' := (Run sample_made).2); by vm_compute|].
  eapply rtc_l; [apply mstep_kernel with (s' := sample_event)|].
  - exact (kstep_event (encode_event (mk_event 1 IN_CLOSE_WRITE 0 "a.so" 4)) (Run sample_made).2 eq_refl).
  - apply (worker_msteps ignored_read (handle_read "plugins/") 6). by vm_compute.
Qed.

Lemma sample_stopped_run :
  prun ignored_read (handle_read "plugins/") 6 (Stop_step ignored_read sample_waiting).2 sample_stopped.
Proof. apply (run_moves_prun ignored_read (handle_read "plugins/") sample_moves); by vm_compute. Qed.

Lemma framework_released_witness :
  world sample_waiting = ({[ "plugins/a.so" := 12 ]}, {[ 12 := 1%nat ]})
  /\ m_worker sample_waiting = Some InRead /\ queue sample_waiting = [] /\ caller sample_stopped = Stopped
  /\ exists (r1 : Reactor nat) s3, delete_members (r1, sample_stopped) = (Ok tt, (r1, s3)) /\ m_worker s3 = None
    /\ open_fds (kern s3) = open_fds sample_kernel /\ forall h, refs (world s3).2 h = refs (∅ : gmap Z nat) h.
Proof.
  repeat (split; [by vm_compute|]).
  assert (Hnew : DirMonitor_new (∅, ∅) sample_kernel
    = (Ok sample_made, (DirMonitor_new (EV := nat) tt sample_kernel).2)) by by vm_compute.
  destruct (framework_released "plugins/" sample_kernel _ ∅ (mk_Reactor (∅ : gmap _ nat) true) sample_made
    sample_waiting sample_kernel_ok Hnew sample_waiting_run ltac:(by vm_compute) ltac:(by vm_compute)
    ltac:(by vm_compute)) as (r1 & s1 & E & _ & Hend).
  assert (Hs1 : s1 = (Stop_step ignored_read sample_waiting).2) by (vm_compute in E; injection E as _ <-; by vm_compute).
  rewrite Hs1 in Hend. destruct (Hend 6%nat sample_stopped sample_stopped_run) as (_ & _ & Hst).
  destruct (Hst ltac:(by vm_compute)) as (s3 & E3 & Hw & Hf & _ & Hl). exists r1, s3. by repeat split.
Defined.
