(* ===== verification/Plugin.v ===== *)
(** * Plugin

    [framework/src/FrameworkPlugin.cpp] in the program that loads it: its
    constructor replaces a command of the factory, and its code goes away when the
    file is deleted. *)

From Stdlib.Strings Require Import Byte String.
From S2P Require Import Prelude Factory Logger TaskArgs Framework Dispatcher DirMonitor DLLLoader.

(** What the factory of commands holds: a function of the program, or one in the
    library with the handle [h]. *)
Inductive creator (CMD : Type) : Type :=
  | InProgram (cmd : CMD)
  | InPlugin (h : Z).
Arguments InProgram {CMD} cmd.
Arguments InPlugin {CMD} h.

Record program (CMD L : Type) : Type := mk_program {
  factory : gmap Z (creator CMD);
  linker : L;
  output : list string;
  log : list (string * Severity);
}.
Arguments mk_program {CMD L}.
Arguments factory {CMD L} p.
Arguments linker {CMD L} p.
Arguments output {CMD L} p.
Arguments log {CMD L} p.

#[export] Instance program_log {CMD L} : HasLog (program CMD L) := fun message sev p =>
  mk_program (factory p) (linker p) (output p) (log p ++ [(message, sev)]).

Section Plugin.
Context {CMD L ASYNC : Type} `{!Linker L}.
Abbreviation Program := (program CMD L).

Definition set_linker (l : L) (p : Program) : Program :=
  mk_program (factory p) l (output p) (log p).
Definition print (s : string) : prog Program unit :=
  modify (fun p => mk_program (factory p) (linker p) (output p ++ [s]) (log p)).

(** The functions that the linker calls when the library is loaded and unloaded. *)
Definition SoMain (h : Z) : prog Program unit :=
  modify (fun p => mk_program (Factory.Register 0 (InPlugin h) (factory p)) (linker p) (output p) (log p)).
Definition SoExit : prog Program unit := print "plugin removed".

(** The linker with a program: the first [dlopen] of a library runs its
    constructors, the last [dlclose] its destructors. Every library is a build of
    the plugin. *)
#[export] Instance plugin_linker : Linker Program := {
  dlopen file :=
    h ← zoom linker set_linker (dlopen file);
    match h with
    | None => mret None
    | Some h =>
        n ← gets (fun p => refs (linker p) h);
        (if bool_decide (n = 1%nat) then SoMain h else mret tt) ;;
        mret (Some h)
    end;
  dlclose h :=
    n ← gets (fun p => refs (linker p) h);
    (if bool_decide (n = 1%nat) then SoExit else mret tt) ;;
    zoom linker set_linker (dlclose h);
  refs p h := refs (linker p) h;
}.

#[export] Instance plugin_linker_laws `{!LinkerLaws L} : LinkerLaws Program.
Proof.
  split.
  - intros file p. unfold dlopen, refs. cbn. run_prog.
    destruct (dlopen_spec file (linker p)) as [(h & l' & E & Hh & Hne)|(l' & E & Hrefs)]; rewrite E; cbn.
    + left. exists h. case_bool_decide; eexists; by split.
    + right. eexists. by split.
  - intros h p Hh. unfold refs in Hh. cbn in Hh. destruct (dlclose_spec h (linker p) Hh) as (l' & E & Hdec & Hne).
    unfold dlclose, refs. cbn. run_prog. case_bool_decide; cbn; rewrite E; eexists; by split.
Qed.

(** [UpdatedReadCommand::Run]. *)
Definition UpdatedReadCommand_Run : prog Program (option ASYNC) :=
  print "Updated" ;;
  mret None.

(** [Create] and [Run] of a command: the code of a library has to be mapped. *)
Context (Run : CMD -> ATaskArgs -> prog Program (option ASYNC)).

Definition run_creator (c : creator CMD) (args : ATaskArgs) : prog Program (option ASYNC) :=
  match c with
  | InProgram cmd => Run cmd args
  | InPlugin h =>
      n ← gets (fun p => refs (linker p) h);
      lift (require (negb (bool_decide (n = 0%nat)))) ;;
      UpdatedReadCommand_Run
  end.

(** [FW_TPTask::Run] with the factory of the program. *)
Definition run_task (Schedule : ASYNC -> prog Program unit) (args : ATaskArgs) : prog Program unit :=
  m_umap ← gets factory;
  FW_TPTask_Run m_umap run_creator Schedule args.

(** ** Properties *)

Context `{!LinkerLaws L}.

(** The plugin is written and later deleted. *)
Definition written (file : string) : event := mk_event 1 IN_CLOSE_WRITE 0 file 1.
Definition deleted (file : string) : event := mk_event 1 IN_DELETE 0 file 1.

Lemma written_ok file :
  Z.of_nat (String.length file) < 2 ^ 31 -> Forall (fun b => b <> Byte.x00) (list_byte_of_string file) ->
  event_ok (written file) /\ event_ok (deleted file).
Proof. intros Hlen Hname. split; constructor; try done; unfold event_len; cbn; lia. Qed.

(** A program that was told of a new library. *)
Lemma load_plugin file h l' (p : Program) :
  dlopen file (linker p) = (Ok (Some h), l') -> refs l' h = 1%nat ->
  notify_plugin OpenCallback file (∅, p)
  = (Ok tt, ({[ file := h ]}, mk_program (<[0 := InPlugin h]> (factory p)) l' (output p) (log p))).
Proof.
  intros E Hh. unfold notify_plugin, Load. run_prog. cbn. rewrite lookup_empty. cbn. run_prog. rewrite E. cbn. rewrite Hh. cbn.
  rewrite ?lookup_empty. reflexivity.
Qed.

Lemma unload_plugin file h l' (p : Program) :
  refs (linker p) h = 1%nat -> dlclose h (linker p) = (Ok tt, l') ->
  notify_plugin CloseCallback file ({[ file := h ]}, p)
  = (Ok tt, (∅, mk_program (factory p) l' (output p ++ ["plugin removed"]) (log p))).
Proof.
  intros Hh E. unfold notify_plugin, Unload. run_prog. cbn. rewrite lookup_singleton_eq. cbn. run_prog. cbn. rewrite Hh. cbn.
  rewrite bool_decide_eq_true_2 by done. unfold SoExit, print. run_prog. cbn. rewrite E. cbn.
  by rewrite delete_singleton_eq.
Qed.

(** A request to write, when the plugin's function is in the factory. *)
Lemma run_plugin Schedule args (p : Program) h :
  GetKey args = FD_WRITE -> factory p !! 0 = Some (InPlugin h) ->
  run_task Schedule args p
  = try (async ← run_creator (InPlugin h) args; match async with Some a => Schedule a | None => mret tt end)
      (fun e => Log ("FW_TPTask: " +:+ what e) ERROR) p.
Proof.
  intros Hk Hf. unfold run_task, FW_TPTask_Run. rewrite Hk. unfold gets, mbind, prog_bind at 1. cbn [fdmode_value].
  by rewrite (Create_ok 0 (factory p) (InPlugin h) Hf).
Qed.

Lemma run_plugin_mapped Schedule args (p : Program) h :
  GetKey args = FD_WRITE -> factory p !! 0 = Some (InPlugin h) -> refs (linker p) h <> 0%nat ->
  run_task Schedule args p = (Ok tt, mk_program (factory p) (linker p) (output p ++ ["Updated"]) (log p)).
Proof.
  intros Hk Hf Hr. rewrite (run_plugin Schedule args p h Hk Hf). unfold run_creator. run_prog.
  by rewrite bool_decide_eq_false_2.
Qed.

Lemma run_plugin_gone Schedule args (p : Program) h :
  GetKey args = FD_WRITE -> factory p !! 0 = Some (InPlugin h) -> refs (linker p) h = 0%nat ->
  run_task Schedule args p = (Undefined, p).
Proof.
  intros Hk Hf Hr. rewrite (run_plugin Schedule args p h Hk Hf). unfold run_creator. run_prog.
  by rewrite bool_decide_eq_true_2.
Qed.

(** The plugin of the repository takes over the writes of the drive, and its
    deletion leaves them without code: when the file appears, a request to write
    runs the plugin's command, which neither writes nor answers; when the file is
    deleted, the factory keeps the function of the library that is gone, and the
    next request to write calls it. *)
Theorem deleted_plugin_dangles (Schedule : ASYNC -> prog Program unit) (dir file : string) (p : Program)
    (h : Z) (l1 : L) (args : ATaskArgs)
    (Hfile : IsSharedObject file = true /\ Z.of_nat (String.length file) < 256
             /\ Forall (fun b => b <> Byte.x00) (list_byte_of_string file))
    (Hopen : dlopen (dir +:+ file) (linker p) = (Ok (Some h), l1)) (Hfirst : refs l1 h = 1%nat)
    (Hargs : GetKey args = FD_WRITE) :
  (exists p1, MonitorRun notify_plugin (framework_monitor dir)
       [ReadBytes (encode_events [written file]); Stopped] (∅, p) = (Ok tt, ({[ dir +:+ file := h ]}, p1))
     /\ run_task Schedule args p1 = (Ok tt, mk_program (factory p1) (linker p1) (output p1 ++ ["Updated"]) (log p1)))
  /\ exists p2, MonitorRun notify_plugin (framework_monitor dir)
       [ReadBytes (encode_events [written file]); ReadBytes (encode_events [deleted file]); Stopped] (∅, p)
       = (Ok tt, (∅, p2))
     /\ run_task Schedule args p2 = (Undefined, p2).
Proof.
  destruct Hfile as (Hso & Hlen & Hname). destruct (written_ok file ltac:(lia) Hname) as [Hw Hd].
  set (p1 := mk_program (<[0 := InPlugin h]> (factory p)) l1 (output p) (log p)).
  assert (Ew : report notify_plugin (framework_monitor dir) (written file) (∅, p)
    = (Ok tt, ({[ dir +:+ file := h ]}, p1))).
  { unfold report. cbn [name written]. rewrite Hso.
    change (for_each (fun cb => notify_plugin cb (dir +:+ file)) [OpenCallback] (∅, p)
      = (Ok tt, ({[ dir +:+ file := h ]}, p1))). cbn [for_each].
    by rewrite (bind_ok _ _ _ _ _ (load_plugin (dir +:+ file) h l1 p Hopen Hfirst)). }
  destruct (dlclose_spec h l1 ltac:(lia)) as (l2 & Eclose & Hdec & _).
  assert (Ed : report notify_plugin (framework_monitor dir) (deleted file) ({[ dir +:+ file := h ]}, p1)
    = (Ok tt, (∅, mk_program (factory p1) l2 (output p1 ++ ["plugin removed"]) (log p1)))).
  { unfold report. cbn [name deleted]. rewrite Hso.
    change (for_each (fun cb => notify_plugin cb (dir +:+ file)) [CloseCallback] ({[ dir +:+ file := h ]}, p1)
      = (Ok tt, (∅, mk_program (factory p1) l2 (output p1 ++ ["plugin removed"]) (log p1)))). cbn [for_each].
    by rewrite (bind_ok _ _ _ _ _ (unload_plugin (dir +:+ file) h l2 p1 Hfirst Eclose)). }
  assert (Hsize : forall e, e = written file \/ e = deleted file ->
    Z.of_nat (List.length (encode_events [e])) <= Z.of_nat (List.length (replicate (Z.to_nat buffer_size) (None : cell)))).
  { intros e He. change (encode_events [e]) with (encode_event e ++ []).
    rewrite length_app, length_encode_event, length_replicate. unfold event_len, buffer_size, sizeof_inotify_event, NAME_MAX.
    destruct He as [-> | ->]; cbn [name pad written deleted List.length]; lia. }
  unfold MonitorRun. split.
  - exists p1. split.
    + rewrite (MonitorRun_loop_reports notify_plugin (framework_monitor dir) [[written file]] Stopped);
        [|by left|repeat (apply Forall_cons_2 || apply Forall_nil_2); done|repeat (apply Forall_cons_2 || apply Forall_nil_2); auto].
      change (mjoin [[written file]]) with [written file]. cbn [for_each].
      by rewrite (bind_ok _ _ _ _ _ Ew).
    + apply (run_plugin_mapped Schedule args p1 h Hargs); [apply lookup_insert_eq|]. cbn. lia.
  - eexists. split.
    + rewrite (MonitorRun_loop_reports notify_plugin (framework_monitor dir) [[written file]; [deleted file]] Stopped);
        [|by left|repeat (apply Forall_cons_2 || apply Forall_nil_2); done|repeat (apply Forall_cons_2 || apply Forall_nil_2); auto].
      change (mjoin [[written file]; [deleted file]]) with [written file; deleted file]. cbn [for_each].
      by rewrite (bind_ok _ _ _ _ _ Ew), (bind_ok _ _ _ _ _ Ed).
    + apply (run_plugin_gone Schedule args _ h Hargs); [apply lookup_insert_eq|]. cbn. lia.
Qed.
End Plugin.

(** A library that the sample linker opens for the first time. *)
Lemma deleted_plugin_dangles_witness :
  let p := mk_program (CMD := nat) {[ 0 := InProgram 0%nat ]} (∅ : gmap Z nat) [] [] in
  let args := NBDWriteArgs 1 (mk_TaskArgs 0 0 None) in
  (exists p1, MonitorRun notify_plugin (framework_monitor "plugins/")
       [ReadBytes (encode_events [written "p.so"]); Stopped] (∅, p) = (Ok tt, ({[ "plugins/" +:+ "p.so" := 12 ]}, p1))
     /\ run_task (ASYNC := nat) (fun _ _ => mret None) (fun _ => mret tt) args p1
        = (Ok tt, mk_program (factory p1) (linker p1) (output p1 ++ ["Updated"]) (log p1)))
  /\ exists p2, MonitorRun notify_plugin (framework_monitor "plugins/")
       [ReadBytes (encode_events [written "p.so"]); ReadBytes (encode_events [deleted "p.so"]); Stopped] (∅, p)
       = (Ok tt, (∅, p2))
     /\ run_task (ASYNC := nat) (fun _ _ => mret None) (fun _ => mret tt) args p2 = (Undefined, p2).
Proof.
  intros p args.
  apply (deleted_plugin_dangles (fun _ _ => mret None) (fun _ => mret tt) "plugins/" "p.so" p 12
    {[ 12 := 1%nat ]} args).
  - split; [done|]. split; [done|]. by repeat constructor.
  - by vm_compute.
  - done.
  - done.
Defined.
