(* ===== verification/Tasks.v ===== *)
(** * Tasks

    [framework/include/tp_task.hpp]: what the thread pool runs.  A [FunctionTask]
    is a call to be made; a [FutureFunction] leaves the result of its call behind
    a reference and lets the thread that called [Get] go on. *)

From S2P Require Import Prelude.

(** ** FunctionTask

    The arguments are copied into the task when it is made. *)
Record FunctionTask (ARGS S : Type) : Type := mk_FunctionTask {
  ft_func : ARGS -> prog S unit;
  ft_args : ARGS;
}.
Arguments mk_FunctionTask {ARGS S}.
Arguments ft_func {ARGS S} f.
Arguments ft_args {ARGS S} f.

Definition new_FunctionTask {ARGS S} (func : ARGS -> prog S unit) (args : ARGS) : FunctionTask ARGS S :=
  mk_FunctionTask func args.

Definition FunctionTask_Run {ARGS S} (t : FunctionTask ARGS S) : prog S unit :=
  ft_func t (ft_args t).

(** ** FutureFunction *)

(** Where a thread is: in [Run], at the call of the function or behind the
    assignment; in [Get], at [acquire] or behind it; at the end of either. *)
Inductive point (R : Type) : Type :=
  | AtApply
  | AtRelease
  | RunEnded
  | AtAcquire
  | AtReturn
  | Got (r : R).
Arguments AtApply {R}.
Arguments AtRelease {R}.
Arguments RunEnded {R}.
Arguments AtAcquire {R}.
Arguments AtReturn {R}.
Arguments Got {R} r.

Section FutureFunction.
Context {ARGS R : Type}.

(** [m_return_value] is what the reference refers to; [users] are the threads that
    called [Run] or [Get], in the order of their calls. *)
Record FutureFunction : Type := mk_FutureFunction {
  m_func : ARGS -> res R;
  m_args : ARGS;
  m_return_value : R;
  m_sem : Z;
  users : list (point R);
}.

Implicit Types f : FutureFunction.

Definition new_FutureFunction (func : ARGS -> res R) (target : R) (args : ARGS) : FutureFunction :=
  mk_FutureFunction func args target 0 [].

Definition goto (i : nat) (pt : point R) f : FutureFunction :=
  mk_FutureFunction (m_func f) (m_args f) (m_return_value f) (m_sem f) (<[i := pt]> (users f)).

Definition set_sem (n : Z) f : FutureFunction :=
  mk_FutureFunction (m_func f) (m_args f) (m_return_value f) n (users f).

(** [std::binary_semaphore]: the value is 0 or 1. A release that exceeds that is
    undefined. *)
Definition release : prog FutureFunction unit := fun f =>
  if m_sem f + 1 <=? 1 then (Ok tt, set_sem (m_sem f + 1) f) else (Undefined, f).
Definition acquire : prog FutureFunction unit := fun f =>
  if 0 <? m_sem f then (Ok tt, set_sem (m_sem f - 1) f) else (Blocked, f).

(** Another thread calls [Run] or [Get]. *)
Definition enter (pt : point R) : prog FutureFunction unit :=
  modify (fun f => mk_FutureFunction (m_func f) (m_args f) (m_return_value f) (m_sem f) (users f ++ [pt])).

(** [Run] is two steps: the call with the assignment, then the release. An
    exception of the function leaves [Run]. *)
Definition Run_step (i : nat) : prog FutureFunction unit :=
  pt ← gets (fun f => users f !! i);
  match pt with
  | Some AtApply =>
      func ← gets m_func;
      args ← gets m_args;
      r ← lift (func args);
      modify (fun f => mk_FutureFunction (m_func f) (m_args f) r (m_sem f) (users f)) ;;
      modify (goto i AtRelease)
  | Some AtRelease => release ;; modify (goto i RunEnded)
  | _ => lift Blocked
  end.

Definition Get_step (i : nat) : prog FutureFunction unit :=
  pt ← gets (fun f => users f !! i);
  match pt with
  | Some AtAcquire => acquire ;; modify (goto i AtReturn)
  | Some AtReturn => r ← gets m_return_value; modify (goto i (Got r))
  | _ => lift Blocked
  end.

(** Any threads call [Run] and [Get], and go on one at a time. *)
Inductive fstep : FutureFunction -> FutureFunction -> Prop :=
  | fstep_Run f f' : enter AtApply f = (Ok tt, f') -> fstep f f'
  | fstep_Get f f' : enter AtAcquire f = (Ok tt, f') -> fstep f f'
  | fstep_run i f f' : Run_step i f = (Ok tt, f') -> fstep f f'
  | fstep_get i f f' : Get_step i f = (Ok tt, f') -> fstep f f'.

Definition fsteps : FutureFunction -> FutureFunction -> Prop := rtc fstep.

(** ** Counting the threads *)

Definition assigned (pt : point R) : bool :=
  match pt with AtRelease | RunEnded => true | _ => false end.
Definition released (pt : point R) : bool := match pt with RunEnded => true | _ => false end.
Definition acquired (pt : point R) : bool := match pt with AtReturn | Got _ => true | _ => false end.

Definition count (p : point R -> bool) (l : list (point R)) : Z :=
  foldr (fun pt n => Z.b2z (p pt) + n) 0 l.

Lemma count_app p l1 l2 : count p (l1 ++ l2) = count p l1 + count p l2.
Proof. induction l1 as [|pt l1 IH]; [done|]. cbn [app count foldr]. unfold count in *. rewrite IH. lia. Qed.

Lemma count_insert p l i old pt :
  l !! i = Some old -> count p (<[i := pt]> l) = count p l - Z.b2z (p old) + Z.b2z (p pt).
Proof.
  revert i. induction l as [|x l IH]; intros [|i]; try done.
  - intros [= ->]. change (Z.b2z (p pt) + count p l
      = Z.b2z (p old) + count p l - Z.b2z (p old) + Z.b2z (p pt)). lia.
  - intros Hi. change (Z.b2z (p x) + count p (<[i := pt]> l)
      = Z.b2z (p x) + count p l - Z.b2z (p old) + Z.b2z (p pt)). rewrite (IH i Hi). lia.
Qed.

Lemma count_nonneg p l : 0 <= count p l.
Proof. induction l as [|x l IH]; [done|]. change (0 <= Z.b2z (p x) + count p l). destruct (p x); simpl; lia. Qed.

Lemma count_le (p q : point R -> bool) l :
  (forall pt, p pt = true -> q pt = true) -> count p l <= count q l.
Proof.
  intros Hpq. induction l as [|x l IH]; [done|].
  change (Z.b2z (p x) + count p l <= Z.b2z (q x) + count q l).
  destruct (p x) eqn:Ep; [rewrite (Hpq _ Ep)|destruct (q x)]; simpl; lia.
Qed.

(** ** The invariant *)

(** Every release is either waiting in the semaphore or was taken by one [Get];
    behind the first assignment the target has the function's value. *)
Record future_ok (v : R) f : Prop := {
  fo_func : m_func f (m_args f) = Ok v;
  fo_sem : 0 <= m_sem f <= 1;
  fo_count : m_sem f + count acquired (users f) = count released (users f);
  fo_value : 0 < count assigned (users f) -> m_return_value f = v;
  fo_got : forall i r, users f !! i = Some (Got r) -> r = v;
}.

Lemma acquired_assigned v f :
  future_ok v f -> 0 < m_sem f \/ 0 < count acquired (users f) -> m_return_value f = v.
Proof.
  intros Hf Hpos. apply (fo_value v f Hf).
  pose proof (fo_count v f Hf). pose proof (fo_sem v f Hf). pose proof (count_nonneg acquired (users f)).
  pose proof (count_le released assigned (users f) ltac:(by intros [])). lia.
Qed.

Lemma enter_future v pt f f' :
  future_ok v f -> pt = AtApply \/ pt = AtAcquire -> enter pt f = (Ok tt, f') -> future_ok v f'.
Proof.
  intros [Hf Hs Hc Hv Hg] Hpt [= <-].
  constructor; cbn [m_func m_args m_return_value m_sem users]; [done|done| | |].
  - rewrite !count_app. destruct Hpt as [-> | ->]; simpl; lia.
  - rewrite count_app. destruct Hpt as [-> | ->]; simpl; intros; apply Hv; lia.
  - intros i r. rewrite lookup_snoc_Some. intros [[_ ?]|[_ E]]; [by eapply Hg|].
    destruct Hpt as [-> | ->]; discriminate.
Qed.

(** A thread that moves from [old] to [pt]. *)
Lemma goto_future v i old pt n f r :
  future_ok v f -> users f !! i = Some old ->
  0 <= n <= 1 ->
  n + Z.b2z (acquired pt) - Z.b2z (acquired old) - m_sem f
    = Z.b2z (released pt) - Z.b2z (released old) ->
  (r = v \/ r = m_return_value f /\ assigned pt = assigned old) ->
  (forall r, pt = Got r -> r = v) ->
  future_ok v (mk_FutureFunction (m_func f) (m_args f) r n (<[i := pt]> (users f))).
Proof.
  intros [Hf Hs Hc Hv Hg] Hi Hn Hdiff Hr Hpt.
  constructor; cbn [m_func m_args m_return_value m_sem users]; [done|done| | |].
  - rewrite !(count_insert _ _ _ _ _ Hi). lia.
  - rewrite (count_insert _ _ _ _ _ Hi). destruct Hr as [->|[-> ->]]; [done|].
    intros Hpos. apply Hv. lia.
  - intros j r' Hj. apply list_lookup_insert_Some in Hj as [(_ & E & _)|[_ Hj]]; [by apply Hpt|by eapply Hg].
Qed.

Lemma Run_step_inv i f f' :
  Run_step i f = (Ok tt, f') ->
  (users f !! i = Some AtApply /\ exists r, m_func f (m_args f) = Ok r
     /\ f' = mk_FutureFunction (m_func f) (m_args f) r (m_sem f) (<[i := AtRelease]> (users f)))
  \/ (users f !! i = Some AtRelease /\ m_sem f + 1 <= 1
      /\ f' = goto i RunEnded (set_sem (m_sem f + 1) f)).
Proof.
  unfold Run_step, release. run_prog. destruct (users f !! i) as [[]|]; try discriminate.
  - destruct (m_func f (m_args f)) as [r|e| |]; try discriminate. intros [= <-]. left. eauto.
  - destruct (Z.leb_spec (m_sem f + 1) 1); [|discriminate]. intros [= <-]. by right.
Qed.

Lemma Get_step_inv i f f' :
  Get_step i f = (Ok tt, f') ->
  (users f !! i = Some AtAcquire /\ 0 < m_sem f /\ f' = goto i AtReturn (set_sem (m_sem f - 1) f))
  \/ (users f !! i = Some AtReturn /\ f' = goto i (Got (m_return_value f)) f).
Proof.
  unfold Get_step, acquire. run_prog. destruct (users f !! i) as [[]|]; try discriminate.
  - destruct (Z.ltb_spec 0 (m_sem f)); [|discriminate]. intros [= <-]. by left.
  - intros [= <-]. by right.
Qed.

Lemma fstep_future v f f' : future_ok v f -> fstep f f' -> future_ok v f'.
Proof.
  intros Hf Hstep. pose proof (fo_sem v f Hf) as Hs. destruct Hstep as [f f' E|f f' E|i f f' E|i f f' E].
  - eapply enter_future; [exact Hf| |exact E]. by left.
  - eapply enter_future; [exact Hf| |exact E]. by right.
  - apply Run_step_inv in E as [(Hi & r & Hr & ->)|(Hi & Hle & ->)].
    + assert (r = v) by (pose proof (fo_func v f Hf); congruence).
      eapply goto_future; try done; [simpl; lia|by left].
    + eapply (goto_future v i AtRelease RunEnded (m_sem f + 1) f (m_return_value f)); try done; simpl; lia || by right.
  - apply Get_step_inv in E as [(Hi & Hpos & ->)|(Hi & ->)].
    + eapply (goto_future v i AtAcquire AtReturn (m_sem f - 1) f (m_return_value f)); try done; simpl; lia || by right.
    + eapply (goto_future v i AtReturn (Got _) (m_sem f) f (m_return_value f)); try done; simpl; [lia|by right|].
      intros r [= <-]. apply (acquired_assigned v f Hf). right.
      pose proof (count_insert acquired (users f) i AtReturn AtApply Hi) as Hcount.
      pose proof (count_nonneg acquired (<[i := AtApply]> (users f))). simpl in Hcount. lia.
Qed.

Lemma fsteps_future v f f' : future_ok v f -> fsteps f f' -> future_ok v f'.
Proof. intros Hf Hs. induction Hs as [|f1 f2 f3 Hstep _ IH]; [done|]. by eapply IH, fstep_future. Qed.

Lemma new_future v func target args :
  func args = Ok v -> future_ok v (new_FutureFunction func target args).
Proof. intros Hf. by constructor. Qed.
End FutureFunction.
Arguments FutureFunction ARGS R : clear implicits.

(** ** Properties *)

Section properties.
Context {ARGS R : Type}.
Implicit Types f : FutureFunction ARGS R.

(** The calls of [Run] that began. *)
Definition ran (pt : point R) : bool := match pt with AtApply | AtRelease | RunEnded => true | _ => false end.

Lemma count_pos_lookup (p : point R -> bool) l :
  0 < count p l -> exists i pt, l !! i = Some pt /\ p pt = true.
Proof.
  induction l as [|x l IH]; [done|]. change (count p (x :: l)) with (Z.b2z (p x) + count p l).
  destruct (p x) eqn:Ep; [by exists 0%nat, x|]. intros Hpos. destruct IH as (i & pt & Hi & Hp); [simpl in Hpos; lia|].
  by exists (S i), pt.
Qed.

Lemma count_split (p q r : point R -> bool) l :
  (forall pt, Z.b2z (p pt) = Z.b2z (q pt) + Z.b2z (r pt)) -> count p l = count q l + count r l.
Proof.
  intros H. induction l as [|x l IH]; [done|].
  change (Z.b2z (p x) + count p l = Z.b2z (q x) + count q l + (Z.b2z (r x) + count r l)). rewrite H. lia.
Qed.

(** A future delivers: however the threads that run the task and those that
    wait for it interleave, [Get] returns nothing but the value of the function,
    although the target held something else before; each return of [Get] uses up
    one run; and while more runs were started than calls of [Get] were served, a
    waiting [Get] is not stuck: some thread of the task can go on. *)
Theorem future_delivers (func : ARGS -> res R) (target v : R) (args : ARGS) f
    (Hfunc : func args = Ok v) (Hf : fsteps (new_FutureFunction func target args) f) :
  (forall i r, users f !! i = Some (Got r) -> r = v)
  /\ m_sem f + count acquired (users f) = count released (users f)
  /\ forall i, users f !! i = Some AtAcquire -> count acquired (users f) < count ran (users f) ->
       exists j f', Run_step j f = (Ok tt, f') \/ Get_step j f = (Ok tt, f').
Proof.
  pose proof (fsteps_future v _ f (new_future v func target args Hfunc) Hf) as [Hv Hs Hc _ Hg].
  split; [exact Hg|]. split; [exact Hc|]. intros i Hi Hmore.
  destruct (Z.ltb_spec 0 (m_sem f)) as [Hpos|Hzero].
  - exists i. eexists. right. unfold Get_step, acquire. run_prog. rewrite Hi.
    by rewrite (proj2 (Z.ltb_lt _ _) Hpos).
  - set (running := fun pt : point R => match pt with AtApply | AtRelease => true | _ => false end).
    pose proof (count_split ran running released (users f) ltac:(by intros [])) as Hsplit.
    destruct (count_pos_lookup running (users f)) as (j & pt & Hj & Hpt); [lia|].
    exists j. unfold Run_step, release. destruct pt; try discriminate Hpt; eexists; left; run_prog; rewrite Hj.
    + cbn. by rewrite Hv.
    + cbn. by rewrite (proj2 (Z.leb_le _ _)) by lia.
Qed.

(** A function that throws: the exception leaves [Run], no release is done, and
    no [Get] ever returns. *)
Lemma throwing_never_answers (func : ARGS -> res R) target args e f :
  func args = Throw e -> fsteps (new_FutureFunction func target args) f ->
  m_sem f = 0 /\ Forall (fun pt => pt = AtApply \/ pt = AtAcquire) (users f).
Proof.
  intros Hfunc Hf.
  assert (H : m_func f (m_args f) = Throw e /\ m_sem f = 0
    /\ Forall (fun pt => pt = AtApply \/ pt = AtAcquire) (users f)); [|tauto].
  remember (new_FutureFunction func target args) as f0 eqn:E0.
  assert (H0 : m_func f0 (m_args f0) = Throw e /\ m_sem f0 = 0
    /\ Forall (fun pt => pt = AtApply \/ pt = AtAcquire) (users f0)) by (subst; by repeat split).
  clear E0 Hfunc. induction Hf as [f|f f1 f' Hstep Hsteps IH]; [exact H0|]. apply IH.
  destruct H0 as (Ht & Hs & Hall). destruct Hstep as [f f1 [= <-]|f f1 [= <-]|i f f1 E|i f f1 E].
  - split; [done|]. split; [done|]. apply Forall_app. split; [done|]. constructor; auto.
  - split; [done|]. split; [done|]. apply Forall_app. split; [done|]. constructor; auto.
  - exfalso. apply Run_step_inv in E as [(_ & r & Hr & _)|(Hi & _)]; [congruence|].
    rewrite Forall_lookup in Hall. by destruct (Hall _ _ Hi).
  - exfalso. apply Get_step_inv in E as [(_ & Hpos & _)|(Hi & _)]; [lia|].
    rewrite Forall_lookup in Hall. by destruct (Hall _ _ Hi).
Qed.
End properties.

(** Runs of the steps of threads. *)
Fixpoint run_Run {ARGS R} (l : list nat) : prog (FutureFunction ARGS R) unit :=
  match l with [] => mret tt | i :: l => Run_step i ;; run_Run l end.

Lemma run_Run_fsteps {ARGS R} l (f f' : FutureFunction ARGS R) :
  run_Run l f = (Ok tt, f') -> fsteps f f'.
Proof.
  revert f. induction l as [|i l IH]; intros f; cbn [run_Run]; [intros [= <-]; apply rtc_refl|].
  intros ([] & f1 & E1 & E2)%bind_ok_inv. eapply rtc_l; [by eapply fstep_run|]. by apply IH.
Qed.

(** The task of [EvilTest] in [framework/test/test_thread_pool.cpp] is queued
    twice: when both runs end before the first [Get], the second release is
    undefined. *)
Lemma queued_twice_undefined {ARGS R} (func : ARGS -> res R) target v args :
  func args = Ok v ->
  (enter AtApply ;; enter AtApply ;; run_Run [0; 1; 0; 1]%nat)
    (new_FutureFunction func target args)
  = (Undefined, mk_FutureFunction func args v 1 [RunEnded; AtRelease]).
Proof.
  intros E.
  unfold run_Run, Run_step. run_prog. cbn. rewrite E. cbn. by rewrite E.
Qed.

(** A [Get] that waits, the run of the task, and its return. *)
Lemma future_delivers_witness :
  let func := fun num : Z => Ok num in
  exists f, func 1 = Ok 1 /\ fsteps (new_FutureFunction func 0 1) f /\ users f = [Got 1; RunEnded] /\
    ((forall i r, users f !! i = Some (Got r) -> r = 1)
     /\ m_sem f + count acquired (users f) = count released (users f)
     /\ forall i, users f !! i = Some AtAcquire -> count acquired (users f) < count ran (users f) ->
          exists j f', Run_step j f = (Ok tt, f') \/ Get_step j f = (Ok tt, f')).
Proof.
  intros func. set (f0 := new_FutureFunction func 0 1).
  assert (Hf : exists f, fsteps f0 f /\ users f = [Got 1; RunEnded]).
  { eexists. split; [|shelve].
    eapply rtc_l; [by eapply fstep_Get|]. eapply rtc_l; [by eapply fstep_Run|].
    eapply rtc_l; [by apply (fstep_run 1)|]. eapply rtc_l; [by apply (fstep_run 1)|].
    eapply rtc_l; [by apply (fstep_get 0)|]. eapply rtc_l; [by apply (fstep_get 0)|]. apply rtc_refl.
    Unshelve. done. }
  destruct Hf as (f & Hf & Hu). exists f. split; [done|]. split; [exact Hf|]. split; [exact Hu|].
  exact (future_delivers func 0 1 1 f eq_refl Hf).
Defined.
