(* ===== verification/Singleton.v ===== *)
(** * Singleton

    [framework/include/singleton.hpp]: an object that is made at its first use,
    behind a lock that is taken only while the pointer is null, and deleted when
    the program exits. *)

From S2P Require Import Prelude.

(** Where a thread is. In [GetInstance]: at the first look at [m_singleton]; at the
    lock; at the second look; at [new T]; at [store]; at [atexit]; at the end of
    the lock; at the last look, which gives the result. In [DestroyInstance], run
    by [exit]: at [delete]; at [store(nullptr)]. The results: an object or null. *)
Inductive point : Set :=
  | AtLoad
  | AtLock
  | AtCheck
  | AtNew
  | AtStore (tmp : nat)
  | AtAtexit
  | AtUnlock
  | AtResult
  | Got (instance : option nat)
  | AtDelete
  | AtClear.

#[export] Instance point_eq_dec : EqDecision point.
Proof. solve_decision. Defined.

(** [m_singleton] is a pointer; [heap] tells of every object that was made whether
    it lives; [handlers] is the number of functions that [exit] has to call. *)
Record Singleton : Type := mk_Singleton {
  m_singleton : option nat;
  m_mtx : option nat;
  heap : list bool;
  handlers : nat;
  threads : gmap nat point;
}.

Implicit Types s : Singleton.

Definition new_Singleton : Singleton := mk_Singleton None None [] 0 ∅.

Definition goto (tid : nat) (pt : point) s : Singleton :=
  mk_Singleton (m_singleton s) (m_mtx s) (heap s) (handlers s) (<[tid := pt]> (threads s)).
Definition set_mtx (m : option nat) s : Singleton :=
  mk_Singleton (m_singleton s) m (heap s) (handlers s) (threads s).
Definition store (p : option nat) s : Singleton :=
  mk_Singleton p (m_mtx s) (heap s) (handlers s) (threads s).
Definition atexit s : Singleton :=
  mk_Singleton (m_singleton s) (m_mtx s) (heap s) (S (handlers s)) (threads s).

Definition leave (tid : nat) s : Singleton :=
  mk_Singleton (m_singleton s) (m_mtx s) (heap s) (handlers s) (delete tid (threads s)).

(** [delete m_singleton]; the deletion of null does nothing, a second deletion of
    an object is undefined. *)
Definition delete_instance : prog Singleton unit := fun s =>
  match m_singleton s with
  | None => (Ok tt, s)
  | Some o =>
      match heap s !! o with
      | Some true => (Ok tt, mk_Singleton (m_singleton s) (m_mtx s) (<[o := false]> (heap s)) (handlers s) (threads s))
      | _ => (Undefined, s)
      end
  end.

(** A thread that is not in one of the functions calls [GetInstance]; a thread in
    [exit] calls a registered function. *)
Definition at_rest (pt : option point) : bool :=
  match pt with None | Some (Got _) => true | _ => false end.

Definition enter (tid : nat) : prog Singleton unit := fun s =>
  if at_rest (threads s !! tid) then (Ok tt, goto tid AtLoad s) else (Blocked, s).

Definition enter_exit (tid : nat) : prog Singleton unit := fun s =>
  if at_rest (threads s !! tid) then
    match handlers s with
    | O => (Blocked, s)
    | S n => (Ok tt, goto tid AtDelete (mk_Singleton (m_singleton s) (m_mtx s) (heap s) n (threads s)))
    end
  else (Blocked, s).

(** A step of [GetInstance]; [constructed] tells whether [new T] returns. When it
    throws, the lock is released and the thread leaves. *)
Definition GetInstance_step (tid : nat) (constructed : bool) : prog Singleton unit := fun s =>
  match threads s !! tid with
  | Some AtLoad =>
      (Ok tt, goto tid (match m_singleton s with None => AtLock | Some _ => AtResult end) s)
  | Some AtLock =>
      match m_mtx s with
      | Some _ => (Blocked, s)
      | None => (Ok tt, goto tid AtCheck (set_mtx (Some tid) s))
      end
  | Some AtCheck =>
      (Ok tt, goto tid (match m_singleton s with None => AtNew | Some _ => AtUnlock end) s)
  | Some AtNew =>
      if constructed then
        (Ok tt, goto tid (AtStore (length (heap s)))
          (mk_Singleton (m_singleton s) (m_mtx s) (heap s ++ [true]) (handlers s) (threads s)))
      else
        (Ok tt, leave tid (set_mtx None s))
  | Some (AtStore tmp) => (Ok tt, goto tid AtAtexit (store (Some tmp) s))
  | Some AtAtexit => (Ok tt, goto tid AtUnlock (atexit s))
  | Some AtUnlock => (Ok tt, goto tid AtResult (set_mtx None s))
  | Some AtResult => (Ok tt, goto tid (Got (m_singleton s)) s)
  | _ => (Blocked, s)
  end.

Definition DestroyInstance_step (tid : nat) : prog Singleton unit :=
  pt ← gets (fun s => threads s !! tid);
  match pt with
  | Some AtDelete => delete_instance ;; modify (goto tid AtClear)
  | Some AtClear => modify (fun s => leave tid (store None s))
  | _ => lift Blocked
  end.

(** The program runs: threads use [GetInstance]. *)
Inductive run_step : Singleton -> Singleton -> Prop :=
  | run_enter tid s s' : enter tid s = (Ok tt, s') -> run_step s s'
  | run_get tid constructed s s' : GetInstance_step tid constructed s = (Ok tt, s') -> run_step s s'.

(** The program exits while threads still run. *)
Inductive exit_step : Singleton -> Singleton -> Prop :=
  | exit_run s s' : run_step s s' -> exit_step s s'
  | exit_enter tid s s' : enter_exit tid s = (Ok tt, s') -> exit_step s s'
  | exit_destroy tid s s' : DestroyInstance_step tid s = (Ok tt, s') -> exit_step s s'.

(** ** The invariant

    The life of the object has four stages; only the thread that holds the lock
    moves it on. *)
Inductive stage : Set := NotMade | Made | Stored | Registered.

Definition stage_ok (st : stage) s : Prop :=
  match st with
  | NotMade => m_singleton s = None /\ heap s = [] /\ handlers s = 0%nat
  | Made => m_singleton s = None /\ heap s = [true] /\ handlers s = 0%nat
  | Stored => m_singleton s = Some 0%nat /\ heap s = [true] /\ handlers s = 0%nat
  | Registered => m_singleton s = Some 0%nat /\ heap s = [true] /\ handlers s = 1%nat
  end.

Definition holds_lock (pt : point) : bool :=
  match pt with AtCheck | AtNew | AtStore _ | AtAtexit | AtUnlock => true | _ => false end.

Definition point_ok (st : stage) (pt : point) : Prop :=
  match pt with
  | AtLoad | AtLock => True
  | AtCheck => st = NotMade \/ st = Registered
  | AtNew => st = NotMade
  | AtStore tmp => st = Made /\ tmp = 0%nat
  | AtAtexit => st = Stored
  | AtUnlock => st = Registered
  | AtResult => st = Stored \/ st = Registered
  | Got o => o = Some 0%nat /\ (st = Stored \/ st = Registered)
  | AtDelete | AtClear => False
  end.

Record single (st : stage) s : Prop := {
  sg_stage : stage_ok st s;
  sg_free : m_mtx s = None -> st = NotMade \/ st = Registered;
  sg_lock : forall tid, m_mtx s = Some tid <-> exists pt, threads s !! tid = Some pt /\ holds_lock pt = true;
  sg_points : forall tid pt, threads s !! tid = Some pt -> point_ok st pt;
}.

Lemma new_single : single NotMade new_Singleton.
Proof.
  constructor; [done|by left| |done]. intros tid. split; [done|]. by intros (pt & Hpt & _).
Qed.

Definition stored (st : stage) : Prop := st = Stored \/ st = Registered.

(** A thread that does not hold the lock does not mind the stage. *)
Lemma point_ok_other st st' pt :
  holds_lock pt = false -> (stored st -> stored st') -> point_ok st pt -> point_ok st' pt.
Proof. unfold stored. destruct pt; simpl; try done; tauto. Qed.

(** The thread [tid] goes to [pt] (or leaves, if [opt] is [None]). *)
Lemma single_move st st' s s' tid opt :
  single st s ->
  threads s' = partial_alter (fun _ => opt) tid (threads s) ->
  stage_ok st' s' -> (m_mtx s' = None -> st' = NotMade \/ st' = Registered) ->
  (st = st' \/ m_mtx s = Some tid /\ (stored st -> stored st')) ->
  (m_mtx s = None \/ m_mtx s = Some tid \/ m_mtx s' = m_mtx s /\ m_mtx s <> Some tid) ->
  (m_mtx s' = Some tid <-> exists pt, opt = Some pt /\ holds_lock pt = true) ->
  (forall tid', tid' <> tid -> m_mtx s' = Some tid' -> m_mtx s = Some tid') ->
  (forall pt, opt = Some pt -> point_ok st' pt) ->
  single st' s'.
Proof.
  intros [Hst Hfree Hlock Hpts] Ht Hst' Hfree' Hmove Hheld Hnew Hothers Hpt.
  constructor; [done|done| |].
  - intros tid'. rewrite Ht. destruct (decide (tid' = tid)) as [->|Hne].
    + rewrite lookup_partial_alter_eq. rewrite Hnew. naive_solver.
    + rewrite lookup_partial_alter_ne by done. rewrite <-Hlock. split; [by apply Hothers|].
      intros Hm. destruct Hheld as [Hn|[Hn|[-> _]]]; congruence.
  - intros tid' pt. rewrite Ht. destruct (decide (tid' = tid)) as [->|Hne].
    + rewrite lookup_partial_alter_eq. apply Hpt.
    + rewrite lookup_partial_alter_ne by done. intros Hp.
      destruct Hmove as [<-|[Hm Hmove]]; [by eapply Hpts|].
      apply (point_ok_other st st'); [|done|by eapply Hpts].
      destruct (holds_lock pt) eqn:Eh; [|done]. exfalso.
      assert (m_mtx s = Some tid') by (apply Hlock; eauto). congruence.
Qed.

Lemma lookup_of_point st s tid pt :
  single st s -> threads s !! tid = Some pt ->
  point_ok st pt /\ (m_mtx s = Some tid <-> holds_lock pt = true).
Proof.
  intros [_ _ Hlock Hpts] Ht. split; [by eapply Hpts|]. rewrite Hlock. rewrite Ht.
  split; [by intros (? & [= <-] & ?)|]. intros. by exists pt.
Qed.

Ltac move_thread pt :=
  eapply (single_move _ _ _ _ _ (Some pt)); [eassumption|reflexivity|..]; cbn [goto set_mtx store atexit leave
    m_singleton m_mtx heap handlers threads stage_ok point_ok]; unfold stored in *; try done; try naive_solver.

Lemma enter_single tid st s s' : single st s -> enter tid s = (Ok tt, s') -> single st s'.
Proof.
  intros Hs. unfold enter. destruct (at_rest _) eqn:Er; [|done]. intros [= <-].
  assert (Hno : m_mtx s <> Some tid).
  { intros (pt & Hpt & Hl)%(sg_lock st s Hs). rewrite Hpt in Er. by destruct pt. }
  pose proof (sg_free st s Hs). pose proof (sg_stage st s Hs).
  move_thread AtLoad.
Qed.

Lemma GetInstance_single tid constructed st s s' :
  single st s -> GetInstance_step tid constructed s = (Ok tt, s') -> exists st', single st' s'.
Proof.
  intros Hs E. unfold GetInstance_step in E. destruct (threads s !! tid) as [pt|] eqn:Ht; [|done].
  destruct (lookup_of_point st s tid pt Hs Ht) as [Hok Hlock].
  pose proof (sg_free st s Hs) as Hfree. pose proof (sg_stage st s Hs) as Hst.
  destruct pt; cbn in Hok, Hlock; try done.
  - injection E as <-. exists st.
    assert (m_singleton s = None \/ stored st /\ exists o, m_singleton s = Some o)
      by (unfold stored; destruct st; naive_solver).
    destruct (m_singleton s); [move_thread AtResult|move_thread AtLock].
  - destruct (m_mtx s) eqn:Em; [done|]. injection E as <-. exists st. move_thread AtCheck.
  - injection E as <-. exists st. destruct Hok as [-> | ->]; destruct Hst as (Hp & Hh & Hn); rewrite Hp.
    + move_thread AtNew.
    + move_thread AtUnlock.
  - subst st. destruct Hst as (Hp & Hh & Hn). destruct constructed; injection E as <-.
    + exists Made. rewrite Hh. move_thread (AtStore 0).
    + exists NotMade. eapply (single_move _ _ _ _ tid None); [eassumption|reflexivity|..]; cbn; naive_solver.
  - destruct Hok as [-> ->]. destruct Hst as (Hp & Hh & Hn). injection E as <-. exists Stored. move_thread AtAtexit.
  - subst st. destruct Hst as (Hp & Hh & Hn). injection E as <-. exists Registered. move_thread AtUnlock.
  - subst st. injection E as <-. exists Registered. move_thread AtResult.
  - injection E as <-. exists st.
    assert (Hp : m_singleton s = Some 0%nat) by (destruct Hok as [-> | ->]; apply Hst). rewrite Hp.
    move_thread (Got (Some 0%nat)).
Qed.

Lemma run_steps_single st s s' : single st s -> rtc run_step s s' -> exists st', single st' s'.
Proof.
  intros Hs Hsteps. revert st Hs. induction Hsteps as [s|s s1 s' Hstep _ IH]; intros st Hs; [by exists st|].
  destruct Hstep as [tid s s1 E|tid constructed s s1 E].
  - eapply IH, enter_single; eassumption.
  - destruct (GetInstance_single tid constructed st s s1 Hs E) as [st1 H1]. by eapply IH.
Qed.

(** ** Properties *)

(** C39: while the program runs there is one instance: whatever threads call
    [GetInstance], however they interleave and whether constructors throw, no
    call gives null, all give the same object, it is alive, no second object is
    made, and its deletion is registered at most once; the lock is held by one
    thread and is not held for ever: some thread can go on whenever one waits. *)
Theorem one_instance s (Hs : rtc run_step new_Singleton s) :
  (forall tid instance, threads s !! tid = Some (Got instance) -> instance = Some 0%nat /\ heap s = [true])
  /\ (length (heap s) <= 1)%nat /\ (handlers s <= 1)%nat
  /\ forall tid pt, threads s !! tid = Some pt -> at_rest (Some pt) = false ->
       exists tid' s', GetInstance_step tid' true s = (Ok tt, s').
Proof.
  destruct (run_steps_single NotMade _ s new_single Hs) as [st Hsg].
  pose proof (sg_stage st s Hsg) as Hst. split; [|split; [|split]].
  - intros tid o Ht. destruct (sg_points st s Hsg tid _ Ht) as [-> Hstored]. split; [done|].
    destruct Hstored as [-> | ->]; apply Hst.
  - destruct st; destruct Hst as (_ & -> & _); simpl; lia.
  - destruct st; destruct Hst as (_ & _ & ->); lia.
  - intros tid pt Ht Hrest.
    assert (Hgo : forall t p, threads s !! t = Some p -> at_rest (Some p) = false ->
      p = AtLock \/ exists s', GetInstance_step t true s = (Ok tt, s')).
    { intros t p Hp Hr. unfold GetInstance_step. rewrite Hp.
      destruct p; try discriminate Hr; try (right; by eexists); [by left|..];
        by destruct (sg_points st s Hsg t _ Hp). }
    destruct (Hgo tid pt Ht Hrest) as [->|[s' E]]; [|by exists tid, s'].
    destruct (m_mtx s) as [h|] eqn:Em.
    + destruct (proj1 (sg_lock st s Hsg h) Em) as (p & Hp & Hl).
      destruct (Hgo h p Hp) as [->|[s' E]]; [by destruct p|done|by exists h, s'].
    + exists tid. unfold GetInstance_step. rewrite Ht, Em. by eexists.
Qed.

(** One thread at a time: a whole call of [GetInstance] and a whole call of
    [DestroyInstance]. *)
Definition GetInstance (tid : nat) : prog Singleton (option nat) :=
  enter tid ;; GetInstance_step tid true ;;
  pt ← gets (fun s => threads s !! tid);
  (if bool_decide (pt = Some AtLock) then
     GetInstance_step tid true ;; GetInstance_step tid true ;;
     pt ← gets (fun s => threads s !! tid);
     if bool_decide (pt = Some AtNew) then
       GetInstance_step tid true ;; GetInstance_step tid true ;;
       GetInstance_step tid true ;; GetInstance_step tid true
     else GetInstance_step tid true
   else mret tt) ;;
  GetInstance_step tid true ;;
  pt ← gets (fun s => threads s !! tid);
  mret (match pt with Some (Got o) => o | _ => None end).

Definition DestroyInstance (tid : nat) : prog Singleton unit :=
  enter_exit tid ;; DestroyInstance_step tid ;; DestroyInstance_step tid.

(** A use of the singleton in a destructor that [exit] runs later makes a second
    object, which is deleted in its turn. *)
Lemma made_again_at_exit :
  (o1 ← GetInstance 0; DestroyInstance 0 ;; o2 ← GetInstance 0; DestroyInstance 0 ;; mret (o1, o2))
    new_Singleton
  = (Ok (Some 0%nat, Some 1%nat), mk_Singleton None None [false; false] 0 ∅).
Proof. by vm_compute. Qed.

(** Threads that run while the program exits: one is given an object that was
    deleted, one is given null. *)
Lemma exit_gives_deleted :
  (GetInstance 0 ;; enter_exit 0 ;; DestroyInstance_step 0 ;; o ← GetInstance 1; heap ← gets heap;
   mret (o, heap)) new_Singleton
  = (Ok (Some 0%nat, [false]),
     mk_Singleton (Some 0%nat) None [false] 0 {[ 0%nat := AtClear; 1%nat := Got (Some 0%nat) ]}).
Proof. by vm_compute. Qed.

Lemma exit_gives_null :
  (GetInstance 0 ;; enter 1 ;; GetInstance_step 1 true ;; DestroyInstance 0 ;; GetInstance_step 1 true)
    new_Singleton
  = (Ok tt, mk_Singleton None None [false] 0 {[ 1%nat := Got None ]}).
Proof. by vm_compute. Qed.

(** A run: the calls and steps of the named threads. *)
Fixpoint run_calls (l : list (bool * nat)) : prog Singleton unit :=
  match l with
  | [] => mret tt
  | (call, tid) :: l => (if call then enter tid else GetInstance_step tid true) ;; run_calls l
  end.

Lemma run_calls_rtc l s s' : run_calls l s = (Ok tt, s') -> rtc run_step s s'.
Proof.
  revert s. induction l as [|[call tid] l IH]; intros s; cbn [run_calls]; [intros [= <-]; apply rtc_refl|].
  intros ([] & s1 & E1 & E2)%bind_ok_inv. eapply rtc_l; [|by apply IH].
  destruct call; [by eapply run_enter|by eapply run_get].
Qed.

(** Two threads, of which the second waits for the lock behind a first look that
    gave null. *)
Lemma one_instance_witness :
  exists s, rtc run_step new_Singleton s
    /\ threads s !! 1%nat = Some (Got (Some 0%nat)) /\ threads s !! 2%nat = Some (Got (Some 0%nat)) /\
    ((forall tid instance, threads s !! tid = Some (Got instance) -> instance = Some 0%nat /\ heap s = [true])
     /\ (length (heap s) <= 1)%nat /\ (handlers s <= 1)%nat
     /\ forall tid pt, threads s !! tid = Some pt -> at_rest (Some pt) = false ->
          exists tid' s', GetInstance_step tid' true s = (Ok tt, s')).
Proof.
  assert (E : exists s, run_calls
    ([(true, 1); (true, 2); (false, 1); (false, 1); (false, 2)] ++ replicate 6 (false, 1)
     ++ replicate 4 (false, 2))%nat new_Singleton = (Ok tt, s)
    /\ threads s !! 1%nat = Some (Got (Some 0%nat)) /\ threads s !! 2%nat = Some (Got (Some 0%nat))).
  { eexists. split; [vm_compute; reflexivity|]. by vm_compute. }
  destruct E as (s & E & H1 & H2). pose proof (run_calls_rtc _ _ _ E) as Hs.
  exists s. split; [exact Hs|]. split; [exact H1|]. split; [exact H2|]. exact (one_instance s Hs).
Defined.
