(* ===== verification/Tests.v ===== *)
(** * Tests

    The test programs of the repository, run on the definitions of the
    development: [concrete/test] and the test of [framework/test] that are
    registered with CTest, and the deterministic parts of others. *)

From Stdlib.Strings Require Import Byte String.
From S2P Require Import Prelude Bytes StripeSplitter Message Dispatcher Ticket Sockets ThreadPool Scheduler DirMonitor.

(** [TEST_ASSERT]: [main] returns 1 when the condition is false. *)
Definition TEST_ASSERT (cond : bool) (rest : res Z) : res Z := if cond then rest else mret 1.

(** Asserts about the members of an element of a vector; an element that does not
    exist is undefined. *)
Definition at_ {A} (l : list A) (i : nat) : res A :=
  match l !! i with Some x => Ok x | None => Undefined end.

(** [!p] for a pointer. *)
Definition is_null {A} (p : option A) : bool := match p with None => true | Some _ => false end.

(** ** test_stripe_splitter.cpp *)
Definition test_stripe_splitter : res Z :=
  let chunk := 4 * 1024 * 1024 in
  let numMinions := 3 in
  p0 ← GetPrimaryIndex 0 chunk; TEST_ASSERT (p0 =? 0) (
  p1 ← GetPrimaryIndex chunk chunk; TEST_ASSERT (p1 =? 1) (
  b0 ← GetBackupIndex 0 numMinions; TEST_ASSERT (b0 =? 1) (
  b2 ← GetBackupIndex 2 numMinions; TEST_ASSERT (b2 =? 0) (
  single ← Split 100 50 chunk numMinions;
  TEST_ASSERT (length single =? 1)%nat (
  s ← at_ single 0;
  TEST_ASSERT (localOffset s =? 100) (
  TEST_ASSERT (seg_length s =? 50) (
  TEST_ASSERT (primaryMinionIndex s =? 0) (
  TEST_ASSERT (backupMinionIndex s =? 1) (
  let crossOffset := chunk - 10 in
  split ← Split crossOffset 20 chunk numMinions;
  TEST_ASSERT (length split =? 2)%nat (
  s0 ← at_ split 0;
  s1 ← at_ split 1;
  TEST_ASSERT (seg_length s0 =? 10) (
  TEST_ASSERT (seg_length s1 =? 10) (
  TEST_ASSERT (primaryMinionIndex s0 =? 0) (
  TEST_ASSERT (primaryMinionIndex s1 =? 1) (
  TEST_ASSERT (backupMinionIndex s0 =? 1) (
  TEST_ASSERT (backupMinionIndex s1 =? 2) (
  mret 0)))))))))))))))).

(** ** test_ticket.cpp

    The callback of the test keeps the last result that it is given. *)
Definition test_segments : list StripeSegment := [mk_StripeSegment 0 4 0 0 1].

Definition new_test_ticket (op : TicketOp) : Ticket unit :=
  RegisterToResultDispatcher tt (make_Ticket 42 op 4 test_segments).

Definition read_failover : res Z :=
  let primaryFail := ReadReceive (MessageReadReceive.make 42 false 4 None) in
  let backupOk := ReadReceive (MessageReadReceive.make 42 true 4
    (Some (Some <$> list_byte_of_string "abcd"))) in
  '(ticket, result) ← OnMirrorResponse 0 PRIMARY (Some primaryFail) (new_test_ticket READ);
  TEST_ASSERT (is_null result) (
  '(ticket, result) ← OnMirrorResponse 0 BACKUP (Some backupOk) ticket;
  match result with
  | None => mret 1
  | Some r =>
      TEST_ASSERT (tr_result r) (
      TEST_ASSERT (tr_length r =? 4) (
      match tr_buffer r with
      | None => mret 1
      | Some buffer => b ← at_ buffer 0; TEST_ASSERT (bool_decide (b = Some "a"%byte)) (mret 0)
      end))
  end).

(** The two tickets for writes: the answers of the minions, the expected result. *)
Definition write_ticket (primary backup expected : bool) (early : bool) : res Z :=
  '(ticket, result) ← OnMirrorResponse 0 PRIMARY
    (Some (WriteReceive (MessageWriteReceive.make 42 primary))) (new_test_ticket WRITE);
  TEST_ASSERT (negb early || is_null result) (
  '(ticket, result) ← OnMirrorResponse 0 BACKUP
    (Some (WriteReceive (MessageWriteReceive.make 42 backup))) ticket;
  match result with
  | None => mret 1
  | Some r => TEST_ASSERT (Bool.eqb (tr_result r) expected) (mret 0)
  end).

Definition test_ticket : res Z :=
  r1 ← read_failover; TEST_ASSERT (r1 =? 0) (
  r2 ← write_ticket true false false true; TEST_ASSERT (r2 =? 0) (
  write_ticket true true true false)).

(** ** test_tcp_eof.cpp

    A connected pair of sockets of which one end, [fd] is the other, is closed: the
    stream has ended. *)
Definition test_tcp_eof (fd : Z) : res Z :=
  let client := TCPClient.mk fd [TCPClient.Data []] [] [] in
  let '(r, _) := try (TCPClient.Receive 8 ;; mret false)
                     (fun e => mret (match e with runtime_error _ => true | _ => false end)) client in
  threw ← r;
  TEST_ASSERT threw (mret 0).

(** ** test_udp_socket.cpp

    The kernel delivers what the client sends to the server; [addr] is the client's
    address. The buffer of the test starts as zeros. *)
Definition msg : cells := Some <$> (list_byte_of_string "hello-udp" ++ [Byte.x00]).

Definition test_udp_socket (server client : UDPSocket.t) (addr : Z) : res Z :=
  let '(r, client) := UDPSocket.SendTo msg client in
  r ;;
  let server := foldl (fun s d => UDPSocket.deliver addr d.2 s) server (UDPSocket.sent client) in
  let '(r, server) := UDPSocket.ReceiveFrom 64 server in
  bytes ← r;
  let buffer := bytes ++ replicate (64 - length bytes) (Some Byte.x00) in
  TEST_ASSERT (Z.of_nat (length bytes) =? Z.of_nat (length msg)) (
  TEST_ASSERT (bool_decide (take (length msg) buffer = msg)) (mret 0)).

(** ** test_dir_monitor_filter.cpp *)
Definition test_dir_monitor_filter : res Z :=
  TEST_ASSERT (IsSharedObject "plugin.so") (
  TEST_ASSERT (IsSharedObject "/tmp/libfoo.so") (
  TEST_ASSERT (negb (IsSharedObject "plugin.txt")) (
  TEST_ASSERT (negb (IsSharedObject "so")) (
  mret 0)))).

(** ** TestMessages.cpp

    What it prints: the size and the type of the packet, and the fields of the
    message that is read back. *)
Definition TestMessages : res (Z * Z * Z * Z * Z) :=
  let rMsg := MessageReadSend.mk 0 1 2 in
  buffer ← MessageReadSend.ToBuffer rMsg;
  '(size, buffer) ← load 4 buffer;
  '(type, buffer) ← load 4 buffer;
  '(tMsg, _) ← MessageReadSend.FromBuffer buffer;
  mret (size, type, MessageReadSend.m_uid tMsg, MessageReadSend.m_offset tMsg, MessageReadSend.m_length tMsg).

(** ** test_dispatcher.cpp

    The two callbacks by their functions; the state is the list of the dispatcher
    and what is printed. *)
Inductive test_callback : Set := Do | DoHastMich.

#[export] Instance test_callback_eq_dec : EqDecision test_callback.
Proof. solve_decision. Defined.

Definition call_test (cb : test_callback) (i : Z) : prog (list string) unit :=
  modify (fun out => out ++ [match cb with Do => "Moshe::Do " | DoHastMich => "Moshe::DoHastMich " end +:+ pretty i]).

Definition TestDispatcher : prog (list string) unit :=
  let l := Dispatcher.Register DoHastMich (Dispatcher.Register Do []) in
  Notify (fun cb => call_test cb 5) l ;;
  let l := Unregister Do l in
  Notify (fun cb => call_test cb 10) l ;;
  let l := Unregister DoHastMich l in
  Notify (fun cb => call_test cb 7) l.

(** ** test_scheduler.cpp

    [TestsForScheduler] adds five tasks, the later the sooner; [main] returns and
    the scheduler is destroyed. [now] is the time, in nanoseconds. *)
Definition TestsForScheduler (now : Z) : prog (Scheduler Z) unit :=
  for_each (fun i => AddTask true i now ((10000 - 2000 * (i - 1)) * 10 ^ 6)) [1; 2; 3; 4; 5].

Definition test_scheduler_main (now : Z) : prog (Scheduler Z) unit :=
  TestsForScheduler now ;; delete_Scheduler.

(** ** Results *)

(** The tests that the repository registers hold of the definitions of this
    development: each of the programs gives 0, whatever descriptors and addresses
    the kernel gives to the sockets. *)
Theorem tests_pass (fd server_fd client_fd server_addr client_addr own_addr : Z) :
  test_stripe_splitter = Ok 0 /\ test_ticket = Ok 0 /\ test_tcp_eof fd = Ok 0
  /\ test_udp_socket (UDPSocket.mk server_fd own_addr [] [] []) (UDPSocket.mk client_fd server_addr [] [] [])
       client_addr = Ok 0
  /\ test_dir_monitor_filter = Ok 0.
Proof. repeat split; vm_compute; reflexivity. Qed.

Example TestMessages_prints : TestMessages = Ok (32, 0, 0, 1, 2).
Proof. reflexivity. Qed.

Example TestDispatcher_prints :
  TestDispatcher [] = (Ok tt, ["Moshe::Do 5"; "Moshe::DoHastMich 5"; "Moshe::DoHastMich 10"]).
Proof. by vm_compute. Qed.

(** The timer is set for the last task that was added, but the program ends
    before any of them is due. *)
Lemma TestsForScheduler_timer (now : Z) :
  0 < now ->
  exists s, TestsForScheduler now new_Scheduler = (Ok tt, s)
    /\ timer s = Some (it_value (now + 2000 * 10 ^ 6)) /\ m_counter s = 5
    /\ test_scheduler_main now new_Scheduler = (Ok tt, new_Scheduler).
Proof.
  intros Hn. pose proof (StartTimer_ok (T := Z)) as HT.
  assert (E : exists s, TestsForScheduler now new_Scheduler = (Ok tt, s)
    /\ timer s = Some (it_value (now + 2000 * 10 ^ 6)) /\ m_counter s = 5).
  2:{ destruct E as (s & E & Ht & Hc). exists s. split; [done|]. split; [done|]. split; [done|].
      unfold test_scheduler_main. by rewrite (bind_ok _ _ _ _ _ E). }
  unfold TestsForScheduler, for_each, AddTask, StartTimer, new_Scheduler. run_prog.
  cbn [m_queue m_counter timer app top_time m_time_to_run].
  repeat (rewrite (proj2 (Z.eqb_neq _ 0)) by lia; cbn [m_queue m_counter timer app top_time m_time_to_run]).
  eexists. split; [reflexivity|]. cbn [timer m_counter]. split; [|reflexivity]. do 2 f_equal. lia.
Qed.
