(* ===== verification/Work.v ===== *)
(** * Work

    What the clients of [framework/src/thread_pool.cpp] can rely on: the pool runs
    every task that it is given, and runs it once, however the number of threads
    is changed, and however they are paused and ended, in between. *)

From S2P Require Import Prelude ThreadPool Shutdown.

Section work.
Context {T : Type}.
Implicit Types p : ThreadPool T.

(** The clients' tasks in the queue, and those that threads run. *)
Definition work_of (x : TPTask T) : list T := match m_task x with Work t => [t] | _ => [] end.
Definition queued p : list T := flat_map work_of (m_pq p).

Definition runs (t : thread T) : list T := match t with Running (Work t) => [t] | _ => [] end.
Definition all_runs (m : gmap nat (thread T)) : list T := flat_map (fun kv => runs kv.2) (map_to_list m).
Definition running p : list T := all_runs (m_threads p).

(** A pool, with the tasks that it was given and those that its threads have run. *)
Record history : Type := mk_history {
  hpool : ThreadPool T;
  added : list T;
  finished : list T;
}.

Definition with_pool p (h : history) : history := mk_history p (added h) (finished h).

(** Every operation of the pool, and the steps of its threads, in any order. *)
Inductive hstep : history -> history -> Prop :=
  | hstep_add t pr now h p' :
      AddTask t pr now (hpool h) = (Ok tt, p') -> hstep h (mk_history p' (added h ++ [t]) (finished h))
  | hstep_SetNumThreads n now h p' :
      SetNumThreads n now (hpool h) = (Ok tt, p') -> hstep h (with_pool p' h)
  | hstep_Pause now h p' : Pause_begin now (hpool h) = (Ok tt, p') -> hstep h (with_pool p' h)
  | hstep_paused h p' : Pause_end (hpool h) = (Ok tt, p') -> hstep h (with_pool p' h)
  | hstep_Resume h p' : Resume (hpool h) = (Ok tt, p') -> hstep h (with_pool p' h)
  | hstep_delete now h p' : delete_ThreadPool now (hpool h) = (Ok tt, p') -> hstep h (with_pool p' h)
  | hstep_pop tid i h p' : thread_pop tid i (hpool h) = (Ok tt, p') -> hstep h (with_pool p' h)
  | hstep_wake tid h p' : thread_wake tid (hpool h) = (Ok tt, p') -> hstep h (with_pool p' h)
  | hstep_done tid t h p' :
      m_threads (hpool h) !! tid = Some t -> thread_done tid (hpool h) = (Ok tt, p') ->
      hstep h (mk_history p' (added h) (finished h ++ runs t)).

Definition hsteps : history -> history -> Prop := rtc hstep.

(** ** Threads that run a task *)

Lemma all_runs_insert_None (m : gmap nat (thread T)) tid t :
  m !! tid = None -> all_runs (<[tid := t]> m) ≡ₚ runs t ++ all_runs m.
Proof.
  intros Hm. unfold all_runs. rewrite !flat_map_concat_map.
  by rewrite (map_to_list_insert m tid t Hm).
Qed.

Lemma all_runs_insert (m : gmap nat (thread T)) tid old new :
  m !! tid = Some old -> all_runs (<[tid := new]> m) ++ runs old ≡ₚ all_runs m ++ runs new.
Proof.
  intros Hm. rewrite <-(insert_delete_eq m tid new). rewrite <-(insert_delete_id m tid old Hm) at 2.
  rewrite !all_runs_insert_None by apply lookup_delete_eq. solve_Permutation.
Qed.

(** ** The invariant *)

(** Only threads that have ended are replaced; numbers of threads are not used
    twice; no task is lost and none is run twice. *)
Record accounted (h : history) : Prop := {
  ac_deleted : NoDup (m_deleted_threads (hpool h))
    /\ Forall (fun tid => m_threads (hpool h) !! tid = Some Ended) (m_deleted_threads (hpool h));
  ac_fresh : forall tid t, m_threads (hpool h) !! tid = Some t -> (tid < m_tid (hpool h))%nat;
  ac_tasks : queued (hpool h) ++ running (hpool h) ++ finished h ≡ₚ added h;
}.

(** An operation that leaves the threads alone and adds no task of a client. *)
Lemma accounted_same h p' :
  accounted h -> m_deleted_threads p' = m_deleted_threads (hpool h) ->
  m_threads p' = m_threads (hpool h) -> m_tid p' = m_tid (hpool h) -> queued p' = queued (hpool h) ->
  accounted (with_pool p' h).
Proof.
  intros [Hd Hf Ht] Ed Et En Eq. constructor; cbn [hpool with_pool added finished]; rewrite ?Ed, ?Et, ?En; try done.
  unfold running. by rewrite Eq, Et.
Qed.

Lemma queued_push p l : queued (set_pq (m_pq p ++ l) p) = queued p ++ flat_map work_of l.
Proof. unfold queued. cbn [m_pq set_pq]. apply flat_map_app. Qed.

Lemma flat_map_nil {A B} (f : A -> list B) l : Forall (fun x => f x = []) l -> flat_map f l = [].
Proof. induction 1 as [|x l Hx _ IH]; [done|]. cbn [flat_map]. by rewrite Hx, IH. Qed.

(** The pool's own tasks. *)
Lemma queued_control p n (j : job T) pr now p' :
  (forall t, j <> Work t) -> push_many n j pr now p = (Ok tt, p') ->
  exists l, p' = set_pq (m_pq p ++ l) p /\ queued p' = queued p.
Proof.
  intros Hj E. destruct (push_many_eq n j pr now p) as (l & E' & _ & Hl). rewrite E' in E. injection E as <-.
  exists l. split; [done|]. rewrite queued_push.
  rewrite (flat_map_nil work_of), app_nil_r; [done|]. eapply Forall_impl; [exact Hl|].
  intros x Hx. unfold work_of.
  rewrite Hx. destruct j as [t| |]; [by destruct (Hj t)|done|done].
Qed.

(** *** AddThreadsToPool *)

Lemma reuse_accounted h amount deleted p' rest :
  accounted h -> m_deleted_threads (hpool h) = deleted ->
  reuse_threads amount deleted (hpool h) = Ok (p', rest) -> accounted (with_pool p' h).
Proof.
  revert h amount. induction deleted as [|tid deleted IH]; intros h amount Hac Ed E.
  { destruct amount; injection E as <- <-; by destruct h. }
  destruct amount as [|amount]; [injection E as <- <-; by destruct h|]. cbn [reuse_threads] in E.
  pose proof Hac as [[Hnd Hall] Hf Ht]. rewrite Ed in Hnd, Hall. apply NoDup_cons in Hnd as [Hni Hnd].
  apply Forall_cons in Hall as [Htid Hall]. rewrite Htid in E.
  refine (IH (with_pool _ h) amount _ _ E); [|done].
  constructor; cbn [hpool with_pool m_deleted_threads m_threads m_tid added finished].
  - split; [done|]. rewrite Forall_forall in *. intros tid' Hin.
    rewrite lookup_insert_ne by (intros ->; done). by apply Hall.
  - intros tid' t [[<- _]|[_ Hx]]%lookup_insert_Some; [by eapply Hf|by eapply Hf].
  - rewrite <-Ht. apply Permutation_app_head, Permutation_app_tail.
    pose proof (all_runs_insert (m_threads (hpool h)) tid Ended Idle Htid) as H. cbn [runs] in H.
    by rewrite !app_nil_r in H.
Qed.

Lemma new_threads_accounted amount h :
  accounted h -> accounted (with_pool (new_threads amount (hpool h)) h).
Proof.
  revert h. induction amount as [|amount IH]; intros h Hac; [by destruct h|]. cbn [new_threads].
  refine (IH (with_pool _ h) _). destruct Hac as [[Hnd Hall] Hf Ht].
  assert (Hnew : m_threads (hpool h) !! m_tid (hpool h) = None).
  { destruct (m_threads (hpool h) !! _) as [t|] eqn:E; [|done]. apply Hf in E. lia. }
  rewrite Hnew. constructor; cbn [hpool with_pool m_deleted_threads m_threads m_tid added finished].
  - split; [done|]. eapply Forall_impl; [exact Hall|]. intros tid Htid. cbn beta in *.
    rewrite lookup_insert_ne; [done|]. intros E. congruence.
  - intros tid t [[<- _]|[_ Hx]]%lookup_insert_Some; [lia|]. apply Hf in Hx. lia.
  - rewrite <-Ht. apply Permutation_app_head, Permutation_app_tail. unfold running. cbn [m_threads].
    by rewrite all_runs_insert_None.
Qed.

Lemma AddThreads_accounted amount h p' :
  accounted h -> AddThreadsToPool amount (hpool h) = (Ok tt, p') -> accounted (with_pool p' h).
Proof.
  intros Hac. unfold AddThreadsToPool.
  destruct (reuse_threads amount _ (hpool h)) as [[p1 rest]|e| |] eqn:E; try done. intros [= <-].
  exact (new_threads_accounted rest _ (reuse_accounted h amount _ p1 rest Hac eq_refl E)).
Qed.

(** *** The steps *)

Lemma push_accounted h n (j : job T) pr now p' :
  accounted h -> (forall t, j <> Work t) -> push_many n j pr now (hpool h) = (Ok tt, p') ->
  accounted (with_pool p' h).
Proof.
  intros Hac Hj E. destruct (queued_control _ _ _ _ _ _ Hj E) as (l & -> & Hq). by apply accounted_same.
Qed.

Lemma SetNumThreads_accounted h n now p' :
  accounted h -> SetNumThreads n now (hpool h) = (Ok tt, p') -> accounted (with_pool p' h).
Proof.
  intros Hac E. unfold SetNumThreads in E. apply bind_ok_inv in E as (total & p1 & E1 & E). injection E1 as <- <-.
  apply bind_ok_inv in E as ([] & p2 & E2 & E). injection E as <-.
  assert (H2 : accounted (with_pool p2 h)).
  { destruct (_ <? n)%nat; [by eapply AddThreads_accounted|]. unfold RemoveThreadsFromPool in E2.
    exact (push_accounted h _ EndThread CRITICAL now p2 Hac ltac:(done) E2). }
  by apply (accounted_same (with_pool p2 h)).
Qed.

Lemma pop_accounted h tid i p' :
  accounted h -> thread_pop tid i (hpool h) = (Ok tt, p') -> accounted (with_pool p' h).
Proof.
  intros [[Hnd Hall] Hf Ht] E. destruct (thread_pop_Ok _ _ _ _ E) as (Hidle & x & q & Hperm & _ & ->).
  constructor; cbn [hpool with_pool set_thread set_pq m_deleted_threads m_threads m_tid added finished].
  - split; [done|]. eapply Forall_impl; [exact Hall|]. intros tid' H'. cbn beta in *.
    rewrite lookup_insert_ne; [done|]. intros ->. congruence.
  - intros tid' t [[<- _]|[_ Hx]]%lookup_insert_Some; by eapply Hf.
  - rewrite <-Ht. unfold queued, running. cbn [m_pq m_threads set_thread set_pq].
    rewrite flat_map_concat_map, Hperm, <-flat_map_concat_map. cbn [flat_map].
    pose proof (all_runs_insert (m_threads (hpool h)) tid Idle (Running (m_task x)) Hidle) as H.
    rewrite app_nil_r in H. rewrite H.
    assert (runs (Running (m_task x)) = work_of x) as -> by (unfold work_of; by destruct (m_task x)).
    solve_Permutation.
Qed.

(** A thread that stops running [old]. *)
Lemma moved_accounted h tid old new deleted fin p' :
  accounted h -> m_threads (hpool h) !! tid = Some old -> old <> Ended -> runs new = [] ->
  m_pq p' = m_pq (hpool h) -> m_tid p' = m_tid (hpool h) -> m_threads p' = <[tid := new]> (m_threads (hpool h)) ->
  m_deleted_threads p' = m_deleted_threads (hpool h) ++ deleted ->
  (deleted = [] \/ deleted = [tid] /\ new = Ended) -> fin = runs old ->
  accounted (mk_history p' (added h) (finished h ++ fin)).
Proof.
  intros [[Hnd Hall] Hf Ht] Hold Hne Hnew Eq En Et Ed Hdel ->.
  assert (Hni : tid ∉ m_deleted_threads (hpool h)).
  { intros Hin. rewrite Forall_forall in Hall. apply Hall in Hin. congruence. }
  constructor; cbn [hpool added finished]; rewrite ?Eq, ?En, ?Et, ?Ed.
  - split.
    + destruct Hdel as [-> |[-> _]]; [by rewrite app_nil_r|]. apply NoDup_app. split; [done|].
      split; [|apply NoDup_singleton]. intros t Hin ->%list_elem_of_singleton. done.
    + apply Forall_app. split.
      * rewrite Forall_forall in *. intros tid' Hin. rewrite lookup_insert_ne by (intros ->; done). by apply Hall.
      * destruct Hdel as [-> |[-> ->]]; [constructor|]. apply Forall_singleton. apply lookup_insert_eq.
  - intros tid' t [[<- _]|[_ Hx]]%lookup_insert_Some; by eapply Hf.
  - rewrite <-Ht. unfold queued, running. rewrite Eq, Et. apply Permutation_app_head.
    pose proof (all_runs_insert (m_threads (hpool h)) tid old new Hold) as H. rewrite Hnew, app_nil_r in H.
    rewrite <-H. solve_Permutation.
Qed.

Lemma done_accounted h tid t p' :
  accounted h -> m_threads (hpool h) !! tid = Some t -> thread_done tid (hpool h) = (Ok tt, p') ->
  accounted (mk_history p' (added h) (finished h ++ runs t)).
Proof.
  intros Hac Ht E. unfold thread_done in E. rewrite Ht in E. destruct t as [|[t| |]| |]; try done;
    injection E as <-.
  - by eapply (moved_accounted h tid _ Idle []); try done; rewrite ?app_nil_r; auto.
  - eapply (moved_accounted h tid _ Ended [tid]); try done. by right.
  - by eapply (moved_accounted h tid _ Waiting []); try done; rewrite ?app_nil_r; auto.
Qed.

Lemma hstep_accounted h h' : accounted h -> hstep h h' -> accounted h'.
Proof.
  intros Hac Hstep.
  destruct Hstep as [t pr now h p' E|n now h p' E|now h p' E|h p' E|h p' E|now h p' E|tid i h p' E|tid h p' E
    |tid t h p' Ht E].
  - apply AddTask_Ok in E as ->. destruct Hac as [Hd Hf Ht].
    constructor; cbn [hpool added finished]; [done|done|]. rewrite queued_push.
    change (running (set_pq _ (hpool h))) with (running (hpool h)). rewrite <-Ht. cbn. solve_Permutation.
  - by eapply SetNumThreads_accounted.
  - unfold Pause_begin in E. apply bind_ok_inv in E as ([] & p1 & E1 & E). injection E1 as <-.
    apply bind_ok_inv in E as (total & p2 & E2 & E). injection E2 as <- <-.
    refine (push_accounted (with_pool _ h) _ PauseThread CRITICAL now p' _ _ E); [|done].
    by apply accounted_same.
  - unfold Pause_end in E. destruct (_ <=? _)%nat; [|done]. injection E as <-. by apply accounted_same.
  - injection E as <-. by apply accounted_same.
  - unfold delete_ThreadPool in E. apply bind_ok_inv in E as (total & p1 & E1 & E). injection E1 as <- <-.
    exact (push_accounted h _ EndThread CRITICAL now p' Hac ltac:(done) E).
  - by eapply pop_accounted.
  - unfold thread_wake in E. destruct (m_threads (hpool h) !! tid) as [[]|] eqn:Et; try done.
    destruct (m_paused (hpool h)); [done|]. injection E as <-.
    unfold with_pool. rewrite <-(app_nil_r (finished h)).
    apply (moved_accounted h tid Waiting Idle [] [] _ Hac Et); try done; [by rewrite app_nil_r|by left].
  - by eapply done_accounted.
Qed.

Lemma hsteps_accounted h h' : accounted h -> hsteps h h' -> accounted h'.
Proof. intros Hac Hs. induction Hs; eauto using hstep_accounted. Qed.

Lemma new_accounted n : accounted (mk_history (new_ThreadPool n) [] []).
Proof.
  unfold new_ThreadPool.
  set (h0 := mk_history (mk_ThreadPool [] [] (∅ : gmap nat (thread T)) n 0 0 false) [] []).
  assert (H0 : accounted h0).
  { constructor; cbn [h0 hpool m_deleted_threads m_threads].
    - split; constructor.
    - intros tid t Hx. by rewrite lookup_empty in Hx.
    - unfold queued, running, all_runs. cbn. by rewrite map_to_list_empty. }
  assert (E : AddThreadsToPool n (hpool h0) = (Ok tt, new_threads n (hpool h0)))
    by (unfold AddThreadsToPool; by destruct n).
  change (mk_ThreadPool [] [] ∅ n 0 0 false) with (hpool h0). rewrite E.
  exact (AddThreads_accounted n h0 _ H0 E).
Qed.

(** C27: the pool runs every task once: whatever is added with whatever priority,
    however the number of threads changes, whenever the pool is paused, resumed
    and destroyed, and however the threads interleave, the tasks that were added
    are, as a multiset, those in the queue, those that run and those that were
    run: none is lost, none runs twice. When a task waits, every idle thread can
    go on; it takes a task than which no other is more urgent. *)
Theorem runs_every_task_once n h (Hs : hsteps (mk_history (new_ThreadPool n) [] []) h) :
  queued (hpool h) ++ running (hpool h) ++ finished h ≡ₚ added h
  /\ forall tid, m_threads (hpool h) !! tid = Some Idle -> m_pq (hpool h) <> [] ->
       exists i x p', thread_pop tid i (hpool h) = (Ok tt, p')
         /\ m_threads p' !! tid = Some (Running (m_task x))
         /\ x ∈ m_pq (hpool h) /\ Forall (fun y => TPTask_lt x y = false) (m_pq (hpool h)).
Proof.
  pose proof (hsteps_accounted _ h (new_accounted n) Hs) as Hac. split; [apply Hac|].
  intros tid Ht Hq. destruct (Pop_not_blocked (m_pq (hpool h)) Hq) as (i & x & q & E).
  exists i, x, (set_thread tid (Running (m_task x)) (set_pq q (hpool h))).
  split; [unfold thread_pop; by rewrite Ht, E|]. split; [apply lookup_insert_eq|].
  apply Pop_top in E as [Hperm Htop]. split; [|done]. rewrite Hperm. apply list_elem_of_here.
Qed.
End work.

(** ** Runs *)

Inductive op (T : Type) : Type :=
  | Add (t : T) (pr now : Z)
  | SetN (n : nat) (now : Z)
  | Delete (now : Z)
  | PopBy (tid i : nat)
  | DoneBy (tid : nat).
Arguments Add {T} t pr now.
Arguments SetN {T} n now.
Arguments Delete {T} now.
Arguments PopBy {T} tid i.
Arguments DoneBy {T} tid.

Definition run_op {T} (o : op T) (p : ThreadPool T) : res unit * ThreadPool T :=
  match o with
  | Add t pr now => AddTask t pr now p
  | SetN n now => SetNumThreads n now p
  | Delete now => delete_ThreadPool now p
  | PopBy tid i => thread_pop tid i p
  | DoneBy tid => thread_done tid p
  end.

Fixpoint run_ops {T} (l : list (op T)) (h : history) : res history :=
  match l with
  | [] => Ok h
  | o :: l =>
      let '(r, p) := run_op o (hpool h) in
      r ;;
      run_ops l (mk_history p (added h ++ match o with Add t _ _ => [t] | _ => [] end)
        (finished h ++ match o with DoneBy tid => from_option runs [] (m_threads (hpool h) !! tid) | _ => [] end))
  end.

Lemma run_ops_hsteps {T} (l : list (op T)) h h' : run_ops l h = Ok h' -> hsteps h h'.
Proof.
  revert h. induction l as [|o l IH]; intros h; cbn [run_ops]; [intros [= <-]; apply rtc_refl|].
  destruct (run_op o (hpool h)) as [r p] eqn:E. destruct r as [[]|e| |]; try done.
  intros Hl. apply IH in Hl. eapply rtc_l; [|exact Hl].
  destruct o as [t pr now|n now|now|tid i|tid]; cbn [run_op] in E; rewrite ?app_nil_r.
  - by eapply hstep_add.
  - by eapply hstep_SetNumThreads.
  - by eapply hstep_delete.
  - by eapply hstep_pop.
  - destruct (m_threads (hpool h) !! tid) as [t|] eqn:Et; cbn [from_option]; [by eapply hstep_done|].
    unfold thread_done in E. by rewrite Et in E.
Qed.

(** Two threads, of which one is ended and replaced, and three tasks. *)
Definition sample_ops : list (op nat) :=
  [Add 7%nat LOW 1; Add 8%nat HIGH 2; PopBy 0 1; SetN 1 3; PopBy 1 1; DoneBy 1; DoneBy 0; SetN 2 4;
   Add 9%nat LOW 5; PopBy 1 1].

Lemma runs_every_task_once_witness :
  exists h, run_ops sample_ops (mk_history (new_ThreadPool 2) [] []) = Ok h
    /\ queued (hpool h) = [7%nat] /\ running (hpool h) = [9%nat] /\ finished h = [8%nat] /\
    (queued (hpool h) ++ running (hpool h) ++ finished h ≡ₚ added h
     /\ forall tid, m_threads (hpool h) !! tid = Some Idle -> m_pq (hpool h) <> [] ->
          exists i x p', thread_pop tid i (hpool h) = (Ok tt, p')
            /\ m_threads p' !! tid = Some (Running (m_task x))
            /\ x ∈ m_pq (hpool h) /\ Forall (fun y => TPTask_lt x y = false) (m_pq (hpool h))).
Proof.
  set (r := run_ops sample_ops (mk_history (new_ThreadPool 2) [] [])).
  destruct r as [h|e| |] eqn:E; [|vm_compute in E; discriminate..].
  exists h. split; [done|].
  assert (H : queued (hpool h) = [7%nat] /\ running (hpool h) = [9%nat] /\ finished h = [8%nat])
    by (vm_compute in E; injection E as <-; by vm_compute).
  destruct H as (H1 & H2 & H3). split; [exact H1|]. split; [exact H2|]. split; [exact H3|].
  exact (runs_every_task_once 2 h (run_ops_hsteps _ _ _ E)).
Defined.

(** The tasks that wait when a pool is destroyed are not run: the requests to end
    come first. *)
Lemma dropped_at_shutdown :
  match run_ops [Add 7%nat HIGH 1; Delete 2; PopBy 0 1; DoneBy 0] (mk_history (new_ThreadPool 1) [] []) with
  | Ok h => queued (hpool h) = [7%nat] /\ finished h = [] /\ map_to_list (m_threads (hpool h)) = [(0%nat, Ended)]
  | _ => False
  end.
Proof. by vm_compute. Qed.
