(* ===== verification/Resize.v ===== *)
(** * Resize

    The pool of [framework/src/thread_pool.cpp] whose number of threads changes: what
    a pause still guarantees, and how the pool is destroyed. The calls of [Pause],
    [Resume] and [SetNumThreads] come from one thread, which does not call [Pause]
    again in front of [Resume] (what happens then is [TestPool.EvilTest_hangs]);
    tasks are added by any. *)

From S2P Require Import Prelude ThreadPool Shutdown Work.

Section resize.
Context {T : Type}.
Implicit Types (p : ThreadPool T) (s : system (T := T)).

(** The steps of [ThreadPool.v], and [SetNumThreads] where [Pause] is not running. *)
Inductive rstep : system -> system -> Prop :=
  | rstep_pool s s' : pstep s s' -> rstep s s'
  | rstep_resize n now s p' :
      control s <> Pausing -> SetNumThreads n now (pool s) = (Ok tt, p') ->
      rstep s (mk_system p' (control s)).

Definition rsteps : system -> system -> Prop := rtc rstep.

(** A step during a pause that adds no thread. *)
Definition held_step s s' : Prop :=
  rstep s s' /\ control s' = Paused /\ (m_total_threads (pool s') <= m_total_threads (pool s))%nat.

(** ** Counting *)

Definition is_idle (t : thread T) : bool := match t with Idle => true | _ => false end.
Definition ends (t : thread T) : bool := match t with Running EndThread => true | _ => false end.

Lemma count_new P (m : gmap nat (thread T)) tid t :
  m !! tid = None ->
  size (filter (fun kv : nat * thread T => P kv.2 = true) (<[tid := t]> m))
  = ((if P t then 1 else 0) + size (filter (fun kv : nat * thread T => P kv.2 = true) m))%nat.
Proof.
  intros Hm. rewrite map_filter_insert. case_decide as Hx; simpl in Hx.
  - rewrite Hx, map_size_insert_None; [done|]. apply map_lookup_filter_None. by left.
  - apply not_true_is_false in Hx. rewrite Hx. by rewrite delete_id.
Qed.

(** A kind of threads that is made of two. *)
Lemma threads_split (P P1 P2 : thread T -> bool) p :
  (forall t : thread T, (if P t then 1 else 0) = (if P1 t then 1 else 0) + (if P2 t then 1 else 0))%nat ->
  threads_that P p = (threads_that P1 p + threads_that P2 p)%nat.
Proof.
  intros HP. unfold threads_that. induction (m_threads p) as [|tid t m Hm IH] using map_ind.
  - by rewrite !map_filter_empty, !map_size_empty.
  - rewrite !count_new by done. specialize (HP t). lia.
Qed.

Definition settled (t : thread T) : bool := waits t || goes_to_wait t.
Definition moving (t : thread T) : bool := needs t || ends t.

Lemma count_alive p :
  threads_that alive p
  = (threads_that waits p + threads_that goes_to_wait p + (threads_that needs p + threads_that ends p))%nat.
Proof.
  rewrite (threads_split alive settled moving p), (threads_split settled waits goes_to_wait p),
    (threads_split moving needs ends p); [done|by intros [|[]| |]..].
Qed.

Lemma tasks_top (f : TPTask T -> bool) (l : list (TPTask T)) x q :
  l ≡ₚ x :: q ->
  length (filter (fun x => f x = true) l) = ((if f x then 1 else 0) + length (filter (fun x => f x = true) q))%nat.
Proof.
  intros ->. rewrite filter_cons. case_decide as E; [by rewrite E|].
  apply not_true_is_false in E. by rewrite E.
Qed.

Lemma tasks_app (f : TPTask T -> bool) (l1 l2 : list (TPTask T)) :
  length (filter (fun x => f x = true) (l1 ++ l2))
  = (length (filter (fun x => f x = true) l1) + length (filter (fun x => f x = true) l2))%nat.
Proof. by rewrite filter_app, length_app. Qed.

Lemma tasks_same (f : TPTask T -> bool) b (l : list (TPTask T)) :
  Forall (fun x => f x = b) l ->
  length (filter (fun x => f x = true) l) = if b then length l else 0%nat.
Proof.
  intros Hl. destruct b; [by rewrite filter_all|]. rewrite filter_none; [done|].
  eapply Forall_impl; [exact Hl|]. by intros x ->.
Qed.

(** *** AddThreadsToPool *)

(** What it leaves as it is. *)
Definition same_rest p p' : Prop :=
  m_pq p' = m_pq p /\ m_total_threads p' = m_total_threads p /\ m_pause_sem p' = m_pause_sem p
  /\ m_paused p' = m_paused p.

Definition more_idle (k : nat) p p' : Prop :=
  forall P, P Ended = false -> threads_that P p' = (threads_that P p + if P Idle then k else 0)%nat.

Lemma reuse_count k deleted p p' rest :
  NoDup deleted -> Forall (fun tid => m_threads p !! tid = Some Ended) deleted ->
  reuse_threads k deleted p = Ok (p', rest) ->
  same_rest p p' /\ more_idle (k - rest) p p' /\ (rest <= k)%nat.
Proof.
  revert k p. induction deleted as [|tid deleted IH]; intros k p Hnd Hall E.
  { destruct k; injection E as <- <-; (split; [done|]; split; [|lia]);
      intros P _; rewrite Nat.sub_diag; by destruct (P Idle). }
  destruct k as [|k]; [injection E as <- <-; (split; [done|]; split; [|lia]);
    intros P _; by destruct (P Idle)|].
  apply NoDup_cons in Hnd as [Hni Hnd]. apply Forall_cons in Hall as [Htid Hall].
  cbn [reuse_threads] in E. rewrite Htid in E. set (p1 := mk_ThreadPool _ _ _ _ _ _ _) in E.
  destruct (IH k p1 Hnd) as (Hsame & Hmore & Hle); [|exact E|].
  { rewrite Forall_forall in *. intros tid' Hin. unfold p1. cbn [m_threads].
    rewrite lookup_insert_ne by (intros ->; done). by apply Hall. }
  split; [exact Hsame|]. split; [|lia]. intros P HP. rewrite (Hmore P HP).
  destruct (threads_insert P tid Ended Idle p Htid) as (r & R0 & R1). rewrite HP in R0.
  change (threads_that P (set_thread tid Idle p)) with (threads_that P p1) in R1.
  rewrite R0, R1. destruct (P Idle); lia.
Qed.

Lemma new_count k p :
  (forall tid t, m_threads p !! tid = Some t -> (tid < m_tid p)%nat) ->
  same_rest p (new_threads k p) /\ more_idle k p (new_threads k p).
Proof.
  revert p. induction k as [|k IH]; intros p Hf; cbn [new_threads].
  { split; [done|]. intros P _. by destruct (P Idle). }
  assert (Hnew : m_threads p !! m_tid p = None).
  { destruct (m_threads p !! m_tid p) as [t|] eqn:E; [|done]. apply Hf in E. lia. }
  rewrite Hnew. set (p1 := mk_ThreadPool _ _ _ _ _ _ _). destruct (IH p1) as [Hsame Hmore].
  { intros tid t. unfold p1. cbn [m_threads m_tid]. intros [[<- _]|[_ Hx]]%lookup_insert_Some; [lia|].
    apply Hf in Hx. lia. }
  split; [exact Hsame|]. intros P HP. rewrite (Hmore P HP). unfold threads_that, p1. cbn [m_threads].
  rewrite count_new by done. destruct (P Idle); lia.
Qed.

(** [h] says that only ended threads are replaced ([Work.accounted]). *)
Lemma add_count k p p' h :
  accounted h -> hpool h = p -> AddThreadsToPool k p = (Ok tt, p') -> same_rest p p' /\ more_idle k p p'.
Proof.
  intros Hac <- E. pose proof Hac as [[Hnd Hall] _ _]. unfold AddThreadsToPool in E.
  destruct (reuse_threads k _ (hpool h)) as [[p1 rest]|e| |] eqn:Er; try done. injection E as <-.
  destruct (reuse_count _ _ _ _ _ Hnd Hall Er) as (Hs1 & Hm1 & Hle).
  pose proof (reuse_accounted h k _ p1 rest Hac eq_refl Er) as [_ Hf _].
  destruct (new_count rest p1 Hf) as (Hs2 & Hm2). split.
  { destruct Hs1 as (? & ? & ? & ?), Hs2 as (? & ? & ? & ?). repeat split; congruence. }
  intros P HP. rewrite (Hm2 P HP), (Hm1 P HP). destruct (P Idle); lia.
Qed.

(** Every state of the pool is one of [Work.v]. *)
Lemma rstep_history s s' h :
  hpool h = pool s -> rstep s s' -> exists h', hpool h' = pool s' /\ hstep h h'.
Proof.
  intros Eh Hstep. destruct Hstep as [s1 s2 Hp|n now s1 p' _ E]; [|rewrite <-Eh in E; eexists; split; [|by eapply hstep_SetNumThreads]; done].
  destruct Hp as [t pr now s1 p' _ E|now s1 p' _ E|s1 p' _ E|s1 p' _ E|tid i s1 p' E|tid s1 p' E|tid s1 p' E];
    rewrite <-Eh in E.
  - eexists. split; [|by eapply hstep_add]. done.
  - eexists. split; [|by eapply hstep_Pause]. done.
  - eexists. split; [|by eapply hstep_paused]. done.
  - eexists. split; [|by eapply hstep_Resume]. done.
  - eexists. split; [|by eapply hstep_pop]. done.
  - destruct (m_threads (hpool h) !! tid) as [t|] eqn:Et; [|unfold thread_done in E; by rewrite Et in E].
    eexists. split; [|by eapply hstep_done]. done.
  - eexists. split; [|by eapply hstep_wake]. done.
Qed.

(** ** The invariant *)

(** A task of a client, or one of the pool's own, which are more urgent. *)
Definition known_task (x : TPTask T) : Prop :=
  client_task x \/ m_priority x = CRITICAL /\ (m_task x = PauseThread \/ m_task x = EndThread).

Record resizable s : Prop := {
  rz_known : Forall known_task (m_pq (pool s));
  (** The threads that are not asked to end are as many as the pool thinks. *)
  rz_alive : threads_that alive (pool s)
    = (m_total_threads (pool s) + end_tasks (pool s) + threads_that ends (pool s))%nat;
  rz_phase :
    match control s with
    | Normal => m_paused (pool s) = false /\ m_pause_sem (pool s) = 0%nat
        /\ pause_tasks (pool s) = 0%nat /\ threads_that goes_to_wait (pool s) = 0%nat
    | Pausing => m_paused (pool s) = true
        /\ (pause_tasks (pool s) + threads_that goes_to_wait (pool s) + m_pause_sem (pool s))%nat
           = m_total_threads (pool s)
        /\ (m_pause_sem (pool s) <= threads_that waits (pool s))%nat
    | Paused => m_paused (pool s) = true /\ m_pause_sem (pool s) = 0%nat
        /\ pause_tasks (pool s) = 0%nat /\ threads_that goes_to_wait (pool s) = 0%nat
    end;
}.

(** During a pause: those that do not wait have a task to end in front of them. *)
Definition held s : Prop := control s = Paused /\ (threads_that needs (pool s) <= end_tasks (pool s))%nat.

Lemma push_known (n : nat) (j : job T) now p p' :
  j = PauseThread \/ j = EndThread -> push_many n j CRITICAL now p = (Ok tt, p') -> Forall known_task (m_pq p) ->
  Forall known_task (m_pq p') /\ (forall P, threads_that P p' = threads_that P p) /\ m_total_threads p' = m_total_threads p
  /\ m_pause_sem p' = m_pause_sem p /\ m_paused p' = m_paused p
  /\ end_tasks p' = (end_tasks p + if bool_decide (ends (Running j) = true) then n else 0)%nat
  /\ pause_tasks p' = (pause_tasks p + if bool_decide (goes_to_wait (Running j) = true) then n else 0)%nat.
Proof.
  intros Hj E Hk. destruct (push_many_list n j CRITICAL now p) as (l & E' & Hl & Hall).
  rewrite E' in E. injection E as <-. cbn [m_pq set_pq]. split.
  { apply Forall_app. split; [done|]. eapply Forall_impl; [exact Hall|]. intros x [Ht Hp]. right. by rewrite Ht. }
  split; [done|]. do 3 (split; [done|]). unfold end_tasks, pause_tasks. cbn [m_pq set_pq]. rewrite !tasks_app.
  rewrite (tasks_same end_task (ends (Running j)) l), (tasks_same pause_task (goes_to_wait (Running j)) l).
  - subst n. by destruct Hj as [->| ->].
  - eapply Forall_impl; [exact Hall|]. intros x [Ht _]. unfold pause_task. rewrite Ht. by destruct j.
  - eapply Forall_impl; [exact Hall|]. intros x [Ht _]. unfold end_task. rewrite Ht. by destruct j.
Qed.

(** What [Pop] does to the counts. *)
Lemma pop_counts tid i p p' :
  thread_pop tid i p = (Ok tt, p') ->
  exists x q, m_threads p !! tid = Some Idle /\ m_pq p ≡ₚ x :: q /\ Forall (fun y => TPTask_lt x y = false) (m_pq p)
    /\ p' = set_thread tid (Running (m_task x)) (set_pq q p)
    /\ end_tasks p = ((if ends (Running (m_task x)) then 1 else 0) + end_tasks p')%nat
    /\ pause_tasks p = ((if goes_to_wait (Running (m_task x)) then 1 else 0) + pause_tasks p')%nat
    /\ forall P, exists r, threads_that P p = ((if P Idle then 1 else 0) + r)%nat
         /\ threads_that P p' = ((if P (Running (m_task x)) then 1 else 0) + r)%nat.
Proof.
  intros E. destruct (thread_pop_Ok _ _ _ _ E) as (Hidle & x & q & Hq & Htop & ->). exists x, q.
  do 4 (split; [done|]). split; [|split].
  - unfold end_tasks. rewrite (tasks_top end_task _ _ _ Hq). done.
  - unfold pause_tasks. rewrite (tasks_top pause_task _ _ _ Hq). done.
  - intros P. destruct (threads_insert P tid Idle (Running (m_task x)) (set_pq q p) Hidle) as (r & R0 & R1). by exists r.
Qed.

(** The next point of a thread that has run a job. *)
Definition after (t : thread T) : thread T :=
  match t with
  | Running (Work _) => Idle
  | Running EndThread => Ended
  | Running PauseThread => Waiting
  | t => t
  end.

Lemma done_counts tid p p' :
  thread_done tid p = (Ok tt, p') ->
  exists t, m_threads p !! tid = Some t /\ (exists j, t = Running j) /\ m_pq p' = m_pq p
    /\ m_total_threads p' = m_total_threads p /\ m_paused p' = m_paused p
    /\ m_pause_sem p' = ((if goes_to_wait t then 1 else 0) + m_pause_sem p)%nat
    /\ forall P, exists r, threads_that P p = ((if P t then 1 else 0) + r)%nat
         /\ threads_that P p' = ((if P (after t) then 1 else 0) + r)%nat.
Proof.
  unfold thread_done. intros E. destruct (m_threads p !! tid) as [t|] eqn:Ht; [|done]. exists t.
  assert (Hc : forall P, m_threads p' = <[tid := after t]> (m_threads p) ->
    exists r, threads_that P p = ((if P t then 1 else 0) + r)%nat
      /\ threads_that P p' = ((if P (after t) then 1 else 0) + r)%nat).
  { intros P Hp'. destruct (threads_insert P tid t (after t) p Ht) as (r & R0 & R1). exists r. split; [done|].
    rewrite <-R1. unfold threads_that. by rewrite Hp'. }
  destruct t as [|[w| |]| |]; try done; injection E as <-; repeat (split; [by eauto|]);
    intros P; by apply Hc.
Qed.

Lemma wake_counts tid p p' :
  thread_wake tid p = (Ok tt, p') ->
  m_threads p !! tid = Some Waiting /\ m_paused p = false /\ p' = set_thread tid Idle p
  /\ forall P, exists r, threads_that P p = ((if P Waiting then 1 else 0) + r)%nat
       /\ threads_that P p' = ((if P Idle then 1 else 0) + r)%nat.
Proof.
  unfold thread_wake. intros E. destruct (m_threads p !! tid) as [[]|] eqn:Ht; try done.
  destruct (m_paused p) eqn:Hp; [done|]. injection E as <-. do 3 (split; [done|]).
  intros P. destruct (threads_insert P tid Waiting Idle p Ht) as (r & R0 & R1). by exists r.
Qed.

(** [counts H] instantiates the equations for all kinds of threads that matter. *)
Ltac counts H :=
  let r1 := fresh "r" in let r2 := fresh "r" in let r3 := fresh "r" in let r4 := fresh "r" in let r5 := fresh "r" in
  destruct (H alive) as (r1 & ? & ?), (H ends) as (r2 & ? & ?), (H waits) as (r3 & ? & ?),
    (H goes_to_wait) as (r4 & ? & ?), (H needs) as (r5 & ? & ?).

Lemma resizable_pop s tid i p' :
  resizable s -> thread_pop tid i (pool s) = (Ok tt, p') ->
  resizable (mk_system p' (control s)) /\ (held s -> held (mk_system p' (control s))).
Proof.
  intros [Hk Ha Hph] E. destruct (pop_counts _ _ _ _ E) as (x & q & Hidle & Hq & Htop & -> & He & Hp & Hc).
  set (p' := set_thread tid _ _) in *. counts Hc.
  assert (Hsame : m_total_threads p' = m_total_threads (pool s) /\ m_pause_sem p' = m_pause_sem (pool s)
    /\ m_paused p' = m_paused (pool s)) by done. destruct Hsame as (Ht & Hs & Hpa).
  rewrite Hq in Hk. apply Forall_cons in Hk as [Hx Hk]. split.
  - constructor; cbn [pool control]; [exact Hk| |].
    + destruct (m_task x); cbn [alive ends waits goes_to_wait needs] in *; lia.
    + rewrite Hs, Hpa, Ht. destruct (control s), (m_task x); cbn [alive ends waits goes_to_wait needs] in *;
        split_and?; try tauto; lia.
  - intros [Hc' Hn]. split; [done|]. cbn [pool].
    assert (Hend : ends (Running (m_task x)) = true).
    { assert (Hpos : (0 < end_tasks (pool s))%nat) by (cbn [needs] in *; lia).
      unfold end_tasks in Hpos. destruct (filter _ (m_pq (pool s))) as [|y l] eqn:Ef; [simpl in Hpos; lia|].
      assert (Hy : y ∈ filter (fun x => end_task x = true) (m_pq (pool s))) by (rewrite Ef; apply list_elem_of_here).
      apply list_elem_of_filter in Hy as [Hend Hin]. rewrite Hc' in Hph. destruct Hph as (_ & _ & Hq0 & _).
      assert (Hyk : m_priority y = CRITICAL).
      { rewrite Hq in Hin. apply elem_of_cons in Hin as [->|Hin].
        - destruct Hx as [[_ [t Hx]]|[Hx _]]; [unfold end_task in Hend; by rewrite Hx in Hend|done].
        - rewrite Forall_forall in Hk. destruct (Hk y Hin) as [[_ [t Hy]]|[Hy _]]; [|done].
          unfold end_task in Hend. by rewrite Hy in Hend. }
      rewrite Forall_forall in Htop. specialize (Htop y Hin). rewrite <-not_true_iff_false, TPTask_lt_true in Htop.
      destruct Hx as [[Hlt _]|[_ [Hx|Hx]]]; [lia| |by rewrite Hx].
      rewrite Hx in Hp. cbn [goes_to_wait] in Hp. lia. }
    rewrite Hend in He. destruct (m_task x); try done. cbn [needs] in *. lia.
Qed.

Lemma resizable_done s tid p' :
  resizable s -> thread_done tid (pool s) = (Ok tt, p') ->
  resizable (mk_system p' (control s)) /\ (held s -> held (mk_system p' (control s))).
Proof.
  intros [Hk Ha Hph] E. destruct (done_counts _ _ _ E) as (t & _ & (j & ->) & Hq & Ht & Hpa & Hs & Hc). counts Hc.
  assert (Htasks : end_tasks p' = end_tasks (pool s) /\ pause_tasks p' = pause_tasks (pool s))
    by (unfold end_tasks, pause_tasks; by rewrite Hq). destruct Htasks as [He Hp]. split.
  - constructor; cbn [pool control]; [by rewrite Hq| |].
    + destruct j; cbn [after alive ends] in *; lia.
    + rewrite Hs, Hpa, Hp, Ht. destruct (control s), j; cbn [after alive ends waits goes_to_wait needs] in *;
        split_and?; try tauto; lia.
  - intros [Hc' Hn]. split; [done|]. cbn [pool]. destruct j; cbn [after needs] in *; lia.
Qed.

Lemma resizable_wake s tid p' :
  resizable s -> thread_wake tid (pool s) = (Ok tt, p') ->
  resizable (mk_system p' (control s)) /\ (held s -> held (mk_system p' (control s))).
Proof.
  intros [Hk Ha Hph] E. destruct (wake_counts _ _ _ E) as (_ & Hpa & -> & Hc). counts Hc.
  set (p' := set_thread tid _ _) in *.
  assert (Hsame : m_total_threads p' = m_total_threads (pool s) /\ m_pause_sem p' = m_pause_sem (pool s)
    /\ m_paused p' = m_paused (pool s) /\ end_tasks p' = end_tasks (pool s)
    /\ pause_tasks p' = pause_tasks (pool s)) by done. destruct Hsame as (Ht & Hs & Hpa' & He & Hp).
  cbn [alive ends waits goes_to_wait needs] in *. split.
  - constructor; cbn [pool control]; [exact Hk|lia|]. rewrite Hs, Hpa', Hp, Ht.
    destruct (control s); destruct Hph as [Hph1 Hph2]; [|congruence..]. split; [done|]. split_and?; try tauto; lia.
  - intros [Hc' _]. rewrite Hc' in Hph. destruct Hph as [Hph _]. congruence.
Qed.

Lemma resizable_add s t pr now p' :
  resizable s -> pr = LOW \/ pr = MEDIUM \/ pr = HIGH -> AddTask t pr now (pool s) = (Ok tt, p') ->
  resizable (mk_system p' (control s)) /\ (held s -> held (mk_system p' (control s))).
Proof.
  intros [Hk Ha Hph] Hpr ->%AddTask_Ok. set (p' := set_pq _ _).
  assert (Htasks : end_tasks p' = end_tasks (pool s) /\ pause_tasks p' = pause_tasks (pool s))
    by (unfold end_tasks, pause_tasks, p'; cbn [m_pq set_pq]; rewrite !tasks_app,
      (tasks_same end_task false [_]), (tasks_same pause_task false [_]) by (by constructor); lia).
  destruct Htasks as [He Hp]. split.
  - constructor; cbn [pool control].
    + apply Forall_app. split; [done|]. apply Forall_singleton. left. by apply client_task_new.
    + rewrite He. exact Ha.
    + rewrite Hp. exact Hph.
  - intros [Hc Hn]. split; [done|]. cbn [pool]. rewrite He. exact Hn.
Qed.

Lemma resizable_pause s now p' :
  resizable s -> control s = Normal -> Pause_begin now (pool s) = (Ok tt, p') -> resizable (mk_system p' Pausing).
Proof.
  intros [Hk Ha Hph] Hc E. rewrite Hc in Hph. destruct Hph as (_ & Hsem & HQ & HR).
  unfold Pause_begin in E. apply bind_ok_inv in E as ([] & p1 & E1 & E). injection E1 as <-.
  apply bind_ok_inv in E as (total & p2 & E2 & E). injection E2 as <- <-. cbn [m_total_threads] in E.
  destruct (push_known _ PauseThread now _ p' (or_introl eq_refl) E Hk) as (Hk' & Hcount & Ht & Hs & Hpa & He & Hp).
  cbn [m_total_threads m_pause_sem m_paused ends goes_to_wait] in *.
  rewrite bool_decide_eq_false_2 in He by done. rewrite bool_decide_eq_true_2 in Hp by done.
  assert (Hcount' : forall P, threads_that P p' = threads_that P (pool s)) by exact Hcount.
  change (end_tasks _) with (end_tasks (pool s)) in He at 2. change (pause_tasks _) with (pause_tasks (pool s)) in Hp at 2.
  constructor; cbn [pool control]; [exact Hk'|rewrite !Hcount', Ht, He; lia|].
  rewrite !Hcount', Hpa, Hs, Hp, Ht. split; [done|]. lia.
Qed.

Lemma resizable_paused s p' :
  resizable s -> control s = Pausing -> Pause_end (pool s) = (Ok tt, p') ->
  resizable (mk_system p' Paused) /\ held (mk_system p' Paused).
Proof.
  intros [Hk Ha Hph] Hc E. rewrite Hc in Hph. destruct Hph as (Hp & Hsum & Hle). unfold Pause_end in E.
  destruct (Nat.leb_spec (m_total_threads (pool s)) (m_pause_sem (pool s))) as [Hge|]; [|done].
  injection E as <-. pose proof (count_alive (pool s)) as Hcount. split.
  - constructor; cbn [pool control]; [exact Hk|exact Ha|]. cbn [m_paused m_pause_sem].
    change (pause_tasks _) with (pause_tasks (pool s)).
    change (threads_that goes_to_wait _) with (threads_that goes_to_wait (pool s)). split_and!; (done || lia).
  - split; [done|]. cbn [pool].
    change (threads_that needs (pool s) <= end_tasks (pool s))%nat. lia.
Qed.

Lemma resizable_resume s p' :
  resizable s -> control s = Paused -> Resume (pool s) = (Ok tt, p') -> resizable (mk_system p' Normal).
Proof.
  intros [Hk Ha Hph] Hc E. rewrite Hc in Hph. injection E as <-. constructor; cbn [pool control]; [exact Hk|exact Ha|].
  cbn [m_paused m_pause_sem]. change (pause_tasks _) with (pause_tasks (pool s)).
  change (threads_that goes_to_wait _) with (threads_that goes_to_wait (pool s)). tauto.
Qed.

Definition set_total (n : nat) p : ThreadPool T :=
  mk_ThreadPool (m_pq p) (m_deleted_threads p) (m_threads p) n (m_tid p) (m_pause_sem p) (m_paused p).

Lemma SetNumThreads_cases n now p p' :
  SetNumThreads n now p = (Ok tt, p') ->
  exists p1, p' = set_total n p1
    /\ ((m_total_threads p < n)%nat /\ AddThreadsToPool (n - m_total_threads p) p = (Ok tt, p1)
        \/ (n <= m_total_threads p)%nat /\ push_many (m_total_threads p - n) EndThread CRITICAL now p = (Ok tt, p1)).
Proof.
  intros E. unfold SetNumThreads in E. apply bind_ok_inv in E as (total & p1 & E1 & E). injection E1 as <- <-.
  apply bind_ok_inv in E as ([] & p2 & E2 & E). injection E as <-. exists p2. split; [done|].
  destruct (Nat.ltb_spec (m_total_threads p) n); auto.
Qed.

(** The counts behind [SetNumThreads]: threads are added, or asked to end. *)
Lemma SetNumThreads_counts n now p p' h :
  accounted h -> hpool h = p -> Forall known_task (m_pq p) -> SetNumThreads n now p = (Ok tt, p') ->
  m_total_threads p' = n /\ m_pause_sem p' = m_pause_sem p /\ m_paused p' = m_paused p
  /\ Forall known_task (m_pq p') /\ pause_tasks p' = pause_tasks p
  /\ end_tasks p' = (end_tasks p + (m_total_threads p - n))%nat
  /\ more_idle (n - m_total_threads p) p p'
  /\ ((m_total_threads p < n)%nat -> m_pq p' = m_pq p).
Proof.
  intros Hac Hh Hk E. destruct (SetNumThreads_cases _ _ _ _ E) as (p1 & -> & [[Hlt E1]|[Hle E1]]).
  - destruct (add_count _ _ _ h Hac Hh E1) as [(Hq & _ & Hs & Hp) Hmore]. split; [done|].
    unfold end_tasks, pause_tasks. cbn [set_total m_pq m_pause_sem m_paused]. rewrite Hq. do 4 (split; [done|]).
    split; [lia|]. split; [exact Hmore|done].
  - destruct (push_known _ EndThread now _ p1 (or_intror eq_refl) E1 Hk) as (Hk' & Hcount & _ & Hs & Hp & He & Hpt).
    rewrite bool_decide_eq_true_2 in He by done. rewrite bool_decide_eq_false_2 in Hpt by done.
    do 4 (split; [done|]). split; [change (pause_tasks p1 = pause_tasks p); lia|]. split; [exact He|]. split; [|lia].
    intros P _. change (threads_that P (set_total n p1)) with (threads_that P p1). rewrite Hcount.
    destruct (P Idle); lia.
Qed.

Lemma resizable_resize s h n now p' :
  accounted h -> hpool h = pool s -> resizable s -> control s <> Pausing ->
  SetNumThreads n now (pool s) = (Ok tt, p') ->
  resizable (mk_system p' (control s))
  /\ (held s -> (n <= m_total_threads (pool s))%nat -> held (mk_system p' (control s))).
Proof.
  intros Hac Hh [Hk Ha Hph] Hc E.
  destruct (SetNumThreads_counts _ _ _ _ h Hac Hh Hk E) as (Ht & Hs & Hp & Hk' & Hpt & He & Hm & _).
  pose proof (Hm alive eq_refl) as M1. pose proof (Hm ends eq_refl) as M2. pose proof (Hm waits eq_refl) as M3.
  pose proof (Hm goes_to_wait eq_refl) as M4. pose proof (Hm needs eq_refl) as M5.
  cbn [alive ends waits goes_to_wait needs] in *. split.
  - constructor; cbn [pool control]; [exact Hk'|lia|]. rewrite Hs, Hp, Hpt, M4, Nat.add_0_r.
    by destruct (control s).
  - intros [Hc' Hn] Hle. split; [done|]. cbn [pool]. lia.
Qed.

Lemma resizable_step s s' h :
  accounted h -> hpool h = pool s -> resizable s -> rstep s s' ->
  resizable s' /\ (held s -> control s' = Paused -> (m_total_threads (pool s') <= m_total_threads (pool s))%nat ->
    held s').
Proof.
  intros Hac Hh Hs Hstep. destruct Hstep as [s s' Hp|n now s p' Hc E].
  - destruct Hp as [t pr now s p' Hpr E|now s p' Hc E|s p' Hc E|s p' Hc E|tid i s p' E|tid s p' E|tid s p' E].
    + destruct (resizable_add _ _ _ _ _ Hs Hpr E). tauto.
    + split; [by eapply resizable_pause|done].
    + destruct (resizable_paused _ _ Hs Hc E). tauto.
    + split; [by eapply resizable_resume|done].
    + destruct (resizable_pop _ _ _ _ Hs E). tauto.
    + destruct (resizable_done _ _ _ Hs E). tauto.
    + destruct (resizable_wake _ _ _ Hs E). tauto.
  - destruct (resizable_resize s h n now p' Hac Hh Hs Hc E) as [H1 H2]. split; [done|].
    intros Hheld _ Hle. apply H2; [done|]. destruct (SetNumThreads_cases _ _ _ _ E) as (p1 & -> & _). exact Hle.
Qed.

(** ** Reachable states *)

Lemma new_resizable n : resizable (mk_system (new_ThreadPool n) Normal).
Proof.
  destruct (new_pausable (T := T) n) as [[Ht Hsz] Hq Hth Hph]. cbn [pool control] in *.
  assert (Hpq : m_pq (new_ThreadPool (T := T) n) = []).
  { unfold new_ThreadPool, AddThreadsToPool. cbn [m_deleted_threads].
    assert (Hr : forall p0 : ThreadPool T, reuse_threads n [] p0 = Ok (p0, n)) by (by destruct n). rewrite Hr.
    cbn [snd]. destruct (new_threads_spec n (mk_ThreadPool (T := T) [] [] ∅ n 0 0 false)) as (-> & _); [|by apply map_Forall_empty|done].
    intros tid _. apply lookup_empty. }
  constructor; cbn [pool control]; [by rewrite Hpq| |exact Hph]. unfold end_tasks. rewrite Hpq, Ht. cbn.
  rewrite (threads_all alive); [rewrite Hsz|intros tid t Hx; destruct (Hth tid t Hx) as [? _]; by destruct t].
  assert (threads_that ends (new_ThreadPool (T := T) n) = 0%nat) as ->; [|lia].
  unfold threads_that. rewrite map_size_empty_iff, map_empty. intros tid.
  apply map_lookup_filter_None_2. right. intros t Hx. destruct (Hth tid t Hx) as [_ Hne]. by destruct t as [|[]| |].
Qed.

Lemma resizable_from s s' h :
  accounted h -> hpool h = pool s -> resizable s -> rsteps s s' ->
  resizable s' /\ exists h', accounted h' /\ hpool h' = pool s'.
Proof.
  intros Hac Hh Hs Hsteps. revert h Hac Hh. induction Hsteps as [s|s s1 s2 Hstep _ IH]; intros h Hac Hh; [eauto|].
  destruct (resizable_step _ _ h Hac Hh Hs Hstep) as [Hs1 _]. destruct (rstep_history _ _ h Hh Hstep) as (h1 & Hh1 & Hst).
  by apply (IH Hs1 h1); [eapply hstep_accounted|].
Qed.

Lemma resizable_steps n s :
  rsteps (mk_system (new_ThreadPool n) Normal) s -> resizable s /\ exists h, accounted h /\ hpool h = pool s.
Proof. apply resizable_from with (h := mk_history (new_ThreadPool n) [] []); [apply new_accounted|done|apply new_resizable]. Qed.

Lemma held_steps s s' h :
  accounted h -> hpool h = pool s -> resizable s -> held s -> rtc held_step s s' ->
  resizable s' /\ held s' /\ exists h', accounted h' /\ hpool h' = pool s'.
Proof.
  intros Hac Hh Hs Hheld Hsteps. revert h Hac Hh. induction Hsteps as [s|s s1 s2 (Hstep & Hc & Hle) _ IH]; intros h Hac Hh; [eauto|].
  destruct (resizable_step _ _ h Hac Hh Hs Hstep) as [Hs1 Hheld1]. destruct (rstep_history _ _ h Hh Hstep) as (h1 & Hh1 & Hst).
  by apply (IH Hs1 (Hheld1 Hheld Hc Hle) h1); [eapply hstep_accounted|].
Qed.

(** ** Pauses *)

Lemma pop_pausing s tid i p' :
  resizable s -> held s -> thread_pop tid i (pool s) = (Ok tt, p') -> m_threads p' !! tid = Some (Running EndThread).
Proof.
  intros Hs Hheld E. destruct (resizable_pop _ _ _ _ Hs E) as [_ Hheld']. destruct (Hheld' Hheld) as [_ Hn].
  destruct Hs as [Hk _ Hph], Hheld as [Hc Hn0]. rewrite Hc in Hph. destruct Hph as (_ & _ & Hp0 & _).
  destruct (pop_counts _ _ _ _ E) as (x & q & Hidle & Hq & Htop & -> & He & Hp & Hcounts).
  assert (Hx : m_task x = EndThread); [|rewrite Hx; apply lookup_insert_eq].
  destruct (Hcounts needs) as (r & R0 & R1). cbn [needs pool] in *.
  destruct (m_task x) as [t| |] eqn:Ex; cbn [ends goes_to_wait] in *; [exfalso|done|lia].
  (** A task of a client would be less urgent than one to end. *)
  assert (Hpos : (0 < end_tasks (pool s))%nat) by lia. unfold end_tasks in Hpos.
  destruct (filter _ (m_pq (pool s))) as [|y l] eqn:Ef; [simpl in Hpos; lia|].
  assert (Hy : y ∈ filter (fun x => end_task x = true) (m_pq (pool s))) by (rewrite Ef; apply list_elem_of_here).
  apply list_elem_of_filter in Hy as [Hend Hin]. rewrite Forall_forall in Hk, Htop. specialize (Htop y Hin).
  destruct (Hk y Hin) as [[_ [t' Hy]]|[Hy _]]; [unfold end_task in Hend; by rewrite Hy in Hend|].
  destruct (Hk x) as [[Hlt _]|[_ [Hx|Hx]]]; [rewrite Hq; apply list_elem_of_here| |congruence..].
  rewrite <-not_true_iff_false, TPTask_lt_true in Htop. lia.
Qed.

Lemma threads_weaken (P P' : thread T -> bool) p :
  (forall t, P t = true -> P' t = true) -> (threads_that P p <= threads_that P' p)%nat.
Proof.
  intros HP. apply map_subseteq_size. apply map_subseteq_spec. intros tid t [Ht Hx]%map_lookup_filter_Some.
  apply map_lookup_filter_Some. auto.
Qed.

(** The states behind a pause. *)
Lemma paused_states n s0 p1 s :
  rsteps (mk_system (new_ThreadPool n) Normal) s0 -> control s0 = Pausing -> Pause_end (pool s0) = (Ok tt, p1) ->
  rtc held_step (mk_system p1 Paused) s ->
  resizable s /\ held s /\ exists h, accounted h /\ hpool h = pool s.
Proof.
  intros Hs0 Hc E Hs. destruct (resizable_steps n s0 Hs0) as (H0 & h0 & Hac & Hh).
  destruct (resizable_paused _ _ H0 Hc E) as [H1 Hheld].
  assert (Hstep : rstep s0 (mk_system p1 Paused)) by (apply rstep_pool; by apply pstep_paused).
  destruct (rstep_history _ _ h0 Hh Hstep) as (h1 & Hh1 & Hst).
  exact (held_steps _ s h1 (hstep_accounted _ _ Hac Hst) Hh1 H1 Hheld Hs).
Qed.

(** C28: after [Pause] has returned, and until [Resume] is called or [SetNumThreads]
    adds threads, no task of a client is begun, in a pool that was resized in any way
    before: a thread that takes something from the queue takes the pool's own request
    to end, no waiting thread wakes, and tasks of clients are in progress at most in
    threads that an earlier [SetNumThreads] has given up, of which each has a request
    to end in front of it; when no such request is outstanding, every thread waits or
    has ended.  [Pause], [Resume] and [SetNumThreads] are called by one thread, and
    [Pause] not again in front of [Resume]; tasks are added by any. *)
Theorem pause_stops_work n s0 p1 s (H0 : rsteps (mk_system (new_ThreadPool n) Normal) s0)
    (Hc : control s0 = Pausing) (E : Pause_end (pool s0) = (Ok tt, p1))
    (Hs : rtc held_step (mk_system p1 Paused) s) :
  (forall tid i p', thread_pop tid i (pool s) = (Ok tt, p') -> m_threads p' !! tid = Some (Running EndThread))
  /\ (forall tid, (thread_wake tid (pool s)).1 = Blocked)
  /\ (threads_that busy (pool s) <= end_tasks (pool s))%nat
  /\ (end_tasks (pool s) = 0%nat -> forall tid t, m_threads (pool s) !! tid = Some t ->
        t = Waiting \/ t = Running EndThread \/ t = Ended).
Proof.
  destruct (paused_states n s0 p1 s H0 Hc E Hs) as (Hr & Hheld & _).
  split; [intros; by eapply pop_pausing|]. destruct Hr as [Hk _ Hph], Hheld as [Hcs Hn]. rewrite Hcs in Hph.
  destruct Hph as (Hp & _ & _ & HR). split; [|split].
  - intros tid. unfold thread_wake. rewrite Hp. by destruct (m_threads (pool s) !! tid) as [[]|].
  - etrans; [|exact Hn]. apply threads_weaken. by intros [|[]| |].
  - intros He tid t Ht.
    pose proof (no_thread goes_to_wait tid t (pool s) HR Ht) as H1.
    pose proof (no_thread needs tid t (pool s) ltac:(lia) Ht) as H2. destruct t as [|[]| |]; try done; auto.
Qed.

(** Threads that are added during a pause do not know of it: when no request to end
    is outstanding and tasks wait, one of the new threads can take a client's task at
    once ([TestResize] adds four threads to a paused pool). *)
Theorem enlarged_pause_runs n s0 p1 s m now p' (H0 : rsteps (mk_system (new_ThreadPool n) Normal) s0)
    (Hc : control s0 = Pausing) (E : Pause_end (pool s0) = (Ok tt, p1))
    (Hs : rtc held_step (mk_system p1 Paused) s) (He : end_tasks (pool s) = 0%nat) (Hq : m_pq (pool s) <> [])
    (Hm : (m_total_threads (pool s) < m)%nat) (Em : SetNumThreads m now (pool s) = (Ok tt, p')) :
  m_paused p' = true
  /\ exists tid i t p'', thread_pop tid i p' = (Ok tt, p'') /\ m_threads p'' !! tid = Some (Running (Work t)).
Proof.
  destruct (paused_states n s0 p1 s H0 Hc E Hs) as ([Hk _ Hph] & [Hcs _] & h & Hac & Hh). rewrite Hcs in Hph.
  destruct Hph as (Hp & _ & Hp0 & _).
  destruct (SetNumThreads_counts _ _ _ _ h Hac Hh Hk Em) as (_ & _ & Hp' & _ & _ & _ & Hmore & Hsame).
  split; [congruence|]. specialize (Hmore is_idle eq_refl). cbn [is_idle] in Hmore.
  destruct (decide (map_Forall (fun _ t => is_idle t = false) (m_threads p'))) as [Hno|Hidle].
  { exfalso. assert (HP : threads_that is_idle p' = 0%nat); [|lia].
    unfold threads_that. rewrite map_size_empty_iff, map_empty. intros tid.
    apply map_lookup_filter_None_2. right. intros t Ht. cbn [snd]. by rewrite (Hno tid t Ht). }
  apply map_not_Forall in Hidle as (tid & t & Ht & Hidle); [|apply _].
  assert (Htid : m_threads p' !! tid = Some Idle) by (destruct t; naive_solver). clear t Ht Hidle.
  destruct (Pop_not_blocked (m_pq p')) as (i & x & q & Ex); [by rewrite Hsame|].
  pose proof (Pop_top _ _ _ _ _ Ex) as [Hperm _]. rewrite Hsame in Hperm by done.
  assert (Hx : exists t, m_task x = Work t).
  { unfold end_tasks in He. unfold pause_tasks in Hp0.
    rewrite (tasks_top end_task _ _ _ Hperm) in He. rewrite (tasks_top pause_task _ _ _ Hperm) in Hp0.
    destruct (m_task x) as [t| |] eqn:Et; [by exists t|exfalso; unfold end_task in He; rewrite Et in He; lia|].
    exfalso. unfold pause_task in Hp0. rewrite Et in Hp0. lia. }
  destruct Hx as [t Hx]. exists tid, i, t, (set_thread tid (Running (m_task x)) (set_pq q p')).
  split; [unfold thread_pop; by rewrite Htid, Ex|]. rewrite Hx. apply lookup_insert_eq.
Qed.

(** ** Destruction *)

(** The steps of the threads, [k] of them, while any code that still runs adds
    tasks. *)
Inductive dsteps : nat -> ThreadPool T -> ThreadPool T -> Prop :=
  | dsteps_O p : dsteps 0 p p
  | dsteps_add t pr now k p p1 p2 :
      pr = LOW \/ pr = MEDIUM \/ pr = HIGH ->
      AddTask t pr now p = (Ok tt, p1) -> dsteps k p1 p2 -> dsteps k p p2
  | dsteps_pop tid i k p p1 p2 :
      thread_pop tid i p = (Ok tt, p1) -> dsteps k p1 p2 -> dsteps (S k) p p2
  | dsteps_done tid k p p1 p2 :
      thread_done tid p = (Ok tt, p1) -> dsteps k p1 p2 -> dsteps (S k) p p2
  | dsteps_wake tid k p p1 p2 :
      thread_wake tid p = (Ok tt, p1) -> dsteps k p1 p2 -> dsteps (S k) p p2.












Lemma waiting_kept tid k p p' :
  dsteps k p p' -> m_paused p = true -> m_threads p !! tid = Some Waiting -> m_threads p' !! tid = Some Waiting.
Proof.
  intros Hsteps. induction Hsteps as [p|t pr t0 k p p1 p2 _ E _ IH|tid' i k p p1 p2 E _ IH|tid' k p p1 p2 E _ IH
    |tid' k p p1 p2 E _ IH]; intros Hp Ht; [done|..].
  - apply AddTask_Ok in E as ->. by apply IH.
  - destruct (thread_pop_Ok _ _ _ _ E) as (Hidle & x & r & _ & _ & ->). apply IH; [done|].
    cbn [set_thread set_pq m_threads]. rewrite lookup_insert_ne; [done|]. intros ->. congruence.
  - destruct (done_counts _ _ _ E) as (t & Hx & (j & ->) & _ & _ & Hpa & _). apply IH; [congruence|].
    unfold thread_done in E. rewrite Hx in E.
    assert (Hne : tid' <> tid) by (intros ->; rewrite Hx in Ht; discriminate).
    destruct j; injection E as <-; cbn [set_thread m_threads]; by rewrite lookup_insert_ne.
  - destruct (wake_counts _ _ _ E) as (_ & Hf & _). congruence.
Qed.

(** A paused pool that is destroyed is not: a thread that waits goes on waiting, so
    that its join does not return ([EvilTest] ends like this). *)
Theorem paused_destruction_hangs tid p p' now k p'' (Hp : m_paused p = true) (Ht : m_threads p !! tid = Some Waiting)
    (E : delete_ThreadPool now p = (Ok tt, p')) (Hsteps : dsteps k p' p'') :
  m_threads p'' !! tid = Some Waiting /\ ~ joined p''.
Proof.
  assert (H1 : m_threads p'' !! tid = Some Waiting); [|split; [done|intros Hj; by specialize (Hj tid _ H1)]].
  unfold delete_ThreadPool in E. apply bind_ok_inv in E as (total & p1 & E1 & E). injection E1 as <- <-.
  destruct (push_many_list (m_total_threads p) EndThread CRITICAL now p) as (l & E' & _).
  unfold RemoveThreadsFromPool in E. rewrite E' in E. injection E as <-.
  by apply (waiting_kept tid k (set_pq (m_pq p ++ l) p) p'').
Qed.
End resize.

(** ** Runs

    A pool of two threads of which one runs a long task is reduced to one thread and
    paused: the other thread waits, and the first one has a request to end in front of
    it. *)
Lemma reduced_pool_paused :
  exists (s0 : system (T := nat)) p1, rsteps (mk_system (new_ThreadPool 2) Normal) s0 /\ control s0 = Pausing
    /\ Pause_end (pool s0) = (Ok tt, p1) /\ m_threads p1 !! 0%nat = Some (Running (Work 7%nat))
    /\ m_threads p1 !! 1%nat = Some Waiting.
Proof.
  eexists. eexists. split; [|split; [|split]].
  - eapply rtc_l; [eapply rstep_pool, (pstep_add 7%nat LOW 1); [by left|vm_compute; reflexivity]|].
    eapply rtc_l; [eapply rstep_pool, (pstep_pop 0 0); vm_compute; reflexivity|].
    eapply rtc_l; [eapply (rstep_resize 1 2); [done|vm_compute; reflexivity]|].
    eapply rtc_l; [eapply rstep_pool, (pstep_pause 5); vm_compute; reflexivity|].
    eapply rtc_l; [eapply rstep_pool, (pstep_pop 1 1); vm_compute; reflexivity|].
    eapply rtc_once, rstep_pool, (pstep_done 1); vm_compute; reflexivity.
  - reflexivity.
  - vm_compute. reflexivity.
  - by vm_compute.
Qed.

Lemma pause_stops_work_witness :
  exists s : system (T := nat), control s = Paused /\ m_threads (pool s) !! 0%nat = Some (Running (Work 7%nat))
    /\ (forall tid i p', thread_pop tid i (pool s) = (Ok tt, p') -> m_threads p' !! tid = Some (Running EndThread))
    /\ (threads_that busy (pool s) <= end_tasks (pool s))%nat.
Proof.
  destruct reduced_pool_paused as (s0 & p1 & H0 & Hc & E & H7 & _).
  destruct (pause_stops_work 2 s0 p1 (mk_system p1 Paused) H0 Hc E (rtc_refl _ _)) as (Hpop & _ & Hbusy & _).
  exists (mk_system p1 Paused). by repeat split.
Defined.

