(* ===== verification/Stopping.v ===== *)
(** * Stopping

    [Reactor::Run] of [framework/src/reactor.cpp] in a thread of its own, as
    [concrete/src/MinionManager.cpp] starts it, and [Reactor::Stop] from the
    destructor of [MinionManager], which then joins that thread.  What a round does
    is [Reactor.v]; here it matters when it happens. *)

From S2P Require Import Prelude.

(** Where the worker is: in front of [m_running = true]; at the test of the loop;
    in [Listen]; in the functions; at the end. Where the destructor is: in front of
    [Stop]; at the join of [m_worker]; behind it. *)
Inductive wpoint : Set := AtStart | AtTest | AtListen | AtCalls | WEnded.
Inductive dpoint : Set := AtStop | AtJoin | Destroyed.

(** [pending] are the datagrams that wait in the sockets of the reactor. *)
Record reactor_thread : Set := mk_reactor_thread {
  m_running : bool;
  worker : wpoint;
  destructor : dpoint;
  pending : nat;
}.

Implicit Types s : reactor_thread.

(** The thread that [Init] starts. *)
Definition started : reactor_thread := mk_reactor_thread false AtStart AtStop 0.

(** A step of [Reactor::Run]. [Listen] returns when a socket can be read; a round
    reads at least one of the datagrams, here [read] of them. *)
Definition Run_step (read : nat) : prog reactor_thread unit := fun s =>
  match worker s with
  | AtStart => (Ok tt, mk_reactor_thread true AtTest (destructor s) (pending s))
  | AtTest =>
      (Ok tt, mk_reactor_thread (m_running s) (if m_running s then AtListen else WEnded) (destructor s) (pending s))
  | AtListen =>
      match pending s with
      | O => (Blocked, s)
      | S _ => (Ok tt, mk_reactor_thread (m_running s) AtCalls (destructor s) (pending s))
      end
  | AtCalls =>
      (Ok tt, mk_reactor_thread (m_running s) AtTest (destructor s) (pending s - S read))
  | WEnded => (Blocked, s)
  end.

(** [MinionManager::~MinionManager]; the join is the destruction of [m_worker]. *)
Definition delete_step : prog reactor_thread unit := fun s =>
  match destructor s with
  | AtStop => (Ok tt, mk_reactor_thread false (worker s) AtJoin (pending s))
  | AtJoin =>
      match worker s with
      | WEnded => (Ok tt, mk_reactor_thread (m_running s) WEnded Destroyed (pending s))
      | _ => (Blocked, s)
      end
  | Destroyed => (Blocked, s)
  end.

(** The program's own steps, and the arrival of a datagram. *)
Inductive pstep : reactor_thread -> reactor_thread -> Prop :=
  | pstep_run read s s' : Run_step read s = (Ok tt, s') -> pstep s s'
  | pstep_delete s s' : delete_step s = (Ok tt, s') -> pstep s s'.

Inductive rstep : reactor_thread -> reactor_thread -> Prop :=
  | rstep_prog s s' : pstep s s' -> rstep s s'
  | rstep_arrives s : rstep s (mk_reactor_thread (m_running s) (worker s) (destructor s) (S (pending s))).

(** [Stop] was called and the worker has seen the start of [Run]. *)
Definition stopped s : Prop := m_running s = false /\ worker s <> AtStart /\ destructor s <> AtStop.

Lemma stopped_step s s' : stopped s -> rstep s s' -> stopped s'.
Proof.
  intros (Hr & Hw & Hd) Hstep. destruct Hstep as [s s' Hp|s]; [|done]. destruct Hp as [read s s' E|s s' E].
  - unfold Run_step in E. destruct s as [r w d n]. cbn in *. subst r.
    destruct w; try done; [|destruct n|]; try done; by injection E as <-.
  - unfold delete_step in E. destruct s as [r w d n]. cbn in *. subst r.
    destruct d; try done; destruct w; try done; by injection E as <-.
Qed.

(** What is left: the worker's steps, and the destructor's. *)
Definition left_ s : nat :=
  (match worker s with AtListen => 3 | AtCalls => 2 | AtTest => 1 | _ => 0 end
   + match destructor s with AtJoin => 1 | _ => 0 end)%nat.

Lemma stopped_left s s' : stopped s -> pstep s s' -> (left_ s' < left_ s)%nat.
Proof.
  intros (Hr & Hw & Hd) Hstep. unfold left_. destruct Hstep as [read s s' E|s s' E]; destruct s as [r w d n]; cbn in *; subst r.
  - destruct w; try done; [|destruct n; [done|]|]; injection E as <-; cbn; lia.
  - destruct d; try done; destruct w; try done; injection E as <-; cbn; lia.
Qed.

(** A stopped reactor is stuck before the end exactly when its thread waits for a
    datagram and none is there. *)
Lemma stopped_stuck s :
  stopped s -> destructor s <> Destroyed ->
  (forall s', ~ pstep s s') <-> worker s = AtListen /\ pending s = 0%nat.
Proof.
  intros (Hr & Hw & Hd) Hn. split.
  - intros Hstuck. destruct s as [r w d n]. cbn in *. subst r. destruct w; try done.
    + exfalso. eapply Hstuck, (pstep_run 0). reflexivity.
    + split; [done|]. destruct n; [done|]. exfalso. eapply Hstuck, (pstep_run 0). reflexivity.
    + exfalso. eapply Hstuck, (pstep_run 0). reflexivity.
    + exfalso. destruct d; try done. eapply Hstuck, pstep_delete. reflexivity.
  - intros [Hl Hp] s' Hstep. destruct Hstep as [read s s' E|s s' E]; destruct s as [r w d n]; cbn in *; subst.
    + done.
    + by destruct d.
Qed.

(** The destructor of [MinionManager] behind [Stop]: it ends within four steps if a
    datagram comes whenever the reactor waits for one, and waits for ever if the
    reactor waits and none comes: [Stop] does not wake it. *)
Theorem stop_needs_a_datagram s (Hs : stopped s) (Hd : destructor s = AtJoin) :
  (forall n s', nsteps pstep n s s' -> (n <= 4)%nat
     /\ ((forall s'', ~ pstep s' s'') -> destructor s' = Destroyed
         \/ worker s' = AtListen /\ pending s' = 0%nat))
  /\ (worker s = AtListen -> pending s = 0%nat -> forall s', rtc pstep s s' -> s' = s).
Proof.
  split.
  - intros n s' Hn.
    assert (H : stopped s' /\ (n + left_ s' <= left_ s)%nat).
    { clear Hd. induction Hn as [s|n s s1 s' Hstep _ IH]; [split; [done|lia]|].
      pose proof (stopped_left s s1 Hs Hstep). destruct IH as [Hs' Hle]; [|split; [done|lia]].
      by eapply stopped_step, rstep_prog. }
    destruct H as [Hs' Hle]. split.
    + unfold left_ in Hle. rewrite Hd in Hle. destruct (worker s); lia.
    + intros Hstuck. destruct (destructor s') eqn:E; [by destruct Hs' as (_ & _ & ?)| |by left].
      right. apply stopped_stuck; [done|by rewrite E|done].
  - intros Hw Hp s' Hrun. destruct Hrun as [s|s s1 s' Hstep _]; [done|]. exfalso.
    eapply (proj2 (stopped_stuck s Hs ltac:(congruence))); [done|exact Hstep].
Qed.

(** [Stop] before the thread has started is lost: [Run] sets the flag again, and
    whatever arrives, the destructor never ends. *)
Definition lost s : Prop := destructor s = AtJoin /\ worker s <> WEnded /\ (worker s = AtStart \/ m_running s = true).

Lemma early_stop_is_lost s s' : lost s -> rtc rstep s s' -> lost s'.
Proof.
  intros Hs Hrun. induction Hrun as [s|s s1 s' Hstep _ IH]; [done|]. apply IH. clear IH.
  destruct Hs as (Hd & Hw & Hr). destruct Hstep as [s s1 Hp|s]; [|done].
  destruct Hp as [read s s1 E|s s1 E].
  - unfold Run_step in E. destruct s as [r w d n]. cbn in *. subst d.
    destruct w; try done; [| |destruct n|]; try done; injection E as <-; unfold lost; cbn; destruct Hr as [Hr|Hr];
      try done; subst; auto.
  - unfold delete_step in E. rewrite Hd in E. by destruct (worker s).
Qed.

Lemma early_stop_reachable : exists s, rtc rstep started s /\ lost s.
Proof.
  exists (mk_reactor_thread false AtStart AtJoin 0). split; [|by repeat split; auto].
  apply rtc_once, rstep_prog, pstep_delete. reflexivity.
Qed.
