(* ===== verification/Drive.v ===== *)
(** * Drive

    The disk that the system presents to the kernel: its requests as operations on
    an array of bytes, the chunks of the array and the minions that hold them; and
    what one request that lies inside a chunk becomes on its way: one segment, one
    message, an operation on the chunk, an answer, a verdict. *)

From S2P Require Import Prelude Bytes StripeSplitter Message TaskArgs Factory Sockets Logger.
From S2P Require Import Ticket IMinionProxy MinionProxy NBD NBDProxy World MinionManager Commands.
From S2P Require Import Framework Master Protocol Raid Service FileManager MasterProxy Minion Mirror.

(** ** The specification

    A request of the kernel as an operation on the array that the device is, and
    the bytes of its reply. *)

Definition drive_op (r : kernel_request) : disk_op :=
  match k_data r with
  | None => DiskRead (k_from r) (k_len r)
  | Some data => DiskWrite (k_from r) data
  end.

Definition drive_reply `{LinuxNBD} (ok : bool) (r : kernel_request) (drive : cells) : cells :=
  wire_reply (if ok then 0 else EIO) (k_handle r) ++ (if ok then (array_op (drive_op r) drive).1.2 else []).

(** Each request with whether it is reported as a success: a read that is not has no
    data, a write that is not takes effect all the same. *)
Fixpoint drive_replies `{LinuxNBD} (l : list (kernel_request * bool)) (drive : cells) : cells :=
  match l with
  | [] => []
  | (r, ok) :: l => drive_reply ok r drive ++ drive_replies l (array_op (drive_op r) drive).2
  end.

(** Chunks of which no two share a minion: the mirror of a chunk is on the minion
    of the next one, at the same offsets. *)
Definition next (n c : nat) : nat := (S c `mod` n)%nat.

Definition apart (n : nat) (used : gset nat) : Prop :=
  (2 <= n)%nat /\ set_Forall (fun c => (c < n)%nat /\ next n c ∉ used) used.

(** A request inside one of these chunks, that fits into the packets. *)
Definition placed (used : gset nat) (chunk : Z) (n : nat) (r : kernel_request) : Prop :=
  request_wf r /\ 0 < k_len r <= BUFSIZ - 1 - 33
  /\ k_from r `mod` chunk + k_len r <= chunk /\ k_from r + k_len r <= Z.of_nat n * chunk
  /\ Z.to_nat (k_from r `div` chunk) ∈ used.

(** ** Chunks of an array *)

Definition chunk_of (size c : nat) (d : cells) : cells := take size (drop (c * size) d).

Definition splice (off : nat) (data d : cells) : cells :=
  take off d ++ data ++ drop (off + length data) d.

(** The chunk that minion [i] holds: its own, or the copy of the one before. *)
Definition base (used : gset nat) (n i : nat) : nat :=
  let before := ((i + n - 1) `mod` n)%nat in
  if decide (i ∈ used) then i else if decide (before ∈ used) then before else i.

Lemma next_before n i : (0 < n)%nat -> (i < n)%nat -> next n ((i + n - 1) `mod` n) = i.
Proof.
  intros Hn Hi. unfold next. destruct i as [|i].
  - rewrite (Nat.mod_small (0 + n - 1)) by lia. replace (S (0 + n - 1)) with n by lia. apply Nat.Div0.mod_same.
  - replace (S i + n - 1)%nat with (i + 1 * n)%nat by lia. rewrite Nat.Div0.mod_add, (Nat.mod_small i) by lia.
    by apply Nat.mod_small.
Qed.

Lemma next_cases n c :
  (2 <= n)%nat -> (c < n)%nat -> (next n c < n)%nat /\ next n c <> c
  /\ (next n c = S c \/ S c = n /\ next n c = 0%nat).
Proof.
  intros Hn Hc. unfold next. destruct (decide (S c = n)) as [<-|Hne].
  - rewrite Nat.Div0.mod_same. lia.
  - rewrite Nat.mod_small by lia. lia.
Qed.

Lemma next_inj n c c' : (2 <= n)%nat -> (c < n)%nat -> (c' < n)%nat -> next n c = next n c' -> c = c'.
Proof.
  intros Hn Hc Hc'. pose proof (next_cases n c Hn Hc). pose proof (next_cases n c' Hn Hc'). lia.
Qed.

(** The two minions of a chunk, and no other, hold it. *)
Lemma base_of n used c i :
  apart n used -> c ∈ used -> (i < n)%nat -> base used n i = c <-> i = c \/ i = next n c.
Proof.
  intros [Hn Hall] Hc Hi. pose proof (Hall c Hc) as [Hlt Hnext]. unfold base.
  pose proof (next_before n i ltac:(lia) Hi) as Hb. set (b := ((i + n - 1) `mod` n)%nat) in *.
  assert (Hbn : (b < n)%nat) by (apply Nat.mod_upper_bound; lia).
  destruct (decide (i ∈ used)) as [Hin|Hout]; [|destruct (decide (b ∈ used)) as [Hb'|Hb']].
  - split; [by left|]. intros [Hi2|Hi2]; [done|by destruct Hnext; rewrite <-Hi2].
  - split; [intros Hi2; right; by rewrite <-Hi2|]. intros [Hi2|Hi2]; [by destruct Hout; rewrite Hi2|].
    apply (next_inj n); [done..|]. by rewrite Hb.
  - split; [intros Hi2; by destruct Hout; rewrite Hi2|]. intros [Hi2|Hi2]; [done|].
    destruct Hb'. replace b with c; [done|]. apply (next_inj n); [done..|]. by rewrite Hb.
Qed.

(** With an even number of minions every other chunk can be used. *)
Lemma every_other_apart n :
  (2 <= n)%nat -> Nat.even n = true -> apart n (list_to_set (filter (fun c => Nat.even c = true) (seq 0 n))).
Proof.
  intros Hn Hev. split; [done|]. intros c Hc. apply elem_of_list_to_set, list_elem_of_filter in Hc as [Hce Hc].
  apply elem_of_seq in Hc. split; [lia|]. intros Hbad.
  apply elem_of_list_to_set, list_elem_of_filter in Hbad as [Hbe _].
  apply Nat.even_spec in Hce as [a Ha], Hbe as [b Hb], Hev as [d Hd].
  pose proof (next_cases n c Hn ltac:(lia)). lia.
Qed.

(** With three, as the program has them, only one can. *)
Lemma one_of_three used c c' : apart 3 used -> c ∈ used -> c' ∈ used -> c = c'.
Proof.
  intros [Hn Hall] Hc Hc'. destruct (Hall c Hc) as [Hlt Hnc], (Hall c' Hc') as [Hlt' Hnc'].
  pose proof (next_cases 3 c Hn Hlt). pose proof (next_cases 3 c' Hn Hlt').
  assert (next 3 c <> c') by congruence. assert (next 3 c' <> c) by congruence. lia.
Qed.

Lemma single_apart n c : (2 <= n)%nat -> (c < n)%nat -> apart n {[c]}.
Proof.
  intros Hn Hc. split; [done|]. intros c' ->%elem_of_singleton. split; [done|].
  rewrite elem_of_singleton. by apply next_cases.
Qed.

Lemma base_lt used n i : (i < n)%nat -> (base used n i < n)%nat.
Proof.
  intros Hi. unfold base. destruct (decide (i ∈ used)); [done|]. case_decide; [|done].
  apply Nat.mod_upper_bound. lia.
Qed.

Lemma length_splice off data d :
  (off + length data <= length d)%nat -> length (splice off data d) = length d.
Proof. intros Hle. unfold splice. rewrite !length_app, length_take, length_drop. lia. Qed.

Lemma length_chunk_of size c d n :
  length d = (n * size)%nat -> (c < n)%nat -> length (chunk_of size c d) = size.
Proof. intros Hd Hc. unfold chunk_of. rewrite length_take, length_drop. nia. Qed.

Lemma lookup_splice off data d j :
  (off + length data <= length d)%nat ->
  splice off data d !! j
  = if decide (off <= j < off + length data)%nat then data !! (j - off)%nat else d !! j.
Proof.
  intros Hle. unfold splice.
  destruct (decide (j < off)%nat) as [Hlt|Hge].
  { rewrite lookup_app_l by (rewrite length_take; lia).
    rewrite lookup_take_lt, decide_False by lia. done. }
  rewrite lookup_app_r, length_take by (rewrite length_take; lia).
  replace (off `min` length d)%nat with off by lia.
  destruct (decide (j < off + length data)%nat) as [Hin|Hout].
  - rewrite decide_True, lookup_app_l by lia. done.
  - rewrite decide_False, lookup_app_r, lookup_drop by lia. f_equal. lia.
Qed.

Lemma lookup_chunk_of size c d j :
  chunk_of size c d !! j = if decide (j < size)%nat then d !! (c * size + j)%nat else None.
Proof.
  unfold chunk_of. case_decide.
  - by rewrite lookup_take_lt, lookup_drop by lia.
  - by rewrite lookup_take_ge by lia.
Qed.

(** A write inside chunk [c] of the array is a write to that chunk. *)
Lemma chunk_of_splice size c c' off data d n :
  length d = (n * size)%nat -> (c < n)%nat -> (off + length data <= size)%nat ->
  chunk_of size c' (splice (c * size + off) data d)
  = if decide (c' = c) then splice off data (chunk_of size c d) else chunk_of size c' d.
Proof.
  intros Hd Hc Hin. apply list_eq. intros j.
  rewrite lookup_chunk_of. case_decide as Hj.
  2:{ case_decide; [|by rewrite lookup_chunk_of, decide_False].
      rewrite lookup_ge_None_2; [done|].
      rewrite length_splice by (erewrite length_chunk_of by done; lia).
      erewrite length_chunk_of by done. lia. }
  rewrite lookup_splice by nia. destruct (decide (c' = c)) as [->|Hcc].
  - rewrite lookup_splice by (erewrite length_chunk_of by done; lia).
    rewrite lookup_chunk_of, (decide_True (P := (j < size)%nat)) by done.
    repeat case_decide; try lia; [f_equal; lia|done].
  - rewrite decide_False by nia. by rewrite lookup_chunk_of, decide_True by done.
Qed.

Lemma chunk_of_read size c off len d n :
  length d = (n * size)%nat -> (c < n)%nat -> (off + len <= size)%nat ->
  take len (drop off (chunk_of size c d)) = take len (drop (c * size + off) d).
Proof.
  intros Hd Hc Hin. unfold chunk_of. 
  apply list_eq. intros j. destruct (decide (j < len)%nat).
  - rewrite !lookup_take_lt, !lookup_drop by lia. rewrite lookup_take_lt, lookup_drop by lia.
    f_equal. lia.
  - by rewrite !lookup_take_ge by lia.
Qed.

(** ** One request, message by message *)

Section request.
Context `{LinuxNBD} (used : gset nat) (chunk : Z) (n : nat) (r : kernel_request).
Hypothesis Hchunk : 0 < chunk < 2 ^ 32 - 64.
Hypothesis Hn : apart n used.
Hypothesis Hdrive : Z.of_nat n * chunk < 2 ^ 64.
Hypothesis Hr : placed used chunk n r.

Abbreviation size := (Z.to_nat chunk).
Abbreviation c := (Z.to_nat (k_from r `div` chunk)).

(** The only segment of the request, and its message. *)
Definition placed_segment : StripeSegment :=
  first_segment chunk (Z.of_nat n) (k_len r) (k_from r) 0.

Definition placed_message (uid : Z) : AMessage :=
  message (op_of r) uid (default [] (k_data r)) placed_segment.

Lemma placed_chunk :
  0 <= k_from r /\ Z.of_nat c = k_from r `div` chunk /\ (2 <= n)%nat /\ (c < n)%nat /\ c ∈ used
  /\ k_from r = Z.of_nat c * chunk + k_from r `mod` chunk
  /\ 0 <= k_from r `mod` chunk < chunk.
Proof using Hchunk Hn Hdrive Hr.
  destruct Hr as ((_ & Hf & _ & _) & Hl & Hin & Hend & Hc). destruct Hn as [Hn2 Hall].
  pose proof (Z.div_pos (k_from r) chunk ltac:(lia) ltac:(lia)) as Hpos.
  pose proof (Z.mod_pos_bound (k_from r) chunk ltac:(lia)) as Hmod.
  pose proof (Z.div_mod (k_from r) chunk ltac:(lia)) as Hdm.
  assert (Hcz : Z.of_nat c = k_from r `div` chunk) by (apply Z2Nat.id; lia).
  split; [lia|]. split; [done|]. split; [done|]. split; [apply (Hall _ Hc)|]. split; [done|]. split; [nia|done].
Qed.

Lemma placed_segment_eq :
  seg_length placed_segment = k_len r /\ localOffset placed_segment = k_from r `mod` chunk
  /\ bufferOffset placed_segment = 0 /\ minion_of placed_segment PRIMARY = c
  /\ minion_of placed_segment BACKUP = next n c.
Proof using Hchunk Hn Hdrive Hr.
  destruct placed_chunk as (Hf & Hc & Hn2 & Hlt & _). destruct Hr as (_ & Hl & Hin & _).
  unfold minion_of, placed_segment, first_segment, first_len. simpl.
  split; [lia|]. split; [done|]. split; [done|]. split; [done|].
  rewrite <-Hc, u64_small by nia. unfold next.
  replace (Z.of_nat c + 1) with (Z.of_nat (S c)) by lia.
  by rewrite <-Nat2Z.inj_mod, !Nat2Z.id.
Qed.

Lemma placed_message_op uid :
  request_op (placed_message uid)
  = match k_data r with
    | None => DiskRead (k_from r `mod` chunk) (k_len r)
    | Some data => DiskWrite (k_from r `mod` chunk) data
    end.
Proof using Hchunk Hn Hdrive Hr.
  destruct placed_segment_eq as (Hsl & Hlo & Hbo & _). destruct Hr as ((_ & _ & _ & Hd) & Hl & _).
  unfold placed_message, op_of. destruct (k_data r) as [data|]; cbn [message default id].
  - rewrite write_message_op by lia. rewrite Hsl, Hlo, Hbo, drop_0, read_cells_exact by lia. done.
  - change (DiskRead (localOffset placed_segment) (seg_length placed_segment)
            = DiskRead (k_from r `mod` chunk) (k_len r)). by rewrite Hsl, Hlo.
Qed.

(** The operation on the drive is the operation of the message on the chunk. *)
Lemma placed_disk uid drive c' :
  length drive = (n * size)%nat ->
  chunk_of size c' (array_op (drive_op r) drive).2
  = (if decide (c' = c) then (array_op (request_op (placed_message uid)) (chunk_of size c drive)).2
     else chunk_of size c' drive)
  /\ (array_op (drive_op r) drive).1.2 = (array_op (request_op (placed_message uid)) (chunk_of size c drive)).1.2
  /\ length (array_op (drive_op r) drive).2 = length drive.
Proof using Hchunk Hn Hdrive Hr.
  intros Hlen. destruct placed_chunk as (Hf & Hc & _ & Hlt & _ & Hfrom & Hmod).
  destruct Hr as ((_ & _ & _ & Hd) & Hl & Hin & Hend & _).
  rewrite placed_message_op. unfold drive_op.
  assert (Hfn : Z.to_nat (k_from r) = (c * size + Z.to_nat (k_from r `mod` chunk))%nat) by nia.
  destruct (k_data r) as [data|]; cbn [array_op fst snd].
  - split; [|split; [done|]].
    + rewrite Hfn. by apply (chunk_of_splice size c c' _ data drive n); [|lia|lia].
    + apply length_splice. nia.
  - split; [by case_decide as Hcc; [rewrite Hcc|]|]. split; [|done].
    rewrite Hfn. symmetry. apply (chunk_of_read size c _ _ drive n); [done|lia|lia].
Qed.

Lemma placed_servable uid (d : cells) :
  in_u64 uid -> length d = size -> servable_by (length d) (placed_message uid).
Proof using Hchunk Hn Hdrive Hr.
  intros Hu ->. destruct placed_segment_eq as (Hsl & Hlo & Hbo & _).
  destruct placed_chunk as (Hf & Hc & Hn2 & Hlt & _). pose proof Hr as ((_ & _ & _ & Hd) & Hl & Hin & Hend & _).
  assert (Hok : Forall (segment_ok (k_len r) chunk (Z.of_nat n)) [placed_segment]).
  { apply (Split_ok (k_from r) (k_len r) chunk (Z.of_nat n)); try nia.
    apply Split_one; [lia|split; nia|unfold BUFSIZ in Hl; lia|done]. }
  apply Forall_cons in Hok as [Hok _].
  unfold placed_message, op_of. destruct (k_data r) as [data|]; cbn [message default id].
  - apply (write_message_servable (k_len r) chunk (Z.of_nat n)); [done|done|lia|lia].
  - apply (read_message_servable (k_len r) chunk (Z.of_nat n)); [done|done|lia].
Qed.

(** The answer of a minion; it is one that a proxy can read. *)
Lemma placed_answer_eq uid ok data :
  minion_answer (placed_message uid) ok data
  = match k_data r with
    | None => ReadReceive (MessageReadReceive.make uid ok (k_len r) (Some data))
    | Some _ => WriteReceive (MessageWriteReceive.make uid ok)
    end.
Proof using Hchunk Hn Hdrive Hr.
  destruct placed_segment_eq as (Hsl & _). unfold placed_message, op_of.
  destruct (k_data r) as [bytes|]; [done|]. cbn [message].
  change (minion_answer (read_message uid placed_segment) ok data)
    with (ReadReceive (MessageReadReceive.make uid ok (seg_length placed_segment) (Some data))). by rewrite Hsl.
Qed.

Lemma placed_answer uid ok data : in_u64 uid -> good_answer uid (minion_answer (placed_message uid) ok data).
Proof using Hchunk Hn Hdrive Hr.
  intros Hu. destruct placed_chunk as (_ & _ & _ & _ & _ & _ & Hmod). destruct Hr as (_ & Hl & Hin & _).
  unfold BUFSIZ in Hl. rewrite placed_answer_eq. destruct (k_data r) as [bytes|]; unfold good_answer; simpl.
  - split; [by split; [|destruct ok]|]. split; [|by split; [|right]].
    unfold packet_of, header, BUFSIZ. simpl. rewrite !length_app, !length_store. lia.
  - split; [split; [done|split; [by destruct ok|split; [lia|left; by eexists]]]|].
    split; [|by split; [|left]].
    unfold packet_of, header, BUFSIZ. simpl. rewrite !length_app, !length_store, length_read_cells. lia.
Qed.

(** The ticket's verdict: a write needs both minions; a read one, but the backup if
    its answer comes first. *)
Definition verdict (first : MirrorRole) (ok : MirrorRole -> bool) : bool :=
  match k_data r, first with
  | Some _, _ => ok PRIMARY && ok BACKUP
  | None, PRIMARY => ok PRIMARY || ok BACKUP
  | None, BACKUP => ok BACKUP
  end.

Lemma placed_verdict uid (d : cells) first (ok : MirrorRole -> bool) (data : MirrorRole -> cells) :
  length d = size ->
  (forall role, ok role = true -> data role = (array_op (request_op (placed_message uid)) d).1.2) ->
  let answered role : answer :=
    (0%nat, role, Some (message_seen (minion_answer (placed_message uid) (ok role) (data role)))) in
  spec_run uid (op_of r) (k_len r) [placed_segment] ([], false) [answered first; answered (other first)]
    ≫= (fun result => sent_for r (Some result))
  = wire_reply (if verdict first ok then 0 else EIO) (k_handle r)
    ++ (if verdict first ok then (array_op (request_op (placed_message uid)) d).1.2 else []).
Proof using Hchunk Hn Hdrive Hr.
  intros Hd Hdata. destruct placed_segment_eq as (Hsl & _).
  destruct placed_chunk as (_ & _ & _ & _ & _ & _ & Hmod). destruct Hr as (_ & Hl & Hin & _).
  cbv zeta. rewrite placed_message_op in Hdata |- *. rewrite !placed_answer_eq. unfold op_of, verdict.
  destruct (k_data r) as [bytes|] eqn:Edata; cbn [array_op fst snd] in *.
  - cbn [message_seen wire_seen WriteReceive_wire].
    rewrite (write_verdict uid (k_len r) placed_segment first ok).
    cbn [mbind list_bind app sent_for tr_result tr_buffer]. by destruct (ok PRIMARY && ok BACKUP); rewrite !app_nil_r.
  - set (bytes := take _ _) in *.
    assert (Hlen : Z.of_nat (length bytes) = k_len r)
      by (unfold bytes; rewrite length_take, length_drop; lia).
    set (good := match first with PRIMARY => ok PRIMARY || ok BACKUP | BACKUP => ok BACKUP end).
    destruct good eqn:Eg; unfold good in Eg.
    + rewrite (read_verdict uid (k_len r) placed_segment first ok data bytes);
        [|done..|by destruct first, (ok PRIMARY), (ok BACKUP); auto].
      cbn [mbind list_bind app sent_for tr_result tr_buffer tr_length].
      rewrite app_nil_r, read_cells_exact by lia. done.
    + rewrite (read_failed uid (k_len r) placed_segment first ok data);
        [|by destruct first, (ok PRIMARY), (ok BACKUP); auto..].
      cbn [mbind list_bind app sent_for tr_result tr_buffer tr_length]. by rewrite !app_nil_r.
Qed.
End request.
