(* ===== verification/System.v ===== *)
(** * System

    The master and its minions together, over a network: the request of a kernel
    goes through the master to the minions' files and back.  As long as no two
    chunks that are used share a minion ([mirror_overwrites] in [Mirror.v] says why)
    the system is the disk that it presents to the kernel. *)

From S2P Require Import Prelude Bytes StripeSplitter Message TaskArgs Factory Sockets Logger.
From S2P Require Import Ticket IMinionProxy MinionProxy NBD NBDProxy World MinionManager Commands.
From S2P Require Import Framework Master Protocol Raid Service FileManager MasterProxy Minion Mirror Drive.

(** ** The network *)

Record System : Type := mk_System {
  sys_master : Master;
  sys_minions : list Minion;
}.

Definition on_master {A} (f : prog Master A) : prog System A :=
  zoom sys_master (fun m s => mk_System m (sys_minions s)) f.

Definition on_minion (i : nat) (f : prog Minion unit) : prog System unit := fun s =>
  match sys_minions s !! i with
  | Some m => let '(r, m') := f m in (r, mk_System (sys_master s) (<[i := m']> (sys_minions s)))
  | None => (Undefined, s)
  end.

Section network.
Context `{LinuxNBD}.

(** The address of the master's socket for minion [i], and that of minion [i]. *)
Context (master_addr minion_addr : nat -> Z).

(** What the master, or a minion, has sent to a peer. *)
Definition sent_to_minion (i : nat) (s : System) : list (Z * cells) :=
  match m_minions (manager (sys_master s)) !! i with
  | Some p => UDPSocket.sent (MinionProxy.m_socket p)
  | None => []
  end.

Definition sent_by_minion (j : nat) (s : System) : list (Z * cells) :=
  match sys_minions s !! j with Some m => sent_by m | None => [] end.

(** The network may lose, copy and reorder datagrams: whatever was sent to an
    address may arrive there, any number of times. *)
Inductive sys_step : System -> System -> Prop :=
  | sys_nbd s s' : on_master nbd_wakeup s = (Ok tt, s') -> sys_step s s'
  | sys_task i s s' : on_master (run_task i) s = (Ok tt, s') -> sys_step s s'
  | sys_answer i s s' : on_master (minion_wakeup i) s = (Ok tt, s') -> sys_step s s'
  | sys_minion_input j s s' : on_minion j minion_input s = (Ok tt, s') -> sys_step s s'
  | sys_minion_task j i s s' : on_minion j (minion_run_task i) s = (Ok tt, s') -> sys_step s s'
  | sys_to_minion i j datagram s :
      (minion_addr j, datagram) ∈ sent_to_minion i s ->
      sys_step s (mk_System (sys_master s)
        (alter (minion_deliver (master_addr i) datagram) j (sys_minions s)))
  | sys_to_master i j datagram s :
      (master_addr i, datagram) ∈ sent_by_minion j s ->
      sys_step s (mk_System (deliver i (minion_addr j) datagram (sys_master s)) (sys_minions s)).

Definition sys_steps : System -> System -> Prop := rtc sys_step.

(** One exchange with minion [i] over a network that delivers: the last packet
    of the master's socket arrives at the minion and is served, and the last
    packet of the minion arrives at the master and is read. *)
Definition forward (i : nat) : prog System unit := fun s =>
  match last (sent_to_minion i s) with
  | Some (addr, datagram) =>
      if bool_decide (addr = minion_addr i) then
        (Ok tt, mk_System (sys_master s)
           (alter (minion_deliver (master_addr i) datagram) i (sys_minions s)))
      else (Blocked, s)
  | None => (Blocked, s)
  end.

Definition back (i : nat) : prog System unit := fun s =>
  match last (sent_by_minion i s) with
  | Some (addr, datagram) =>
      if bool_decide (addr = master_addr i) then
        (Ok tt, mk_System (deliver i (minion_addr i) datagram (sys_master s)) (sys_minions s))
      else (Blocked, s)
  | None => (Blocked, s)
  end.

Definition exchange (i : nat) : prog System unit :=
  forward i ;; on_minion i minion_input ;; on_minion i (minion_run_task 0) ;;
  back i ;; on_master (minion_wakeup i).

(** A request of the kernel, from the NBD socket to the reply; [first] is the role
    whose minion is quicker. *)
Definition serve_request (x : kernel_request * MirrorRole) : prog System unit :=
  on_master nbd_wakeup ;;
  on_master (run_task 0) ;;
  seg ← gets (fun s => segment_of x.1 (sys_master s));
  exchange (minion_of seg x.2) ;;
  exchange (minion_of seg (other x.2)).

(** Everything that [serve_request] does is a step of the system. *)
Lemma forward_step i s s' : forward i s = (Ok tt, s') -> sys_step s s'.
Proof.
  unfold forward. destruct (last _) as [[addr d]|] eqn:E; [|done].
  case_bool_decide as Ha; [|done]. intros [= <-]. subst addr.
  apply sys_to_minion. by apply last_Some_elem_of.
Qed.

Lemma back_step i s s' : back i s = (Ok tt, s') -> sys_step s s'.
Proof.
  unfold back. destruct (last _) as [[addr d]|] eqn:E; [|done].
  case_bool_decide as Ha; [|done]. intros [= <-]. subst addr.
  apply sys_to_master. by apply last_Some_elem_of.
Qed.

Lemma exchange_steps i s s' : exchange i s = (Ok tt, s') -> sys_steps s s'.
Proof.
  intros ([] & s1 & E1 & ([] & s2 & E2 & ([] & s3 & E3 & ([] & s4 & E4 & E5)%bind_ok_inv
    )%bind_ok_inv)%bind_ok_inv)%bind_ok_inv.
  eapply rtc_l; [by eapply forward_step|]. eapply rtc_l; [by eapply sys_minion_input|].
  eapply rtc_l; [by eapply sys_minion_task|]. eapply rtc_l; [by eapply back_step|].
  by eapply rtc_once, sys_answer.
Qed.

Lemma serve_request_steps x s s' : serve_request x s = (Ok tt, s') -> sys_steps s s'.
Proof.
  intros ([] & s1 & E1 & ([] & s2 & E2 & (seg & s3 & [= <- <-] & ([] & s4 & E4 & E5
    )%bind_ok_inv)%bind_ok_inv)%bind_ok_inv)%bind_ok_inv.
  eapply rtc_l; [by eapply sys_nbd|]. eapply rtc_l; [by eapply sys_task|].
  etrans; by eapply exchange_steps.
Qed.

(** ** One exchange *)

(** Messages of the master have at most the size that the socket reads. *)
Lemma ReceiveFrom_one addr m (socket : UDPSocket.t) :
  UDPSocket.incoming socket = [] ->
  (UDPSocket.ReceiveFrom (BUFSIZ - 1) (UDPSocket.deliver addr (packet_of m) socket)).2
  = UDPSocket.mk (UDPSocket.m_fd socket) addr [] (UDPSocket.sendto_ok socket) (UDPSocket.sent socket).
Proof. intros Hin. unfold UDPSocket.ReceiveFrom, UDPSocket.deliver. simpl. by rewrite Hin. Qed.

(** What an answer leaves of the proxies. *)
Lemma arrive_links i addr m s s' p :
  arrive i addr m s = (Ok tt, s') -> m_minions (manager s) !! i = Some p ->
  UDPSocket.incoming (MinionProxy.m_socket p) = [] ->
  Master.m_queue s' = Master.m_queue s /\
  exists p', manager s' = set_minions (<[i := p']> (m_minions (manager s))) (manager s)
    /\ MinionProxy.m_socket p' = UDPSocket.mk (UDPSocket.m_fd (MinionProxy.m_socket p)) addr []
         (UDPSocket.sendto_ok (MinionProxy.m_socket p)) (UDPSocket.sent (MinionProxy.m_socket p)).
Proof.
  unfold arrive. intros ([] & s1 & [= <-] & E)%bind_ok_inv Hp Hin.
  destruct (minion_wakeup_effect _ _ _ E) as (Eq & p1 & p' & Hp1 & Em & Hs & _).
  split; [done|]. exists p'. unfold deliver in Hp1, Em. cbn [manager set_minions m_minions] in Hp1, Em.
  rewrite list_lookup_alter_eq, Hp in Hp1. injection Hp1 as <-.
  split; [|by rewrite Hs; apply ReceiveFrom_one].
  rewrite Em. by rewrite insert_alter.
Qed.

(** The answer of the minion reaches the master, however the master takes it. *)
Lemma exchange_ok i m a mi mi' mi_p s master' :
  m_minions (manager (sys_master s)) !! i = Some mi_p ->
  last (UDPSocket.sent (MinionProxy.m_socket mi_p)) = Some (minion_addr i, packet_of m) ->
  sys_minions s !! i = Some mi ->
  serve (master_addr i, m) mi = (Ok tt, mi') -> sent_by mi' = sent_by mi ++ [(master_addr i, packet_of a)] ->
  arrive i (minion_addr i) a (sys_master s) = (Ok tt, master') ->
  exchange i s = (Ok tt, mk_System master' (<[i := mi']> (sys_minions s))).
Proof.
  intros Hp Hlast Hmi Es Hsent E.
  destruct (bind_ok_inv _ _ _ _ _ Es) as ([] & mi1 & [= <-] & Es1). clear Es.
  destruct (bind_ok_inv _ _ _ _ _ Es1) as ([] & mi2 & Einput & Etask). clear Es1.
  destruct (bind_ok_inv _ _ _ _ _ E) as ([] & master1 & [= <-] & Ewake). clear E.
  unfold exchange.
  set (s1 := mk_System (sys_master s) (alter (minion_deliver (master_addr i) (packet_of m)) i (sys_minions s))).
  assert (E1 : forward i s = (Ok tt, s1)).
  { unfold forward, sent_to_minion. rewrite Hp, Hlast. by rewrite bool_decide_eq_true_2. }
  rewrite (bind_ok _ _ _ _ _ E1).
  set (s2 := mk_System (sys_master s) (<[i := mi2]> (sys_minions s))).
  assert (E2 : on_minion i minion_input s1 = (Ok tt, s2)).
  { unfold on_minion, s1. cbn [sys_minions sys_master].
    rewrite list_lookup_alter_eq, Hmi. cbn [fmap option_fmap option_map].
    cbn [fst snd] in Einput. rewrite Einput. by rewrite insert_alter. }
  rewrite (bind_ok _ _ _ _ _ E2).
  pose proof (lookup_lt_Some _ _ _ Hmi) as Hlt.
  set (s3 := mk_System (sys_master s) (<[i := mi']> (sys_minions s))).
  assert (E3 : on_minion i (minion_run_task 0) s2 = (Ok tt, s3)).
  { unfold on_minion, s2. cbn [sys_minions sys_master].
    by rewrite list_lookup_insert_eq, Etask, list_insert_insert_eq. }
  rewrite (bind_ok _ _ _ _ _ E3).
  set (s4 := mk_System (deliver i (minion_addr i) (packet_of a) (sys_master s))
    (<[i := mi']> (sys_minions s))).
  assert (E4 : back i s3 = (Ok tt, s4)).
  { unfold back, sent_by_minion, s3. cbn [sys_minions sys_master].
    rewrite list_lookup_insert_eq, Hsent, last_snoc by done.
    by rewrite bool_decide_eq_true_2. }
  rewrite (bind_ok _ _ _ _ _ E4). unfold on_master, zoom, s4. cbn [sys_master sys_minions].
  by rewrite Ewake.
Qed.
End network.

(** ** The system between requests *)

Section drive.
Context `{LinuxNBD} (master_addr minion_addr : nat -> Z).
Context (reqs : list kernel_request) (used : gset nat) (chunk : Z) (n : nat).
Hypothesis Hreqs : Forall (placed used chunk n) reqs.
Hypothesis Hmany : Z.of_nat (length reqs) < 2 ^ 64.
Hypothesis Hchunk : 0 < chunk < 2 ^ 32 - 64.
Hypothesis Hn : apart n used.
Hypothesis Hdrive : Z.of_nat n * chunk < 2 ^ 64.

(** The minions whose disks may fail: at most one of the two that hold a chunk. *)
Context (weak : gset nat).
Hypothesis Hweak : forall c, c ∈ used -> c ∉ weak \/ next n c ∉ weak.

Abbreviation size := (Z.to_nat chunk).

(** Nothing waits in the socket of a proxy, and it sends to its minion. *)
Definition link (i : nat) (p : MinionProxy closure) : Prop :=
  let s := MinionProxy.m_socket p in
  UDPSocket.incoming s = [] /\ UDPSocket.reliable s /\ UDPSocket.m_serveraddr s = minion_addr i.

Definition linked (s : Master) : Prop :=
  forall i p, m_minions (manager s) !! i = Some p -> link i p.

Definition shaped (s : Master) : Prop :=
  m_MBMinion (manager s) = chunk /\ length (m_minions (manager s)) = n.

(** [k] requests were served, and the system holds the array [drive]. *)
Record serves_drive (k : nat) (drive : cells) (s : System) : Prop := {
  sd_sane : exists replied, sane reqs k replied (sys_master s);
  sd_queue : Master.m_queue (sys_master s) = [];
  sd_shape : shaped (sys_master s);
  sd_links : linked (sys_master s);
  sd_count : length (sys_minions s) = n;
  sd_idle : forall i m, sys_minions s !! i = Some m -> idle m;
  sd_keeps : forall i m, sys_minions s !! i = Some m ->
    keeps (bool_decide (i ∈ weak)) (chunk_of size (base used n i) drive) (stream m);
  sd_drive : length drive = (n * size)%nat;
}.

Lemma requests_wf : Forall request_wf reqs.
Proof using Hreqs. eapply Forall_impl; [exact Hreqs|]. by intros r [? _]. Qed.

(** The packet that the run of the task leaves in the sockets of both minions. *)
Definition asked (uid : Z) (r : kernel_request) (s : Master) (role : MirrorRole) : Prop :=
  let i := minion_of (placed_segment chunk n r) role in
  exists p, m_minions (manager s) !! i = Some p
    /\ last (UDPSocket.sent (MinionProxy.m_socket p)) = Some (minion_addr i, packet_of (placed_message chunk n r uid)).

Lemma segment_of_shaped r s : shaped s -> segment_of r s = placed_segment chunk n r.
Proof. intros [Hc Hl]. unfold segment_of. by rewrite Hc, Hl. Qed.

Lemma shaped_set ps (s s' : Master) :
  shaped s -> manager s' = set_minions ps (manager s) -> length ps = length (m_minions (manager s)) ->
  shaped s'.
Proof. intros [Hc Hl] Em Hps. unfold shaped. rewrite Em. simpl. split; [done|congruence]. Qed.

Lemma placed_servable_task k replied r s :
  sane reqs k replied s -> shaped s -> linked s -> placed used chunk n r ->
  reqs !! (k - 1)%nat = Some r -> Master.m_queue s = [task_of (Z.of_nat (k - 1)) r] ->
  servable reqs 0 (k - 1) r s.
Proof using Hreqs Hmany Hchunk Hn Hdrive.
  intros [_ [Hm _] _ _ _] [Hc Hl] Hlink Hr Hk Hq.
  destruct (placed_chunk used chunk n r Hchunk Hn Hdrive Hr) as (Hf & _ & Hn2 & Hlt & _).
  destruct Hr as (_ & Hlen & Hin & Hend & _). unfold BUFSIZ in Hlen.
  constructor; try done.
  - by rewrite Hq.
  - apply Forall_lookup_2. intros i p Hp. apply (Hlink i p Hp).
  - apply Forall_lookup_2. intros i p Hp. apply (Hlink i p Hp).
  - lia.
  - destruct Hm as (_ & _ & Hd & _). unfold in_range. rewrite Hd, Hl, Hc. lia.
  - by rewrite Hc.
Qed.

Lemma asked_packet {A} (l : list (Z * closure * AMessage)) (c : A) a m (f : Z * closure * AMessage -> A) :
  (fun x => (f x, x.2)) <$> last l = Some (c, m) ->
  (fun t : Z * closure * AMessage => (a, packet_of t.2)) <$> last l = Some ((a, packet_of m) : Z * cells).
Proof. destruct (last l) as [x|]; [|done]. intros [= _ <-]. done. Qed.

(** The command of the request is run. *)
Lemma task_asks k replied r s :
  sane reqs k replied s -> shaped s -> linked s -> placed used chunk n r ->
  reqs !! (k - 1)%nat = Some r -> Master.m_queue s = [task_of (Z.of_nat (k - 1)) r] ->
  exists s', run_task 0 s = (Ok tt, s') /\ shaped s' /\ linked s' /\ Master.m_queue s' = []
    /\ forall role, asked (Z.of_nat (k - 1)) r s' role.
Proof using Hreqs Hmany Hchunk Hn Hdrive.
  intros Hs Hsh Hlink Hr Hk Hq.
  pose proof (placed_servable_task k replied r s Hs Hsh Hlink Hr Hk Hq) as Hsb.
  destruct (run_task_serving reqs Hmany k replied s 0 (k - 1) r Hs Hsb)
    as (s' & E & _ & _ & Eq & ps' & Em & Hlen & Hserved).
  pose proof (segment_of_shaped r s Hsh) as Eseg. rewrite Eseg in Hserved.
  exists s'. split; [done|]. split; [by eapply shaped_set|]. split; [|split].
  - intros i p'. rewrite Em. cbn [set_minions m_minions]. intros Hp'.
    destruct (lookup_lt_is_Some_2 (m_minions (manager s)) i) as [p Hp];
      [rewrite <-Hlen; by eapply lookup_lt_Some|].
    destruct (Hserved i p p' Hp Hp') as (Hup & _ & Hpeer & Hin & _).
    destruct (Hlink i p Hp) as (Hi & _ & Ha). unfold link.
    split; [exact (eq_trans Hin Hi)|]. split; [exact Hup|exact (eq_trans Hpeer Ha)].
  - by rewrite Eq, Hq.
  - intros role. unfold asked. set (i := minion_of _ role).
    destruct (segment_of_ok reqs k replied s 0 (k - 1) r Hs Hsb) as (_ & _ & Hne & Hlt).
    rewrite Eseg in Hne, Hlt. specialize (Hlt role). fold i in Hlt.
    destruct (lookup_lt_is_Some_2 _ _ Hlt) as [p Hp].
    destruct (lookup_lt_is_Some_2 ps' i ltac:(lia)) as [p' Hp'].
    exists p'. rewrite Em. split; [done|].
    destruct (Hserved i p p' Hp Hp') as (_ & _ & _ & _ & Hout & _).
    destruct (Hlink i p Hp) as (_ & _ & Ha).
    pose proof (tasks_of_segment (next_ticket (backend s)) (placed_segment chunk n r)
      (message (op_of r) (Z.of_nat (k - 1)) (default [] (k_data r))) role Hne) as Hlast.
    fold i in Hlast. change (UDPSocket.sent (MinionProxy.m_socket p')) with (outbox (W := Backend) p').
    rewrite Hout, last_app, fmap_last. by rewrite (asked_packet _ _ _ _ _ Hlast), <-Ha.
Qed.

(** One minion answers the request. *)
Lemma exchange_role r uid role s master' mi ok data fs' :
  let i := minion_of (placed_segment chunk n r) role in
  let m := placed_message chunk n r uid in
  placed used chunk n r -> in_u64 uid -> shaped (sys_master s) -> linked (sys_master s) ->
  asked uid r (sys_master s) role -> sys_minions s !! i = Some mi -> idle mi ->
  file_op (request_op m) (stream mi) = (Ok (ok, data), fs') ->
  arrive i (minion_addr i) (minion_answer m ok data) (sys_master s) = (Ok tt, master') ->
  exists mi', exchange master_addr minion_addr i s
      = (Ok tt, mk_System master' (<[i := mi']> (sys_minions s)))
    /\ idle mi' /\ stream mi' = fs'
    /\ shaped master' /\ linked master' /\ Master.m_queue master' = Master.m_queue (sys_master s)
    /\ forall role', minion_of (placed_segment chunk n r) role' <> i ->
         asked uid r (sys_master s) role' -> asked uid r master' role'.
Proof using Hmany Hchunk Hn Hdrive.
  intros i m Hr Hu Hsh Hlink (p & Hp & Hlast) Hmi Hidle Hop E.
  destruct (Hlink i p Hp) as (Hin & Hrel & Haddr).
  assert (Hsv : servable_by size m).
  { rewrite <-(length_replicate size (Some Byte.x00)). by eapply placed_servable; [..|rewrite length_replicate]. }
  destruct (serve_op (master_addr i, m) size mi ok data fs' Hidle Hsv ltac:(lia) Hop)
    as (mi' & Es & Hfs & Hidle' & Hsent).
  pose proof (exchange_ok master_addr minion_addr i m _ mi mi' p s master' Hp Hlast Hmi Es Hsent E) as Ex.
  destruct (arrive_links i _ _ _ _ p E Hp Hin) as (Eq & p' & Em & Hs).
  exists mi'. split; [done|]. split; [done|]. split; [done|].
  split; [eapply shaped_set; [done..|by rewrite length_insert]|].
  split; [|split; [done|]].
  - intros j p1. rewrite Em. cbn [set_minions m_minions].
    intros [(<- & <- & _)|[_ Hj]]%list_lookup_insert_Some; [|by apply Hlink].
    unfold link. by rewrite Hs.
  - intros role' Hne (p1 & Hp1 & Hl1). exists p1. split; [|done].
    rewrite Em. cbn [set_minions m_minions]. by rewrite list_lookup_insert_ne.
Qed.

(** A request is read and run, the minions answer. *)
Lemma arrive_sane k replied i addr m s s' :
  sane reqs k replied s -> arrive i addr m s = (Ok tt, s') -> exists replied', sane reqs k replied' s'.
Proof using Hreqs Hmany.
  intros Hs ([] & s1 & [= <-] & E)%bind_ok_inv.
  eapply (minion_wakeup_sane reqs requests_wf); [|exact E]. by apply deliver_sane.
Qed.

(** The master's part of a request. *)
Lemma master_serves k replied r first s d (ok : MirrorRole -> bool) (data : MirrorRole -> cells) :
  let i role := minion_of (placed_segment chunk n r) role in
  let uid := Z.of_nat k in
  let m := placed_message chunk n r uid in
  sane reqs k replied s -> shaped s -> linked s -> Master.m_queue s = [] -> reqs !! k = Some r ->
  length d = size ->
  (forall role, ok role = true -> data role = (array_op (request_op m) d).1.2) ->
  let a role := minion_answer m (ok role) (data role) in
  exists s1 s2 s3 s4, nbd_wakeup s = (Ok tt, s1) /\ run_task 0 s1 = (Ok tt, s2)
    /\ arrive (i first) (minion_addr (i first)) (a first) s2 = (Ok tt, s3)
    /\ arrive (i (other first)) (minion_addr (i (other first))) (a (other first)) s3 = (Ok tt, s4)
    /\ shaped s2 /\ linked s2 /\ Master.m_queue s2 = [] /\ (forall role, asked uid r s2 role)
    /\ (exists replied', sane reqs (S k) replied' s4)
    /\ sent_bytes s4 = sent_bytes s ++ wire_reply (if verdict r first ok then 0 else EIO) (k_handle r)
         ++ (if verdict r first ok then (array_op (request_op m) d).1.2 else []).
Proof using Hreqs Hmany Hchunk Hn Hdrive.
  intros i uid m Hs Hsh Hlink Hq Hk Hd Hdata a.
  assert (Hr : placed used chunk n r) by (rewrite Forall_lookup in Hreqs; by eapply Hreqs).
  destruct (nbd_wakeup_request reqs requests_wf Hmany k replied s r (sn_inv _ _ _ _ Hs) Hk)
    as (s1 & E1 & _ & Em1 & _ & Eq1 & _ & Hsent1).
  pose proof (nbd_wakeup_sane reqs requests_wf Hmany k replied s s1 Hs E1) as Hs1.
  rewrite Hq in Eq1. cbn [app] in Eq1.
  assert (Hsh1 : shaped s1) by (unfold shaped; by rewrite Em1).
  assert (Hlink1 : linked s1) by (unfold linked; by rewrite Em1).
  replace k with (S k - 1)%nat in Hk, Eq1 by lia.
  destruct (task_asks (S k) replied r s1 Hs1 Hsh1 Hlink1 Hr Hk Eq1) as (s2 & E2 & Hsh2 & Hlink2 & Eq2 & Hask).
  pose proof (placed_servable_task (S k) replied r s1 Hs1 Hsh1 Hlink1 Hr Hk Eq1) as Hsb.
  replace (S k - 1)%nat with k in * by lia.
  assert (Hu : in_u64 uid) by (apply lookup_lt_Some in Hk; unfold uid; lia).
  destruct (run_and_answer reqs requests_wf Hmany (S k) replied s1 0 k r first
    (fun role => (minion_addr (i role), a role)) Hs1 Hsb)
    as (s4 & E & Hsent).
  { intros role. by eapply placed_answer. }
  rewrite (segment_of_shaped r s1 Hsh1) in E, Hsent. cbn [fst snd] in E, Hsent.
  unfold served_by in E. rewrite (bind_ok _ _ _ _ _ E2) in E.
  apply bind_ok_inv in E as ([] & s3 & E3 & E4).
  exists s1, s2, s3, s4. do 8 (split; [done|]). split.
  - pose proof (run_task_sane reqs (S k) replied 0 s1 s2 Hs1 E2) as Hs2.
    destruct (arrive_sane _ _ _ _ _ _ _ Hs2 E3) as [rep3 Hs3]. by eapply arrive_sane.
  - rewrite Hsent. unfold sent_bytes at 1. rewrite Hsent1. f_equal.
    by apply (placed_verdict used chunk n r Hchunk Hn Hdrive Hr uid d first ok data).
Qed.

Lemma choose_roles {A} (P : MirrorRole -> A -> Prop) :
  (forall role, exists x, P role x) -> exists f, forall role, P role (f role).
Proof.
  intros Hall. destruct (Hall PRIMARY) as [x Hx], (Hall BACKUP) as [y Hy].
  exists (fun role => match role with PRIMARY => x | BACKUP => y end). by intros [].
Qed.

(** Both minions of the request are distinct and exist; they hold its chunk. *)
Lemma placed_minion k drive s r role :
  serves_drive k drive s -> placed used chunk n r ->
  let i := minion_of (placed_segment chunk n r) in
  i (other role) <> i role
  /\ (forall j, (j < n)%nat -> base used n j = Z.to_nat (k_from r `div` chunk) <-> j = i role \/ j = i (other role))
  /\ exists mi, sys_minions s !! i role = Some mi /\ idle mi
      /\ keeps (bool_decide (i role ∈ weak)) (chunk_of size (Z.to_nat (k_from r `div` chunk)) drive) (stream mi).
Proof using master_addr Hchunk Hn Hdrive.
  intros Hs Hr i. destruct (placed_segment_eq used chunk n r Hchunk Hn Hdrive Hr) as (_ & _ & _ & Hp & Hb).
  destruct (placed_chunk used chunk n r Hchunk Hn Hdrive Hr) as (_ & _ & Hn2 & Hlt & Hc & _).
  destruct (next_cases n (Z.to_nat (k_from r `div` chunk)) Hn2 Hlt) as (Hnlt & Hnne & _).
  assert (Hbase : forall j, (j < n)%nat ->
    base used n j = Z.to_nat (k_from r `div` chunk) <-> j = i role \/ j = i (other role)).
  { intros j Hj. rewrite (base_of n used _ j Hn Hc Hj). unfold i. destruct role; cbn [other]; rewrite Hp, Hb; tauto. }
  assert (Hil : (i role < n)%nat) by (unfold i; destruct role; rewrite ?Hp, ?Hb; done).
  split; [unfold i; destruct role; cbn [other]; rewrite Hp, Hb; congruence|]. split; [exact Hbase|].
  destruct (lookup_lt_is_Some_2 (sys_minions s) (i role)) as [mi Hmi]; [by rewrite (sd_count _ _ _ Hs)|].
  exists mi. split; [done|]. split; [by apply (sd_idle _ _ _ Hs (i role))|].
  rewrite <-(proj2 (Hbase (i role) Hil) ltac:(by left)). by apply (sd_keeps _ _ _ Hs).
Qed.

(** Which requests may be reported as errors, each with the role that answers first:
    a write, if a minion of its chunk may fail; a read, if the backup may fail and its
    answer comes first. *)
Definition may_report (x : kernel_request * MirrorRole) (ok : bool) : Prop :=
  let c := Z.to_nat (k_from x.1 `div` chunk) in
  ok = true \/
  match k_data x.1 with
  | Some _ => c ∈ weak \/ next n c ∈ weak
  | None => x.2 = BACKUP /\ next n c ∈ weak
  end.

Lemma request_verdict r first (ok : MirrorRole -> bool) :
  placed used chunk n r ->
  (forall role, minion_of (placed_segment chunk n r) role ∉ weak -> ok role = true) ->
  may_report (r, first) (verdict r first ok).
Proof using Hchunk Hn Hdrive Hweak.
  clear master_addr minion_addr. intros Hr Hok. destruct (placed_segment_eq used chunk n r Hchunk Hn Hdrive Hr) as (_ & _ & _ & Hp & Hb).
  destruct (placed_chunk used chunk n r Hchunk Hn Hdrive Hr) as (_ & _ & _ & _ & Hc & _).
  pose proof (Hok PRIMARY) as Hok1. pose proof (Hok BACKUP) as Hok2. rewrite Hp in Hok1. rewrite Hb in Hok2.
  pose proof (Hweak _ Hc) as Hw. clear Hweak. unfold may_report, verdict in *. cbn [fst snd]. set (c := Z.to_nat _) in *.
  destruct (decide (c ∈ weak)) as [H1|H1]; destruct (decide (next n c ∈ weak)) as [H2|H2];
    destruct (k_data r), first, (ok PRIMARY), (ok BACKUP); intuition (congruence || eauto).
Qed.

Lemma request_served k drive s r first :
  serves_drive k drive s -> reqs !! k = Some r ->
  exists ok s', serve_request master_addr minion_addr (r, first) s = (Ok tt, s')
    /\ serves_drive (S k) (array_op (drive_op r) drive).2 s' /\ may_report (r, first) ok
    /\ sent_bytes (sys_master s') = sent_bytes (sys_master s) ++ drive_reply ok r drive.
Proof using Hreqs Hmany Hchunk Hn Hdrive Hweak.
  intros Hs Hk. assert (Hr : placed used chunk n r) by (rewrite Forall_lookup in Hreqs; by eapply Hreqs).
  pose proof Hs as [[replied Hsane] Hq Hsh Hlink Hcount Hidle Hkeeps Hlen].
  assert (Hu : in_u64 (Z.of_nat k)) by (apply lookup_lt_Some in Hk; lia).
  set (c := Z.to_nat (k_from r `div` chunk)). set (d := chunk_of size c drive).
  set (m := placed_message chunk n r (Z.of_nat k)).
  destruct (placed_chunk used chunk n r Hchunk Hn Hdrive Hr) as (_ & _ & _ & Hlt & _).
  assert (Hd : length d = size) by (apply (length_chunk_of size c drive n Hlen); unfold c; lia).
  assert (Hends : forall role, exists mi ok data fs',
    sys_minions s !! minion_of (placed_segment chunk n r) role = Some mi /\ idle mi
    /\ file_op (request_op m) (stream mi) = (Ok (ok, data), fs')
    /\ keeps (bool_decide (minion_of (placed_segment chunk n r) role ∈ weak)) (array_op (request_op m) d).2 fs'
    /\ (ok = true -> data = (array_op (request_op m) d).1.2)
    /\ (minion_of (placed_segment chunk n r) role ∉ weak -> ok = true)).
  { intros role. destruct (placed_minion k drive s r role Hs Hr) as (_ & _ & mi & Hmi & Hi & Hkp).
    destruct (placed_servable used chunk n r Hchunk Hn Hdrive Hr (Z.of_nat k) d Hu Hd) as (_ & _ & _ & _ & Hin).
    destruct (keeps_op _ _ d _ Hkp Hin ltac:(lia)) as (ok & data & fs' & E & Hkp' & Hdata & Hok).
    exists mi, ok, data, fs'. do 5 (split; [done|]). intros Hnw. apply Hok. by apply bool_decide_eq_false. }
  apply choose_roles in Hends as [mi Hends]. apply choose_roles in Hends as [ok Hends].
  apply choose_roles in Hends as [data Hends]. apply choose_roles in Hends as [fs Hends].
  destruct (Hends first) as (Hm1 & Hi1 & E1f & Hk1 & _), (Hends (other first)) as (Hm2 & Hi2 & E2f & Hk2 & _).
  destruct (placed_minion k drive s r first Hs Hr) as (Hne & Hbase & _).
  pose proof (request_verdict r first ok Hr ltac:(by intros role; apply Hends)) as Hreport.
  destruct (master_serves k replied r first (sys_master s) d ok data Hsane Hsh Hlink Hq Hk Hd)
    as (s1 & s2 & s3 & s4 & E1 & E2 & E3 & E4 & Hsh2 & Hlink2 & Hq2 & Hask & Hsane4 & Hsent);
    [by intros role; apply Hends|].
  set (i role := minion_of (placed_segment chunk n r) role) in *.
  destruct (exchange_role r _ first (mk_System s2 (sys_minions s)) s3 (mi first) (ok first) (data first)
    (fs first) Hr Hu Hsh2 Hlink2
    (Hask first) Hm1 Hi1 E1f E3) as (m1' & Ex1 & Hi1' & Hfs1 & Hsh3 & Hlink3 & Hq3 & Hask3).
  destruct (exchange_role r _ (other first) (mk_System s3 (<[i first := m1']> (sys_minions s))) s4 (mi (other first))
    (ok (other first)) (data (other first)) (fs (other first)) Hr Hu Hsh3 Hlink3) as (m2' & Ex2 & Hi2' & Hfs2 & Hsh4 & Hlink4 & Hq4 & _); try done.
  { apply Hask3; [done|apply Hask]. }
  { cbn [sys_minions]. by rewrite list_lookup_insert_ne. }
  exists (verdict r first ok). eexists. split; [|split; [|split; [exact Hreport|]]].
  - unfold serve_request, on_master, zoom. cbn [fst snd].
    unfold mbind at 1, prog_bind at 1. rewrite E1. cbn [sys_master sys_minions].
    unfold mbind at 1, prog_bind at 1. cbn [sys_master sys_minions]. rewrite E2.
    unfold mbind at 1, prog_bind at 1, gets. cbn [sys_master sys_minions].
    rewrite (segment_of_shaped r s2 Hsh2). rewrite (bind_ok _ _ _ _ _ Ex1). exact Ex2.
  - constructor; cbn [sys_master sys_minions]; try done.
    + cbn [sys_master] in Hq3, Hq4. congruence.
    + by rewrite !length_insert.
    + intros j mj [(<- & <- & _)|[_ Hj]]%list_lookup_insert_Some; [done|].
      apply list_lookup_insert_Some in Hj as [(<- & <- & _)|[_ Hj]]; [done|by eapply Hidle].
    + intros j mj Hj.
      destruct (placed_disk used chunk n r Hchunk Hn Hdrive Hr (Z.of_nat k) drive (base used n j) Hlen) as (-> & _).
      assert (Hjn : (j < n)%nat) by (apply lookup_lt_Some in Hj; rewrite !length_insert, Hcount in Hj; exact Hj).
      specialize (Hbase j Hjn). fold c in Hbase |- *. fold d m.
      apply list_lookup_insert_Some in Hj as [(<- & <- & _)|[Hj2 Hj]];
        [by rewrite decide_True, Hfs2 by (apply Hbase; by right)|].
      apply list_lookup_insert_Some in Hj as [(<- & <- & _)|[Hj1 Hj]];
        [by rewrite decide_True, Hfs1 by (apply Hbase; by left)|].
      rewrite decide_False by (intros Hbad; apply Hbase in Hbad; naive_solver). by apply Hkeeps.
    + destruct (placed_disk used chunk n r Hchunk Hn Hdrive Hr (Z.of_nat k) drive c Hlen) as (_ & _ & ->).
      done.
  - cbn [sys_master]. rewrite Hsent. unfold drive_reply. fold c d m.
    destruct (placed_disk used chunk n r Hchunk Hn Hdrive Hr (Z.of_nat k) drive c Hlen) as (_ & -> & _).
    done.
Qed.

(** All requests, one after the other. *)
Lemma requests_served l orders k drive s :
  serves_drive k drive s -> drop k reqs = l -> length orders = length l ->
  exists oks s', for_each (serve_request master_addr minion_addr) (zip l orders) s = (Ok tt, s')
    /\ Forall2 may_report (zip l orders) oks
    /\ sent_bytes (sys_master s') = sent_bytes (sys_master s) ++ drive_replies (zip l oks) drive.
Proof using Hreqs Hmany Hchunk Hn Hdrive Hweak.
  revert orders k drive s. induction l as [|r l IH]; intros orders k drive s Hs Hl Ho.
  { exists [], s. split; [done|]. split; [constructor|]. cbn. by rewrite app_nil_r. }
  destruct orders as [|first orders']; [done|]. injection Ho as Ho.
  assert (Hk : reqs !! k = Some r) by (rewrite <-(Nat.add_0_r k), <-lookup_drop, Hl; done).
  destruct (request_served k drive s r first Hs Hk) as (ok & s1 & E1 & Hs1 & Hok & Hsent1).
  destruct (IH orders' (S k) _ s1 Hs1) as (oks & s2 & E2 & Hoks & Hsent2); [|done|].
  { rewrite (drop_S _ _ _ Hk) in Hl. by injection Hl. }
  exists (ok :: oks), s2. cbn [zip zip_with for_each drive_replies]. rewrite (bind_ok _ _ _ _ _ E1).
  split; [done|]. split; [by constructor|]. by rewrite Hsent2, Hsent1, <-app_assoc.
Qed.
End drive.

Lemma for_each_steps `{LinuxNBD} master_addr minion_addr l s s' :
  for_each (serve_request master_addr minion_addr) l s = (Ok tt, s') ->
  sys_steps master_addr minion_addr s s'.
Proof.
  revert s. induction l as [|x l IH]; intros s; [intros [= <-]; apply rtc_refl|].
  intros ([] & s1 & E1 & E2)%bind_ok_inv. etrans; [by eapply serve_request_steps|by apply IH].
Qed.

Lemma chunk_of_zeros size c n :
  (c < n)%nat ->
  chunk_of size c (replicate (n * size) (Some Byte.x00)) = replicate size (Some Byte.x00).
Proof.
  intros Hc. unfold chunk_of. rewrite drop_replicate, take_replicate. f_equal. nia.
Qed.

(** A minion after its start: it waits on a socket that delivers; its disk, if it is
    one that may fail, ends the calls from now on in any way. *)
Definition set_disk (script : list (nat * cells)) (m : Minion) : Minion :=
  let s := stream m in
  mk_Minion (proxy m) (mk_fstream (is_open s) (file s) (position s) (pending s) (eofbit s) (failbit s) script)
    (Minion.m_queue m) (m_log m).

Definition started (chunk : Z) (may_fail : bool) (m : Minion) : Prop := exists socket found booted script,
  minion_boot socket found chunk = Ok booted /\ m = set_disk script booted
  /\ (may_fail = false -> script = [])
  /\ UDPSocket.incoming socket = [] /\ UDPSocket.reliable socket.

Lemma started_keeps chunk may_fail m :
  0 < chunk < 2 ^ 63 -> started chunk may_fail m ->
  idle m /\ keeps may_fail (replicate (Z.to_nat chunk) (Some Byte.x00)) (stream m).
Proof.
  intros Hc (socket & found & booted & script & E & -> & Hscript & Hin & Hrel).
  destruct (boot_ready socket found chunk Hc Hin Hrel) as (m' & E' & [[Hs Hd] Hi] & _).
  rewrite E in E'. injection E' as <-. destruct booted as [p s q l]. cbn [stream] in Hs, Hd.
  split; [exact Hi|]. cbn [set_disk stream].
  assert (Hshows : shows (replicate (Z.to_nat chunk) (Some Byte.x00))
    (mk_fstream (is_open s) (file s) (position s) (pending s) (eofbit s) (failbit s) script)) by exact Hs.
  destruct may_fail; simpl; [by left|]. split; [exact Hshows|by apply Hscript].
Qed.

Lemma set_disk_same m : disk (stream m) = [] -> set_disk [] m = m.
Proof. destruct m as [p [] q l]. cbn. by intros ->. Qed.

Lemma booted_started socket found chunk m may_fail :
  0 < chunk < 2 ^ 63 -> minion_boot socket found chunk = Ok m ->
  UDPSocket.incoming socket = [] -> UDPSocket.reliable socket -> started chunk may_fail m.
Proof.
  intros Hc E Hin Hrel. destruct (boot_ready socket found chunk Hc Hin Hrel) as (m' & E' & [[_ Hd] _] & _).
  rewrite E in E'. injection E' as <-. exists socket, found, m, []. by rewrite (set_disk_same m Hd).
Qed.

(** The programs at their start: a disk full of zeros. *)
Section start.
Context `{LinuxNBD} (master_addr minion_addr : nat -> Z) (chunk : Z) (proxies : list (MinionProxy closure)).
Context (tcp : TCPClient.t) (master : Master) (minions : list Minion) (used : gset nat).
Context (reqs : list kernel_request) (weak : gset nat).
Hypothesis Hweak : forall c, c ∈ used -> c ∉ weak \/ next (length proxies) c ∉ weak.
Hypothesis Hchunk : 0 < chunk < 2 ^ 32 - 64.
Hypothesis Hn : apart (length proxies) used.
Hypothesis Hsize : Z.of_nat (length proxies) * chunk < 2 ^ 64.
Hypothesis Hreqs : Forall (placed used chunk (length proxies)) reqs.
Hypothesis Hmany : Z.of_nat (length reqs) < 2 ^ 64.
Hypothesis Hboot : boot chunk proxies tcp = Ok master.
Hypothesis Hproxies : forall i p, proxies !! i = Some p -> link minion_addr i p /\ MinionProxy.m_map p = ∅.
Hypothesis Hstream : TCPClient.available (TCPClient.incoming tcp) = (reqs ≫= encode).
Hypothesis Hsent : TCPClient.sent tcp = [].
Hypothesis Hsends : TCPClient.sends_succeed tcp.
Hypothesis Hcount : length minions = length proxies.
Hypothesis Hminions : forall i m, minions !! i = Some m -> started chunk (bool_decide (i ∈ weak)) m.

Abbreviation zeros := (replicate (length proxies * Z.to_nat chunk) (Some Byte.x00)).

Lemma system_starts :
  serves_drive minion_addr reqs used chunk (length proxies) weak 0 zeros (mk_System master minions)
  /\ sent_bytes master = [].
Proof using All.
  destruct (boot_sane reqs chunk proxies tcp master) as (Hsane & Em & Ec); try done.
  { lia. }
  { apply Forall_lookup_2. intros i p Hp. by apply (Hproxies i p). }
  split; [constructor; cbn [sys_master sys_minions]|].
  - by exists [].
  - revert Hboot. unfold boot. destruct (MinionManager.Init _ _ _) as [[[]|?| |] [m f]]; try done. by intros [= <-].
  - by split; [|rewrite Em].
  - intros i p. rewrite Em. intros Hp. by apply (Hproxies i p).
  - done.
  - intros i m Hm. by destruct (started_keeps chunk _ m ltac:(lia) (Hminions i m Hm)).
  - intros i m Hm. destruct (started_keeps chunk _ m ltac:(lia) (Hminions i m Hm)) as [_ Hk].
    apply lookup_lt_Some in Hm. rewrite chunk_of_zeros; [exact Hk|]. apply base_lt. lia.
  - apply length_replicate.
  - unfold sent_bytes.
    by rewrite (ni_sent _ _ _ _ (bi_nbd _ _ _ _ (mi_backend _ _ _ _ (sn_inv _ _ _ _ Hsane)))).
Qed.

(** From there on it is the array. *)
Lemma system_serves (orders : list MirrorRole) :
  length orders = length reqs ->
  exists oks s, for_each (serve_request master_addr minion_addr) (zip reqs orders)
      (mk_System master minions) = (Ok tt, s)
    /\ Forall2 (may_report chunk (length proxies) weak) (zip reqs orders) oks
    /\ sent_bytes (sys_master s) = drive_replies (zip reqs oks) zeros.
Proof using All.
  intros Ho. destruct system_starts as [H0 Hs0].
  destruct (requests_served master_addr minion_addr reqs used chunk (length proxies) Hreqs Hmany Hchunk Hn
    Hsize weak Hweak reqs orders 0 zeros _ H0) as (oks & s & E & Hoks & Es); [done|done|].
  exists oks, s. split; [done|]. split; [done|]. rewrite Es. cbn [sys_master]. by rewrite Hs0.
Qed.
End start.

(** Without disks that fail nothing is reported as an error. *)
Lemma reliable_reports chunk n reqs (orders : list MirrorRole) oks :
  length orders = length reqs ->
  Forall2 (may_report chunk n ∅) (zip reqs orders) oks -> zip reqs oks = (fun r => (r, true)) <$> reqs.
Proof.
  revert orders oks. induction reqs as [|r reqs IH]; intros [|first orders] oks Hl Ho; try done.
  apply Forall2_cons_inv_l in Ho as (ok & oks' & Hr & Ho & ->). injection Hl as Hl.
  cbn [zip zip_with fmap list_fmap]. f_equal; [|by apply (IH orders)].
  destruct Hr as [->|Hr]; [done|]. cbn [fst snd] in Hr. destruct (k_data r); set_solver.
Qed.

(** ** Property *)

(** C1: the system is a disk: the master and its minions, from their start, over a
    network that delivers, serve any sequence of requests of the kernel that lie
    inside chunks of which no two share a minion, and fit into the packets, as long as
    the disks of the minions do not fail and sends succeed. The kernel reads, in order, exactly the replies of an array of bytes that starts with zeros: error
    0 for every request, and for a read the bytes that were last written to its
    range, whichever of the two minions answers first. Everything that happens is
    a run of the two programs. *)
Theorem system_is_a_disk `{LinuxNBD} (master_addr minion_addr : nat -> Z) (chunk : Z)
    (proxies : list (MinionProxy closure)) (tcp : TCPClient.t) (master : Master)
    (minions : list Minion) (used : gset nat) (reqs : list kernel_request) (orders : list MirrorRole)
    (Hchunk : 0 < chunk < 2 ^ 32 - 64) (Hn : apart (length proxies) used)
    (Hsize : Z.of_nat (length proxies) * chunk < 2 ^ 64)
    (Hreqs : Forall (placed used chunk (length proxies)) reqs)
    (Hmany : Z.of_nat (length reqs) < 2 ^ 64) (Horders : length orders = length reqs)
    (Hboot : boot chunk proxies tcp = Ok master)
    (Hproxies : forall i p, proxies !! i = Some p -> link minion_addr i p /\ MinionProxy.m_map p = ∅)
    (Hstream : TCPClient.available (TCPClient.incoming tcp) = (reqs ≫= encode))
    (Hsent : TCPClient.sent tcp = []) (Hsends : TCPClient.sends_succeed tcp)
    (Hcount : length minions = length proxies)
    (Hminions : forall i m, minions !! i = Some m -> started chunk false m) :
  exists s, for_each (serve_request master_addr minion_addr) (zip reqs orders)
      (mk_System master minions) = (Ok tt, s)
    /\ sys_steps master_addr minion_addr (mk_System master minions) s
    /\ sent_bytes (sys_master s)
       = drive_replies ((fun r => (r, true)) <$> reqs)
           (replicate (length proxies * Z.to_nat chunk) (Some Byte.x00)).
Proof.
  destruct (system_serves master_addr minion_addr chunk proxies tcp master minions used reqs ∅) with (orders := orders)
    as (oks & s & E & Hoks & Es); [by right; set_solver|done..|].
  rewrite (reliable_reports _ _ _ _ _ Horders Hoks) in Es.
  exists s. split; [done|]. split; [by eapply for_each_steps|exact Es].
Qed.

(** Three minions, as in the program, with a chunk of eight bytes each: a write to
    the last one, whose mirror is on the first, and a read that overlaps it. *)
Definition disk_requests : list kernel_request :=
  [mk_kernel_request (Some [Some Byte.x61; Some Byte.x62]) sample_handle 19 2;
   mk_kernel_request None sample_handle 18 4].

Definition disk_proxy (i : nat) : MinionProxy closure :=
  mk_MinionProxy (UDPSocket.mk (3 + Z.of_nat i) (100 + Z.of_nat i) [] [] []) ∅.

Definition disk_proxies : list (MinionProxy closure) := [disk_proxy 0; disk_proxy 1; disk_proxy 2].

Definition disk_tcp : TCPClient.t :=
  TCPClient.mk 6 [TCPClient.Data (disk_requests ≫= encode)] [] [].

Lemma system_is_a_disk_witness :
  exists master minion s,
    boot 8 disk_proxies disk_tcp = Ok master
    /\ minion_boot (UDPSocket.mk 3 0 [] [] []) [] 8 = Ok minion
    /\ for_each (serve_request (fun i => 200 + Z.of_nat i) (fun i => 100 + Z.of_nat i))
         (zip disk_requests [BACKUP; PRIMARY]) (mk_System master [minion; minion; minion]) = (Ok tt, s)
    /\ sent_bytes (sys_master s)
       = wire_reply 0 sample_handle ++ wire_reply 0 sample_handle
         ++ [Some Byte.x00; Some Byte.x61; Some Byte.x62; Some Byte.x00].
Proof.
  destruct (boot 8 disk_proxies disk_tcp) as [master|e| |] eqn:E0;
    try (exfalso; revert E0; vm_compute; discriminate).
  destruct (minion_boot (UDPSocket.mk 3 0 [] [] []) [] 8) as [minion|e| |] eqn:E1;
    try (exfalso; revert E1; vm_compute; discriminate).
  destruct (system_is_a_disk (fun i => 200 + Z.of_nat i) (fun i => 100 + Z.of_nat i) 8
    disk_proxies disk_tcp master [minion; minion; minion] {[2%nat]} disk_requests [BACKUP; PRIMARY])
    as (s & E & _ & Hs); try done.
  - apply (single_apart 3 2); lia.
  - repeat constructor; simpl; unfold BUFSIZ; lia || done.
  - intros [|[|[|i]]] p; [intros [= <-]..|done]; (split; [|done]);
      (split; [done|split; [constructor|done]]).
  - constructor.
  - intros [|[|[|i]]] m; [intros [= <-]..|done];
      apply (booted_started (UDPSocket.mk 3 0 [] [] []) []); (lia || done || constructor).
  - exists master, minion, s. split; [done|]. split; [done|]. split; [done|].
    rewrite Hs. vm_compute. reflexivity.
Defined.
