(* ===== verification/Flight.v ===== *)
(** * Flight

    What happens to one request while others are on their way: the task that asks
    both minions, the answers that the master reads, the reply. *)

From S2P Require Import Prelude Bytes StripeSplitter Message TaskArgs Factory Dispatcher Sockets Logger.
From S2P Require Import Ticket IMinionProxy MinionProxy NBD NBDProxy World ResponseManager MinionManager Commands.
From S2P Require Import Framework Master Protocol Raid Service FileManager MasterProxy Minion Mirror Drive System.

(** ** Requests in flight *)

Section flight.
Context `{LinuxNBD} (reqs : list kernel_request) (used : gset nat) (chunk : Z) (n : nat).
Hypothesis Hreqs : Forall (placed used chunk n) reqs.
Hypothesis Hmany : Z.of_nat (length reqs) < 2 ^ 64.
Hypothesis Hchunk : 0 < chunk < 2 ^ 32 - 64.
Hypothesis Hn : apart n used.
Hypothesis Hdrive : Z.of_nat n * chunk < 2 ^ 64.

Lemma placed_at i r : reqs !! i = Some r -> placed used chunk n r /\ in_u64 (Z.of_nat i).
Proof using All.
  intros Hi. rewrite Forall_lookup in Hreqs. split; [by eapply Hreqs|]. apply lookup_lt_Some in Hi. lia.
Qed.

(** The minions of a request hold its chunk. *)
Lemma request_base r role :
  placed used chunk n r ->
  base used n (minion_of (placed_segment chunk n r) role) = Z.to_nat (k_from r `div` chunk)
  /\ (minion_of (placed_segment chunk n r) role < n)%nat.
Proof using All.
  intros Hr. destruct (placed_segment_eq used chunk n r Hchunk Hn Hdrive Hr) as (_ & _ & _ & Hp & Hb).
  destruct (placed_chunk used chunk n r Hchunk Hn Hdrive Hr) as (_ & _ & Hn2 & Hlt & Hc & _).
  destruct (next_cases n _ Hn2 Hlt) as (Hnlt & _).
  assert (Hm : minion_of (placed_segment chunk n r) role = Z.to_nat (k_from r `div` chunk)
    \/ minion_of (placed_segment chunk n r) role = next n (Z.to_nat (k_from r `div` chunk)))
    by (destruct role; rewrite ?Hp, ?Hb; tauto).
  assert (Hml : (minion_of (placed_segment chunk n r) role < n)%nat) by (destruct Hm as [-> | ->]; done).
  split; [|done]. by apply (base_of n used _ _ Hn Hc Hml).
Qed.

(** Whatever a request asks a minion for, it can serve. *)
Lemma request_servable i r :
  reqs !! i = Some r -> servable_by (Z.to_nat chunk) (placed_message chunk n r (Z.of_nat i)).
Proof using All.
  intros Hi. destruct (placed_at i r Hi) as [Hr Hu].
  pose proof (placed_servable used chunk n r Hchunk Hn Hdrive Hr (Z.of_nat i)
    (replicate (Z.to_nat chunk) None) Hu (length_replicate _ _)) as Hs.
  by rewrite length_replicate in Hs.
Qed.

Lemma placed_tiles r : placed used chunk n r -> tiles 0 [placed_segment chunk n r] (k_len r).
Proof using All.
  intros Hr. destruct (placed_chunk used chunk n r Hchunk Hn Hdrive Hr) as (Hf & _ & Hn2 & _).
  destruct Hr as (_ & Hl & Hin & Hend & _). unfold BUFSIZ in Hl.
  eapply (Split_tiles (k_from r) (k_len r) chunk (Z.of_nat n)); try nia. apply Split_one; [lia|split; nia|lia|done].
Qed.

(** The result of a ticket is told at most once, to the kernel. *)
Lemma respond_sends k replied b t role segIdx msg i r hc :
  backend_inv reqs k replied b -> reqs !! i = Some r ->
  w_tickets (b_world b) !! t = Some (ticket_of (Z.of_nat i) (op_of r) (k_len r) [placed_segment chunk n r] [TicketDone] hc) ->
  let '(hc', out) := spec_step (Z.of_nat i) (op_of r) (k_len r) [placed_segment chunk n r] hc (segIdx, role, Some msg) in
  exists b', respond (t, segIdx, role) msg b = (Ok tt, b')
    /\ w_tickets (b_world b')
       = <[t := ticket_of (Z.of_nat i) (op_of r) (k_len r) [placed_segment chunk n r] [TicketDone] hc']> (w_tickets (b_world b))
    /\ (TCPClient.sent (m_nbd (b_nbd b')) = TCPClient.sent (m_nbd (b_nbd b))
          /\ m_responses (b_nbd b') = m_responses (b_nbd b)
          /\ (is_Some out -> m_responses (b_nbd b) !! Z.of_nat i = None)
        \/ TCPClient.sent (m_nbd (b_nbd b')) = TCPClient.sent (m_nbd (b_nbd b)) ++ sent_for r out /\ is_Some out
          /\ m_responses (b_nbd b') = delete (Z.of_nat i) (m_responses (b_nbd b))).
Proof using All.
  intros [Hk _ [_ Hsends _ Hresp _] Hreq _ _] Hi Ht. destruct (placed_at i r Hi) as [Hr _].
  destruct (request_len reqs (requests_wf reqs used chunk n Hreqs) i r Hi) as [Hl Hh].
  pose proof (OnMirrorResponse_spec (Z.of_nat i) (op_of r) (k_len r) [placed_segment chunk n r] (placed_tiles r Hr) [TicketDone] hc
    segIdx role (Some msg)) as Eo.
  assert (Hout : forall result,
    (spec_step (Z.of_nat i) (op_of r) (k_len r) [placed_segment chunk n r] hc (segIdx, role, Some msg)).2 = Some result ->
    tr_uid result = Z.of_nat i /\ tr_length result = k_len r).
  { unfold spec_step. destruct hc as [h c]. destruct (_ || _); [done|].
    destruct (forallb _ _); [|done]. by intros result [= <-]. }
  destruct (spec_step _ _ _ _ _ _) as [hc' out]. cbn [snd] in Hout.
  unfold respond, on_world, set_ticket. run_prog. cbn [fst snd]. rewrite Ht, Eo. cbn [fst snd].
  destruct out as [result|]; [|eexists; split; [reflexivity|]; split; [done|by left]].
  destruct (Hout result eq_refl) as (Hu & Hlen).
  cbn [Ticket.m_dispatcher ticket_of]. unfold Notify, on_rm_nbd. cbn [for_each]. run_prog.
  rewrite OnTicketDone_eq. cbn [b_rm b_nbd b_world]. rewrite Hu.
  destruct (decide (is_Some (m_requests (b_rm b) !! Z.of_nat i))) as [Hsome|Hnone].
  2:{ eexists. split; [reflexivity|]. cbn [fst snd b_world b_nbd]. split; [done|]. left. do 2 (split; [done|]).
      intros _. apply eq_None_not_Some. by rewrite <-Hreq. }
  apply Hreq in Hsome as [x Hx].
  destruct (responses_entry reqs k replied _ _ x Hk Hresp Hx) as (i' & r' & Hii & Hi' & _ & ->).
  apply Nat2Z.inj in Hii as <-. assert (r' = r) as -> by congruence.
  set (w := if tr_result result then _ else _).
  assert (Hw : w_tickets w
    = <[t := ticket_of (Z.of_nat i) (op_of r) (k_len r) [placed_segment chunk n r] [TicketDone] hc']> (w_tickets (b_world b)))
    by (unfold w; by destruct (tr_result result)).
  destruct (OnNBDResponse_ok (b_nbd b) w result (k_handle r)) as (s' & E & _ & _ & Hsent');
    [by rewrite Hu|done|by rewrite Hlen|done|].
  rewrite E. cbn [fst snd]. eexists. split; [reflexivity|]. cbn [b_world b_nbd m_nbd].
  split; [exact Hw|]. right. split; [exact Hsent'|]. split; [by eexists|]. cbn [m_responses]. by rewrite Hu.
Qed.

(** A task is run: the ticket is made and both minions are asked. *)
Lemma run_task_runs k replied q j r s :
  sane reqs k replied s -> shaped chunk n s ->
  Forall (fun p => UDPSocket.reliable (MinionProxy.m_socket p)) (m_minions (manager s)) ->
  reqs !! j = Some r -> Master.m_queue s !! q = Some (task_of (Z.of_nat j) r) ->
  exists ps' logs,
    run_task q s = (Ok tt, mk_Master (set_minions ps' (manager s))
      (add_logs logs (announce (make_Ticket (Z.of_nat j) (op_of r) (k_len r) [placed_segment chunk n r])
         (Z.of_nat j) (backend s))) (delete q (Master.m_queue s)))
    /\ served (W := Backend) (Z.of_nat j) (imap pair [placed_segment chunk n r]
         ≫= segment_tasks make_closure (next_ticket (backend s))
              (message (op_of r) (Z.of_nat j) (default [] (k_data r)))) (m_minions (manager s)) ps'.
Proof using All.
  intros [_ [Hm Hd] _ _ _] [Hc Hl] Hup Hj Ea. destruct (placed_at j r Hj) as [Hr Hu].
  destruct (placed_chunk used chunk n r Hchunk Hn Hdrive Hr) as (Hf & _ & Hn2 & _).
  pose proof Hr as (_ & Hlen & Hin & Hend & _). unfold BUFSIZ in Hlen.
  assert (Hup' : Forall (up (W := Backend)) (m_minions (manager s))) by exact Hup.
  assert (Hsplit : Split (k_from r) (k_len r) (m_MBMinion (manager s))
    (Z.of_nat (length (m_minions (manager s)))) = Ok [placed_segment chunk n r])
    by (rewrite Hc, Hl; apply Split_one; [lia|split; nia|lia|done]).
  assert (Hrange : in_range (manager s) (k_from r) (k_len r)).
  { destruct Hm as (_ & _ & Hds & _). unfold in_range. rewrite Hds, Hl, Hc. lia. }
  destruct (add_task_served make_ticket ticket_created make_closure (op_of r) (Z.of_nat j) (k_from r) (k_len r)
    (default [] (k_data r)) (manager s) (backend s) _ (next_ticket (backend s))
    [placed_segment chunk n r] Hm Hrange Hu Hup' Hsplit (announced_eq _ _ _ _ _ _ Hd)) as (ps' & logs & Eadd & Hserved).
  exists ps', logs. split; [|done]. exact (run_task_ok _ q (Z.of_nat j) r _ _ Ea Eadd).
Qed.

Lemma run_task_flight k replied i s s' :
  sane reqs k replied s -> shaped chunk n s ->
  Forall (fun p => UDPSocket.reliable (MinionProxy.m_socket p)) (m_minions (manager s)) ->
  run_task i s = (Ok tt, s') ->
  exists j r ps' logs, (j < k)%nat /\ reqs !! j = Some r
    /\ Master.m_queue s !! i = Some (task_of (Z.of_nat j) r)
    /\ s' = mk_Master (set_minions ps' (manager s))
         (add_logs logs (announce (make_Ticket (Z.of_nat j) (op_of r) (k_len r) [placed_segment chunk n r])
            (Z.of_nat j) (backend s))) (delete i (Master.m_queue s))
    /\ served (W := Backend) (Z.of_nat j) (imap pair [placed_segment chunk n r]
         ≫= segment_tasks make_closure (next_ticket (backend s))
              (message (op_of r) (Z.of_nat j) (default [] (k_data r)))) (m_minions (manager s)) ps'.
Proof using All.
  intros Hs Hsh Hup E. pose proof (sn_inv _ _ _ _ Hs) as [_ Hq].
  destruct (Master.m_queue s !! i) as [a|] eqn:Ea; [|unfold run_task in E; by rewrite Ea in E].
  assert (Ha : task_inv reqs k a) by (rewrite Forall_lookup in Hq; by eapply Hq).
  destruct Ha as (j & r & Hj & Hjk & ->).
  destruct (run_task_runs k replied i j r s Hs Hsh Hup Hj Ea) as (ps' & logs & E1 & Hserved).
  rewrite E1 in E. injection E as <-. exists j, r, ps', logs. by split_and!.
Qed.

(** The master reads the answer that is the first in the socket of minion [i]. *)
Lemma wakeup_flight i p addr m rest s :
  m_minions (manager s) !! i = Some p ->
  UDPSocket.incoming (MinionProxy.m_socket p) = Some (addr, packet_of m) :: rest -> good_answer (GetUID m) m ->
  minion_wakeup i s
  = let after map' := set_minions (<[i := mk_MinionProxy
        (UDPSocket.received addr rest (MinionProxy.m_socket p)) map']> (m_minions (manager s))) (manager s) in
    match m_map p !! GetUID m with
    | Some c =>
        let '(r, b') := respond c (message_seen m) (backend s) in
        (r, mk_Master (after match r with Ok _ => delete (GetUID m) (m_map p) | _ => m_map p end) b' (Master.m_queue s))
    | None => (Ok tt, mk_Master (after (m_map p))
        (log_entry "MinionProxy: unknown UID response" WARNING (backend s)) (Master.m_queue s))
    end.
Proof.
  intros Hp Ein (Hwf & Hlen & _ & Htype). unfold minion_wakeup, on_manager, minion. run_prog. cbn [fst snd].
  rewrite Nat2Z.id, Hp.
  assert (Hf : master_factory !! type_value (GetMessageType m) = Some (GetMessageType m))
    by (destruct Htype as [-> | ->]; reflexivity).
  rewrite (OnMinionFDWakeUp_message respond master_factory p (backend s) _ _ m Hwf Hlen Hf Ein).
  destruct (m_map p !! GetUID m) as [c|]; [|done]. by destruct (respond c (message_seen m) (backend s)).
Qed.

(** A minion reads the request that is the first in its socket. *)
Lemma input_flight size socket fs q log addr a rest :
  UDPSocket.incoming socket = Some (addr, packet_of a) :: rest -> servable_by size a ->
  exists log', minion_input (mk_Minion (mk_MasterProxy (Some socket)) fs q log)
    = (Ok tt, mk_Minion (mk_MasterProxy (Some (UDPSocket.received addr rest socket))) fs
        (q ++ [request_task (message_seen a)]) log').
Proof.
  intros Ein (Hreq & Hwf & Hlen & _). unfold minion_input, on_input, on_proxy. run_prog.
  cbn [fst snd proxy m_socket stream Minion.m_queue m_log].
  rewrite (GetTaskArgs_packet a _ rest socket log Hreq Hwf Hlen Ein).
  cbn [fst snd proxy m_socket stream Minion.m_queue m_log]. by eexists.
Qed.

Lemma input_waits socket fs q log m' :
  UDPSocket.incoming socket = [] ->
  minion_input (mk_Minion (mk_MasterProxy (Some socket)) fs q log) <> (Ok tt, m').
Proof.
  intros Ein. unfold minion_input, on_input, on_proxy, GetTaskArgs, MasterProxy.on_socket,
    UDPSocket.ReceiveFrom. run_prog. cbn [fst snd proxy m_socket stream Minion.m_queue m_log]. by rewrite Ein.
Qed.

(** Without a datagram it waits. *)
Lemma wakeup_waits i p s s' :
  m_minions (manager s) !! i = Some p -> UDPSocket.incoming (MinionProxy.m_socket p) = [] ->
  minion_wakeup i s <> (Ok tt, s').
Proof.
  intros Hp Ein. unfold minion_wakeup, on_manager, minion. run_prog. cbn [fst snd]. rewrite Nat2Z.id, Hp.
  unfold OnMinionFDWakeUp, MinionProxy.on_socket, UDPSocket.ReceiveFrom. run_prog.
  cbn [fst snd MinionProxy.m_socket]. by rewrite Ein.
Qed.

Lemma wakeup_minion i s s' :
  minion_wakeup i s = (Ok tt, s') -> exists p, m_minions (manager s) !! i = Some p.
Proof. intros (_ & p & _ & Hp & _)%minion_wakeup_effect. by exists p. Qed.
End flight.
