(* ===== verification/Degraded.v ===== *)
(** * Degraded

    The system when disks fail.  A minion whose disk does not take a write, or does
    not give a byte, never succeeds again ([minion_fail_stop] in [Minion.v]); as long
    as the other minion of the chunk is sound, its copy is what the kernel gets. *)

From S2P Require Import Prelude Bytes StripeSplitter Message TaskArgs Factory Sockets Logger.
From S2P Require Import Ticket IMinionProxy MinionProxy NBD NBDProxy World MinionManager Commands.
From S2P Require Import Framework Master Protocol Raid Service FileManager MasterProxy Minion Mirror Drive System.

(** ** Property *)

(** C4: the system survives its disks. For requests that lie inside chunks of which
    no two share a minion and fit into the packets, served one after the other over a
    network that delivers: the disks of the minions in [weak] may fail at any write or
    read, and lose or tear what they were given, as long as no chunk has both of its
    copies on such minions.  Every request is answered.  A read is answered with error
    0 and the bytes last written to its range, whether or not the writes were reported
    as successes, but in one case: when the backup of its chunk is weak and answers
    first, its failure is believed, and the reply can be [EIO] without data.  A write
    is reported as an error only if a minion of its chunk is weak, and it takes effect
    all the same. [first] in [orders] is the role that answers a request first. *)
Theorem survives_disk_failures `{LinuxNBD} (master_addr minion_addr : nat -> Z) (chunk : Z)
    (proxies : list (MinionProxy closure)) (tcp : TCPClient.t) (master : Master)
    (minions : list Minion) (used weak : gset nat) (reqs : list kernel_request) (orders : list MirrorRole)
    (Hchunk : 0 < chunk < 2 ^ 32 - 64) (Hn : apart (length proxies) used)
    (Hsize : Z.of_nat (length proxies) * chunk < 2 ^ 64)
    (Hreqs : Forall (placed used chunk (length proxies)) reqs)
    (Hmany : Z.of_nat (length reqs) < 2 ^ 64)
    (Hweak : forall c, c ∈ used -> c ∉ weak \/ next (length proxies) c ∉ weak)
    (Horders : length orders = length reqs)
    (Hboot : boot chunk proxies tcp = Ok master)
    (Hproxies : forall i p, proxies !! i = Some p -> link minion_addr i p /\ MinionProxy.m_map p = ∅)
    (Hstream : TCPClient.available (TCPClient.incoming tcp) = (reqs ≫= encode))
    (Hsent : TCPClient.sent tcp = []) (Hsends : TCPClient.sends_succeed tcp)
    (Hcount : length minions = length proxies)
    (Hminions : forall i m, minions !! i = Some m -> started chunk (bool_decide (i ∈ weak)) m) :
  exists oks s, for_each (serve_request master_addr minion_addr) (zip reqs orders)
      (mk_System master minions) = (Ok tt, s)
    /\ sys_steps master_addr minion_addr (mk_System master minions) s
    /\ sent_bytes (sys_master s)
       = drive_replies (zip reqs oks) (replicate (length proxies * Z.to_nat chunk) (Some Byte.x00))
    /\ Forall2 (may_report chunk (length proxies) weak) (zip reqs orders) oks.
Proof.
  destruct (system_serves master_addr minion_addr chunk proxies tcp master minions used reqs weak)
    with (orders := orders) as (oks & s & E & Hoks & Es); [done..|].
  exists oks, s. split; [done|]. split; [by eapply for_each_steps|]. by split.
Qed.

(** A write to the last chunk, whose minion has a disk that takes one byte of it; the
    write fails, and the read that follows gets the bytes from the first minion, the
    mirror.  When the mirror has this disk instead, the outcome of the read depends on
    the order of the answers. *)
Definition degraded_boot : res Minion := minion_boot (UDPSocket.mk 3 0 [] [] []) [] 8.

Definition degraded (m : Minion) : list Minion := [m; m; set_disk [(1%nat, [])] m].

Definition degraded_run (master : Master) (m : Minion) : res unit * System :=
  for_each (serve_request (fun i => 200 + Z.of_nat i) (fun i => 100 + Z.of_nat i))
    (zip disk_requests [PRIMARY; PRIMARY]) (mk_System master (degraded m)).

Lemma degraded_bytes :
  (master ← boot 8 disk_proxies disk_tcp; m ← degraded_boot;
   mret (sent_bytes (sys_master (degraded_run master m).2)))
  = Ok (wire_reply EIO sample_handle ++ wire_reply 0 sample_handle
         ++ [Some Byte.x00; Some Byte.x61; Some Byte.x62; Some Byte.x00]).
Proof. vm_compute. reflexivity. Qed.

Definition degraded_mirror (m : Minion) (first : MirrorRole) (master : Master) : res unit * System :=
  for_each (serve_request (fun i => 200 + Z.of_nat i) (fun i => 100 + Z.of_nat i))
    (zip disk_requests [PRIMARY; first]) (mk_System master [set_disk [(1%nat, [])] m; m; m]).

Lemma degraded_mirror_bytes :
  (master ← boot 8 disk_proxies disk_tcp; m ← degraded_boot;
   mret (sent_bytes (sys_master (degraded_mirror m PRIMARY master).2),
         sent_bytes (sys_master (degraded_mirror m BACKUP master).2)))
  = Ok (wire_reply EIO sample_handle ++ wire_reply 0 sample_handle
         ++ [Some Byte.x00; Some Byte.x61; Some Byte.x62; Some Byte.x00],
        wire_reply EIO sample_handle ++ wire_reply EIO sample_handle).
Proof. vm_compute. reflexivity. Qed.

Lemma survives_disk_failures_witness :
  exists master m oks s,
    boot 8 disk_proxies disk_tcp = Ok master /\ degraded_boot = Ok m
    /\ degraded_run master m = (Ok tt, s)
    /\ sent_bytes (sys_master s) = drive_replies (zip disk_requests oks) (replicate 24 (Some Byte.x00))
    /\ oks = [false; true].
Proof.
  destruct (boot 8 disk_proxies disk_tcp) as [master|e| |] eqn:E0;
    try (exfalso; revert E0; vm_compute; discriminate).
  destruct degraded_boot as [m|e| |] eqn:E1; try (exfalso; revert E1; vm_compute; discriminate).
  destruct (survives_disk_failures (fun i => 200 + Z.of_nat i) (fun i => 100 + Z.of_nat i) 8
    disk_proxies disk_tcp master (degraded m) {[2%nat]} {[2%nat]} disk_requests [PRIMARY; PRIMARY])
    as (oks & s & E & _ & Hs & Hoks); try done.
  - apply (single_apart 3 2); lia.
  - repeat constructor; simpl; unfold BUFSIZ; lia || done.
  - intros c ->%elem_of_singleton. right. simpl. set_solver.
  - intros [|[|[|i]]] p; [intros [= <-]..|done]; (split; [|done]);
      (split; [done|split; [constructor|done]]).
  - constructor.
  - intros [|[|[|i]]] m'; [intros [= <-]..|done];
      [apply (booted_started (UDPSocket.mk 3 0 [] [] []) []); (lia || done || constructor)..|].
    exists (UDPSocket.mk 3 0 [] [] []), [], m, [(1%nat, [])].
    split; [exact E1|]. split; [done|]. split; [|by split; [|constructor]].
    intros Hf%bool_decide_eq_false. set_solver.
  - exists master, m, oks, s. do 4 (split; [done|]).
    pose proof degraded_bytes as Hb. rewrite E0 in Hb. cbn [mbind res_bind] in Hb. rewrite E1 in Hb.
    injection Hb as Hb. unfold degraded_run in Hb. rewrite E in Hb. cbn [snd] in Hb. rewrite Hs in Hb.
    apply Forall2_cons_inv_l in Hoks as (ok & oks' & _ & Hoks & ->).
    apply Forall2_cons_inv_l in Hoks as (ok' & oks'' & Hread & Hnil & ->).
    apply Forall2_nil_inv_l in Hnil as ->. destruct Hread as [->|[[=] _]].
    destruct ok; [exfalso; revert Hb; vm_compute; discriminate|done].
Defined.
