(* ===== verification/Ordering.v ===== *)
(** * Ordering

    What the order of events does to the two copies of a chunk, when more than one
    request is on its way: runs of the system of [System.v] whose steps are chosen
    one by one.  No message carries its place in the order of the writes, and a
    minion takes every datagram that has the form of a request, so that copies can
    differ for good and a write that was acknowledged can be undone. *)

From S2P Require Import Prelude Bytes StripeSplitter Message TaskArgs Factory Sockets Logger.
From S2P Require Import Ticket IMinionProxy MinionProxy NBD NBDProxy World MinionManager Commands.
From S2P Require Import Framework Master Protocol Raid Service FileManager MasterProxy Minion Mirror Drive System.

(** ** Runs step by step *)

(** The steps of the system; a datagram is named by its place among those that its
    sender has sent. *)
Inductive move : Set :=
  | ReadRequest
  | RunTask (i : nat)
  | ToMinion (i datagram : nat)
  | MinionInput (j : nat)
  | MinionTask (j i : nat)
  | ToMaster (j datagram : nat)
  | ReadAnswer (i : nat).

Section moves.
Context `{LinuxNBD} (master_addr minion_addr : nat -> Z).

Definition run_move (m : move) : prog System unit := fun s =>
  match m with
  | ReadRequest => on_master nbd_wakeup s
  | RunTask i => on_master (run_task i) s
  | ReadAnswer i => on_master (minion_wakeup i) s
  | MinionInput j => on_minion j minion_input s
  | MinionTask j i => on_minion j (minion_run_task i) s
  | ToMinion i k =>
      match sent_to_minion i s !! k with
      | Some (addr, datagram) =>
          if bool_decide (addr = minion_addr i) then
            (Ok tt, mk_System (sys_master s)
               (alter (minion_deliver (master_addr i) datagram) i (sys_minions s)))
          else (Blocked, s)
      | None => (Blocked, s)
      end
  | ToMaster j k =>
      match sent_by_minion j s !! k with
      | Some (addr, datagram) =>
          if bool_decide (addr = master_addr j) then
            (Ok tt, mk_System (deliver j (minion_addr j) datagram (sys_master s)) (sys_minions s))
          else (Blocked, s)
      | None => (Blocked, s)
      end
  end.

Lemma run_move_step m s s' : run_move m s = (Ok tt, s') -> sys_step master_addr minion_addr s s'.
Proof.
  destruct m; cbn [run_move]; intros E; try by econstructor.
  - destruct (_ !! datagram) as [[addr d]|] eqn:Ed; [|done].
    case_bool_decide as Ha; [|done]. injection E as <-. subst addr.
    apply sys_to_minion. by eapply list_elem_of_lookup_2.
  - destruct (_ !! datagram) as [[addr d]|] eqn:Ed; [|done].
    case_bool_decide as Ha; [|done]. injection E as <-. subst addr.
    apply sys_to_master. by eapply list_elem_of_lookup_2.
Qed.

Lemma run_moves_steps l s s' :
  for_each run_move l s = (Ok tt, s') -> sys_steps master_addr minion_addr s s'.
Proof.
  revert s. induction l as [|m l IH]; intros s; [intros [= <-]; apply rtc_refl|].
  intros ([] & s1 & E1 & E2)%bind_ok_inv. eapply rtc_l; [by eapply run_move_step|by apply IH].
Qed.
End moves.

(** What reaches a minion, is read and run, and its answer, the [k]-th. *)
Definition request_arrives (i k : nat) : list move := [ToMinion i k; MinionInput i].
Definition answer_arrives (i k : nat) : list move := [ToMaster i k; ReadAnswer i].
Definition served_by_minion (i k : nat) : list move :=
  request_arrives i k ++ [MinionTask i 0] ++ answer_arrives i k.

(** The programs at their start: three minions with chunks of eight bytes. *)
Definition two_byte_write (x : Byte.byte) : kernel_request :=
  mk_kernel_request (Some [Some x; Some x]) sample_handle 19 2.
Definition two_byte_read : kernel_request := mk_kernel_request None sample_handle 19 2.

Definition small_start (reqs : list kernel_request) : res System :=
  master ← boot 8 disk_proxies (TCPClient.mk 6 [TCPClient.Data (reqs ≫= encode)] [] []);
  m ← minion_boot (UDPSocket.mk 3 0 [] [] []) [] 8;
  mret (mk_System master [m; m; m]).

Definition small_addr (base : Z) (i : nat) : Z := base + Z.of_nat i.

Lemma small_started reqs s0 :
  small_start reqs = Ok s0 ->
  exists tcp master minions, s0 = mk_System master minions /\ boot 8 disk_proxies tcp = Ok master
    /\ TCPClient.available (TCPClient.incoming tcp) = (reqs ≫= encode) /\ TCPClient.sent tcp = []
    /\ TCPClient.sends_succeed tcp /\ length minions = 3%nat
    /\ (forall i m, minions !! i = Some m -> started 8 false m /\ sent_by m = [])
    /\ (forall i p, disk_proxies !! i = Some p ->
         link (small_addr 100) i p /\ MinionProxy.m_map p = ∅ /\ UDPSocket.sent (MinionProxy.m_socket p) = []).
Proof.
  unfold small_start. set (tcp := TCPClient.mk 6 [TCPClient.Data (reqs ≫= encode)] [] []).
  destruct (boot 8 disk_proxies tcp) as [master|e| |] eqn:Eb; [|done..]. cbn [mbind res_bind].
  destruct (minion_boot (UDPSocket.mk 3 0 [] [] []) [] 8) as [m|e| |] eqn:Em; [|done..].
  cbn [mbind res_bind]. intros [= <-]. exists tcp, master, [m; m; m].
  destruct (boot_ready (UDPSocket.mk 3 0 [] [] []) [] 8) as (m' & E & _ & Hnone); [lia|done|constructor|].
  rewrite Em in E. injection E as <-.
  assert (Hst : started 8 false m) by (apply (booted_started (UDPSocket.mk 3 0 [] [] []) []); (lia || done || constructor)).
  do 2 (split; [done|]). split; [simpl; rewrite app_nil_r; by destruct (reqs ≫= encode)|]. split; [done|]. split; [constructor|]. split; [done|]. split.
  - by intros [|[|[|i]]] m'; [intros [= <-]..|].
  - intros [|[|[|i]]] p; [intros [= <-]..|done]; (split; [|done]); (split; [done|split; [constructor|done]]).
Qed.
Definition small_steps : System -> System -> Prop := sys_steps (small_addr 200) (small_addr 100).
Definition small_run (reqs : list kernel_request) (l : list move) : res cells :=
  s ← small_start reqs;
  let '(r, s) := for_each (run_move (small_addr 200) (small_addr 100)) l s in
  r ;; mret (sent_bytes (sys_master s)).

Lemma small_run_steps reqs l out :
  small_run reqs l = Ok out ->
  exists s0 s, small_start reqs = Ok s0 /\ small_steps s0 s /\ sent_bytes (sys_master s) = out.
Proof.
  unfold small_run. destruct (small_start reqs) as [s0|e| |]; [|done..]. cbn [mbind res_bind].
  destruct (for_each _ l s0) as [[[]|e| |] s] eqn:E; [|done..]. intros [= <-].
  exists s0, s. split; [done|]. split; [by eapply run_moves_steps|done].
Qed.

(** ** Two writes on their way *)

(** Both tasks wait in the queue of each minion; the pool of minion 0, which holds
    the mirror, takes the second one first. *)
Definition crossing : list move :=
  [ReadRequest; RunTask 0; ReadRequest; RunTask 0]
  ++ request_arrives 2 0 ++ request_arrives 2 1 ++ [MinionTask 2 0; MinionTask 2 0]
  ++ request_arrives 0 0 ++ request_arrives 0 1 ++ [MinionTask 0 1; MinionTask 0 0]
  ++ answer_arrives 2 0 ++ answer_arrives 2 1 ++ answer_arrives 0 0 ++ answer_arrives 0 1
  ++ [ReadRequest; RunTask 0] ++ served_by_minion 2 2 ++ served_by_minion 0 2
  ++ [ReadRequest; RunTask 0] ++ served_by_minion 0 3 ++ served_by_minion 2 3.

Definition write_a : kernel_request := two_byte_write Byte.x61.
Definition write_b : kernel_request := two_byte_write Byte.x62.

Definition answered_with (x : Byte.byte) `{LinuxNBD} : cells :=
  wire_reply 0 sample_handle ++ [Some x; Some x].

Lemma crossing_run :
  exists s0 s, small_start [write_a; write_b; two_byte_read; two_byte_read] = Ok s0 /\ small_steps s0 s
    /\ sent_bytes (sys_master s) = wire_reply 0 sample_handle ++ wire_reply 0 sample_handle
         ++ answered_with Byte.x62 ++ answered_with Byte.x61.
Proof. apply (small_run_steps _ crossing). vm_compute. reflexivity. Qed.

(** The copies of a chunk can differ for good: two writes to the same bytes that
    are both on their way may be run in different orders by the two minions, since
    the pool of a minion takes waiting tasks in any order.  Both are reported as
    successes, and two reads that follow, with error 0 both, give different bytes,
    whichever minion answers first. The network loses, copies and reorders nothing
    in this run. *)
Theorem mirrors_diverge :
  exists s0 s, small_start [write_a; write_b; two_byte_read; two_byte_read] = Ok s0 /\ small_steps s0 s
    /\ sent_bytes (sys_master s) = wire_reply 0 sample_handle ++ wire_reply 0 sample_handle
         ++ answered_with Byte.x62 ++ answered_with Byte.x61.
Proof. exact crossing_run. Qed.

(** ** A datagram that arrives twice *)

(** Both writes are served, one after the other; then the datagrams of the first
    arrive at both minions again. *)
Definition stale : list move :=
  [ReadRequest; RunTask 0] ++ served_by_minion 2 0 ++ served_by_minion 0 0
  ++ [ReadRequest; RunTask 0] ++ served_by_minion 2 1 ++ served_by_minion 0 1
  ++ request_arrives 2 0 ++ [MinionTask 2 0] ++ request_arrives 0 0 ++ [MinionTask 0 0]
  ++ [ReadRequest; RunTask 0] ++ request_arrives 2 2 ++ [MinionTask 2 0] ++ answer_arrives 2 3.

(** A write that was acknowledged is undone by a copy of an older datagram. *)
Theorem acknowledged_write_undone :
  exists s0 s, small_start [write_a; write_b; two_byte_read] = Ok s0 /\ small_steps s0 s
    /\ sent_bytes (sys_master s)
       = wire_reply 0 sample_handle ++ wire_reply 0 sample_handle ++ answered_with Byte.x61.
Proof. apply (small_run_steps _ stale). vm_compute. reflexivity. Qed.
