(* ===== verification/Integrity.v ===== *)
(** * Integrity

    What holds of the bytes whatever the network does: requests may be in flight
    together, datagrams may be lost, copied and reordered ([Ordering.v] shows what
    that can do), disks may fail.  An invariant of the whole system: nothing is read
    that was not written to that place. *)

From S2P Require Import Prelude Bytes StripeSplitter Message TaskArgs Factory Dispatcher Sockets Logger.
From S2P Require Import Ticket IMinionProxy MinionProxy NBD NBDProxy World ResponseManager MinionManager Commands.
From S2P Require Import Framework Master Protocol Raid Service FileManager MasterProxy Minion Mirror Drive System Flight Ordering.

(** After [k] requests, a byte that may be at position [p] of the drive: zero, or
    what one of the writes among them has for that position. *)
Definition value (reqs : list kernel_request) (k : nat) (p : Z) (x : option Byte.byte) : Prop :=
  x = Some Byte.x00 \/ exists i r data, (i < k)%nat /\ reqs !! i = Some r /\ k_data r = Some data
    /\ k_from r <= p /\ data !! Z.to_nat (p - k_from r) = Some x.

Definition values (reqs : list kernel_request) (k : nat) (from : Z) (l : cells) : Prop :=
  forall o x, l !! o = Some x -> value reqs k (from + Z.of_nat o) x.

Section integrity.
Context `{LinuxNBD} (master_addr minion_addr : nat -> Z).
Context (reqs : list kernel_request) (used weak : gset nat) (chunk : Z) (n : nat).
Hypothesis Hreqs : Forall (placed used chunk n) reqs.
Hypothesis Hmany : Z.of_nat (length reqs) < 2 ^ 64.
Hypothesis Hchunk : 0 < chunk < 2 ^ 32 - 64.
Hypothesis Hn : apart n used.
Hypothesis Hdrive : Z.of_nat n * chunk < 2 ^ 64.

Abbreviation size := (Z.to_nat chunk).
Abbreviation value := (value reqs).
Abbreviation values := (values reqs).
Abbreviation seg r := (placed_segment chunk n r).
Abbreviation asks i r := (placed_message chunk n r (Z.of_nat i)).

(** *** The invariant *)

(** The messages on the way: the request of one of the minions, any answer to it;
    the data of a successful read are values of the range. *)
Definition request_for (k j : nat) (m : AMessage) : Prop := exists i r role,
  (i < k)%nat /\ reqs !! i = Some r /\ j = minion_of (seg r) role /\ m = asks i r.

Definition read_values (k : nat) (r : kernel_request) (data : cells) : Prop :=
  Z.of_nat (length data) = k_len r /\ values k (k_from r) data.

Definition answer_to (k : nat) (m : AMessage) : Prop := exists i r ok data,
  (i < k)%nat /\ reqs !! i = Some r /\ m = minion_answer (asks i r) ok data
  /\ (ok = true -> k_data r = None -> read_values k r data).

Record proxy_fine (k i : nat) (p : MinionProxy closure) : Prop := {
  pf_reliable : UDPSocket.reliable (MinionProxy.m_socket p);
  pf_peer : UDPSocket.m_serveraddr (MinionProxy.m_socket p) = minion_addr i;
  pf_in : Forall (fun x => exists m, x = Some (minion_addr i, packet_of m) /\ answer_to k m)
    (UDPSocket.incoming (MinionProxy.m_socket p));
  pf_out : Forall (fun x => exists m, x = (minion_addr i, packet_of m) /\ request_for k i m)
    (UDPSocket.sent (MinionProxy.m_socket p));
}.

Record minion_fine (k j : nat) (m : Minion) : Prop := {
  mf_socket : exists socket, proxy m = mk_MasterProxy (Some socket) /\ UDPSocket.reliable socket
    /\ (Minion.m_queue m = [] \/ UDPSocket.m_serveraddr socket = master_addr j)
    /\ Forall (fun x => exists m, x = Some (master_addr j, packet_of m) /\ request_for k j m)
         (UDPSocket.incoming socket)
    /\ Forall (fun x => exists m, x = (master_addr j, packet_of m) /\ answer_to k m)
         (UDPSocket.sent socket);
  mf_queue : Forall (fun a => exists m, a = request_task (message_seen m) /\ request_for k j m)
    (Minion.m_queue m);
  mf_disk : exists d, keeps (bool_decide (j ∈ weak)) d (stream m) /\ length d = size
    /\ values k (Z.of_nat (base used n j) * chunk) d;
}.

(** A ticket remembers answers to its request. *)
Definition heard (k i : nat) (a : answer) : Prop := exists m,
  a.2 = Some (message_seen m) /\ answer_to k m /\ GetUID m = Z.of_nat i.

Definition ticket_fine (k : nat) (t : Ticket ticket_callback) : Prop := exists i r hc,
  (i < k)%nat /\ reqs !! i = Some r
  /\ t = ticket_of (Z.of_nat i) (op_of r) (k_len r) [seg r] [TicketDone] hc /\ Forall (heard k i) hc.1.

Definition reply_fine (k : nat) (x : reply) : Prop :=
  (x.1.1 < k)%nat /\ reply_ok reqs x /\ forall r, reqs !! x.1.1 = Some r -> values k (k_from r) x.2.

Record fine (k : nat) (s : System) : Prop := {
  fi_sane : exists replied, sane reqs k replied (sys_master s);
  fi_shape : shaped chunk n (sys_master s);
  fi_replies : exists replied, sent_bytes (sys_master s) = (replied ≫= reply_bytes reqs)
    /\ Forall (reply_fine k) replied;
  fi_tickets : Forall (ticket_fine k) (w_tickets (b_world (backend (sys_master s))));
  fi_proxies : forall i p, m_minions (manager (sys_master s)) !! i = Some p -> proxy_fine k i p;
  fi_count : length (sys_minions s) = n;
  fi_minions : forall j m, sys_minions s !! j = Some m -> minion_fine k j m;
}.

(** All of it stays when more requests have been read. *)
Lemma values_mono k k' from l : (k <= k')%nat -> values k from l -> values k' from l.
Proof.
  intros Hk Hl o x Ho. destruct (Hl o x Ho) as [?|(i & r & data & ? & ?)]; [by left|].
  right. exists i, r, data. split; [lia|done].
Qed.

Lemma request_for_mono k k' j m : (k <= k')%nat -> request_for k j m -> request_for k' j m.
Proof. intros Hk (i & r & role & ? & ?). exists i, r, role. split; [lia|done]. Qed.

Lemma answer_to_mono k k' m : (k <= k')%nat -> answer_to k m -> answer_to k' m.
Proof.
  intros Hk (i & r & ok & data & ? & ? & ? & Hd). exists i, r, ok, data. split; [lia|].
  do 2 (split; [done|]). intros Hok Hr. destruct (Hd Hok Hr). split; [done|by eapply values_mono].
Qed.

#[local] Hint Resolve values_mono request_for_mono answer_to_mono : core.

Ltac mono := eapply Forall_impl; [eassumption|]; intros ? (? & ? & ?); eexists; split; [eassumption|by eauto].

Lemma proxy_fine_mono k k' i p : (k <= k')%nat -> proxy_fine k i p -> proxy_fine k' i p.
Proof. intros Hk []. constructor; [done|done|mono|mono]. Qed.

Lemma minion_fine_mono k k' j m : (k <= k')%nat -> minion_fine k j m -> minion_fine k' j m.
Proof.
  intros Hk [(socket & Hp & Hr & Ha & Hin & Hout) Hq (d & Hd & Hl & Hv)]. constructor.
  - exists socket. do 3 (split; [done|]). split; mono.
  - mono.
  - exists d. eauto.
Qed.

Lemma ticket_fine_mono k k' t : (k <= k')%nat -> ticket_fine k t -> ticket_fine k' t.
Proof.
  intros Hk (i & r & hc & Hi & Hr & Ht & Hh). exists i, r, hc. split; [lia|]. do 2 (split; [done|]).
  eapply Forall_impl; [exact Hh|]. intros a (m & ? & ? & ?). exists m. eauto.
Qed.

Lemma reply_fine_mono k k' x : (k <= k')%nat -> reply_fine k x -> reply_fine k' x.
Proof. intros Hk (? & ? & Hv). split; [lia|]. split; [done|]. eauto. Qed.

(** *** The minions *)

(** A request leaves the values of its chunk in order, and reads them. *)
Lemma request_values k i r d :
  (i < k)%nat -> reqs !! i = Some r ->
  let from := Z.of_nat (Z.to_nat (k_from r `div` chunk)) * chunk in
  length d = size -> values k from d ->
  let '(ok, data, d') := array_op (request_op (asks i r)) d in
  length d' = size /\ values k from d' /\ (k_data r = None -> read_values k r data).
Proof using All.
  intros Hik Hi from Hd Hv. destruct (placed_at reqs used chunk n Hreqs Hmany Hchunk Hn Hdrive i r Hi) as [Hr _].
  destruct (placed_chunk used chunk n r Hchunk Hn Hdrive Hr) as (Hf & _ & _ & _ & _ & Hfrom & Hmod).
  rewrite (placed_message_op used chunk n r Hchunk Hn Hdrive Hr).
  destruct Hr as ((_ & _ & _ & Hdata) & Hl & Hin & _). fold from in Hfrom.
  destruct (k_data r) as [bytes|] eqn:Edata; cbn [array_op].
  - fold (splice (Z.to_nat (k_from r `mod` chunk)) bytes d).
    assert (Hfit : (Z.to_nat (k_from r `mod` chunk) + length bytes <= length d)%nat) by lia.
    split; [by rewrite length_splice|]. split; [|done]. intros o x. rewrite lookup_splice by done.
    case_decide as Ho; [|apply Hv]. intros Hx. right. exists i, r, bytes. do 3 (split; [done|]).
    split; [lia|]. rewrite <-Hx. f_equal. lia.
  - split; [done|]. split; [done|]. intros _. split; [rewrite length_take, length_drop; lia|].
    intros o x. intros [Ho Hx]%lookup_take_Some. rewrite lookup_drop in Ho. apply Hv in Ho.
    replace (k_from r + Z.of_nat o) with (from + Z.of_nat (Z.to_nat (k_from r `mod` chunk) + o)) by lia. done.
Qed.

(** A datagram of the master is a request that the minion can serve. *)
Lemma request_for_servable k j m : request_for k j m -> servable_by size m.
Proof using All.
  intros (i & r & role & _ & Hi & _ & ->).
  by apply (request_servable reqs used chunk n Hreqs Hmany Hchunk Hn Hdrive).
Qed.

Lemma minion_input_fine k j m m' :
  minion_fine k j m -> minion_input m = (Ok tt, m') -> minion_fine k j m'.
Proof using All.
  intros [(socket & Hp & Hr & Ha & Hin & Hout) Hq Hd] E. destruct m as [p fs q log].
  cbn [proxy stream Minion.m_queue] in *. subst p.
  destruct (UDPSocket.incoming socket) as [|x rest] eqn:Ein; [by apply input_waits in E|].
  apply Forall_cons in Hin as [(a & -> & Hm) Hrest].
  destruct (input_flight size socket fs q log _ _ _ Ein (request_for_servable k j a Hm)) as (log' & Er).
  rewrite Er in E. injection E as <-.
  constructor; [|..|exact Hd].
  - eexists. split; [reflexivity|]. split; [exact Hr|]. split; [by right|]. done.
  - cbn [Minion.m_queue]. apply Forall_app. split; [done|]. repeat constructor. by exists a.
Qed.

Lemma minion_task_fine k j i m m' :
  minion_fine k j m -> minion_run_task i m = (Ok tt, m') -> minion_fine k j m'.
Proof using All.
  intros [(socket & Hp & Hr & Ha & Hin & Hout) Hq (d & Hd & Hl & Hv)] E. destruct m as [p fs q log].
  cbn [proxy stream Minion.m_queue] in *. subst p.
  destruct (q !! i) as [a|] eqn:Ei; [|revert E; unfold minion_run_task; cbn [Minion.m_queue]; by rewrite Ei].
  assert (Hm : exists m, a = request_task (message_seen m) /\ request_for k j m)
    by (rewrite Forall_lookup in Hq; by eapply Hq).
  destruct Hm as (m & -> & Hm). pose proof (request_for_servable k j m Hm) as Hs.
  destruct Ha as [->|Ha]; [done|]. pose proof Hm as (t & r & role & Ht & Hrt & Hj & ->).
  destruct (placed_at reqs used chunk n Hreqs Hmany Hchunk Hn Hdrive t r Hrt) as [Hrp _]. destruct (request_base reqs used chunk n Hreqs Hmany Hchunk Hn Hdrive r role Hrp) as [Hbase _]. rewrite <-Hj in Hbase.
  pose proof (request_values k t r d Ht Hrt Hl) as Hval. rewrite Hbase in Hv. specialize (Hval Hv).
  destruct (keeps_op _ _ d fs Hd ltac:(rewrite Hl; apply Hs) ltac:(lia)) as (ok & data & fs' & Eop & Hd' & Hdata & _).
  destruct (array_op _ d) as [[ok0 data0] d'] eqn:Earr. cbn [fst snd] in *. destruct Hval as (Hl' & Hv' & Hread).
  destruct (run_request i q _ size socket fs log ok data fs' Ei Hs ltac:(lia) Hr Eop)
    as (socket' & Erun & Hr' & Hin' & Haddr' & Hsent').
  rewrite Erun in E. injection E as <-. constructor; cbn [proxy stream Minion.m_queue].
  - exists socket'. split; [done|]. split; [done|].
    split; [right; by rewrite Haddr'|]. rewrite Hin', Hsent', Ha. split; [done|].
    apply Forall_app. split; [done|]. repeat constructor. eexists. split; [reflexivity|].
    exists t, r, ok, data. do 3 (split; [done|]). intros Hok Hrd. rewrite (Hdata Hok). by apply Hread.
  - rewrite delete_take_drop. apply Forall_app. split; [by apply Forall_take|by apply Forall_drop].
  - exists d'. rewrite Hbase. done.
Qed.

(** *** Answers *)

Lemma answer_good k m : answer_to k m -> good_answer (GetUID m) m.
Proof using All.
  intros (i & r & ok & data & _ & Hi & -> & _). destruct (placed_at reqs used chunk n Hreqs Hmany Hchunk Hn Hdrive i r Hi) as [Hr Hu].
  pose proof (placed_answer used chunk n r Hchunk Hn Hdrive Hr (Z.of_nat i) ok data Hu) as Hg.
  pose proof Hg as (_ & _ & -> & _). exact Hg.
Qed.

(** A good answer to a read has values of its range. *)
Lemma heard_data k i r a m :
  reqs !! i = Some r -> k_data r = None -> heard k i a -> a.2 = Some m -> GetResult m = true ->
  exists data, GetData m = Some data /\ read_values k r data.
Proof using All.
  intros Hi Hread (m' & Ha & (i' & r' & ok & data & Hik & Hi' & -> & Hd) & Hu) Hm Hok.
  destruct (placed_at reqs used chunk n Hreqs Hmany Hchunk Hn Hdrive i' r' Hi') as [Hr' Hu'].
  pose proof (placed_answer used chunk n r' Hchunk Hn Hdrive Hr' (Z.of_nat i') ok data Hu') as (_ & _ & Huid & _).
  rewrite Huid in Hu. apply Nat2Z.inj in Hu as ->. assert (r' = r) as -> by congruence.
  rewrite Ha in Hm. injection Hm as <-. rewrite (placed_answer_eq used chunk n r Hchunk Hn Hdrive Hr'), Hread in Hok |- *.
  assert (Hok' : ok = true) by (by destruct ok). destruct (Hd Hok' Hread) as [Hlen Hv].
  exists data. split; [|done]. simpl. f_equal. rewrite <-Hlen, Nat2Z.id. by apply read_cells_exact.
Qed.

(** What a ticket that is complete puts on the wire. *)
Lemma sent_fine k i r hc a hc' result :
  (i < k)%nat -> reqs !! i = Some r -> Forall (heard k i) hc.1 -> heard k i a ->
  spec_step (Z.of_nat i) (op_of r) (k_len r) [seg r] hc a = (hc', Some result) ->
  exists x, sent_for r (Some result) = reply_bytes reqs x /\ reply_fine k x.
Proof using All.
  intros Hik Hi Hh Ha E. destruct (placed_at reqs used chunk n Hreqs Hmany Hchunk Hn Hdrive i r Hi) as [Hr _]. destruct hc as [h c]. cbn [fst] in Hh.
  destruct (placed_segment_eq used chunk n r Hchunk Hn Hdrive Hr) as (Hlen & _).
  pose proof Hr as (_ & Hl & _).
  revert E. unfold spec_step. destruct (_ || _); [done|]. destruct (forallb _ _); [|done]. intros [= _ <-].
  assert (Hall : Forall (heard k i) (h ++ [a])) by (apply Forall_app; by repeat constructor).
  set (h' := h ++ [a]) in *. unfold Ticket.verdict. cbn [seq forallb length]. rewrite andb_true_r.
  assert (Hnodata : forall ok : bool, (ok = false \/ op_of r <> READ) ->
    exists x, sent_for r (Some (mk_TaskResult (Z.of_nat i) ok (k_len r) None)) = reply_bytes reqs x /\ reply_fine k x).
  { intros ok Hok. exists (i, ok, []). rewrite (reply_bytes_eq reqs i r) by done. split; [done|]. split; [done|].
    split; [|by intros ? _ ? ?]. exists r. split; [done|].
    by destruct Hok as [->|Hop]; [|rewrite bool_decide_eq_false_2, andb_false_r by done]. }
  destruct (successful (op_of r) h' 0) eqn:Esucc; cbn [andb]; [|apply Hnodata; by left].
  case_bool_decide as Hop; [|apply Hnodata; by right].
  assert (Hread : k_data r = None) by (revert Hop; unfold op_of; by destruct (k_data r)).
  rewrite Hop in Esucc. cbn [successful] in Esucc.
  set (best := if msg_ok (Ticket.reply h' 0 PRIMARY) then Ticket.reply h' 0 PRIMARY else Ticket.reply h' 0 BACKUP).
  assert (Hbest : exists role, best = Ticket.reply h' 0 role /\ msg_ok best = true)
    by (unfold best; destruct (msg_ok (Ticket.reply h' 0 PRIMARY)) eqn:Ep; eauto).
  destruct Hbest as (role & Hb & Hok). unfold Ticket.reply in Hb.
  destruct (latest h' 0 role) as [m|] eqn:El; cbn [mjoin option_join] in Hb; [|by rewrite Hb in Hok].
  apply latest_elem in El. rewrite Forall_forall in Hall. specialize (Hall _ El).
  destruct m as [m|]; cbn [mjoin option_join] in Hb; rewrite Hb in Hok; [|done].
  destruct (heard_data k i r _ m Hi Hread Hall eq_refl Hok) as (data & Hdata & Hdl & Hv).
  exists (i, true, data). rewrite (reply_bytes_eq reqs i r) by done. split.
  - cbn [sent_for tr_result tr_buffer tr_length imap concat]. f_equal. unfold piece. fold best. rewrite Hb.
    cbn [msg_data mbind option_bind]. rewrite Hdata, Hlen. cbn [default id concat]. rewrite app_nil_r.
    rewrite read_cells_exact by (rewrite length_read_cells; done). apply read_cells_exact. lia.
  - split; [done|]. split; [|intros r' Hi'; cbn [fst] in Hi'; simplify_eq; done].
    exists r. split; [done|]. rewrite bool_decide_eq_true_2 by done. done.
Qed.

(** *** The master *)

(** The proxy that has read an answer. *)
Lemma received_fine k i p m rest map' :
  proxy_fine k i p -> UDPSocket.incoming (MinionProxy.m_socket p) = Some (minion_addr i, packet_of m) :: rest ->
  proxy_fine k i (mk_MinionProxy (UDPSocket.received (minion_addr i) rest (MinionProxy.m_socket p)) map').
Proof using All.
  intros [Hrel Hpeer Hin Hout] E. rewrite E in Hin. apply Forall_cons in Hin as [_ Hin]. by constructor.
Qed.

Lemma minion_wakeup_fine k s i s' :
  fine k s -> minion_wakeup i (sys_master s) = (Ok tt, s') -> fine k (mk_System s' (sys_minions s)).
Proof using All.
  intros [[replied Hsane] [Hc Hl] (out & Hsent & Hout) Htick Hprox Hcount Hmin] E.
  destruct (minion_wakeup_sane reqs (requests_wf reqs used chunk n Hreqs) k replied i _ s' Hsane E) as [replied' Hsane'].
  destruct (wakeup_minion i _ s' E) as [p Hp]. pose proof (Hprox i p Hp) as Hpf. pose proof (pf_in _ _ _ Hpf) as Hin.
  destruct (UDPSocket.incoming (MinionProxy.m_socket p)) as [|x rest] eqn:Ein; [by destruct (wakeup_waits i p _ s' Hp Ein E)|].
  apply Forall_cons in Hin as [(m & -> & Hm) _]. revert E.
  rewrite (wakeup_flight i p _ m rest _ Hp Ein (answer_good k m Hm)). cbv zeta.
  assert (Hproxies : forall map' j q,
    <[i := mk_MinionProxy (UDPSocket.received (minion_addr i) rest (MinionProxy.m_socket p)) map']>
      (m_minions (manager (sys_master s))) !! j = Some q -> proxy_fine k j q).
  { intros map' j q [(<- & <- & _)|[_ Hj]]%list_lookup_insert_Some; [by eapply received_fine|by apply Hprox]. }
  destruct (m_map p !! GetUID m) as [[[t idx] role]|] eqn:Ewait; cbn [fst snd].
  2:{ intros [= <-]. constructor; cbn [sys_master sys_minions]; try done; [by exists replied'| | |].
      - split; [exact Hc|]. cbn [manager set_minions m_minions]. by rewrite length_insert.
      - exists out. split; [exact Hsent|done].
      - intros j q. apply Hproxies. }
  pose proof (sn_closures _ _ _ _ Hsane) as Hcl. rewrite Forall_lookup in Hcl. specialize (Hcl i p Hp _ _ Ewait).
  cbn [fst] in Hcl. rewrite list_lookup_fmap in Hcl.
  destruct (w_tickets (b_world (backend (sys_master s))) !! t) as [tk|] eqn:Et; [|done]. injection Hcl as Hu.
  rewrite Forall_lookup in Htick. destruct (Htick t tk Et) as (i0 & r & hc & Hik & Hi & -> & Hh).
  cbn [ticket_of Ticket.m_uid] in Hu.
  pose proof (respond_sends reqs used chunk n Hreqs Hmany Hchunk Hn Hdrive k replied (backend (sys_master s)) t role idx (message_seen m) i0 r hc
    (mi_backend _ _ _ _ (sn_inv _ _ _ _ Hsane)) Hi Et) as Hr.
  assert (Ha : heard k i0 (idx, role, Some (message_seen m))) by (exists m; by rewrite Hu).
  destruct (spec_step _ _ _ _ hc _) as [hc' res] eqn:Espec. destruct Hr as (b' & Er & Ht' & Hsent').
  rewrite Er. intros [= <-]. constructor; cbn [sys_master sys_minions]; try done; [by exists replied'| | | |].
  - split; [exact Hc|]. cbn [manager set_minions m_minions]. by rewrite length_insert.
  - unfold sent_bytes in *. cbn [backend]. destruct Hsent' as [[-> _]|(-> & [result ->] & _)]; [by exists out|].
    destruct (sent_fine k i0 r hc _ hc' result Hik Hi Hh Ha Espec) as (x & -> & Hx).
    exists (out ++ [x]). rewrite Hsent, bind_app. cbn [mbind list_bind]. rewrite app_nil_r. split; [done|].
    apply Forall_app. split; [done|by apply Forall_singleton].
  - cbn [backend]. rewrite Ht'. apply Forall_insert; [by apply Forall_lookup|]. exists i0, r, hc'.
    do 3 (split; [done|]). revert Espec. unfold spec_step. destruct hc as [h c]. cbn [fst] in *.
    destruct (_ || _); [by intros [= <- _]|].
    destruct (forallb _ _); intros [= <- _]; cbn [fst];
      (apply Forall_app; split; [done|by apply Forall_singleton]).
  - intros j q. apply Hproxies.
Qed.

(** A proxy after the tasks of a request. *)
Lemma served_fine k i r p p' j :
  (i < k)%nat -> reqs !! i = Some r -> proxy_fine k j p ->
  UDPSocket.reliable (MinionProxy.m_socket p') ->
  UDPSocket.m_serveraddr (MinionProxy.m_socket p') = UDPSocket.m_serveraddr (MinionProxy.m_socket p) ->
  UDPSocket.incoming (MinionProxy.m_socket p') = UDPSocket.incoming (MinionProxy.m_socket p) ->
  (exists t, UDPSocket.sent (MinionProxy.m_socket p') = UDPSocket.sent (MinionProxy.m_socket p)
    ++ ((fun t => (UDPSocket.m_serveraddr (MinionProxy.m_socket p), packet_of t.2)) <$>
         tasks_for j (imap pair [seg r] ≫= segment_tasks make_closure t
           (message (op_of r) (Z.of_nat i) (default [] (k_data r)))))) ->
  proxy_fine k j p'.
Proof using All.
  intros Hik Hi [Hrel Hpeer Hin Hout] Hrel' Hpeer' Hin' [t Hout']. rewrite Hpeer in Hpeer', Hout'.
  constructor; [done|done|by rewrite Hin'|]. rewrite Hout'. apply Forall_app. split; [done|].
  apply Forall_fmap, Forall_forall. intros [[idx c] m] Ht. unfold tasks_for in Ht.
  apply list_elem_of_filter in Ht as [Hj Ht]. cbn [fst snd] in Hj |- *.
  exists m. split; [done|]. exists i, r.
  cbn [imap mbind list_bind app segment_tasks fst snd] in Ht.
  apply elem_of_cons in Ht as [[= -> _ ->]|Ht]; [exists PRIMARY; by split_and!|].
  apply list_elem_of_singleton in Ht as [= -> _ ->]. exists BACKUP. by split_and!.
Qed.

Lemma run_task_fine k s i s' :
  fine k s -> run_task i (sys_master s) = (Ok tt, s') -> fine k (mk_System s' (sys_minions s)).
Proof using All.
  intros [[replied Hsane] [Hc Hl] (out & Hsent & Hout) Htick Hprox Hcount Hmin] E.
  pose proof (run_task_sane reqs k replied i _ s' Hsane E) as Hsane'.
  destruct (run_task_flight reqs used chunk n Hreqs Hmany Hchunk Hn Hdrive k replied i _ s' Hsane (conj Hc Hl))
    as (j & r & ps' & logs & Hjk & Hj & _ & -> & Hps & Hserved); [|done|].
  { apply Forall_lookup_2. intros x p Hp. apply (Hprox x p Hp). }
  constructor; cbn [sys_master sys_minions]; try done; [by exists replied|..].
  - split; [exact Hc|]. cbn [manager set_minions m_minions]. by rewrite Hps.
  - exists out. split; [|done]. rewrite <-Hsent. unfold sent_bytes. cbn [backend].
    by rewrite (proj2 (tickets_logs logs _)).
  - cbn [backend]. rewrite (proj1 (tickets_logs logs _)). unfold announce. cbn [b_world w_tickets].
    apply Forall_app. split; [done|]. apply Forall_singleton. exists j, r, ([], false). by split_and!.
  - intros x p'. cbn [manager set_minions m_minions]. intros Hp'.
    destruct (lookup_lt_is_Some_2 (m_minions (manager (sys_master s))) x) as [p Hp];
      [rewrite <-Hps; by eapply lookup_lt_Some|].
    destruct (Hserved x p p' Hp Hp') as (Hup' & _ & Hpeer & Hinbox & Houtbox & _).
    by apply (served_fine k j r p p' x Hjk Hj (Hprox x p Hp) Hup' Hpeer Hinbox); eexists.
Qed.

Lemma nbd_wakeup_fine k s s' :
  fine k s -> nbd_wakeup (sys_master s) = (Ok tt, s') -> fine (S k) (mk_System s' (sys_minions s)).
Proof using All.
  intros [[replied Hsane] [Hc Hl] (out & Hsent & Hout) Htick Hprox Hcount Hmin] E.
  pose proof (requests_wf reqs used chunk n Hreqs) as Hwf.
  pose proof (nbd_wakeup_sane reqs Hwf Hmany k replied _ s' Hsane E) as Hsane'.
  pose proof (nbd_wakeup_inv reqs Hwf Hmany k replied _ (sn_inv _ _ _ _ Hsane)) as Hn'. rewrite E in Hn'.
  destruct Hn' as (r & Hr & _).
  destruct (nbd_wakeup_request reqs Hwf Hmany k replied _ r (sn_inv _ _ _ _ Hsane) Hr)
    as (s1 & E1 & _ & Em & Et & _ & _ & Es).
  rewrite E1 in E. injection E as ->. constructor; cbn [sys_master sys_minions]; [by exists replied|..].
  - unfold shaped. by rewrite Em.
  - exists out. split; [unfold sent_bytes in *; congruence|]. eapply Forall_impl; [exact Hout|].
    intros x. apply reply_fine_mono. lia.
  - rewrite Et. eapply Forall_impl; [exact Htick|]. intros t. apply ticket_fine_mono. lia.
  - rewrite Em. intros i p Hp. apply (proxy_fine_mono k); [lia|by apply Hprox].
  - done.
  - intros j m Hj. apply (minion_fine_mono k); [lia|by apply Hmin].
Qed.

(** *** The network *)

Hypothesis Hmasters : forall i j, (i < n)%nat -> (j < n)%nat -> master_addr i = master_addr j -> i = j.
Hypothesis Hminions : forall i j, (i < n)%nat -> (j < n)%nat -> minion_addr i = minion_addr j -> i = j.

Lemma to_minion_fine k s i j datagram :
  fine k s -> (minion_addr j, datagram) ∈ sent_to_minion i s ->
  fine k (mk_System (sys_master s) (alter (minion_deliver (master_addr i) datagram) j (sys_minions s))).
Proof using All.
  intros [Hsane Hsh Hout Htick Hprox Hcount Hmin] Hin. constructor; try done;
    cbn [sys_minions]; [by rewrite length_alter|].
  intros j' m'. rewrite list_lookup_alter. case_decide as Hj; [subst j'|apply Hmin].
  destruct (sys_minions s !! j) as [m|] eqn:Em; [|done]. intros [= <-].
  unfold sent_to_minion in Hin.
  destruct (m_minions (manager (sys_master s)) !! i) as [p|] eqn:Ep; [|by apply not_elem_of_nil in Hin].
  pose proof (pf_out _ _ _ (Hprox i p Ep)) as Hsent. rewrite Forall_forall in Hsent.
  destruct (Hsent _ Hin) as (a & [= Haddr ->] & Ha).
  apply Hminions in Haddr as <-; [|apply lookup_lt_Some in Em; lia
    |destruct Hsh as [_ <-]; by eapply lookup_lt_Some].
  destruct (Hmin j m Em) as [(socket & Hp & Hr & Hqa & Hinc & Hs) Hq Hd]. constructor; [|done|done].
  exists (UDPSocket.deliver (master_addr j) (packet_of a) socket). cbn [minion_deliver proxy Minion.m_queue].
  rewrite Hp. do 3 (split; [done|]). split; [|done]. cbn [UDPSocket.deliver UDPSocket.incoming].
  apply Forall_app. split; [done|]. apply Forall_singleton. by exists a.
Qed.

Lemma to_master_fine k s i j datagram :
  fine k s -> (master_addr i, datagram) ∈ sent_by_minion j s ->
  fine k (mk_System (deliver i (minion_addr j) datagram (sys_master s)) (sys_minions s)).
Proof using All.
  intros [[replied Hsane] [Hc Hl] Hout Htick Hprox Hcount Hmin] Hin. constructor; try done;
    cbn [sys_master].
  - exists replied. by apply deliver_sane.
  - split; [exact Hc|]. unfold deliver. cbn [manager set_minions m_minions]. by rewrite length_alter.
  - intros i' p'. unfold deliver. cbn [manager set_minions m_minions]. rewrite list_lookup_alter.
    case_decide as Hi; [subst i'|apply Hprox].
    destruct (m_minions (manager (sys_master s)) !! i) as [p|] eqn:Ep; [|done]. intros [= <-].
    unfold sent_by_minion in Hin.
    destruct (sys_minions s !! j) as [m|] eqn:Em; [|by apply not_elem_of_nil in Hin].
    destruct (mf_socket _ _ _ (Hmin j m Em)) as (socket & Hp & _ & _ & _ & Hs).
    unfold sent_by in Hin. rewrite Hp in Hin. cbn [m_socket] in Hin. rewrite Forall_forall in Hs.
    destruct (Hs _ Hin) as (a & [= Haddr ->] & Ha).
    apply Hmasters in Haddr as <-; [|rewrite <-Hl; by eapply lookup_lt_Some|apply lookup_lt_Some in Em; lia].
    destruct (Hprox i p Ep) as [Hr Hpeer Hinc Ho]. constructor; [done|done| |done].
    cbn [MinionProxy.m_socket UDPSocket.deliver UDPSocket.incoming].
    apply Forall_app. split; [done|]. apply Forall_singleton. by exists a.
Qed.

Lemma on_minion_fine k s s' j f :
  (forall m m', minion_fine k j m -> f m = (Ok tt, m') -> minion_fine k j m') ->
  fine k s -> on_minion j f s = (Ok tt, s') -> fine k s'.
Proof using All.
  intros Hf [Hsane Hsh Hout Htick Hprox Hcount Hmin]. unfold on_minion.
  destruct (sys_minions s !! j) as [m|] eqn:Em; [|done].
  destruct (f m) as [r m'] eqn:E. intros [= -> <-].
  constructor; try done; cbn [sys_minions]; [by rewrite length_insert|].
  intros j' m'' [(<- & <- & _)|[_ Hj]]%list_lookup_insert_Some; [|by apply Hmin].
  by apply (Hf m); [apply Hmin|].
Qed.

Lemma step_fine k s s' :
  fine k s -> sys_step master_addr minion_addr s s' -> exists k', fine k' s'.
Proof using All.
  intros Hs Hstep.
  assert (Hmaster : forall f, on_master f s = (Ok tt, s') -> exists t, f (sys_master s) = (Ok tt, t)
    /\ s' = mk_System t (sys_minions s)).
  { intros f. unfold on_master, zoom. destruct (f (sys_master s)) as [r t]. intros [= -> <-]. by exists t. }
  destruct Hstep as [s s' E|i s s' E|i s s' E|j s s' E|j i s s' E|i j d s Hin|i j d s Hin].
  - apply Hmaster in E as (t & E & ->). exists (S k). by eapply nbd_wakeup_fine.
  - apply Hmaster in E as (t & E & ->). exists k. by eapply run_task_fine.
  - apply Hmaster in E as (t & E & ->). exists k. by eapply minion_wakeup_fine.
  - exists k. eapply on_minion_fine; [|exact Hs|exact E]. apply minion_input_fine.
  - exists k. eapply on_minion_fine; [|exact Hs|exact E]. intros m m'. apply minion_task_fine.
  - exists k. by apply to_minion_fine.
  - exists k. by apply to_master_fine.
Qed.

Lemma steps_fine k s s' :
  fine k s -> sys_steps master_addr minion_addr s s' -> exists k', fine k' s'.
Proof using All.
  intros Hs Hsteps. revert k Hs. induction Hsteps as [s|s1 s2 s3 Hstep _ IH]; intros k Hs; [by exists k|].
  destruct (step_fine k s1 s2 Hs Hstep) as [k' Hs']. by apply (IH k').
Qed.
End integrity.

(** ** Property *)

(** C5: nothing is read that was not written there: from the start of the programs,
    for every order of their threads and of the requests in flight, for every
    behaviour of a network that loses, copies and reorders datagrams, and for any
    failures of the disks of the minions in [weak], at every moment [k] requests have
    been read, what the master has written is a sequence of complete replies to some
    of them, and every byte of a reply, which belongs to a position of the drive, is
    zero or what one of these [k] requests wrote to that position.  The conditions
    are: each request lies inside one chunk, no two of the chunks used share a minion
    ([Mirror.mirror_overwrites] shows that it is false without this), and it fits into
    a packet ([placed], [apart]); the minions have different addresses, as the
    master's sockets have; and sends succeed. *)
Theorem reads_are_writes `{LinuxNBD} (master_addr minion_addr : nat -> Z) (chunk : Z)
    (proxies : list (MinionProxy closure)) (tcp : TCPClient.t) (master : Master)
    (minions : list Minion) (used weak : gset nat) (reqs : list kernel_request) (s : System)
    (Hchunk : 0 < chunk < 2 ^ 32 - 64) (Hn : apart (length proxies) used)
    (Hsize : Z.of_nat (length proxies) * chunk < 2 ^ 64)
    (Hreqs : Forall (placed used chunk (length proxies)) reqs)
    (Hmany : Z.of_nat (length reqs) < 2 ^ 64)
    (Hmasters : forall i j, (i < length proxies)%nat -> (j < length proxies)%nat ->
       master_addr i = master_addr j -> i = j)
    (Haddrs : forall i j, (i < length proxies)%nat -> (j < length proxies)%nat ->
       minion_addr i = minion_addr j -> i = j)
    (Hboot : boot chunk proxies tcp = Ok master)
    (Hproxies : forall i p, proxies !! i = Some p ->
       link minion_addr i p /\ MinionProxy.m_map p = ∅ /\ UDPSocket.sent (MinionProxy.m_socket p) = [])
    (Hstream : TCPClient.available (TCPClient.incoming tcp) = (reqs ≫= encode))
    (Hsent : TCPClient.sent tcp = []) (Hsends : TCPClient.sends_succeed tcp)
    (Hcount : length minions = length proxies)
    (Hminions : forall i m, minions !! i = Some m ->
       started chunk (bool_decide (i ∈ weak)) m /\ sent_by m = [])
    (Hsteps : sys_steps master_addr minion_addr (mk_System master minions) s) :
  exists k replied, (k <= length reqs)%nat
    /\ TCPClient.available (TCPClient.incoming (m_nbd (b_nbd (backend (sys_master s))))) = (drop k reqs ≫= encode)
    /\ sent_bytes (sys_master s) = (replied ≫= reply_bytes reqs)
    /\ Forall (fun x => (x.1.1 < k)%nat /\ reply_ok reqs x
         /\ forall r, reqs !! x.1.1 = Some r -> values reqs k (k_from r) x.2) replied.
Proof.
  destruct (boot_sane reqs chunk proxies tcp master) as (Hsane & Em & Ec); try done.
  { lia. }
  { apply Forall_lookup_2. intros i p Hp. by apply (Hproxies i p). }
  destruct (steps_fine master_addr minion_addr reqs used weak chunk (length proxies) Hreqs Hmany Hchunk Hn Hsize
    Hmasters Haddrs 0 (mk_System master minions) s) as (k & [[rep Hs] _ (out & Ho & Hout) _ _ _ _]); [|done|].
  2:{ destruct Hs as [[[Hk _ [Hst _ _ _ _] _ _ _] _] _ _ _ _]. by exists k, out. }
  constructor; cbn [sys_master sys_minions]; [by exists []|by split; [|rewrite Em]|..].
  - exists []. split; [|constructor]. unfold sent_bytes.
    by rewrite (ni_sent _ _ _ _ (bi_nbd _ _ _ _ (mi_backend _ _ _ _ (sn_inv _ _ _ _ Hsane)))).
  - revert Hboot. unfold boot. destruct (MinionManager.Init _ _ _) as [[[]|?| |] [m f]]; try done.
    intros [= <-]. constructor.
  - rewrite Em. intros i p Hp. destruct (Hproxies i p Hp) as ((Hin & Hrel & Ha) & _ & Hout).
    constructor; [done|done|by rewrite Hin|by rewrite Hout].
  - done.
  - intros j m Hm. destruct (Hminions j m Hm) as [Hst Hnone].
    destruct (started_keeps chunk _ m ltac:(lia) Hst) as [(Hq & socket & Hp & Hin & Hrel) Hk].
    unfold sent_by in Hnone. rewrite Hp in Hnone. cbn [m_socket] in Hnone. constructor.
    + exists socket. rewrite Hin, Hnone. by split_and!; [..|left|constructor|constructor].
    + rewrite Hq. constructor.
    + eexists. split; [exact Hk|]. split; [apply length_replicate|].
      intros o x [-> _]%lookup_replicate. by left.
Qed.

Lemma small_addr_inj base i j : small_addr base i = small_addr base j -> i = j.
Proof. unfold small_addr. lia. Qed.

(** The run of [Ordering.v] in which the copies of a chunk come to differ. *)
Lemma reads_are_writes_witness :
  let reqs := [write_a; write_b; two_byte_read; two_byte_read] in
  exists s0 s k replied, small_start reqs = Ok s0 /\ small_steps s0 s
    /\ sent_bytes (sys_master s) = wire_reply 0 sample_handle ++ wire_reply 0 sample_handle
         ++ answered_with Byte.x62 ++ answered_with Byte.x61
    /\ sent_bytes (sys_master s) = (replied ≫= reply_bytes reqs)
    /\ Forall (fun x => (x.1.1 < k)%nat /\ reply_ok reqs x
         /\ forall r, reqs !! x.1.1 = Some r -> values reqs k (k_from r) x.2) replied.
Proof.
  intros reqs. destruct crossing_run as (s0 & s & E0 & Hsteps & Hs). fold reqs in E0.
  destruct (small_started _ _ E0) as (tcp & master & minions & E & Hboot & Hstream & Hsent & Hsends & Hcount & Hminions & Hproxies).
  subst s0. destruct (reads_are_writes (small_addr 200) (small_addr 100) 8 disk_proxies tcp master minions
    {[2%nat]} ∅ reqs s) as (k & replied & _ & _ & Ho & Hall); try done.
  - apply (single_apart 3 2); lia.
  - repeat constructor; simpl; unfold BUFSIZ; lia || done.
  - intros i j _ _. apply small_addr_inj.
  - intros i j _ _. apply small_addr_inj.
  - exists (mk_System master minions), s, k, replied. by split_and!.
Defined.
