(* ===== verification/Discipline.v ===== *)
(** * Discipline

    What a kernel that orders its requests and a network that copies none allow: the
    steps of the system of [System.v] in which no request is sent while one that
    conflicts with it is unanswered, and no datagram arrives twice at a minion; and
    the moves of [Ordering.v] under this discipline.

    The network is in [once_to_minion] and [once_to_master]: a datagram that was sent
    can arrive at any later moment, or never.  What holds in all runs holds so of a
    network that loses datagrams, since a lost one is one whose step is not taken.
    The programs send each datagram once and have no timer for a second try, so that
    theorems which go on from a state ([Progress.v]) use that what is on the way
    arrives, and say so. *)

From S2P Require Import Prelude Bytes StripeSplitter Message TaskArgs Factory Dispatcher Sockets Logger.
From S2P Require Import Ticket IMinionProxy MinionProxy NBD NBDProxy World ResponseManager MinionManager Commands.
From S2P Require Import Framework Master Protocol Raid Service FileManager MasterProxy Minion Mirror Drive System Flight Ordering.

(** ** The discipline *)

Definition conflict (r r' : kernel_request) : Prop :=
  (k_from r < k_from r' + k_len r' /\ k_from r' < k_from r + k_len r)
  /\ (is_Some (k_data r) \/ is_Some (k_data r')).

Section steps.
Context `{LinuxNBD} (master_addr minion_addr : nat -> Z) (reqs : list kernel_request).

(** The reply to request [i] is still kept; the request that is read next. *)
Definition unanswered (s : System) (i : nat) : Prop :=
  is_Some (m_responses (b_nbd (backend (sys_master s))) !! Z.of_nat i).

Definition next_request (s : System) : nat := Z.to_nat (w_uid (b_world (backend (sys_master s)))).

Definition may_send (s : System) : Prop := forall i r r',
  unanswered s i -> reqs !! i = Some r -> reqs !! next_request s = Some r' -> ~ conflict r r'.

(** The steps of the system; the second component has the datagrams that have
    arrived at minions, each a minion and a place among those sent to it. *)
Inductive once_step : System * gset (nat * nat) -> System * gset (nat * nat) -> Prop :=
  | once_nbd s s' a : may_send s -> on_master nbd_wakeup s = (Ok tt, s') -> once_step (s, a) (s', a)
  | once_task i s s' a : on_master (run_task i) s = (Ok tt, s') -> once_step (s, a) (s', a)
  | once_answer i s s' a : on_master (minion_wakeup i) s = (Ok tt, s') -> once_step (s, a) (s', a)
  | once_minion_input j s s' a : on_minion j minion_input s = (Ok tt, s') -> once_step (s, a) (s', a)
  | once_minion_task j i s s' a : on_minion j (minion_run_task i) s = (Ok tt, s') -> once_step (s, a) (s', a)
  | once_to_minion j x datagram s a :
      (j, x) ∉ a -> sent_to_minion j s !! x = Some (minion_addr j, datagram) ->
      once_step (s, a) (mk_System (sys_master s)
        (alter (minion_deliver (master_addr j) datagram) j (sys_minions s)), {[(j, x)]} ∪ a)
  | once_to_master j datagram s a :
      (master_addr j, datagram) ∈ sent_by_minion j s ->
      once_step (s, a) (mk_System (deliver j (minion_addr j) datagram (sys_master s)) (sys_minions s), a).

Definition once_steps : System * gset (nat * nat) -> System * gset (nat * nat) -> Prop := rtc once_step.

(** They are runs of the system. *)
Lemma once_sys x y : once_steps x y -> sys_steps master_addr minion_addr x.1 y.1.
Proof.
  induction 1 as [|x y z Hstep _ IH]; [apply rtc_refl|]. eapply rtc_l; [|exact IH].
  destruct Hstep; cbn [fst]; try by econstructor.
  apply sys_to_minion. by eapply list_elem_of_lookup_2.
Qed.
End steps.

(** ** Runs move by move *)

#[export] Instance conflict_dec r r' : Decision (conflict r r').
Proof. unfold conflict. apply _. Defined.

Section once.
Context `{LinuxNBD} (master_addr minion_addr : nat -> Z) (reqs : list kernel_request).

(** The discipline, request by request. *)
Definition calm_at (s : System) (i : nat) : Prop :=
  match reqs !! i, reqs !! next_request s with
  | Some r, Some r' => unanswered s i -> ~ conflict r r'
  | _, _ => True
  end.

#[export] Instance unanswered_dec s i : Decision (unanswered s i).
Proof. unfold unanswered. apply _. Defined.

#[export] Instance calm_at_dec s i : Decision (calm_at s i).
Proof. unfold calm_at. destruct (reqs !! i), (reqs !! next_request s); apply _. Defined.

Lemma calm_may_send s : Forall (calm_at s) (seq 0 (length reqs)) -> may_send reqs s.
Proof.
  rewrite Forall_forall. intros Hall i r r' Hun Hi Hr'.
  assert (Hc : calm_at s i) by (apply Hall, elem_of_seq; apply lookup_lt_Some in Hi; lia).
  unfold calm_at in Hc. rewrite Hi, Hr' in Hc. by apply Hc.
Qed.

Definition once_move (m : move) : prog (System * gset (nat * nat)) unit := fun x =>
  match m with
  | ReadRequest => if decide (Forall (calm_at x.1) (seq 0 (length reqs))) then
      let '(r, s) := run_move master_addr minion_addr m x.1 in (r, (s, x.2)) else (Blocked, x)
  | ToMinion i k => if decide ((i, k) ∈ x.2) then (Blocked, x) else
      let '(r, s) := run_move master_addr minion_addr m x.1 in (r, (s, {[(i, k)]} ∪ x.2))
  | _ => let '(r, s) := run_move master_addr minion_addr m x.1 in (r, (s, x.2))
  end.

Lemma once_move_step m x y :
  once_move m x = (Ok tt, y) -> once_step master_addr minion_addr reqs x y.
Proof.
  destruct x as [s a]. unfold once_move. cbn [fst snd].
  destruct m as [|i|i k|j|j i|j k|i]; cbn [run_move].
  - destruct (decide _) as [Hc|]; [|done]. destruct (on_master _ s) as [r s'] eqn:E. intros [= -> <-].
    by apply once_nbd; [apply calm_may_send|].
  - destruct (on_master _ s) as [r s'] eqn:E. intros [= -> <-]. by eapply once_task.
  - destruct (decide _) as [|Hc]; [done|]. destruct (_ !! k) as [[addr d]|] eqn:Ed; [|done].
    case_bool_decide as Ha; [|done]. intros [= <-]. subst addr. by apply once_to_minion.
  - destruct (on_minion _ _ s) as [r s'] eqn:E. intros [= -> <-]. by eapply once_minion_input.
  - destruct (on_minion _ _ s) as [r s'] eqn:E. intros [= -> <-]. by eapply once_minion_task.
  - destruct (_ !! k) as [[addr d]|] eqn:Ed; [|done]. case_bool_decide as Ha; [|done]. intros [= <-]. subst addr.
    apply once_to_master. by eapply list_elem_of_lookup_2.
  - destruct (on_master _ s) as [r s'] eqn:E. intros [= -> <-]. by eapply once_answer.
Qed.

Lemma once_moves_steps l x y :
  for_each once_move l x = (Ok tt, y) -> once_steps master_addr minion_addr reqs x y.
Proof.
  revert x. induction l as [|m l IH]; intros x; [intros [= <-]; apply rtc_refl|].
  intros ([] & z & E1 & E2)%bind_ok_inv. eapply rtc_l; [by eapply once_move_step|by apply IH].
Qed.
End once.

(** Two writes in flight, which are run and answered in the other order, and two
    reads, of which the second is answered first. *)
Definition side_write : kernel_request := mk_kernel_request (Some [Some Byte.x62; Some Byte.x63]) sample_handle 17 2.
Definition side_read : kernel_request := mk_kernel_request None sample_handle 17 4.
Definition side_requests : list kernel_request := [write_a; side_write; side_read; two_byte_read].

Definition side_moves : list move :=
  [ReadRequest; RunTask 0; ReadRequest; RunTask 0]
  ++ request_arrives 2 0 ++ request_arrives 2 1 ++ [MinionTask 2 1; MinionTask 2 0]
  ++ request_arrives 0 1 ++ request_arrives 0 0 ++ [MinionTask 0 0; MinionTask 0 0]
  ++ answer_arrives 2 0 ++ answer_arrives 0 0 ++ answer_arrives 2 1 ++ answer_arrives 0 1
  ++ [ReadRequest; RunTask 0; ReadRequest; RunTask 0] ++ request_arrives 2 3 ++ [MinionTask 2 0]
  ++ answer_arrives 2 2 ++ served_by_minion 0 2.

Definition side_replies `{LinuxNBD} : cells :=
  wire_reply 0 sample_handle ++ wire_reply 0 sample_handle ++ answered_with Byte.x61
  ++ wire_reply 0 sample_handle ++ [Some Byte.x62; Some Byte.x63; Some Byte.x61; Some Byte.x61].

Lemma side_run :
  exists s0 s arrived, small_start side_requests = Ok s0
    /\ once_steps (small_addr 200) (small_addr 100) side_requests (s0, ∅) (s, arrived)
    /\ sent_bytes (sys_master s) = side_replies.
Proof.
  assert (E : (s0 ← small_start side_requests;
    let '(r, (s, _)) := for_each (once_move (small_addr 200) (small_addr 100) side_requests) side_moves (s0, ∅) in
    r ;; mret (sent_bytes (sys_master s))) = Ok side_replies) by (vm_compute; reflexivity).
  destruct (small_start side_requests) as [s0|e| |]; [|done..]. cbn [mbind res_bind] in E.
  destruct (for_each _ side_moves _) as [[[]|e| |] [s a]] eqn:Er; [|done..]. injection E as E.
  exists s0, s, a. split; [done|]. split; [by eapply once_moves_steps|done].
Qed.
