(* ===== verification/Linear.v ===== *)
(** * Linear

    The disk under concurrency, as an invariant of the system under the discipline of
    [Discipline.v]: which requests were answered and in which order, what each minion
    has run, and how its chunk differs from the array on which the answered requests
    were run in this order: by the writes that it has run and that are not answered;
    and, for [Progress.v], which answers are waited for. *)

From stdpp Require Import functions.
From S2P Require Import Prelude Bytes StripeSplitter Message TaskArgs Factory Dispatcher Sockets Logger.
From S2P Require Import Ticket IMinionProxy MinionProxy NBD NBDProxy World ResponseManager MinionManager Commands.
From S2P Require Import Framework Master Protocol Raid Service FileManager MasterProxy Minion Mirror Drive System Flight Discipline.

Section linear.
Context `{LinuxNBD} (master_addr minion_addr : nat -> Z).
Context (reqs : list kernel_request) (used : gset nat) (chunk : Z) (n : nat).
Hypothesis Hreqs : Forall (placed used chunk n) reqs.
Hypothesis Hmany : Z.of_nat (length reqs) < 2 ^ 64.
Hypothesis Hchunk : 0 < chunk < 2 ^ 32 - 64.
Hypothesis Hn : apart n used.
Hypothesis Hdrive : Z.of_nat n * chunk < 2 ^ 64.

Abbreviation size := (Z.to_nat chunk).
Abbreviation zeros := (replicate (n * size) (Some Byte.x00)).

(** *** Requests by their numbers *)

Definition req (i : nat) : kernel_request := default (mk_kernel_request None [] 0 0) (reqs !! i).
Abbreviation seg i := (placed_segment chunk n (req i)).
Definition asks (i : nat) : AMessage := placed_message chunk n (req i) (Z.of_nat i).
Definition answer_of (a : nat * cells) : AMessage := minion_answer (asks a.1) true a.2.

(** What request [i] has for position [p] of the drive. *)
Definition written (i p : nat) : option (option Byte.byte) :=
  match k_data (req i) with
  | Some data => if decide (Z.to_nat (k_from (req i)) <= p)%nat then data !! (p - Z.to_nat (k_from (req i)))%nat else None
  | None => None
  end.

Definition run_op (i : nat) (d : cells) : cells := (array_op (drive_op (req i)) d).2.
Definition read_op (i : nat) (d : cells) : cells := (array_op (drive_op (req i)) d).1.2.
Definition drive_after (order : list nat) : cells := foldl (fun d i => run_op i d) zeros order.

Lemma req_eq i r : reqs !! i = Some r -> req i = r.
Proof. unfold req. by intros ->. Qed.

Lemma req_placed i : (i < length reqs)%nat -> reqs !! i = Some (req i) /\ placed used chunk n (req i) /\ in_u64 (Z.of_nat i).
Proof using All.
  intros Hi. destruct (lookup_lt_is_Some_2 reqs i Hi) as [r Hr]. rewrite (req_eq i r Hr). split; [done|].
  by apply (placed_at reqs used chunk n Hreqs Hmany Hchunk Hn Hdrive).
Qed.

Lemma replies_snoc (order : list nat) i :
  drive_replies ((fun i => (req i, true)) <$> (order ++ [i])) zeros
  = drive_replies ((fun i => (req i, true)) <$> order) zeros ++ drive_reply true (req i) (drive_after order).
Proof.
  unfold drive_after. generalize zeros. induction order as [|x order IH]; intros d; cbn.
  - by rewrite app_nil_r.
  - by rewrite IH, app_assoc.
Qed.

Lemma drive_after_snoc order i : drive_after (order ++ [i]) = run_op i (drive_after order).
Proof. unfold drive_after. by rewrite foldl_app. Qed.

(** The array and a chunk, byte by byte. *)
Lemma run_op_lookup i d p :
  (i < length reqs)%nat -> length d = (n * size)%nat ->
  length (run_op i d) = (n * size)%nat
  /\ run_op i d !! p = match written i p with Some x => Some x | None => d !! p end.
Proof using All.
  intros Hi Hd. destruct (req_placed i Hi) as (_ & Hr & _).
  destruct (placed_chunk used chunk n _ Hchunk Hn Hdrive Hr) as (Hf & _).
  destruct Hr as ((_ & _ & _ & Hdata) & Hl & Hin & Hend & _).
  unfold run_op, drive_op, written. destruct (k_data (req i)) as [data|]; cbn [array_op snd]; [|done].
  change (take ?a d ++ data ++ ?b) with (splice (Z.to_nat (k_from (req i))) data d).
  assert (Hfit : (Z.to_nat (k_from (req i)) + length data <= length d)%nat) by nia.
  split; [by rewrite length_splice|]. rewrite lookup_splice by done.
  destruct (decide (Z.to_nat (k_from (req i)) <= p)%nat) as [Hp|Hp]; [|by rewrite decide_False by lia].
  case_decide as Hq.
  - destruct (lookup_lt_is_Some_2 data (p - Z.to_nat (k_from (req i)))) as [x ->]; [lia|done].
  - by rewrite (lookup_ge_None_2 data) by lia.
Qed.

Lemma length_drive order : Forall (fun i => i < length reqs)%nat order -> length (drive_after order) = (n * size)%nat.
Proof using All.
  induction order as [|i order IH] using rev_ind; intros Ho; [apply length_replicate|].
  apply Forall_app in Ho as [Ho Hi]. rewrite Forall_singleton in Hi. rewrite drive_after_snoc.
  by apply (run_op_lookup i _ 0 Hi (IH Ho)).
Qed.

Lemma chunk_op_lookup i d o j :
  (i < length reqs)%nat -> length d = size -> base used n j = Z.to_nat (k_from (req i) `div` chunk) ->
  let d' := (array_op (request_op (asks i)) d).2 in
  length d' = size
  /\ d' !! o = match written i (base used n j * size + o) with Some x => Some x | None => d !! o end.
Proof using All.
  intros Hi Hd Hj. destruct (req_placed i Hi) as (_ & Hr & _).
  destruct (placed_chunk used chunk n _ Hchunk Hn Hdrive Hr) as (Hf & Hc & _ & _ & _ & Hfrom & Hmod).
  unfold asks. rewrite (placed_message_op used chunk n _ Hchunk Hn Hdrive Hr).
  destruct Hr as ((_ & _ & _ & Hdata) & Hl & Hin & Hend & _).
  unfold written. destruct (k_data (req i)) as [data|]; cbn [array_op snd]; [|done].
  change (take ?a d ++ data ++ ?b) with (splice (Z.to_nat (k_from (req i) `mod` chunk)) data d).
  set (off := Z.to_nat (k_from (req i) `mod` chunk)) in *.
  assert (Hfit : (off + length data <= length d)%nat) by lia.
  rewrite length_splice, lookup_splice by done. split; [done|].
  assert (Hat : Z.to_nat (k_from (req i)) = (base used n j * size + off)%nat) by nia.
  rewrite Hat. replace (base used n j * size + o - (base used n j * size + off))%nat with (o - off)%nat by lia.
  case_decide as Ho.
  - rewrite decide_True by lia.
    destruct (lookup_lt_is_Some_2 data (o - off)) as [x ->]; [lia|done].
  - case_decide; [|done]. by rewrite (lookup_ge_None_2 data) by lia.
Qed.

(** The positions that a request is about. *)
Definition covers (i p : nat) : Prop := k_from (req i) <= Z.of_nat p < k_from (req i) + k_len (req i).

Lemma written_covers i p :
  (i < length reqs)%nat -> is_Some (written i p) -> covers i p /\ is_Some (k_data (req i)).
Proof using All.
  intros Hi [x Hx]. destruct (req_placed i Hi) as (_ & ((_ & Hf & _ & Hdata) & Hl & _) & _).
  unfold written, covers in *. destruct (k_data (req i)) as [data|]; [|done].
  case_decide; [|done]. apply lookup_lt_Some in Hx. split; [lia|by eexists].
Qed.

Lemma no_conflict i i' p :
  (i' < length reqs)%nat -> ~ conflict (req i) (req i') -> covers i p -> written i' p = None.
Proof using All.
  intros Hi' Hno Hp. apply eq_None_not_Some. intros Hw. destruct (written_covers i' p Hi' Hw) as [Hp' Hd].
  apply Hno. unfold conflict, covers in *. split; [lia|by right].
Qed.

Lemma covers_chunk i j o :
  (i < length reqs)%nat -> (j < n)%nat -> (o < size)%nat -> covers i (base used n j * size + o) ->
  base used n j = Z.to_nat (k_from (req i) `div` chunk).
Proof using All.
  intros Hi Hj Ho Hp. destruct (req_placed i Hi) as (_ & Hr & _).
  destruct (placed_chunk used chunk n _ Hchunk Hn Hdrive Hr) as (Hf & Hc & _ & _ & _ & Hfrom & Hmod).
  destruct Hr as (_ & Hl & Hin & _). unfold covers in Hp. nia.
Qed.

(** A minion that holds the chunk of a request is one of its two. *)
Lemma holder_role i j :
  (i < length reqs)%nat -> (j < n)%nat -> base used n j = Z.to_nat (k_from (req i) `div` chunk) ->
  exists role, minion_of (seg i) role = j.
Proof using All.
  intros Hi Hj Hb. destruct (req_placed i Hi) as (_ & Hr & _).
  destruct (placed_segment_eq used chunk n _ Hchunk Hn Hdrive Hr) as (_ & _ & _ & Hp & Hbk).
  destruct (placed_chunk used chunk n _ Hchunk Hn Hdrive Hr) as (_ & _ & _ & Hlt & Hc & _).
  apply (base_of n used _ j Hn Hc Hj) in Hb as [-> | ->]; [by exists PRIMARY|by exists BACKUP].
Qed.

Lemma role_chunk i role :
  (i < length reqs)%nat ->
  base used n (minion_of (seg i) role) = Z.to_nat (k_from (req i) `div` chunk) /\ (minion_of (seg i) role < n)%nat.
Proof using All.
  intros Hi. destruct (req_placed i Hi) as (_ & Hr & _).
  by apply (request_base reqs used chunk n Hreqs Hmany Hchunk Hn Hdrive).
Qed.

(** A read gives the same where the bytes are the same. *)
Lemma read_op_same i d d' :
  k_data (req i) = None -> 0 <= k_from (req i) -> (forall p, covers i p -> d !! p = d' !! p) -> read_op i d = read_op i d'.
Proof.
  intros Hread Hf Hall. unfold read_op, drive_op. rewrite Hread. cbn [array_op fst snd].
  apply list_eq. intros q. destruct (decide (q < Z.to_nat (k_len (req i)))%nat) as [Hq|Hq].
  - rewrite !lookup_take_lt, !lookup_drop by done. apply Hall. unfold covers. lia.
  - by rewrite !lookup_take_ge by lia.
Qed.

Lemma chunk_read_same i j d drive :
  (i < length reqs)%nat -> base used n j = Z.to_nat (k_from (req i) `div` chunk) ->
  k_data (req i) = None ->
  (forall o, (o < size)%nat -> covers i (base used n j * size + o) -> d !! o = drive !! (base used n j * size + o)%nat) ->
  (array_op (request_op (asks i)) d).1.2 = read_op i drive.
Proof using All.
  intros Hi Hj Hread Hall. destruct (req_placed i Hi) as (_ & Hr & _).
  destruct (placed_chunk used chunk n _ Hchunk Hn Hdrive Hr) as (Hf & Hc & _ & _ & _ & Hfrom & Hmod).
  unfold asks. rewrite (placed_message_op used chunk n _ Hchunk Hn Hdrive Hr).
  destruct Hr as (_ & Hl & Hin & Hend & _).
  unfold read_op, drive_op. rewrite Hread. cbn [array_op fst snd]. apply list_eq. intros q.
  destruct (decide (q < Z.to_nat (k_len (req i)))%nat) as [Hq|Hq]; [|by rewrite !lookup_take_ge by lia].
  rewrite !lookup_take_lt, !lookup_drop by done.
  rewrite Hall by (unfold covers; nia). f_equal. nia.
Qed.

(** *** The invariant

    [order] are the requests that were answered, in this order; the others of the
    first [k] are pending. [E] has for each minion the requests that it has run, with
    the data that it has read; [S], [I] and [Q] are those that were sent to it, that
    are in its socket, and that are in its queue. *)

Definition pending (k : nat) (order : list nat) (i : nat) : Prop := (i < k)%nat /\ i ∉ order.

Definition heard (E : nat -> list (nat * cells)) (i : nat) (a : answer) : Prop := exists role data,
  (i, data) ∈ E (minion_of (seg i) role) /\ a = (0%nat, role, Some (message_seen (answer_of (i, data)))).

Definition ticket_fine (k : nat) (order : list nat) (E : nat -> list (nat * cells)) (t : Ticket ticket_callback)
    : Prop := exists i hc,
  (i < k)%nat /\ t = ticket_of (Z.of_nat i) (op_of (req i)) (k_len (req i)) [seg i] [TicketDone] hc
  /\ Forall (heard E i) hc.1 /\ (hc.2 = false -> (i ∉ order) /\ resolved (op_of (req i)) hc.1 0 = false).

(** A byte that a pending write is about is the new one as soon as the minion has run
    the write; any other is that of the array. *)
Record disk_fine (k : nat) (order : list nat) (ran : list nat) (j : nat) (d : cells) : Prop := {
  df_length : length d = size;
  df_new : forall i o x, pending k order i -> (o < size)%nat -> written i (base used n j * size + o) = Some x ->
    i ∈ ran -> d !! o = Some x;
  df_old : forall o, (o < size)%nat ->
    (forall i, pending k order i -> is_Some (written i (base used n j * size + o)) -> i ∉ ran) ->
    d !! o = drive_after order !! (base used n j * size + o)%nat;
}.

Record link_fine (k : nat) (order : list nat) (E : list (nat * cells)) (arrived : gset (nat * nat))
    (uids : list Z) (j : nat) (p : MinionProxy closure) (m : Minion) (S I Q : list nat) : Prop := {
  lk_up : UDPSocket.reliable (MinionProxy.m_socket p);
  lk_peer : UDPSocket.m_serveraddr (MinionProxy.m_socket p) = minion_addr j;
  lk_sent : UDPSocket.sent (MinionProxy.m_socket p) = (fun i => (minion_addr j, packet_of (asks i))) <$> S;
  lk_asked : NoDup S /\ Forall (fun i => (i < k)%nat /\ (exists role, minion_of (seg i) role = j)
    /\ Z.of_nat i ∈ uids) S;
  lk_back : Forall (fun x => exists a, a ∈ E /\ x = Some (minion_addr j, packet_of (answer_of a)))
    (UDPSocket.incoming (MinionProxy.m_socket p));
  lk_map : forall u t idx role, m_map p !! u = Some (t, idx, role) ->
    exists i, (i < k)%nat /\ u = Z.of_nat i /\ idx = 0%nat /\ minion_of (seg i) role = j /\ i ∈ S;
  lk_socket : exists socket, proxy m = mk_MasterProxy (Some socket) /\ UDPSocket.reliable socket
    /\ (Minion.m_queue m = [] \/ UDPSocket.m_serveraddr socket = master_addr j)
    /\ UDPSocket.incoming socket = (fun i => Some (master_addr j, packet_of (asks i))) <$> I
    /\ UDPSocket.sent socket = (fun a => (master_addr j, packet_of (answer_of a))) <$> E;
  lk_queue : Minion.m_queue m = (fun i => request_task (message_seen (asks i))) <$> Q;
  lk_once : NoDup (I ++ Q ++ E.*1);
  lk_arrived : forall i, i ∈ I ++ Q ++ E.*1 <-> exists x, S !! x = Some i /\ (j, x) ∈ arrived;
  lk_within : forall x, (j, x) ∈ arrived -> (x < length S)%nat;
  lk_disk : exists d, holds d (stream m) /\ disk_fine k order E.*1 j d;
}.

Abbreviation tickets s := (w_tickets (b_world (backend (sys_master s)))).

(** The task of request [i] waits, or there is a ticket for it, and each of the two
    minions has answered or is waited for. *)
Definition has_answered (t : Ticket ticket_callback) (role : MirrorRole) : bool :=
  match m_segments t with
  | st :: _ => match role with PRIMARY => primaryDone st | BACKUP => backupDone st end
  | [] => false
  end.

Definition asked_for (s : System) (i : nat) : Prop :=
  task_of (Z.of_nat i) (req i) ∈ Master.m_queue (sys_master s)
  \/ exists t tk, tickets s !! t = Some tk /\ m_uid tk = Z.of_nat i /\ m_completed tk = false
     /\ forall role p, m_minions (manager (sys_master s)) !! minion_of (seg i) role = Some p ->
       has_answered tk role = true \/ m_map p !! Z.of_nat i = Some (t, 0%nat, role).

Record linear (k : nat) (order : list nat) (E : nat -> list (nat * cells)) (arrived : gset (nat * nat))
    (s : System) : Prop := {
  ln_sane : exists replied, sane reqs k replied (sys_master s);
  ln_shape : shaped chunk n (sys_master s);
  ln_count : length (sys_minions s) = n;
  ln_order : NoDup order /\ Forall (fun i => i < k)%nat order;
  ln_pending : forall i, (i < k)%nat -> unanswered s i <-> i ∉ order;
  ln_sent : sent_bytes (sys_master s) = drive_replies ((fun i => (req i, true)) <$> order) zeros;
  ln_calm : forall i i', pending k order i -> pending k order i' -> i <> i' -> ~ conflict (req i) (req i');
  ln_tickets : Forall (ticket_fine k order E) (tickets s);
  ln_links : forall j p m, m_minions (manager (sys_master s)) !! j = Some p -> sys_minions s !! j = Some m ->
    exists S I Q, link_fine k order (E j) arrived (m_uid <$> tickets s) j p m S I Q;
  ln_open : forall i, pending k order i -> asked_for s i;
  ln_ran : forall j i data, (i, data) ∈ E j -> (i < k)%nat;
  ln_written : forall i role, i ∈ order -> is_Some (k_data (req i)) -> i ∈ (E (minion_of (seg i) role)).*1;
  ln_read : forall j i data, (i, data) ∈ E j -> i ∉ order -> k_data (req i) = None ->
    data = read_op i (drive_after order);
}.

Arguments df_length {k order ran j d} _.
Arguments df_new {k order ran j d} _.
Arguments df_old {k order ran j d} _.
Arguments lk_up {k order E arrived uids j p m S I Q} _.
Arguments lk_peer {k order E arrived uids j p m S I Q} _.
Arguments lk_sent {k order E arrived uids j p m S I Q} _.
Arguments lk_asked {k order E arrived uids j p m S I Q} _.
Arguments lk_back {k order E arrived uids j p m S I Q} _.
Arguments lk_map {k order E arrived uids j p m S I Q} _.
Arguments lk_socket {k order E arrived uids j p m S I Q} _.
Arguments lk_queue {k order E arrived uids j p m S I Q} _.
Arguments lk_once {k order E arrived uids j p m S I Q} _.
Arguments lk_arrived {k order E arrived uids j p m S I Q} _.
Arguments lk_within {k order E arrived uids j p m S I Q} _.
Arguments lk_disk {k order E arrived uids j p m S I Q} _.
Arguments ln_sane {k order E arrived s} _.
Arguments ln_shape {k order E arrived s} _.
Arguments ln_count {k order E arrived s} _.
Arguments ln_order {k order E arrived s} _.
Arguments ln_pending {k order E arrived s} _.
Arguments ln_sent {k order E arrived s} _.
Arguments ln_calm {k order E arrived s} _.
Arguments ln_tickets {k order E arrived s} _.
Arguments ln_links {k order E arrived s} _.
Arguments ln_open {k order E arrived s} _.
Arguments ln_ran {k order E arrived s} _.
Arguments ln_written {k order E arrived s} _.
Arguments ln_read {k order E arrived s} _.

Lemma sane_k k replied s : sane reqs k replied s -> (k <= length reqs)%nat /\ w_uid (b_world (backend s)) = Z.of_nat k.
Proof. by intros [[[Hk Hu _ _ _ _] _] _ _ _ _]. Qed.

(** The requests that a minion has, were sent to it. *)
Lemma link_asked k order E arrived uids j p m S I Q i :
  link_fine k order E arrived uids j p m S I Q -> i ∈ I ++ Q ++ E.*1 ->
  (i < k)%nat /\ (exists role, minion_of (seg i) role = j) /\ i ∈ S.
Proof.
  intros Hl Hi. apply (lk_arrived Hl i) in Hi as (x & Hx & _).
  apply list_elem_of_lookup_2 in Hx. destruct (lk_asked Hl) as [_ Hall].
  rewrite Forall_forall in Hall. by destruct (Hall i Hx) as (? & ? & _).
Qed.

Lemma linear_link k order E arrived s j m :
  linear k order E arrived s -> sys_minions s !! j = Some m ->
  exists p S I Q, m_minions (manager (sys_master s)) !! j = Some p
    /\ link_fine k order (E j) arrived (m_uid <$> tickets s) j p m S I Q.
Proof.
  intros Hs Hm. destruct (lookup_lt_is_Some_2 (m_minions (manager (sys_master s))) j) as [p Hp].
  { rewrite (proj2 (ln_shape Hs)), <-(ln_count Hs). by eapply lookup_lt_Some. }
  destruct (ln_links Hs j p m Hp Hm) as (S0 & I & Q & Hl). by exists p, S0, I, Q.
Qed.

Lemma proxy_link k order E arrived s j p :
  linear k order E arrived s -> m_minions (manager (sys_master s)) !! j = Some p ->
  exists m S I Q, sys_minions s !! j = Some m
    /\ link_fine k order (E j) arrived (m_uid <$> tickets s) j p m S I Q.
Proof.
  intros Hs Hp. destruct (lookup_lt_is_Some_2 (sys_minions s) j) as [m Hm].
  { rewrite (ln_count Hs), <-(proj2 (ln_shape Hs)). by eapply lookup_lt_Some. }
  destruct (ln_links Hs j p m Hp Hm) as (S0 & I & Q & Hl). by exists m, S0, I, Q.
Qed.

(** Sending never fails. *)
Lemma linear_up k order E arrived s :
  linear k order E arrived s ->
  Forall (fun p => UDPSocket.reliable (MinionProxy.m_socket p)) (m_minions (manager (sys_master s))).
Proof.
  intros Hs. apply Forall_lookup_2. intros j p Hp.
  destruct (proxy_link _ _ _ _ _ _ _ Hs Hp) as (m & S0 & I & Q & _ & Hl). exact (lk_up Hl).
Qed.

(** The ticket that a proxy waits for. *)
Lemma waited_ticket k order E arrived s j p i t idx role :
  linear k order E arrived s -> m_minions (manager (sys_master s)) !! j = Some p ->
  m_map p !! Z.of_nat i = Some (t, idx, role) ->
  exists hc, tickets s !! t
      = Some (ticket_of (Z.of_nat i) (op_of (req i)) (k_len (req i)) [seg i] [TicketDone] hc)
    /\ (i < k)%nat /\ Forall (heard E i) hc.1
    /\ (hc.2 = false -> (i ∉ order) /\ resolved (op_of (req i)) hc.1 0 = false).
Proof.
  intros Hs Hp Hw. destruct (ln_sane Hs) as [replied Hsane].
  pose proof (sn_closures _ _ _ _ Hsane) as Hcl. rewrite Forall_lookup in Hcl. specialize (Hcl j p Hp _ _ Hw).
  cbn [fst] in Hcl. rewrite list_lookup_fmap in Hcl.
  destruct (tickets s !! t) as [tk|] eqn:Et; [|done]. injection Hcl as Hut.
  pose proof (ln_tickets Hs) as Htick. rewrite Forall_lookup in Htick.
  destruct (Htick t tk Et) as (i2 & hc & Hik & -> & Hh & Hopen). cbn [ticket_of Ticket.m_uid] in Hut.
  apply Nat2Z.inj in Hut as ->. by exists hc.
Qed.

Lemma order_small k order E arrived s :
  linear k order E arrived s -> Forall (fun i => i < length reqs)%nat order.
Proof.
  intros Hs. destruct (ln_sane Hs) as [replied Hsane]. destruct (sane_k _ _ _ Hsane) as [Hk _].
  eapply Forall_impl; [apply (ln_order Hs)|]. intros i Hi. cbn in Hi. lia.
Qed.

(** *** A request is read *)

Lemma disk_fine_S k order ran j d :
  Forall (fun i => i < k)%nat ran -> disk_fine k order ran j d -> disk_fine (S k) order ran j d.
Proof.
  intros Hran [Hl Hnew Hold]. rewrite Forall_forall in Hran. constructor; [done|..].
  - intros i o x [_ Hi] Ho Hw Hin. eapply Hnew; [split; [by apply Hran|done]|done..].
  - intros o Ho Hno. apply Hold; [done|]. intros i [Hik Hi]. apply Hno. split; [lia|done].
Qed.

Lemma link_fine_S k order E arrived uids j p m S I Q :
  link_fine k order E arrived uids j p m S I Q -> link_fine (Datatypes.S k) order E arrived uids j p m S I Q.
Proof.
  intros Hl. pose proof Hl as [Hup Hpeer Hsent [Hnd Hall] Hback Hmap Hsock Hq Honce Harr Hseen (d & Hd & Hfine)].
  constructor; try done.
  - split; [done|]. eapply Forall_impl; [exact Hall|]. intros i (? & ? & ?). split; [lia|done].
  - intros u t idx role Hu. destruct (Hmap u t idx role Hu) as (i & ? & ?). exists i. split; [lia|done].
  - exists d. split; [done|]. apply disk_fine_S; [|done]. apply Forall_forall. intros i Hi.
    eapply link_asked; [exact Hl|]. set_solver.
Qed.

Lemma nbd_linear k order E arrived s s' :
  linear k order E arrived s -> may_send reqs s -> nbd_wakeup (sys_master s) = (Ok tt, s') ->
  linear (S k) order E arrived (mk_System s' (sys_minions s)).
Proof using All.
  intros [[replied Hsane] Hsh Hcount [Hnd Hlt] Hpend Hsent Hcalm Htick Hlinks Hopen Hlt' Hwr Hrd] Hmay E1.
  pose proof (requests_wf reqs used chunk n Hreqs) as Hwf. destruct (sane_k _ _ _ Hsane) as [Hk Hu].
  pose proof (nbd_wakeup_sane reqs Hwf Hmany k replied _ s' Hsane E1) as Hsane'.
  pose proof (nbd_wakeup_inv reqs Hwf Hmany k replied _ (sn_inv _ _ _ _ Hsane)) as Hn'. rewrite E1 in Hn'.
  destruct Hn' as (r & Hr & _).
  destruct (nbd_wakeup_request reqs Hwf Hmany k replied _ r (sn_inv _ _ _ _ Hsane) Hr)
    as (s1 & E2 & _ & Em & Et & Eq & Er & Es).
  rewrite E2 in E1. injection E1 as ->. rewrite Forall_forall in Hlt.
  assert (Hko : k ∉ order) by (intros Hin; specialize (Hlt k Hin); lia).
  assert (Hnew : forall i, pending k order i -> ~ conflict (req i) (req k)).
  { intros i [Hik Hi]. apply (Hmay i); [by apply Hpend|apply req_placed; lia|].
    unfold next_request. rewrite Hu, Nat2Z.id. apply req_placed. by apply lookup_lt_Some in Hr. }
  constructor; cbn [sys_master sys_minions]; [by exists replied| |done| | | | | | | | |done|done].
  - unfold shaped. by rewrite Em.
  - split; [done|]. apply Forall_forall. intros i Hi. specialize (Hlt i Hi). lia.
  - intros i Hi. unfold unanswered in *. cbn [sys_master]. rewrite Er.
    destruct (decide (i = k)) as [->|Hne]; [rewrite lookup_insert_eq; split; [done|by eexists]|].
    rewrite lookup_insert_ne by lia. apply Hpend. lia.
  - unfold sent_bytes in *. congruence.
  - intros i i' [Hi Ho] [Hi' Ho'] Hne.
    destruct (decide (i = k)) as [->|Hik]; [|destruct (decide (i' = k)) as [->|Hik']].
    + intros [[H1 H2] Hw]. apply (Hnew i' ltac:(split; [lia|done])). split; [done|tauto].
    + apply Hnew. split; [lia|done].
    + apply Hcalm; [split; [lia|done]..|done].
  - rewrite Et. eapply Forall_impl; [exact Htick|]. intros t (i & hc & ? & ?). exists i, hc. split; [lia|done].
  - rewrite Em, Et. intros j p m Hp Hm. destruct (Hlinks j p m Hp Hm) as (S0 & I & Q & Hl).
    exists S0, I, Q. by apply link_fine_S.
  - intros i [Hi Ho]. unfold asked_for. cbn [sys_master]. rewrite Em, Et, Eq.
    destruct (decide (i = k)) as [->|Hne].
    + left. rewrite (req_eq k r Hr). apply elem_of_app. right. by apply list_elem_of_singleton.
    + destruct (Hopen i) as [Hin|?]; [split; [lia|done]| |by right]. left. apply elem_of_app. by left.
  - intros j i data Hin. specialize (Hlt' j i data Hin). lia.
Qed.

(** *** Steps of the minions *)

Lemma heard_mono E E' i a : (forall j x, x ∈ E j -> x ∈ E' j) -> heard E i a -> heard E' i a.
Proof. intros Hsub (role & data & Hin & ->). exists role, data. split; [by apply Hsub|done]. Qed.

Lemma link_fine_arrived k order E arrived arrived' uids j p m S I Q :
  (forall x, (j, x) ∈ arrived' <-> (j, x) ∈ arrived) ->
  link_fine k order E arrived uids j p m S I Q -> link_fine k order E arrived' uids j p m S I Q.
Proof.
  intros Hsame [Hup Hpeer Hsent Hask Hback Hmap Hsock Hq Honce Harr Hseen Hd]. constructor; try done.
  - intros i. rewrite Harr. by setoid_rewrite Hsame.
  - intros x. rewrite Hsame. apply Hseen.
Qed.

(** Minion [j] changes, and has run [ran]. *)
Lemma minion_linear k order E arrived arrived' s j p m m' ran S I Q :
  linear k order E arrived s -> sys_minions s !! j = Some m -> m_minions (manager (sys_master s)) !! j = Some p ->
  (forall j' x, j' <> j -> (j', x) ∈ arrived' <-> (j', x) ∈ arrived) -> link_fine k order (E j ++ ran) arrived' (m_uid <$> tickets s) j p m' S I Q ->
  (forall i data, (i, data) ∈ ran -> i ∉ order -> k_data (req i) = None -> data = read_op i (drive_after order)) ->
  exists E', linear k order E' arrived' (mk_System (sys_master s) (<[j := m']> (sys_minions s))).
Proof.
  intros [Hsane Hsh Hcount Ho Hpend Hsent Hcalm Htick Hlinks Hopen Hlt' Hwr Hrd] Hm Hp Hsub Hlink Hran.
  exists (<[j := E j ++ ran]> E).
  assert (Hmono : forall j' x, x ∈ E j' -> x ∈ (<[j := E j ++ ran]> E) j').
  { intros j' x Hx. destruct (decide (j' = j)) as [->|Hne]; [|by rewrite fn_lookup_insert_ne].
    rewrite fn_lookup_insert. set_solver. }
  constructor; cbn [sys_master sys_minions]; try done.
  - by rewrite length_insert.
  - eapply Forall_impl; [exact Htick|]. intros t (i & hc & ? & ? & Hh & ?). exists i, hc. do 2 (split; [done|]).
    split; [|done]. eapply Forall_impl; [exact Hh|]. intros a. by apply heard_mono.
  - intros j' p' m0 Hp'. destruct (decide (j' = j)) as [->|Hne].
    + rewrite list_lookup_insert_eq by by eapply lookup_lt_Some. intros [= <-].
      assert (p' = p) as -> by congruence. exists S, I, Q. by rewrite fn_lookup_insert.
    + rewrite list_lookup_insert_ne by done. intros Hm0. destruct (Hlinks j' p' m0 Hp' Hm0) as (S0 & I0 & Q0 & Hl).
      exists S0, I0, Q0. rewrite fn_lookup_insert_ne by done. eapply link_fine_arrived; [|exact Hl]. by intros x; apply Hsub.
  - intros j' i data. destruct (decide (j' = j)) as [->|Hne]; [|rewrite fn_lookup_insert_ne by done; by apply Hlt'].
    rewrite fn_lookup_insert. intros Hin. eapply link_asked; [exact Hlink|].
    rewrite !elem_of_app. do 2 right. apply list_elem_of_fmap. by exists (i, data).
  - intros i role Hi Hd. specialize (Hwr i role Hi Hd). apply list_elem_of_fmap in Hwr as (x & -> & Hx).
    apply list_elem_of_fmap. exists x. split; [done|by apply Hmono].
  - intros j' i data. destruct (decide (j' = j)) as [->|Hne]; [|rewrite fn_lookup_insert_ne by done; by apply Hrd].
    rewrite fn_lookup_insert. intros [Hin|Hin]%elem_of_app; [by eapply Hrd|by apply Hran].
Qed.

Lemma link_servable k order E arrived uids j p m S I Q i :
  (k <= length reqs)%nat -> link_fine k order E arrived uids j p m S I Q -> i ∈ I ++ Q ++ E.*1 ->
  (i < length reqs)%nat /\ servable_by size (asks i) /\ base used n j = Z.to_nat (k_from (req i) `div` chunk).
Proof using All.
  intros Hk Hl Hi. destruct (link_asked _ _ _ _ _ _ _ _ _ _ _ _ Hl Hi) as (Hik & (role & Hr) & _).
  destruct (req_placed i ltac:(lia)) as (He & _). split; [lia|]. split.
  - by apply (request_servable reqs used chunk n Hreqs Hmany Hchunk Hn Hdrive).
  - rewrite <-Hr. apply role_chunk. lia.
Qed.

Lemma input_linear k order E arrived s j m m' :
  linear k order E arrived s -> sys_minions s !! j = Some m -> minion_input m = (Ok tt, m') ->
  exists E', linear k order E' arrived (mk_System (sys_master s) (<[j := m']> (sys_minions s))).
Proof using All.
  intros Hs Hm E1. destruct (ln_sane Hs) as [replied Hsane]. destruct (sane_k _ _ _ Hsane) as [Hk _].
  destruct (linear_link _ _ _ _ _ _ _ Hs Hm) as (p & S0 & I & Q & Hp & Hl).
  pose proof Hl as [Hup Hpeer Hsent Hask Hback Hmap Hsock Hq Honce Harr Hseen Hd].
  destruct Hsock as (socket & Epr & Hrel & Haddr & Hin & Hout). destruct m as [pr fs q log].
  cbn [proxy stream Minion.m_queue] in *. subst pr q.
  destruct I as [|i I]; [by apply input_waits in E1|]. cbn [fmap list_fmap] in Hin.
  destruct (link_servable _ _ _ _ _ _ _ _ _ _ _ i Hk Hl) as (_ & Hserv & _); [set_solver|].
  destruct (input_flight size socket fs ((fun i => request_task (message_seen (asks i))) <$> Q) log _ _ _ Hin Hserv) as (log' & Er).
  rewrite Er in E1. injection E1 as <-.
  assert (Hperm : I ++ (Q ++ [i]) ++ (E j).*1 ≡ₚ i :: I ++ Q ++ (E j).*1) by solve_Permutation.
  eapply (minion_linear k order E arrived arrived s j p _ _ [] S0 I (Q ++ [i]) Hs Hm Hp); [done| |by intros ? ? []%not_elem_of_nil].
  rewrite app_nil_r. constructor; cbn [proxy stream Minion.m_queue]; try done.
  - eexists. split; [reflexivity|]. split; [exact Hrel|]. split; [by right|]. done.
  - by rewrite fmap_app.
  - by rewrite Hperm.
  - intros i'. rewrite Hperm. apply Harr.
Qed.

(** What a disk has after a request, and what the request read. *)
Lemma disk_fine_run k order ran j d i :
  (forall i i', pending k order i -> pending k order i' -> i <> i' -> ~ conflict (req i) (req i')) ->
  (k <= length reqs)%nat -> (i < k)%nat -> base used n j = Z.to_nat (k_from (req i) `div` chunk) ->
  (i ∈ order -> k_data (req i) = None) ->
  disk_fine k order ran j d ->
  disk_fine k order (ran ++ [i]) j (array_op (request_op (asks i)) d).2
  /\ (i ∉ order -> k_data (req i) = None ->
      (array_op (request_op (asks i)) d).1.2 = read_op i (drive_after order)).
Proof using All.
  intros Hcalm Hk Hi Hj Hdone [Hlen Hnew Hold].
  assert (Hil : (i < length reqs)%nat) by lia.
  assert (Hpend : is_Some (k_data (req i)) -> pending k order i).
  { intros Hsome. split; [done|]. intros Hin. rewrite (Hdone Hin) in Hsome. by destruct Hsome. }
  assert (Hclash : forall i' p, pending k order i -> pending k order i' -> i' <> i ->
    covers i p \/ is_Some (written i p) -> written i' p = None).
  { intros i' p Hpi Hpi' Hne Hc. apply (no_conflict i); [destruct Hpi'; lia|by apply Hcalm|].
    destruct Hc as [|Hw]; [done|]. by apply written_covers in Hw as [? _]. }
  split.
  - constructor.
    + by apply (chunk_op_lookup i d 0 j Hil Hlen Hj).
    + intros i' o x Hi' Ho Hw Hin. destruct (chunk_op_lookup i d o j Hil Hlen Hj) as (_ & ->).
      destruct (decide (i' = i)) as [->|Hne]; [by rewrite Hw|].
      destruct (written i _) as [y|] eqn:Ew.
      * destruct (written_covers i _ Hil (mk_is_Some _ _ Ew)) as [_ Hd].
        rewrite (Hclash i' (base used n j * size + o)%nat (Hpend Hd) Hi' Hne) in Hw by (right; by eexists). done.
      * eapply Hnew; [exact Hi'|done|exact Hw|set_solver].
    + intros o Ho Hno. destruct (chunk_op_lookup i d o j Hil Hlen Hj) as (_ & ->).
      destruct (written i _) as [y|] eqn:Ew.
      * destruct (written_covers i _ Hil (mk_is_Some _ _ Ew)) as [_ Hd].
        destruct (Hno i (Hpend Hd)); [rewrite Ew; by eexists|set_solver].
      * apply Hold; [done|]. intros i' Hi' Hw Hin. apply (Hno i' Hi' Hw). set_solver.
  - intros Hout Hread. apply (chunk_read_same i j d _ Hil Hj Hread). intros o Ho Hc.
    apply Hold; [done|]. intros i' Hi' [x Hw] _.
    destruct (decide (i' = i)) as [->|Hne]; [unfold written in Hw; by rewrite Hread in Hw|].
    rewrite (Hclash i') in Hw by (done || by left). done.
Qed.

Lemma task_linear k order E arrived s j q m m' :
  linear k order E arrived s -> sys_minions s !! j = Some m -> minion_run_task q m = (Ok tt, m') ->
  exists E', linear k order E' arrived (mk_System (sys_master s) (<[j := m']> (sys_minions s))).
Proof using All.
  intros Hs Hm E1. destruct (ln_sane Hs) as [replied Hsane]. destruct (sane_k _ _ _ Hsane) as [Hk _].
  destruct (linear_link _ _ _ _ _ _ _ Hs Hm) as (p & S0 & I & Q & Hp & Hl).
  pose proof Hl as [Hup Hpeer Hsent Hask Hback Hmap (socket & Epr & Hrel & Haddr & Hin & Hout) Hq Honce Harr Hseen (d & Hd & Hfine)].
  destruct m as [pr fs qu log]. cbn [proxy stream Minion.m_queue] in *. subst pr qu.
  destruct (Q !! q) as [i|] eqn:Ei;
    [|revert E1; unfold minion_run_task; cbn [Minion.m_queue]; by rewrite list_lookup_fmap, Ei].
  assert (HiQ : i ∈ Q) by by eapply list_elem_of_lookup_2.
  destruct Haddr as [Hnil|Haddr]; [destruct Q; [by apply not_elem_of_nil in HiQ|done]|].
  assert (Hiall : i ∈ I ++ Q ++ (E j).*1) by set_solver.
  destruct (link_asked _ _ _ _ _ _ _ _ _ _ _ _ Hl Hiall) as (Hik & (role & Hrole) & _).
  destruct (link_servable _ _ _ _ _ _ _ _ _ _ _ i Hk Hl Hiall) as (Hil & Hserv & Hbase).
  assert (Hfresh : i ∈ order -> k_data (req i) = None).
  { intros Hio. destruct (k_data (req i)) eqn:Edata; [|done]. exfalso.
    pose proof (ln_written Hs i role Hio (mk_is_Some _ _ Edata)) as Hran. rewrite Hrole in Hran.
    apply NoDup_app in Honce as (_ & _ & Honce). apply NoDup_app in Honce as (_ & Hdisj & _).
    by apply (Hdisj i). }
  destruct (disk_fine_run k order _ j d i (ln_calm Hs) Hk Hik Hbase Hfresh Hfine) as (Hfine' & Hread).
  destruct (file_op_refines (request_op (asks i)) d fs Hd) as (fs' & Eop & Hd' & _);
    [rewrite (df_length Hfine); apply Hserv|rewrite (df_length Hfine); lia|].
  assert (Hgood : (array_op (request_op (asks i)) d).1 = (true, (array_op (request_op (asks i)) d).1.2))
    by (by destruct (request_op (asks i))).
  rewrite Hgood in Eop. set (data := (array_op (request_op (asks i)) d).1.2) in *.
  assert (Eq : ((fun i => request_task (message_seen (asks i))) <$> Q) !! q = Some (request_task (message_seen (asks i))))
    by (by rewrite list_lookup_fmap, Ei).
  destruct (run_request q _ (asks i) size socket fs log true data fs' Eq Hserv ltac:(lia) Hrel Eop)
    as (socket' & Erun & Hrel' & Hin' & Haddr' & Hout').
  rewrite Erun in E1. injection E1 as <-.
  assert (Hperm : I ++ delete q Q ++ (E j ++ [(i, data)]).*1 ≡ₚ I ++ Q ++ (E j).*1).
  { rewrite fmap_app. cbn [fmap list_fmap fst].
    trans (I ++ (i :: delete q Q) ++ (E j).*1); [solve_Permutation|].
    by rewrite <-(delete_Permutation Q q i Ei). }
  apply (minion_linear k order E arrived arrived s j p _ _ [(i, data)] S0 I (delete q Q) Hs Hm Hp); [done| |].
  2:{ intros i' data' [= -> ->]%list_elem_of_singleton. by apply Hread. }
  constructor; cbn [proxy stream Minion.m_queue]; try done.
  - eapply Forall_impl; [exact Hback|]. intros x (a & ? & ?). exists a. split; [set_solver|done].
  - exists socket'. split; [done|]. split; [done|]. split; [right; by rewrite Haddr'|].
    split; [by rewrite Hin'|]. by rewrite Hout', Hout, Haddr, fmap_app.
  - by rewrite list_fmap_delete.
  - by rewrite Hperm.
  - intros i'. rewrite Hperm. apply Harr.
  - exists (array_op (request_op (asks i)) d).2. rewrite fmap_app. done.
Qed.

(** *** The network *)

Lemma to_minion_linear k order E arrived s j x datagram :
  linear k order E arrived s -> (j, x) ∉ arrived -> sent_to_minion j s !! x = Some (minion_addr j, datagram) ->
  exists E', linear k order E' ({[(j, x)]} ∪ arrived)
    (mk_System (sys_master s) (alter (minion_deliver (master_addr j) datagram) j (sys_minions s))).
Proof using All.
  intros Hs Hnew. unfold sent_to_minion.
  destruct (m_minions (manager (sys_master s)) !! j) as [p|] eqn:Hp; [|done].
  destruct (proxy_link _ _ _ _ _ _ _ Hs Hp) as (m & S0 & I & Q & Hm & Hl).
  pose proof Hl as [Hup Hpeer Hsent [Hnd Hask] Hback Hmap (socket & Epr & Hrel & Haddr & Hin & Hout) Hq Honce Harr Hseen Hd].
  rewrite Hsent, list_lookup_fmap. destruct (S0 !! x) as [i|] eqn:Ei; [|done]. intros [= <-].
  assert (Ealter : forall f, alter f j (sys_minions s) = <[j := f m]> (sys_minions s))
    by (intros f; by rewrite (alter_lookup _ _ f m Hm)).
  rewrite Ealter.
  assert (Hfresh : i ∉ I ++ Q ++ (E j).*1).
  { intros (x' & Hx' & Harr')%Harr. by rewrite (NoDup_lookup S0 x' x i Hnd Hx' Ei) in Harr'. }
  assert (Hperm : (I ++ [i]) ++ Q ++ (E j).*1 ≡ₚ i :: I ++ Q ++ (E j).*1) by solve_Permutation.
  eapply (minion_linear k order E arrived _ s j p m _ [] S0 (I ++ [i]) Q Hs Hm Hp);
    [set_solver| |by intros ? ? []%not_elem_of_nil].
  rewrite app_nil_r. constructor; cbn [minion_deliver proxy stream Minion.m_queue]; try done.
  - exists (UDPSocket.deliver (master_addr j) (packet_of (asks i)) socket). rewrite Epr.
    do 3 (split; [done|]). split; [|done]. unfold UDPSocket.deliver. cbn [UDPSocket.incoming]. by rewrite Hin, fmap_app.
  - rewrite Hperm. by apply NoDup_cons.
  - intros i'. rewrite Hperm, elem_of_cons, Harr. split.
    + intros [->|(x' & ? & ?)]; [exists x; split; [done|set_solver]|exists x'; split; [done|set_solver]].
    + intros (x' & Hx' & [Hxx|Ha]%elem_of_union); [|right; by exists x'].
      apply elem_of_singleton in Hxx as [= ->]. left. congruence.
  - intros x' [Hxx|Ha]%elem_of_union; [|by apply Hseen].
    apply elem_of_singleton in Hxx as [= ->]. by eapply lookup_lt_Some.
Qed.

Lemma to_master_linear k order E arrived s j datagram :
  linear k order E arrived s -> (master_addr j, datagram) ∈ sent_by_minion j s ->
  linear k order E arrived (mk_System (deliver j (minion_addr j) datagram (sys_master s)) (sys_minions s)).
Proof using All.
  intros Hs Hin. pose proof Hs as [[replied Hsane] [Hc Hlen] Hcount Ho Hpend Hsent Hcalm Htick Hlinks Hopen Hlt' Hwr Hrd].
  constructor; cbn [sys_master sys_minions]; try done.
  - exists replied. by apply deliver_sane.
  - split; [exact Hc|]. unfold deliver. cbn [manager set_minions m_minions]. by rewrite length_alter.
  - intros j' p' m. unfold deliver. cbn [manager set_minions m_minions backend]. rewrite list_lookup_alter.
    case_decide as Hj; [subst j'|apply Hlinks].
    destruct (m_minions (manager (sys_master s)) !! j) as [p|] eqn:Ep; [|done]. intros [= <-] Hm.
    destruct (Hlinks j p m Ep Hm) as (S0 & I & Q & Hl). exists S0, I, Q.
    unfold sent_by_minion in Hin. rewrite Hm in Hin.
    pose proof Hl as [Hup Hpeer Houtp Hask Hback Hmap Hsock Hq Honce Harr Hseen Hd].
    constructor; cbn [MinionProxy.m_socket m_map]; try done.
    unfold UDPSocket.deliver. cbn [UDPSocket.incoming]. apply Forall_app. split; [done|]. apply Forall_singleton.
    destruct Hsock as (socket & Epr & _ & _ & _ & Hout). unfold sent_by in Hin. rewrite Epr in Hin. cbn [m_socket] in Hin.
    rewrite Hout in Hin. apply list_elem_of_fmap in Hin as (a & [= ->] & Ha). by exists a.
  - intros i Hi. destruct (Hopen i Hi) as [Hq|(t & tk & Ht & Hu & Hf & Hroles)]; [by left|]. right. exists t, tk.
    do 3 (split; [done|]). intros role p'. unfold deliver. cbn [sys_master manager set_minions m_minions].
    rewrite list_lookup_alter. case_decide as Hj; [subst j|apply Hroles].
    destruct (m_minions (manager (sys_master s)) !! minion_of (seg i) role) as [p|] eqn:Ep; [|done]. intros [= <-]. by apply (Hroles role p).
Qed.

(** *** A task is run *)

(** Each of the two minions is asked once, the others are not. *)
Lemma tasks_for_one t seg msg j :
  minion_of seg PRIMARY <> minion_of seg BACKUP ->
  let l := tasks_for (C := closure) j (imap pair [seg] ≫= segment_tasks make_closure t msg) in
  (exists role x, minion_of seg role = j /\ l = [(x, (t, 0%nat, role), msg seg)]) \/ l = [].
Proof.
  unfold minion_of. intros Hne. cbn [imap mbind list_bind app segment_tasks fst snd].
  unfold tasks_for. rewrite !filter_cons, filter_nil. cbn [fst snd].
  repeat case_decide; [congruence| | |by right]; left; [exists PRIMARY|exists BACKUP]; eexists; by split.
Qed.

Lemma two_minions i : (i < length reqs)%nat -> minion_of (seg i) PRIMARY <> minion_of (seg i) BACKUP.
Proof using All.
  intros Hi. destruct (req_placed i Hi) as (_ & Hr & _).
  destruct (placed_segment_eq used chunk n _ Hchunk Hn Hdrive Hr) as (_ & _ & _ & -> & ->).
  destruct (placed_chunk used chunk n _ Hchunk Hn Hdrive Hr) as (_ & _ & Hn2 & Hlt & _).
  destruct (next_cases n _ Hn2 Hlt) as (_ & ? & _). congruence.
Qed.

Lemma task_uid i : args_uid (task_of (Z.of_nat i) (req i)) = Z.of_nat i.
Proof. unfold task_of. by destruct (k_data (req i)). Qed.

(** The other requests stay as they are. *)
Lemma task_open s i q ps' logs :
  (i < length reqs)%nat -> length ps' = length (m_minions (manager (sys_master s))) ->
  (forall j p p', m_minions (manager (sys_master s)) !! j = Some p -> ps' !! j = Some p' ->
    m_map p' = match last (tasks_for (C := closure) j (imap pair [seg i] ≫= segment_tasks make_closure
      (next_ticket (backend (sys_master s))) (message (op_of (req i)) (Z.of_nat i) (default [] (k_data (req i)))))) with
      | Some t => <[Z.of_nat i := t.1.2]> (m_map p) | None => m_map p end) ->
  Master.m_queue (sys_master s) !! q = Some (task_of (Z.of_nat i) (req i)) ->
  let s' := mk_System (mk_Master (set_minions ps' (manager (sys_master s)))
    (add_logs logs (announce (make_Ticket (Z.of_nat i) (op_of (req i)) (k_len (req i)) [seg i]) (Z.of_nat i)
      (backend (sys_master s)))) (delete q (Master.m_queue (sys_master s)))) (sys_minions s) in
  asked_for s' i /\ forall i', i' <> i -> asked_for s i' -> asked_for s' i'.
Proof using All.
  intros Hi Hlen Hmap Hq s'.
  assert (Hps : forall j p', ps' !! j = Some p' -> exists p, m_minions (manager (sys_master s)) !! j = Some p).
  { intros j p' Hj. apply lookup_lt_is_Some_2. rewrite <-Hlen. by eapply lookup_lt_Some. }
  assert (Ht' : tickets s' = tickets s ++ [ticket_of (Z.of_nat i) (op_of (req i)) (k_len (req i)) [seg i] [TicketDone] ([], false)])
    by (unfold s'; cbn [sys_master backend]; by rewrite (proj1 (tickets_logs logs _))).
  split.
  - right. exists (next_ticket (backend (sys_master s))). eexists. rewrite Ht'.
    split; [by apply list_lookup_middle|]. do 2 (split; [done|]). intros role p' Hp'. right.
    destruct (Hps _ _ Hp') as [p Hp]. rewrite (Hmap _ p p' Hp Hp').
    pose proof (tasks_of_segment (next_ticket (backend (sys_master s))) (seg i)
      (message (op_of (req i)) (Z.of_nat i) (default [] (k_data (req i)))) role (two_minions i Hi)) as Hl.
    destruct (last _) as [x|]; [|done]. injection Hl as Hc _. by rewrite Hc, lookup_insert_eq.
  - intros i' Hne [Hin|(t & tk & Ht & Hu & Hc & Hroles)].
    + left. apply list_elem_of_lookup in Hin as [q' Hq']. unfold s'. cbn [sys_master Master.m_queue].
      rewrite delete_take_drop. rewrite <-(take_drop_middle _ _ _ Hq) in Hq'. apply list_elem_of_lookup_2 in Hq'.
      apply elem_of_app in Hq' as [?|[Heq|?]%elem_of_cons]; [apply elem_of_app; by left| |apply elem_of_app; by right].
      apply (f_equal args_uid) in Heq. rewrite !task_uid in Heq. lia.
    + right. exists t, tk. rewrite Ht'. split; [by apply lookup_app_l_Some|]. do 2 (split; [done|]). intros role p' Hp'.
      destruct (Hps _ _ Hp') as [p Hp]. rewrite (Hmap _ p p' Hp Hp').
      destruct (Hroles role p Hp) as [?|Hw]; [by left|right].
      destruct (last _); [|done]. by rewrite lookup_insert_ne by lia.
Qed.

(** The proxy of a minion that was asked for request [i], or not. *)
Lemma link_served k order E arrived uids j p p' m S I Q i t :
  link_fine k order E arrived uids j p m S I Q -> (i < k)%nat -> (k <= length reqs)%nat -> Z.of_nat i ∉ uids ->
  UDPSocket.reliable (MinionProxy.m_socket p') ->
  UDPSocket.m_serveraddr (MinionProxy.m_socket p') = UDPSocket.m_serveraddr (MinionProxy.m_socket p) ->
  UDPSocket.incoming (MinionProxy.m_socket p') = UDPSocket.incoming (MinionProxy.m_socket p) ->
  (let l := tasks_for j (imap pair [seg i] ≫= segment_tasks make_closure t
     (message (op_of (req i)) (Z.of_nat i) (default [] (k_data (req i))))) in
   UDPSocket.sent (MinionProxy.m_socket p') = UDPSocket.sent (MinionProxy.m_socket p)
     ++ ((fun t => (UDPSocket.m_serveraddr (MinionProxy.m_socket p), packet_of t.2)) <$> l)
   /\ m_map p' = match last l with Some t => <[Z.of_nat i := t.1.2]> (m_map p) | None => m_map p end) ->
  exists S', link_fine k order E arrived (uids ++ [Z.of_nat i]) j p' m S' I Q.
Proof using All.
  intros [Hup Hpeer Hsent [Hnd Hask] Hback Hmap Hsock Hq Honce Harr Hseen Hd] Hi Hk Hnew Hup' Hpeer' Hin' [Hout' Hmap'].
  assert (Hask' : Forall (fun i' => (i' < k)%nat /\ (exists role, minion_of (seg i') role = j)
    /\ Z.of_nat i' ∈ uids ++ [Z.of_nat i]) S).
  { eapply Forall_impl; [exact Hask|]. intros i' (? & ? & ?). do 2 (split; [done|]). apply elem_of_app. by left. }
  pose proof (two_minions i ltac:(lia)) as Hne.
  rewrite Hpeer in Hpeer', Hout'.
  destruct (tasks_for_one t (seg i) (message (op_of (req i)) (Z.of_nat i) (default [] (k_data (req i)))) j Hne)
    as [(role & x & Hrole & El)|El]; rewrite El in Hout', Hmap'; cbn [fmap list_fmap last fst snd] in Hout', Hmap'.
  - exists (S ++ [i]). constructor; try done.
    + by rewrite Hout', Hsent, fmap_app.
    + split.
      * apply NoDup_app. split; [done|]. split; [|apply NoDup_singleton].
        intros i' Hi' ->%list_elem_of_singleton. rewrite Forall_forall in Hask. by destruct (Hask i Hi') as (_ & _ & ?).
      * apply Forall_app. split; [done|]. apply Forall_singleton. split; [done|]. split; [by exists role|]. rewrite elem_of_snoc. by right.
    + by rewrite Hin'.
    + intros u t' idx role'. rewrite Hmap'. intros [[<- [= _ <- <-]]|[_ Hu]]%lookup_insert_Some.
      * exists i. split_and!; [done..|]. rewrite elem_of_snoc. by right.
      * destruct (Hmap u t' idx role' Hu) as (i' & ? & ? & ? & ? & ?). exists i'. split_and!; [done..|]. rewrite elem_of_snoc. by left.
    + intros i'. rewrite Harr. split; intros (y & Hy & Ha); exists y; (split; [|done]);
        [by apply lookup_app_l_Some|]. by rewrite lookup_app_l in Hy by by apply Hseen.
    + intros y Hy. rewrite length_app. apply Hseen in Hy. lia.
  - exists S. rewrite app_nil_r in Hout'. constructor; try done.
    + by rewrite Hout'.
    + by rewrite Hin'.
    + by rewrite Hmap'.
Qed.

Lemma run_task_linear k order E arrived s q s' :
  linear k order E arrived s -> run_task q (sys_master s) = (Ok tt, s') ->
  linear k order E arrived (mk_System s' (sys_minions s)).
Proof using All.
  intros Hs E1. pose proof (linear_up _ _ _ _ _ Hs) as Hup.
  destruct Hs as [[replied Hsane] Hsh Hcount [Hnd Hlt] Hpend Hsent Hcalm Htick Hlinks Hopen Hlt' Hwr Hrd].
  pose proof (run_task_sane reqs k replied q _ s' Hsane E1) as Hsane'. destruct (sane_k _ _ _ Hsane) as [Hk _].
  destruct (run_task_flight reqs used chunk n Hreqs Hmany Hchunk Hn Hdrive k replied q _ s' Hsane Hsh)
    as (i & r & ps' & logs & Hik & Hi & Hqueue & -> & Hps & Hserved); [exact Hup|exact E1|].
  apply req_eq in Hi as Er. subst r.
  pose proof (task_uid i) as Huid.
  assert (Hout : i ∉ order).
  { apply Hpend; [done|]. pose proof (sn_pending _ _ _ _ Hsane) as Hp. rewrite Forall_lookup in Hp.
    specialize (Hp q _ Hqueue). by rewrite Huid in Hp. }
  assert (Hfresh : Z.of_nat i ∉ m_uid <$> tickets s).
  { intros Hin. pose proof (sn_uids _ _ _ _ Hsane) as Hu. apply NoDup_app in Hu as (_ & Hdisj & _).
    apply (Hdisj _ Hin). apply list_elem_of_fmap. eexists. split; [symmetry; exact Huid|by eapply list_elem_of_lookup_2]. }
  constructor; cbn [sys_master sys_minions]; try done; [by exists replied|..].
  - split; [apply Hsh|]. cbn [manager set_minions m_minions]. rewrite Hps. apply Hsh.
  - intros i' Hi'. rewrite <-Hpend by done. unfold unanswered. cbn [sys_master backend].
    by rewrite (proj2 (tickets_logs logs _)).
  - rewrite <-Hsent. unfold sent_bytes. cbn [backend]. by rewrite (proj2 (tickets_logs logs _)).
  - cbn [backend]. rewrite (proj1 (tickets_logs logs _)). unfold announce. cbn [b_world w_tickets].
    apply Forall_app. split; [done|]. apply Forall_singleton. exists i, ([], false).
    split_and!; [done..|]. intros _. split; [done|]. by destruct (op_of (req i)).
  - cbn [backend manager set_minions m_minions]. rewrite (proj1 (tickets_logs logs _)).
    unfold announce. cbn [b_world w_tickets]. rewrite fmap_app. intros j p' m Hp' Hm.
    destruct (lookup_lt_is_Some_2 (m_minions (manager (sys_master s))) j) as [p Hp];
      [rewrite <-Hps; by eapply lookup_lt_Some|].
    destruct (Hlinks j p m Hp Hm) as (S0 & I & Q & Hl).
    destruct (Hserved j p p' Hp Hp') as (Hup' & _ & Hpeer & Hinbox & Houtbox & Hwait).
    destruct (link_served k order (E j) arrived _ j p p' m S0 I Q i _ Hl Hik Hk Hfresh Hup' Hpeer Hinbox
      (conj Houtbox Hwait)) as [S' Hl'].
    by exists S', I, Q.
  - destruct (task_open s i q ps' logs) as [Hnew Hold]; [lia|done| |done|].
    { intros j p p' Hp Hp'. apply (Hserved j p p' Hp Hp'). }
    intros i' Hi'. destruct (decide (i' = i)) as [->|Hne]; [exact Hnew|]. by apply Hold, Hopen.
Qed.

(** *** An answer is read *)

(** A role that was heard has run the request, and said so. *)
Lemma heard_reply E i h role :
  (i < length reqs)%nat -> Forall (heard E i) h -> answered h 0 role = true ->
  exists data m, (i, data) ∈ E (minion_of (seg i) role) /\ Ticket.reply h 0 role = Some m
    /\ GetResult m = true
    /\ (k_data (req i) = None -> Z.of_nat (length data) = k_len (req i) -> GetData m = Some data).
Proof using All.
  intros Hi Hall Ha. unfold answered in Ha. apply bool_decide_eq_true in Ha as [m Hm].
  unfold Ticket.reply. rewrite Hm. apply latest_elem in Hm. rewrite Forall_forall in Hall.
  destruct (Hall _ Hm) as (role' & data & Hin & [= -> ->]). exists data. eexists. split; [done|]. split; [reflexivity|].
  destruct (req_placed i Hi) as (_ & Hr & _). unfold answer_of. cbn [fst snd].
  unfold asks. rewrite (placed_answer_eq used chunk n _ Hchunk Hn Hdrive Hr).
  destruct (k_data (req i)); split; [done|done|done|]. intros _ Hlen. simpl. f_equal.
  rewrite <-Hlen, Nat2Z.id. by apply read_cells_exact.
Qed.

Lemma length_read_op i d :
  (i < length reqs)%nat -> length d = (n * size)%nat -> k_data (req i) = None ->
  Z.of_nat (length (read_op i d)) = k_len (req i).
Proof using All.
  intros Hi Hd Hread. destruct (req_placed i Hi) as (_ & ((_ & Hf & _) & Hl & _ & Hend & _) & _).
  unfold read_op, drive_op. rewrite Hread. cbn [array_op fst snd]. rewrite length_take, length_drop, Hd. nia.
Qed.

(** When a ticket is complete the reply is that of the array, and a write has been
    run by both minions. *)
Lemma complete_reply E order i hc a hc' result :
  (i < length reqs)%nat -> Forall (fun i => i < length reqs)%nat order ->
  (forall role data, (i, data) ∈ E (minion_of (seg i) role) -> i ∉ order -> k_data (req i) = None ->
     data = read_op i (drive_after order)) -> (hc.2 = false -> i ∉ order) ->
  Forall (heard E i) hc.1 -> heard E i a ->
  spec_step (Z.of_nat i) (op_of (req i)) (k_len (req i)) [seg i] hc a = (hc', Some result) ->
  (i ∉ order) /\ hc'.2 = true
  /\ sent_for (req i) (Some result) = drive_reply true (req i) (drive_after order)
  /\ (is_Some (k_data (req i)) -> forall role, i ∈ (E (minion_of (seg i) role)).*1).
Proof using All.
  intros Hi Ho Hrd Hopen Hh Ha. destruct hc as [h c]. cbn [fst snd] in *. unfold spec_step.
  destruct (c || _) eqn:Ec; [done|]. apply orb_false_iff in Ec as [-> _].
  destruct (forallb _ _) eqn:Eres; [|done]. intros [= <- <-]. specialize (Hopen eq_refl). do 2 (split; [done|]).
  cbn [seq forallb length] in Eres. rewrite andb_true_r in Eres.
  assert (Hall : Forall (heard E i) (h ++ [a])) by (apply Forall_app; by repeat constructor).
  set (h' := h ++ [a]) in *. unfold Ticket.verdict. cbn [seq forallb length]. rewrite andb_true_r.
  pose proof (heard_reply E i h' PRIMARY Hi Hall) as HP. pose proof (heard_reply E i h' BACKUP Hi Hall) as HB.
  unfold drive_reply, drive_op, op_of in *.
  destruct (k_data (req i)) as [bytes|] eqn:Edata.
  - cbn [resolved successful] in *. apply andb_true_iff in Eres as [EP EB].
    destruct (HP EP) as (dp & mp & Hinp & -> & Hokp & _), (HB EB) as (db & mb & Hinb & -> & Hokb & _).
    cbn [msg_ok]. rewrite Hokp, Hokb. split; [done|]. intros _ role. apply list_elem_of_fmap.
    destruct role; [by exists (i, dp)|by exists (i, db)].
  - split; [|by intros []]. cbn [resolved successful] in *.
    assert (Hbest : exists role, answered h' 0 role = true /\ msg_ok (Ticket.reply h' 0 PRIMARY) || msg_ok (Ticket.reply h' 0 BACKUP) = true
      /\ (if msg_ok (Ticket.reply h' 0 PRIMARY) then Ticket.reply h' 0 PRIMARY else Ticket.reply h' 0 BACKUP) = Ticket.reply h' 0 role).
    { destruct (msg_ok (Ticket.reply h' 0 PRIMARY)) eqn:Ep.
      - exists PRIMARY. split; [|done]. unfold answered, Ticket.reply in *. destruct (latest h' 0 PRIMARY); [done|done].
      - exists BACKUP. cbn [orb] in Eres |- *. split; [done|]. split; [|done].
        destruct (HB Eres) as (d & m & _ & -> & Hok & _). exact Hok. }
    destruct Hbest as (role & Hans & -> & Hb).
    destruct (heard_reply E i h' role Hi Hall Hans) as (data & m & Hin & Em & _ & Hdata).
    rewrite (Hrd role data Hin Hopen eq_refl) in Hdata.
    assert (Hop : (array_op (DiskRead (k_from (req i)) (k_len (req i))) (drive_after order)).1.2
      = read_op i (drive_after order)) by (unfold read_op, drive_op; by rewrite Edata).
    pose proof (length_read_op i _ Hi (length_drive order Ho) Edata) as Hlen.
    destruct (req_placed i Hi) as (_ & Hr & _).
    destruct (placed_segment_eq used chunk n _ Hchunk Hn Hdrive Hr) as (Hsl & _).
    cbn [sent_for tr_result tr_buffer tr_length imap concat andb]. rewrite bool_decide_eq_true_2 by done.
    rewrite Hop. f_equal. unfold piece. rewrite Hb, Em. cbn [msg_data mbind option_bind].
    rewrite (Hdata Edata Hlen), Hsl. cbn [default id concat]. rewrite app_nil_r.
    rewrite read_cells_exact by (rewrite length_read_cells; done). apply read_cells_exact. lia.
Qed.

Lemma pending_snoc k order i i' : pending k (order ++ [i]) i' -> pending k order i' /\ i' <> i.
Proof.
  intros [Hk Hn']. rewrite elem_of_snoc in Hn'. split; [split; [done|tauto]|tauto].
Qed.

(** Request [i] is answered: it takes effect on the array. *)
Lemma disk_fine_snoc k order ran j d i :
  (k <= length reqs)%nat -> Forall (fun i => i < length reqs)%nat order -> pending k order i -> (j < n)%nat ->
  (is_Some (k_data (req i)) -> base used n j = Z.to_nat (k_from (req i) `div` chunk) -> i ∈ ran) ->
  disk_fine k order ran j d -> disk_fine k (order ++ [i]) ran j d.
Proof using All.
  intros Hk Ho Hi Hj Hran [Hlen Hnew Hold]. assert (Hil : (i < length reqs)%nat) by (destruct Hi; lia).
  constructor; [done|..].
  - intros i' o x Hi' Hoff Hw Hin. by apply (Hnew i' o x (proj1 (pending_snoc _ _ _ _ Hi'))).
  - intros o Hoff Hno. rewrite drive_after_snoc.
    destruct (run_op_lookup i (drive_after order) (base used n j * size + o) Hil (length_drive order Ho)) as (_ & ->).
    destruct (written i _) as [x|] eqn:Ew.
    + destruct (written_covers i _ Hil (mk_is_Some _ _ Ew)) as [Hc Hd].
      apply (Hnew i o x Hi Hoff Ew), (Hran Hd). by apply (covers_chunk i j o).
    + apply Hold; [done|]. intros i' Hi' Hw. apply Hno; [|done]. split; [apply Hi'|].
      intros [Hin| ->%list_elem_of_singleton]%elem_of_app; [by apply Hi'|]. rewrite Ew in Hw. by destruct Hw.
Qed.

Lemma read_snoc k order i i' :
  (k <= length reqs)%nat -> Forall (fun i => i < length reqs)%nat order ->
  (forall i i', pending k order i -> pending k order i' -> i <> i' -> ~ conflict (req i) (req i')) ->
  pending k order i -> pending k (order ++ [i]) i' -> k_data (req i') = None ->
  read_op i' (drive_after (order ++ [i])) = read_op i' (drive_after order).
Proof using All.
  intros Hk Ho Hcalm Hi [Hi'k Hi'o] Hread.
  destruct (req_placed i' ltac:(lia)) as (_ & ((_ & Hf & _) & _) & _).
  apply read_op_same; [done|lia|]. intros p Hc. rewrite drive_after_snoc.
  destruct (run_op_lookup i (drive_after order) p ltac:(destruct Hi; lia) (length_drive order Ho)) as (_ & ->).
  rewrite (no_conflict i' i); [done|destruct Hi; lia| |done].
  apply Hcalm; [split; [done|set_solver]|done|]. intros ->. set_solver.
Qed.

Lemma link_received k order E arrived uids j p m S I Q x rest map' :
  link_fine k order E arrived uids j p m S I Q -> UDPSocket.incoming (MinionProxy.m_socket p) = x :: rest ->
  map' ⊆ m_map p ->
  link_fine k order E arrived uids j (mk_MinionProxy (UDPSocket.received (minion_addr j) rest (MinionProxy.m_socket p)) map') m S I Q.
Proof.
  intros [Hup Hpeer Hsent Hask Hback Hmap Hsock Hq Honce Harr Hseen Hd] Hin Hsub.
  rewrite Hin in Hback. apply Forall_cons in Hback as [_ Hback]. constructor; try done.
  intros u t idx role Hu. apply (Hmap u t idx role). by eapply lookup_weaken.
Qed.

Lemma link_fine_snoc k order E arrived uids j p m S I Q i :
  (k <= length reqs)%nat -> Forall (fun i => i < length reqs)%nat order -> pending k order i -> (j < n)%nat ->
  (is_Some (k_data (req i)) -> base used n j = Z.to_nat (k_from (req i) `div` chunk) -> i ∈ E.*1) ->
  link_fine k order E arrived uids j p m S I Q -> link_fine k (order ++ [i]) E arrived uids j p m S I Q.
Proof using All.
  intros Hk Ho Hi Hj Hran [Hup Hpeer Hsent Hask Hback Hmap Hsock Hq Honce Harr Hseen (d & Hd & Hfine)].
  constructor; try done. exists d. split; [done|]. by apply disk_fine_snoc.
Qed.

(** The master after an answer has been read from minion [j]; [order'] is [order], or
    has one more request. *)
Lemma proxy_linear k order order' E arrived s replied j p x rest map' b' :
  linear k order E arrived s -> m_minions (manager (sys_master s)) !! j = Some p ->
  UDPSocket.incoming (MinionProxy.m_socket p) = x :: rest -> map' ⊆ m_map p ->
  let s' := mk_Master (set_minions (<[j := mk_MinionProxy (UDPSocket.received (minion_addr j) rest
      (MinionProxy.m_socket p)) map']> (m_minions (manager (sys_master s)))) (manager (sys_master s))) b'
      (Master.m_queue (sys_master s)) in
  sane reqs k replied s' -> m_uid <$> w_tickets (b_world b') = m_uid <$> tickets s ->
  Forall (ticket_fine k order' E) (w_tickets (b_world b')) ->
  (forall i, (i < k)%nat -> is_Some (m_responses (b_nbd b') !! Z.of_nat i) <-> i ∉ order') ->
  sent_bytes s' = drive_replies ((fun i => (req i, true)) <$> order') zeros ->
  order' = order \/ (exists i, order' = order ++ [i] /\ pending k order i
    /\ (is_Some (k_data (req i)) -> forall role, i ∈ (E (minion_of (seg i) role)).*1)) ->
  (forall i, pending k order' i -> asked_for (mk_System s' (sys_minions s)) i) ->
  linear k order' E arrived (mk_System s' (sys_minions s)).
Proof using All.
  intros [Hsane Hsh Hcount [Hnd Hlt] Hpend Hsent Hcalm Htick Hlinks Hopen Hran Hwr Hrd] Hp Hin Hsub s' Hsane' Hu Ht' Er Es Horder Hopen'.
  destruct Hsane as [replied0 Hsane]. destruct (sane_k _ _ _ Hsane) as [Hk _].
  assert (Hol : Forall (fun i => i < length reqs)%nat order) by (eapply Forall_impl; [exact Hlt|]; intros i Hi; cbn in Hi; lia).
  assert (Hlinks' : forall j' p' m, <[j := mk_MinionProxy (UDPSocket.received (minion_addr j) rest
      (MinionProxy.m_socket p)) map']> (m_minions (manager (sys_master s))) !! j' = Some p' ->
    sys_minions s !! j' = Some m ->
    exists S I Q, link_fine k order (E j') arrived (m_uid <$> tickets s) j' p' m S I Q).
  { intros j' p' m [(<- & <- & _)|[_ Hj]]%list_lookup_insert_Some Hm; [|by apply Hlinks].
    destruct (Hlinks j p m Hp Hm) as (S0 & I & Q & Hl). exists S0, I, Q. by eapply link_received. }
  assert (Hshape : shaped chunk n s').
  { split; [apply Hsh|]. unfold s'. cbn [manager set_minions m_minions]. rewrite length_insert. apply Hsh. }
  destruct Horder as [-> |(i & -> & Hi & Hiran)];
    (constructor; cbn [sys_master sys_minions]; [by exists replied|done|done| | | | | | | | | |]; try done).
  - unfold s'. cbn [manager set_minions m_minions backend]. by rewrite Hu.
  - split.
    + apply NoDup_app. split; [done|]. split; [|apply NoDup_singleton].
      intros i' Hi' ->%list_elem_of_singleton. by destruct Hi.
    + apply Forall_app. split; [done|]. apply Forall_singleton. apply Hi.
  - intros i1 i2 [H1 _]%pending_snoc [H2 _]%pending_snoc. by apply Hcalm.
  - unfold s'. cbn [manager set_minions m_minions backend]. rewrite Hu. intros j' p' m Hp' Hm.
    destruct (Hlinks' j' p' m Hp' Hm) as (S0 & I & Q & Hl). exists S0, I, Q.
    assert (Hj : (j' < n)%nat) by (rewrite <-Hcount; by eapply lookup_lt_Some).
    apply link_fine_snoc; [done..| |done]. intros Hd Hb.
    destruct (holder_role i j') as [role <-]; [destruct Hi; lia|done|done|]. by apply Hiran.
  - intros i' role [Hin'| ->%list_elem_of_singleton]%elem_of_app; [by apply Hwr|]. intros Hd. by apply Hiran.
  - intros j' i' data Hin' Hout Hread. rewrite elem_of_snoc in Hout. rewrite (Hrd j' i' data Hin') by (done || tauto).
    symmetry. apply (read_snoc k order i i' Hk Hol Hcalm Hi); [|done].
    split; [by eapply Hran|by rewrite elem_of_snoc].
Qed.

Lemma spec_step_heard E i seg op len hc role m hc' out :
  spec_step (Z.of_nat i) op len [seg] hc (0%nat, role, m) = (hc', out) -> Forall (heard E i) hc.1 ->
  heard E i (0%nat, role, m) ->
  Forall (heard E i) hc'.1
  /\ (hc.2 = false -> hc'.1 = hc.1 ++ [(0%nat, role, m)] /\ (out = None -> hc'.2 = false))
  /\ (hc'.2 = false -> hc.2 = false /\ resolved op hc'.1 0 = false).
Proof.
  unfold spec_step. destruct hc as [h c]. cbn [fst snd length Nat.leb]. rewrite orb_false_r. intros E1 Hh Ha.
  destruct c; [injection E1 as <- <-; by split_and!|].
  cbn [seq forallb] in E1. rewrite andb_true_r in E1.
  destruct (resolved _ _ _) eqn:Er; injection E1 as <- <-; cbn [fst snd];
    (split; [apply Forall_app; split; [done|by apply Forall_singleton]|done]).
Qed.

(** Of the tickets only that of request [i] changes. *)
Lemma tickets_insert k order order' E l t tk tk' i :
  l !! t = Some tk -> m_uid tk = Z.of_nat i -> NoDup (m_uid <$> l) ->
  Forall (ticket_fine k order E) l -> ticket_fine k order' E tk' -> (forall i', i' <> i -> i' ∉ order -> i' ∉ order') ->
  Forall (ticket_fine k order' E) (<[t := tk']> l).
Proof.
  intros Ht Hu Hnd Hall Htk' Hord. apply Forall_lookup_2. intros t' x.
  intros [(<- & <- & _)|[Hne Hx]]%list_lookup_insert_Some; [done|]. rewrite Forall_lookup in Hall.
  destruct (Hall t' x Hx) as (i' & hc & Hik & -> & Hh & Hc). exists i', hc. do 3 (split; [done|]).
  intros Hf. destruct (Hc Hf) as [Ho Hres]. split; [|done]. apply Hord; [|done]. intros ->. apply Hne.
  eapply (NoDup_lookup _ _ _ _ Hnd); rewrite list_lookup_fmap; [by rewrite Ht; simpl; rewrite Hu|by rewrite Hx].
Qed.

(** The requests that an answer is not about. *)
Lemma open_kept s j (p : MinionProxy closure) rest (map' : gmap Z closure) b' i :
  m_minions (manager (sys_master s)) !! j = Some p -> map' !! Z.of_nat i = m_map p !! Z.of_nat i ->
  (forall t tk, tickets s !! t = Some tk -> m_uid tk = Z.of_nat i -> w_tickets (b_world b') !! t = Some tk) ->
  asked_for s i ->
  asked_for (mk_System (mk_Master (set_minions (<[j := mk_MinionProxy (UDPSocket.received (minion_addr j) rest
      (MinionProxy.m_socket p)) map']> (m_minions (manager (sys_master s)))) (manager (sys_master s))) b'
      (Master.m_queue (sys_master s))) (sys_minions s)) i.
Proof.
  intros Hp Hmap Ht' [Hq|(t & tk & Ht & Hu & Hc & Hroles)]; [by left|]. right. exists t, tk.
  split; [by apply Ht'|]. do 2 (split; [done|]). intros role p'. cbn [sys_master manager set_minions m_minions].
  intros [(Hj & <- & _)|[_ Hj]]%list_lookup_insert_Some; [|by apply Hroles]. subst j.
  destruct (Hroles role p Hp) as [?|Hw]; [by left|right]. exact (eq_trans Hmap Hw).
Qed.

Lemma open_others s j (p : MinionProxy closure) rest b' i i' t tk tk' :
  i' <> i -> m_minions (manager (sys_master s)) !! j = Some p ->
  tickets s !! t = Some tk -> m_uid tk = Z.of_nat i -> w_tickets (b_world b') = <[t := tk']> (tickets s) ->
  asked_for s i' ->
  asked_for (mk_System (mk_Master (set_minions (<[j := mk_MinionProxy (UDPSocket.received (minion_addr j) rest
      (MinionProxy.m_socket p)) (delete (Z.of_nat i) (m_map p))]> (m_minions (manager (sys_master s))))
      (manager (sys_master s))) b' (Master.m_queue (sys_master s))) (sys_minions s)) i'.
Proof.
  intros Hne Hp Ht Hu Ht'. apply open_kept; [done|by rewrite lookup_delete_ne by lia|]. intros t' tk1 Htk1 Hu1.
  rewrite Ht', list_lookup_insert_ne; [done|]. intros <-. rewrite Ht in Htk1. injection Htk1 as <-. lia.
Qed.

(** The request that it is about, while that is not complete. *)
Lemma open_answered s j p rest b' i t hc hc' role m :
  (i < length reqs)%nat -> m_minions (manager (sys_master s)) !! j = Some p ->
  m_map p !! Z.of_nat i = Some (t, 0%nat, role) -> minion_of (seg i) role = j -> NoDup (uids (sys_master s)) ->
  tickets s !! t = Some (ticket_of (Z.of_nat i) (op_of (req i)) (k_len (req i)) [seg i] [TicketDone] hc) ->
  w_tickets (b_world b') = <[t := ticket_of (Z.of_nat i) (op_of (req i)) (k_len (req i)) [seg i] [TicketDone] hc']> (tickets s) ->
  (hc.2 = false -> hc'.1 = hc.1 ++ [(0%nat, role, m)] /\ hc'.2 = false) -> asked_for s i ->
  asked_for (mk_System (mk_Master (set_minions (<[j := mk_MinionProxy (UDPSocket.received (minion_addr j) rest
      (MinionProxy.m_socket p)) (delete (Z.of_nat i) (m_map p))]> (m_minions (manager (sys_master s))))
      (manager (sys_master s))) b' (Master.m_queue (sys_master s))) (sys_minions s)) i.
Proof using All.
  intros Hi Hp Hw Hrole Hnd Ht Ht' Hstep Hasked.
  assert (Hin : Z.of_nat i ∈ m_uid <$> tickets s).
  { apply list_elem_of_fmap. eexists. split; [|by eapply list_elem_of_lookup_2]. done. }
  apply NoDup_app in Hnd as (Hnd & Hdisj & _). destruct Hasked as [Hq|(t' & tk & Htk & Hu & Hc & Hroles)].
  { exfalso. apply (Hdisj _ Hin). apply list_elem_of_fmap. eexists. by rewrite task_uid. }
  assert (t' = t) as ->.
  { eapply (NoDup_lookup _ _ _ _ Hnd); rewrite list_lookup_fmap; [by rewrite Htk; simpl; rewrite Hu|by rewrite Ht]. }
  rewrite Ht in Htk. injection Htk as <-. destruct (Hstep Hc) as [Hh Hc'].
  right. exists t. eexists. cbn [sys_master backend]. rewrite Ht'.
  split; [apply list_lookup_insert_eq; by eapply lookup_lt_Some|]. do 2 (split; [done|]).
  intros role' p'. cbn [manager set_minions m_minions].
  assert (Hans : forall r, answered hc'.1 0 r = bool_decide (r = role) || answered hc.1 0 r).
  { intros r. unfold answered. rewrite Hh, latest_snoc. rewrite decide_True by done.
    case_decide as Hr; [subst r; by rewrite !bool_decide_eq_true_2 by (done || by eexists)|]. rewrite (bool_decide_eq_false_2 (r = role)) by congruence. done. }
  assert (Hhas : forall c, has_answered (ticket_of (Z.of_nat i) (op_of (req i)) (k_len (req i)) [seg i] [TicketDone] c) role'
    = answered c.1 0 role') by (intros c; by destruct role').
  rewrite Hhas, Hans. destruct (decide (role' = role)) as [->|Hne]; [left; by rewrite bool_decide_eq_true_2|].
  rewrite bool_decide_eq_false_2 by done. cbn [orb].
  intros [(Hj & <- & _)|[_ Hj]]%list_lookup_insert_Some.
  - exfalso. pose proof (two_minions i Hi) as Htwo. destruct role, role'; congruence.
  - destruct (Hroles role' p' Hj) as [Ha|?]; [left; by rewrite <-Hhas|by right].
Qed.

(** The ticket of request [i] is told what minion [j] has answered. *)
Lemma answer_linear k order E arrived s replied j p x rest i data t role b' :
  linear k order E arrived s -> (i < k)%nat -> (i, data) ∈ E j -> m_minions (manager (sys_master s)) !! j = Some p ->
  UDPSocket.incoming (MinionProxy.m_socket p) = x :: rest -> m_map p !! Z.of_nat i = Some (t, 0%nat, role) ->
  minion_of (seg i) role = j ->
  respond (t, 0%nat, role) (message_seen (answer_of (i, data))) (backend (sys_master s)) = (Ok tt, b') ->
  let s' := mk_Master (set_minions (<[j := mk_MinionProxy (UDPSocket.received (minion_addr j) rest
      (MinionProxy.m_socket p)) (delete (Z.of_nat i) (m_map p))]> (m_minions (manager (sys_master s))))
      (manager (sys_master s))) b' (Master.m_queue (sys_master s)) in
  sane reqs k replied s' -> exists order', linear k order' E arrived (mk_System s' (sys_minions s)).
Proof using All.
  intros Hs Hik Ha Hp Ein Ewait Hrole Er s' Hsane'.
  destruct (ln_sane Hs) as [replied0 Hsane]. destruct (sane_k _ _ _ Hsane) as [Hk _].
  destruct (req_placed i ltac:(lia)) as (Hi & _).
  destruct (waited_ticket _ _ _ _ _ _ _ _ _ _ _ Hs Hp Ewait) as (hc & Et & _ & Hh & Hopen).
  pose proof (respond_sends reqs used chunk n Hreqs Hmany Hchunk Hn Hdrive k replied0 (backend (sys_master s)) t role 0
    (message_seen (answer_of (i, data))) i (req i) hc (mi_backend _ _ _ _ (sn_inv _ _ _ _ Hsane)) Hi Et) as Hrs.
  assert (Hheard : heard E i (0%nat, role, Some (message_seen (answer_of (i, data)))))
    by (exists role, data; by rewrite Hrole).
  destruct (spec_step _ _ _ _ hc _) as [hc' out] eqn:Espec.
  destruct (spec_step_heard E i _ _ _ _ _ _ _ _ Espec Hh Hheard) as (Hh' & Hstep & Hopen').
  destruct Hrs as (b1 & Er1 & Ht' & Hcase). rewrite Er in Er1. injection Er1 as <-.
  pose proof (sn_uids _ _ _ _ Hsane) as Hndu. pose proof Hndu as (Hnd & _)%NoDup_app.
  assert (Huids : m_uid <$> w_tickets (b_world b') = m_uid <$> tickets s)
    by (rewrite Ht'; by apply (m_uid_insert _ _ _ _ Et)).
  pose proof (fun i' Hne => open_others s j p rest b' i i' t _ _ Hne Hp Et eq_refl Ht') as Hothers.
  assert (Hdone : forall result, out = Some result -> (i ∉ order) /\ hc'.2 = true
    /\ sent_for (req i) (Some result) = drive_reply true (req i) (drive_after order)
    /\ (is_Some (k_data (req i)) -> forall role, i ∈ (E (minion_of (seg i) role)).*1)).
  { intros result ->. eapply complete_reply; [lia|by eapply order_small| |by intros Hc; apply Hopen|exact Hh|exact Hheard|exact Espec].
    intros role' data' Hin. by apply (ln_read Hs _ _ _ Hin). }
  assert (Hquiet : out = None \/ exists result, out = Some result /\ i ∉ order)
    by (destruct out as [result|]; [right; exists result; split; [done|by eapply Hdone]|by left]).
  destruct Hcase as [(Es & Ers & Hnone)|(Es & [result ->] & Ers)].
  - destruct Hquiet as [->|(result & -> & Hout)].
    2:{ apply (ln_pending Hs i Hik) in Hout. unfold unanswered in Hout.
        rewrite Hnone in Hout by (by eexists). by destruct Hout. }
    exists order. eapply (proxy_linear k order order E arrived s); try done.
    + apply delete_subseteq.
    + rewrite Ht'. eapply tickets_insert; [exact Et|done|done|apply Hs| |done].
      exists i, hc'. do 3 (split; [done|]). intros Hc. destruct (Hopen' Hc) as [Hc0 Hres]. split; [by apply Hopen|done].
    + intros i' Hi'. rewrite Ers. by apply Hs.
    + unfold sent_bytes. cbn [backend]. rewrite Es. apply Hs.
    + by left.
    + intros i' Hi'. destruct (decide (i' = i)) as [->|Hne]; [|by apply Hothers; [|apply Hs]].
      eapply (open_answered s j p rest b' i t hc hc' role); [lia|done..| |by apply Hs].
      intros Hc. destruct (Hstep Hc) as [? Hnone']. split; [done|by apply Hnone'].
  - destruct (Hdone result eq_refl) as (Hout & Hc & Hsend & Hran).
    exists (order ++ [i]). eapply (proxy_linear k order (order ++ [i]) E arrived s); try done.
    + apply delete_subseteq.
    + rewrite Ht'. eapply tickets_insert; [exact Et|done|done|apply Hs| |by intros i' ??; rewrite elem_of_snoc; intros []].
      exists i, hc'. do 3 (split; [done|]). by rewrite Hc.
    + intros i' Hi'. rewrite Ers. destruct (decide (i' = i)) as [->|Hne].
      * rewrite lookup_delete_eq. rewrite elem_of_snoc. split; [by intros []|tauto].
      * rewrite lookup_delete_ne by lia. rewrite (ln_pending Hs i' Hi' : is_Some _ <-> _), elem_of_snoc. tauto.
    + unfold sent_bytes. cbn [backend]. rewrite Es, Hsend, replies_snoc. f_equal. apply Hs.
    + right. by exists i.
    + intros i' [Hi' Hne]%pending_snoc. apply Hothers; [done|by apply Hs].
Qed.

Lemma wakeup_linear k order E arrived s j s' :
  linear k order E arrived s -> minion_wakeup j (sys_master s) = (Ok tt, s') ->
  exists order', linear k order' E arrived (mk_System s' (sys_minions s)).
Proof using All.
  intros Hs E1. destruct (ln_sane Hs) as [replied Hsane]. destruct (sane_k _ _ _ Hsane) as [Hk _].
  destruct (minion_wakeup_sane reqs (requests_wf reqs used chunk n Hreqs) k replied j _ s' Hsane E1) as [replied' Hsane'].
  destruct (wakeup_minion j _ s' E1) as [p Hp].
  destruct (proxy_link _ _ _ _ _ _ _ Hs Hp) as (mi & S0 & I & Q & Hmi & Hl).
  pose proof (lk_back Hl) as Hback.
  destruct (UDPSocket.incoming (MinionProxy.m_socket p)) as [|x rest] eqn:Ein; [by destruct (wakeup_waits j p _ s' Hp Ein E1)|].
  apply Forall_cons in Hback as [([i data] & Ha & ->) _].
  assert (Hik : (i < k)%nat) by by eapply (ln_ran Hs).
  destruct (req_placed i ltac:(lia)) as (Hi & Hr & Hu).
  assert (Hgood : good_answer (Z.of_nat i) (answer_of (i, data))) by by apply (placed_answer used chunk n).
  pose proof Hgood as (_ & _ & Huid & _).
  pose proof (wakeup_flight j p _ _ rest _ Hp Ein ltac:(by rewrite Huid)) as Hflight. cbv zeta in Hflight. rewrite Huid in Hflight.
  rewrite Hflight in E1. clear Hflight.
  destruct (m_map p !! Z.of_nat i) as [[[t idx] role]|] eqn:Ewait; cbn [fst snd] in E1.
  2:{ injection E1 as <-. exists order.
      eapply (proxy_linear k order order E arrived s); try done; [by apply Hs..|by left|].
      intros i' Hi'. apply open_kept; [done..|by apply Hs]. }
  destruct (lk_map Hl _ _ _ _ Ewait) as (i1 & _ & <-%Nat2Z.inj & -> & Hrole & _).
  destruct (respond _ _ _) as [r b'] eqn:Er. injection E1 as -> <-.
  by eapply (answer_linear k order E arrived s replied' j p _ rest i data t role b').
Qed.

(** *** Every step *)

Lemma step_linear k order E x y :
  linear k order E x.2 x.1 -> once_step master_addr minion_addr reqs x y ->
  exists k' order' E', linear k' order' E' y.2 y.1.
Proof using All.
  intros Hs Hstep.
  assert (Hmaster : forall f s s', on_master f s = (Ok tt, s') -> exists t, f (sys_master s) = (Ok tt, t)
    /\ s' = mk_System t (sys_minions s)).
  { intros f s s'. unfold on_master, zoom. destruct (f (sys_master s)) as [r t]. intros [= -> <-]. by exists t. }
  assert (Hminion : forall j f s s', on_minion j f s = (Ok tt, s') -> exists m m', sys_minions s !! j = Some m
    /\ f m = (Ok tt, m') /\ s' = mk_System (sys_master s) (<[j := m']> (sys_minions s))).
  { intros j f s s'. unfold on_minion. destruct (sys_minions s !! j) as [m|]; [|done].
    destruct (f m) as [r m'] eqn:Ef. intros [= -> <-]. by exists m, m'. }
  destruct Hstep as [s s' a Hmay E1|i s s' a E1|i s s' a E1|j s s' a E1|j i s s' a E1|j x d s a Hx Hd|j d s a Hd];
    cbn [fst snd] in *.
  - apply Hmaster in E1 as (t & E1 & ->). exists (S k), order, E. by eapply nbd_linear.
  - apply Hmaster in E1 as (t & E1 & ->). exists k, order, E. eapply run_task_linear; done.
  - apply Hmaster in E1 as (t & E1 & ->). destruct (wakeup_linear _ _ _ _ _ _ _ Hs E1) as [order' Hs'].
    by exists k, order', E.
  - apply Hminion in E1 as (m & m' & Hm & E1 & ->). eapply input_linear in E1 as [E' Hs']; [|done..]. by exists k, order, E'.
  - apply Hminion in E1 as (m & m' & Hm & E1 & ->). eapply task_linear in E1 as [E' Hs']; [|done..]. by exists k, order, E'.
  - eapply to_minion_linear in Hd as [E' Hs']; [|done..]. by exists k, order, E'.
  - exists k, order, E. by apply to_master_linear.
Qed.

Lemma steps_linear k order E x y :
  linear k order E x.2 x.1 -> once_steps master_addr minion_addr reqs x y ->
  exists k' order' E', linear k' order' E' y.2 y.1.
Proof using All.
  intros Hs Hsteps. revert k order E Hs. induction Hsteps as [x|x y z Hstep _ IH]; intros k order E Hs; [by exists k, order, E|].
  destruct (step_linear _ _ _ _ _ Hs Hstep) as (k' & order' & E' & Hs'). by eapply IH.
Qed.
End linear.

#[global] Arguments df_length {reqs used chunk n k order ran j d} _.
#[global] Arguments df_new {reqs used chunk n k order ran j d} _.
#[global] Arguments df_old {reqs used chunk n k order ran j d} _.
#[global] Arguments lk_up {master_addr minion_addr reqs used chunk n k order E arrived uids j p m S I Q} _.
#[global] Arguments lk_peer {master_addr minion_addr reqs used chunk n k order E arrived uids j p m S I Q} _.
#[global] Arguments lk_sent {master_addr minion_addr reqs used chunk n k order E arrived uids j p m S I Q} _.
#[global] Arguments lk_asked {master_addr minion_addr reqs used chunk n k order E arrived uids j p m S I Q} _.
#[global] Arguments lk_back {master_addr minion_addr reqs used chunk n k order E arrived uids j p m S I Q} _.
#[global] Arguments lk_map {master_addr minion_addr reqs used chunk n k order E arrived uids j p m S I Q} _.
#[global] Arguments lk_socket {master_addr minion_addr reqs used chunk n k order E arrived uids j p m S I Q} _.
#[global] Arguments lk_queue {master_addr minion_addr reqs used chunk n k order E arrived uids j p m S I Q} _.
#[global] Arguments lk_once {master_addr minion_addr reqs used chunk n k order E arrived uids j p m S I Q} _.
#[global] Arguments lk_arrived {master_addr minion_addr reqs used chunk n k order E arrived uids j p m S I Q} _.
#[global] Arguments lk_within {master_addr minion_addr reqs used chunk n k order E arrived uids j p m S I Q} _.
#[global] Arguments lk_disk {master_addr minion_addr reqs used chunk n k order E arrived uids j p m S I Q} _.
#[global] Arguments ln_sane {_ master_addr minion_addr reqs used chunk n k order E arrived s} _.
#[global] Arguments ln_shape {_ master_addr minion_addr reqs used chunk n k order E arrived s} _.
#[global] Arguments ln_count {_ master_addr minion_addr reqs used chunk n k order E arrived s} _.
#[global] Arguments ln_order {_ master_addr minion_addr reqs used chunk n k order E arrived s} _.
#[global] Arguments ln_pending {_ master_addr minion_addr reqs used chunk n k order E arrived s} _.
#[global] Arguments ln_sent {_ master_addr minion_addr reqs used chunk n k order E arrived s} _.
#[global] Arguments ln_calm {_ master_addr minion_addr reqs used chunk n k order E arrived s} _.
#[global] Arguments ln_tickets {_ master_addr minion_addr reqs used chunk n k order E arrived s} _.
#[global] Arguments ln_links {_ master_addr minion_addr reqs used chunk n k order E arrived s} _.
#[global] Arguments ln_open {_ master_addr minion_addr reqs used chunk n k order E arrived s} _.
#[global] Arguments ln_ran {_ master_addr minion_addr reqs used chunk n k order E arrived s} _.
#[global] Arguments ln_written {_ master_addr minion_addr reqs used chunk n k order E arrived s} _.
#[global] Arguments ln_read {_ master_addr minion_addr reqs used chunk n k order E arrived s} _.

(** ** The start of the programs *)

Lemma start_linear `{LinuxNBD} (master_addr minion_addr : nat -> Z) (chunk : Z)
    (proxies : list (MinionProxy closure)) (tcp : TCPClient.t) (master : Master)
    (minions : list Minion) (used : gset nat) (reqs : list kernel_request)
    (Hchunk : 0 < chunk < 2 ^ 32 - 64) (Hsize : Z.of_nat (length proxies) * chunk < 2 ^ 64)
    (Hboot : boot chunk proxies tcp = Ok master)
    (Hproxies : forall i p, proxies !! i = Some p ->
       link minion_addr i p /\ MinionProxy.m_map p = ∅ /\ UDPSocket.sent (MinionProxy.m_socket p) = [])
    (Hstream : TCPClient.available (TCPClient.incoming tcp) = (reqs ≫= encode))
    (Hsent : TCPClient.sent tcp = []) (Hsends : TCPClient.sends_succeed tcp)
    (Hcount : length minions = length proxies)
    (Hminions : forall i m, minions !! i = Some m -> started chunk false m /\ sent_by m = []) :
  linear master_addr minion_addr reqs used chunk (length proxies) 0 [] (fun _ => []) ∅ (mk_System master minions).
Proof.
  destruct (boot_sane reqs chunk proxies tcp master) as (Hsane & Em & Ec); try done.
  { lia. }
  { apply Forall_lookup_2. intros i p Hp. by apply (Hproxies i p). }
  assert (Hno : w_tickets (b_world (backend master)) = []).
  { revert Hboot. unfold boot. destruct (MinionManager.Init _ _ _) as [[[]|?| |] [m f]]; try done. by intros [= <-]. }
  constructor; cbn [sys_master sys_minions]; try (done || by (intros; lia)); [by exists []|by split; [|rewrite Em]|..].
  - split; constructor.
  - unfold sent_bytes. by rewrite (ni_sent _ _ _ _ (bi_nbd _ _ _ _ (mi_backend _ _ _ _ (sn_inv _ _ _ _ Hsane)))).
  - intros i i' [Hi _]. lia.
  - rewrite Hno. constructor.
  - rewrite Em, Hno. intros j p m Hp Hm. destruct (Hproxies j p Hp) as ((Hin & Hrel & Ha) & Hmap & Hout).
    destruct (Hminions j m Hm) as [Hst Hnone].
    destruct (started_keeps chunk _ m ltac:(lia) Hst) as [(Hq & socket & Hpr & Hinc & Hrels) Hk].
    unfold sent_by in Hnone. rewrite Hpr in Hnone. cbn [m_socket] in Hnone.
    exists [], [], []. constructor; try done.
    + split; constructor.
    + by rewrite Hin.
    + by rewrite Hmap.
    + exists socket. rewrite Hinc, Hnone. split_and!; [done..|by left|done|done].
    + constructor.
    + intros i. split; [by intros []%not_elem_of_nil|by intros (x & ? & _)].
    + eexists. split; [exact Hk|]. constructor; [apply length_replicate|by intros i o x [Hi _]; lia|].
      intros o Ho _. unfold drive_after. cbn [foldl]. pose proof (base_lt used (length proxies) j ltac:(rewrite <-Hcount; by eapply lookup_lt_Some)).
      rewrite !lookup_replicate_2 by nia. done.
  - by intros i [Hi _]; lia.
  - by intros j i data []%not_elem_of_nil.
  - by intros j i data []%not_elem_of_nil.
Qed.
