(* ===== verification/Linearizable.v ===== *)
(** * Linearizable

    Whatever runs at the same time, the disk answers as an array of bytes that runs the
    requests one after the other. *)

From S2P Require Import Prelude Bytes StripeSplitter Message TaskArgs Factory Dispatcher Sockets Logger.
From S2P Require Import Ticket IMinionProxy MinionProxy NBD NBDProxy World ResponseManager MinionManager Commands.
From S2P Require Import Framework Master Protocol Raid Service FileManager MasterProxy Minion Mirror Drive System Flight Ordering Discipline Linear.

(** ** Property *)

(** C2: the disk is linearizable: from the start of the programs, for every order of
    their threads, for requests in flight together, and for every network that loses
    and reorders datagrams and copies answers, at every moment what the kernel has
    received are the replies of an array of bytes of zeros on which those requests
    that were answered have been run one after the other, each once, in the order of
    the replies, all as successes.  The conditions are: each request lies inside one
    chunk, no two of the chunks used share a minion, and it fits into a packet
    ([placed], [apart]); the disks of the minions do not fail and sends succeed; the
    kernel does not send a request while one that overlaps with it is unanswered,
    unless both are reads; and no datagram of the master arrives twice.  The runs of
    [mirrors_diverge] and [acknowledged_write_undone] each break one of the last two,
    [Mirror.mirror_overwrites] and [Raid.cross_chunk_write_hangs] the first. *)
Theorem disk_linearizable `{LinuxNBD} (master_addr minion_addr : nat -> Z) (chunk : Z)
    (proxies : list (MinionProxy closure)) (tcp : TCPClient.t) (master : Master)
    (minions : list Minion) (used : gset nat) (reqs : list kernel_request)
    (s : System) (arrived : gset (nat * nat))
    (Hchunk : 0 < chunk < 2 ^ 32 - 64) (Hn : apart (length proxies) used)
    (Hsize : Z.of_nat (length proxies) * chunk < 2 ^ 64)
    (Hreqs : Forall (placed used chunk (length proxies)) reqs)
    (Hmany : Z.of_nat (length reqs) < 2 ^ 64)
    (Hboot : boot chunk proxies tcp = Ok master)
    (Hproxies : forall i p, proxies !! i = Some p ->
       link minion_addr i p /\ MinionProxy.m_map p = ∅ /\ UDPSocket.sent (MinionProxy.m_socket p) = [])
    (Hstream : TCPClient.available (TCPClient.incoming tcp) = (reqs ≫= encode))
    (Hsent : TCPClient.sent tcp = []) (Hsends : TCPClient.sends_succeed tcp)
    (Hcount : length minions = length proxies)
    (Hminions : forall i m, minions !! i = Some m -> started chunk false m /\ sent_by m = [])
    (Hsteps : once_steps master_addr minion_addr reqs (mk_System master minions, ∅) (s, arrived)) :
  exists k order, (k <= length reqs)%nat
    /\ TCPClient.available (TCPClient.incoming (m_nbd (b_nbd (backend (sys_master s))))) = (drop k reqs ≫= encode)
    /\ NoDup order /\ (forall i, (i < k)%nat -> i ∈ order <-> ~ unanswered s i) /\ Forall (fun i => i < k)%nat order
    /\ sent_bytes (sys_master s)
       = drive_replies ((fun i => (req reqs i, true)) <$> order)
           (replicate (length proxies * Z.to_nat chunk) (Some Byte.x00)).
Proof.
  pose proof (start_linear master_addr minion_addr chunk proxies tcp master minions used reqs Hchunk Hsize Hboot
    Hproxies Hstream Hsent Hsends Hcount Hminions) as Hstart.
  destruct (steps_linear master_addr minion_addr reqs used chunk (length proxies) Hreqs Hmany Hchunk Hn Hsize
    0 [] (fun _ => []) (mk_System master minions, ∅) (s, arrived) Hstart Hsteps) as (k & order & E & Hs).
  cbn [fst snd] in Hs. destruct (ln_sane Hs) as [rep [[[Hk _ [Hst _ _ _ _] _ _ _] _] _ _ _ _]].
  destruct (ln_order Hs) as [Hnd Hlt]. exists k, order. do 3 (split; [done|]).
  split; [|split; [done|by eapply ln_sent]].
  intros i Hi. rewrite (ln_pending Hs i Hi). destruct (decide (i ∈ order)); naive_solver.
Qed.

(** C21: both copies of a chunk hold what was acknowledged.  Under the conditions of
    [disk_linearizable], at every moment there is the order [order] of the requests
    that were answered, whose replies are what the kernel has received, and for each
    chunk [c] that is used the files of both its minions, [c] and the next one, hold at
    every offset that no unanswered write is about the byte of the array on which the
    requests of [order] have been run: an acknowledged write is in both files. *)
Theorem copies_agree `{LinuxNBD} (master_addr minion_addr : nat -> Z) (chunk : Z)
    (proxies : list (MinionProxy closure)) (tcp : TCPClient.t) (master : Master)
    (minions : list Minion) (used : gset nat) (reqs : list kernel_request)
    (s : System) (arrived : gset (nat * nat))
    (Hchunk : 0 < chunk < 2 ^ 32 - 64) (Hn : apart (length proxies) used)
    (Hsize : Z.of_nat (length proxies) * chunk < 2 ^ 64)
    (Hreqs : Forall (placed used chunk (length proxies)) reqs)
    (Hmany : Z.of_nat (length reqs) < 2 ^ 64)
    (Hboot : boot chunk proxies tcp = Ok master)
    (Hproxies : forall i p, proxies !! i = Some p ->
       link minion_addr i p /\ MinionProxy.m_map p = ∅ /\ UDPSocket.sent (MinionProxy.m_socket p) = [])
    (Hstream : TCPClient.available (TCPClient.incoming tcp) = (reqs ≫= encode))
    (Hsent : TCPClient.sent tcp = []) (Hsends : TCPClient.sends_succeed tcp)
    (Hcount : length minions = length proxies)
    (Hminions : forall i m, minions !! i = Some m -> started chunk false m /\ sent_by m = [])
    (Hsteps : once_steps master_addr minion_addr reqs (mk_System master minions, ∅) (s, arrived)) :
  exists order, NoDup order
    /\ (forall i, (i < next_request s)%nat -> i ∈ order <-> ~ unanswered s i)
    /\ sent_bytes (sys_master s)
       = drive_replies ((fun i => (req reqs i, true)) <$> order)
           (replicate (length proxies * Z.to_nat chunk) (Some Byte.x00))
    /\ forall c j, c ∈ used -> j = c \/ j = next (length proxies) c ->
       exists m d, sys_minions s !! j = Some m /\ holds d (stream m) /\ length d = Z.to_nat chunk
         /\ forall o, (o < Z.to_nat chunk)%nat ->
              (forall i r, unanswered s i -> reqs !! i = Some r -> is_Some (k_data r) ->
                 ~ (k_from r <= Z.of_nat (c * Z.to_nat chunk + o) < k_from r + k_len r)) ->
              d !! o = drive_after reqs chunk (length proxies) order !! (c * Z.to_nat chunk + o)%nat.
Proof.
  pose proof (start_linear master_addr minion_addr chunk proxies tcp master minions used reqs Hchunk Hsize Hboot
    Hproxies Hstream Hsent Hsends Hcount Hminions) as Hstart.
  destruct (steps_linear master_addr minion_addr reqs used chunk (length proxies) Hreqs Hmany Hchunk Hn Hsize
    0 [] (fun _ => []) (mk_System master minions, ∅) (s, arrived) Hstart Hsteps) as (k & order & E & Hs).
  cbn [fst snd] in Hs. destruct (ln_sane Hs) as [rep Hsane]. destruct (sane_k reqs k rep _ Hsane) as [Hk Hu].
  assert (Hnext : next_request s = k) by (unfold next_request; rewrite Hu; apply Nat2Z.id).
  rewrite Hnext. exists order. split; [apply (ln_order Hs)|]. split; [|split; [by eapply ln_sent|]].
  { intros i Hi. rewrite (ln_pending Hs i Hi). destruct (decide (i ∈ order)); naive_solver. }
  intros c j Hc Hj. destruct Hn as [Hn2 Hall]. pose proof (Hall c Hc) as [Hcn _].
  assert (Hjn : (j < length proxies)%nat) by (destruct Hj as [->| ->]; [done|by apply next_cases]).
  assert (Hbase : base used (length proxies) j = c) by by apply base_of.
  destruct (lookup_lt_is_Some_2 (sys_minions s) j) as [m Hm]; [by rewrite (ln_count Hs)|].
  destruct (linear_link _ _ _ _ _ _ _ _ _ _ _ _ _ Hs Hm) as (p & S0 & I & Q & _ & Hl).
  destruct (lk_disk Hl) as (d & Hd & Hfine). exists m, d. do 2 (split; [done|]).
  split; [apply (df_length Hfine)|]. intros o Ho Hno. rewrite <-Hbase. apply (df_old Hfine o Ho).
  rewrite Hbase. intros i [Hik Hout] Hw Hran. assert (Hi : (i < length reqs)%nat) by lia.
  destruct (req_placed master_addr minion_addr reqs used chunk (length proxies) Hreqs Hmany Hchunk (conj Hn2 Hall) Hsize i Hi)
    as (Hr & _).
  destruct (written_covers master_addr minion_addr reqs used chunk (length proxies) Hreqs Hmany Hchunk (conj Hn2 Hall) Hsize
    i _ Hi Hw) as [Hcov Hdata].
  by apply (Hno i (req reqs i)); [apply (ln_pending Hs i Hik)|..].
Qed.

Lemma disk_linearizable_witness :
  exists s0 s arrived k order, small_start side_requests = Ok s0
    /\ once_steps (small_addr 200) (small_addr 100) side_requests (s0, ∅) (s, arrived)
    /\ sent_bytes (sys_master s) = side_replies
    /\ (k <= 4)%nat /\ NoDup order /\ Forall (fun i => i < k)%nat order
    /\ sent_bytes (sys_master s)
       = drive_replies ((fun i => (req side_requests i, true)) <$> order) (replicate 24 (Some Byte.x00)).
Proof.
  destruct side_run as (s0 & s & arrived & E0 & Hsteps & Hs).
  destruct (small_started _ _ E0) as (tcp & master & minions & E & Hboot & Hstream & Hsent & Hsends & Hcount & Hminions & Hproxies).
  subst s0. destruct (disk_linearizable (small_addr 200) (small_addr 100) 8 disk_proxies tcp master minions
    {[2%nat]} side_requests s arrived) as (k & order & Hk & _ & Hnd & _ & Hlt & Ho); try done.
  - apply (single_apart 3 2); lia.
  - repeat constructor; simpl; unfold BUFSIZ; lia || done.
  - exists (mk_System master minions), s, arrived, k, order. by split_and!.
Defined.

(** In the run with two writes that overtake each other both files hold their bytes. *)
Lemma copies_agree_witness :
  exists s0 s arrived order, small_start side_requests = Ok s0
    /\ once_steps (small_addr 200) (small_addr 100) side_requests (s0, ∅) (s, arrived)
    /\ sent_bytes (sys_master s) = side_replies /\ NoDup order
    /\ forall j, j = 2%nat \/ j = 0%nat -> exists m d, sys_minions s !! j = Some m /\ holds d (stream m) /\ length d = 8%nat
         /\ forall o, (o < 8)%nat ->
              (forall i r, unanswered s i -> side_requests !! i = Some r -> is_Some (k_data r) ->
                 ~ (k_from r <= Z.of_nat (2 * 8 + o) < k_from r + k_len r)) ->
              d !! o = drive_after side_requests 8 3 order !! (2 * 8 + o)%nat.
Proof.
  destruct side_run as (s0 & s & arrived & E0 & Hsteps & Hs).
  destruct (small_started _ _ E0) as (tcp & master & minions & E & Hboot & Hstream & Hsent & Hsends & Hcount & Hminions & Hproxies).
  subst s0. destruct (copies_agree (small_addr 200) (small_addr 100) 8 disk_proxies tcp master minions
    {[2%nat]} side_requests s arrived) as (order & Hnd & _ & _ & Hcopies); try done.
  - apply (single_apart 3 2); lia.
  - repeat constructor; simpl; unfold BUFSIZ; lia || done.
  - exists (mk_System master minions), s, arrived, order. do 4 (split; [done|]).
    intros j Hj. apply (Hcopies 2%nat j); [by apply elem_of_singleton|]. exact Hj.
Defined.
