(* ===== verification/Progress.v ===== *)
(** * Progress

    No request gets stuck.  From every state that the system can reach under the
    discipline of [Discipline.v], whatever is on the way, in queues or half done, it
    can go on so that all requests that were read are answered: the tasks are run, the
    datagrams arrive, the minions run what they have, their answers arrive.  Nothing
    is sent a second time: a request whose datagram never arrives is not answered
    ([lost_request_unanswered]). *)

From S2P Require Import Prelude Bytes StripeSplitter Message TaskArgs Factory Dispatcher Sockets Logger.
From S2P Require Import Ticket IMinionProxy MinionProxy NBD NBDProxy World ResponseManager MinionManager Commands.
From S2P Require Import Framework Master Protocol Raid Service FileManager MasterProxy Minion Mirror Drive System Flight.
From S2P Require Import Ordering Discipline Linear.

Section progress.
Context `{LinuxNBD} (master_addr minion_addr : nat -> Z).
Context (reqs : list kernel_request) (used : gset nat) (chunk : Z) (n : nat).
Hypothesis Hreqs : Forall (placed used chunk n) reqs.
Hypothesis Hmany : Z.of_nat (length reqs) < 2 ^ 64.
Hypothesis Hchunk : 0 < chunk < 2 ^ 32 - 64.
Hypothesis Hn : apart n used.
Hypothesis Hdrive : Z.of_nat n * chunk < 2 ^ 64.

Abbreviation run := (once_steps master_addr minion_addr reqs).
Abbreviation req := (Linear.req reqs).
Abbreviation seg i := (placed_segment chunk n (req i)).
Abbreviation answer_of := (Linear.answer_of reqs chunk n).
Abbreviation linear := (Linear.linear master_addr minion_addr reqs used chunk n).
Abbreviation tickets s := (w_tickets (b_world (backend (sys_master s)))).

(** ** The tasks of the master are run *)

Lemma tasks_run k order E x :
  linear k order E x.2 x.1 ->
  exists y, run x y /\ linear k order E y.2 y.1 /\ Master.m_queue (sys_master y.1) = []
    /\ next_request y.1 = next_request x.1.
Proof using All.
  remember (Master.m_queue (sys_master x.1)) as queue eqn:Eq. revert x Eq.
  induction queue as [|a queue IH]; intros x Eq Hs; [by exists x; split; [apply rtc_refl|]|].
  destruct (ln_sane Hs) as [replied Hsane].
  pose proof (sn_inv _ _ _ _ Hsane) as [_ Hq]. rewrite <-Eq in Hq. apply Forall_cons in Hq as [(i & r & Hi & Hik & ->) _].
  assert (Ea : Master.m_queue (sys_master x.1) !! 0%nat = Some (task_of (Z.of_nat i) r)) by by rewrite <-Eq.
  destruct (run_task_runs reqs used chunk n Hreqs Hmany Hchunk Hn Hdrive k replied 0 i r _ Hsane
    (ln_shape Hs) (linear_up _ _ _ _ _ _ _ _ _ _ _ Hs) Hi Ea) as (ps' & logs & E1 & _).
  assert (Hrun : exists m, run_task 0 (sys_master x.1) = (Ok tt, m) /\ queue = Master.m_queue m
    /\ w_uid (b_world (backend m)) = w_uid (b_world (backend (sys_master x.1)))).
  { rewrite E1. eexists. split; [done|]. rewrite <-Eq. split; [done|]. cbn [backend].
    by rewrite add_logs_backend, add_logs_World. }
  clear E1. destruct Hrun as (m & E1 & Eq' & Eu).
  pose proof (run_task_linear master_addr minion_addr reqs used chunk n Hreqs Hmany Hchunk Hn Hdrive _ _ _ _ _ _ _ Hs E1) as Hs'.
  destruct (IH (mk_System m (sys_minions x.1), x.2) Eq' Hs') as (y & Hy & Hlin & Hdone & Hnext). exists y.
  split; [|split; [done|split; [done|]]].
  - destruct x as [s a]. eapply rtc_l; [|exact Hy]. eapply (once_task _ _ _ 0). unfold on_master, zoom.
    cbn [fst] in E1 |- *. by rewrite E1.
  - rewrite Hnext. unfold next_request. cbn [fst sys_master]. by rewrite Eu.
Qed.

(** ** A minion is given and runs what it was sent *)

(** Only minion [j] does something. *)
Definition only (j : nat) (x y : System * gset (nat * nat)) : Prop :=
  run x y /\ sys_master y.1 = sys_master x.1 /\ x.2 ⊆ y.2
  /\ forall j', j' <> j -> sys_minions y.1 !! j' = sys_minions x.1 !! j'.

Lemma only_refl j x : only j x x.
Proof. split; [apply rtc_refl|done]. Qed.

Lemma only_trans j x y z : only j x y -> only j y z -> only j x z.
Proof.
  intros (H1 & M1 & A1 & O1) (H2 & M2 & A2 & O2). split; [by etrans|]. split; [congruence|].
  split; [by etrans|]. intros j' Hj. rewrite O2 by done. by apply O1.
Qed.

Lemma only_minion j f x m m' :
  sys_minions x.1 !! j = Some m -> f m = (Ok tt, m') ->
  (forall s s' a, on_minion j f s = (Ok tt, s') -> once_step master_addr minion_addr reqs (s, a) (s', a)) ->
  exists y, y.1 = mk_System (sys_master x.1) (<[j := m']> (sys_minions x.1)) /\ y.2 = x.2
    /\ only j x y /\ sys_minions y.1 !! j = Some m'.
Proof.
  intros Hm E Hstep. exists (mk_System (sys_master x.1) (<[j := m']> (sys_minions x.1)), x.2).
  do 2 (split; [done|]). cbn [fst sys_minions]. split; [|apply list_lookup_insert_eq; by eapply lookup_lt_Some].
  split; [|split; [done|split; [done|]]].
  - destruct x as [s a]. apply rtc_once, Hstep. unfold on_minion. cbn [fst] in Hm |- *. by rewrite Hm, E.
  - intros j' Hj. cbn [fst sys_minions]. by rewrite list_lookup_insert_ne.
Qed.

(** Everything was delivered to minion [j] up to place [b]. *)
Definition delivered (j b : nat) (x : System * gset (nat * nat)) : Prop :=
  forall y, (y < b)%nat -> (j, y) ∈ x.2.

Lemma deliver_all k order E x j b :
  linear k order E x.2 x.1 -> (b <= length (sent_to_minion j x.1))%nat ->
  exists y E', only j x y /\ linear k order E' y.2 y.1 /\ delivered j b y.
Proof using All.
  intros Hs. induction b as [|b IH]; intros Hb.
  { exists x, E. split; [apply only_refl|]. split; [done|]. intros y Hy. lia. }
  destruct (IH ltac:(lia)) as (y & E' & Hy & Hlin & Hdel).
  destruct (decide ((j, b) ∈ y.2)) as [Hin|Hout].
  { exists y, E'. do 2 (split; [done|]). intros z Hz. destruct (decide (z = b)) as [->|]; [done|apply Hdel; lia]. }
  assert (Hsent : sent_to_minion j y.1 = sent_to_minion j x.1) by (unfold sent_to_minion; by rewrite (proj1 (proj2 Hy))).
  destruct (lookup_lt_is_Some_2 (sent_to_minion j y.1) b ltac:(rewrite Hsent; lia)) as [[addr d] Hd].
  assert (Haddr : addr = minion_addr j).
  { revert Hd. unfold sent_to_minion. destruct (m_minions _ !! j) as [p|] eqn:Ep; [|done].
    destruct (proxy_link _ _ _ _ _ _ _ _ _ _ _ _ _ Hlin Ep) as (m & S0 & I & Q & _ & Hl).
    rewrite (lk_sent Hl), list_lookup_fmap. by destruct (S0 !! b); [intros [= <-]|]. }
  subst addr. destruct y as [s a]. cbn [fst snd] in *.
  destruct (to_minion_linear master_addr minion_addr reqs used chunk n Hreqs Hmany Hchunk Hn Hdrive _ _ _ _ _ j b d Hlin Hout Hd)
    as [E2 Hlin2].
  eexists (_, _), E2. split; [|split; [exact Hlin2|]].
  - eapply only_trans; [exact Hy|]. split; [by eapply rtc_once, once_to_minion|]. split; [done|].
    split; [set_solver|]. intros j' Hj. cbn [fst sys_minions]. by rewrite list_lookup_alter_ne.
  - intros z Hz. cbn [snd]. destruct (decide (z = b)) as [->|]; [set_solver|].
    apply elem_of_union. right. apply Hdel. lia.
Qed.

(** It reads its socket until nothing is left. *)
Definition drained (m : Minion) : Prop :=
  exists socket, proxy m = mk_MasterProxy (Some socket) /\ UDPSocket.incoming socket = [].

Lemma inputs_read k order E x j m :
  linear k order E x.2 x.1 -> sys_minions x.1 !! j = Some m ->
  exists y E' m', only j x y /\ linear k order E' y.2 y.1 /\ sys_minions y.1 !! j = Some m' /\ drained m'.
Proof using All.
  intros Hs Hm.
  assert (Hsock : exists socket, proxy m = mk_MasterProxy (Some socket)).
  { destruct (linear_link _ _ _ _ _ _ _ _ _ _ _ _ _ Hs Hm) as (p & S0 & I & Q & _ & Hl).
    destruct (lk_socket Hl) as (socket & ? & _). by exists socket. }
  destruct Hsock as [socket Hpr]. remember (UDPSocket.incoming socket) as inbox eqn:Ein.
  revert x m E socket Ein Hpr Hs Hm. induction inbox as [|d inbox IH]; intros x m E socket Ein Hpr Hs Hm.
  { exists x, E, m. split; [apply only_refl|]. do 2 (split; [done|]). by exists socket. }
  destruct (linear_link _ _ _ _ _ _ _ _ _ _ _ _ _ Hs Hm) as (p & S0 & I & Q & Hp & Hl).
  destruct (ln_sane Hs) as [replied Hsane]. destruct (sane_k _ _ _ _ Hsane) as [Hk _].
  destruct (lk_socket Hl) as (socket' & Hpr' & _ & _ & Hin & _).
  rewrite Hpr in Hpr'. injection Hpr' as <-. rewrite <-Ein in Hin.
  destruct I as [|i I]; [done|]. cbn [fmap list_fmap] in Hin. injection Hin as -> Hrest.
  destruct (link_servable master_addr minion_addr reqs used chunk n Hreqs Hmany Hchunk Hn Hdrive
    _ _ _ _ _ _ _ _ _ _ _ i Hk Hl) as (_ & Hserv & _); [by left|].
  destruct m as [pr fs q log]. cbn [proxy] in Hpr. subst pr.
  destruct (input_flight (Z.to_nat chunk) socket fs q log _ _ _ (eq_sym Ein) Hserv) as (log' & Er).
  destruct (input_linear master_addr minion_addr reqs used chunk n Hreqs Hmany Hchunk Hn Hdrive _ _ _ _ _ _ _ _ Hs Hm Er)
    as [E1 Hs1].
  destruct (only_minion j minion_input x _ _ Hm Er) as (x1 & E1s & E1a & Hx & Hm1); [by intros; eapply once_minion_input|].
  rewrite <-E1s, <-E1a in Hs1.
  pose proof (fun Hi Hp => IH _ _ _ (UDPSocket.received (master_addr j) inbox socket) Hi Hp Hs1 Hm1) as IH1.
  destruct (IH1 eq_refl eq_refl) as (y & E2 & m' & Hy & ?).
  exists y, E2, m'. split; [by eapply only_trans|done].
Qed.

(** It runs its tasks until none is left. *)
Lemma minion_tasks_run k order E x j m :
  linear k order E x.2 x.1 -> sys_minions x.1 !! j = Some m -> drained m ->
  exists y E' m', only j x y /\ linear k order E' y.2 y.1 /\ sys_minions y.1 !! j = Some m' /\ drained m'
    /\ Minion.m_queue m' = [].
Proof using All.
  intros Hs Hm Hd. remember (Minion.m_queue m) as queue eqn:Eq.
  revert x m E Eq Hs Hm Hd. induction queue as [|a queue IH]; intros x m E Eq Hs Hm Hd.
  { exists x, E, m. split; [apply only_refl|]. by split_and!. }
  destruct (linear_link _ _ _ _ _ _ _ _ _ _ _ _ _ Hs Hm) as (p & S0 & I & Q & Hp & Hl).
  destruct (ln_sane Hs) as [replied Hsane]. destruct (sane_k _ _ _ _ Hsane) as [Hk _].
  pose proof Hl as [_ _ _ _ _ _ (socket & Hpr & Hrel & _ & Hin & _) Hq _ _ _ (d & Hholds & Hfine)].
  destruct Hd as (socket' & Hpr' & Hempty). rewrite Hpr in Hpr'. injection Hpr' as <-.
  rewrite Hempty in Hin. symmetry in Hin. apply fmap_nil_inv in Hin as ->.
  rewrite <-Eq in Hq. destruct Q as [|i Q]; [done|]. cbn [fmap list_fmap] in Hq. injection Hq as -> Hrest.
  destruct (link_servable master_addr minion_addr reqs used chunk n Hreqs Hmany Hchunk Hn Hdrive
    _ _ _ _ _ _ _ _ _ _ _ i Hk Hl) as (_ & Hserv & _); [by left|].
  destruct m as [pr fs q log]. cbn [proxy stream Minion.m_queue] in *. subst pr q.
  destruct (file_op_refines (request_op (asks reqs chunk n i)) d fs Hholds) as (fs' & Eop & _ & _);
    [rewrite (df_length Hfine); apply Hserv|rewrite (df_length Hfine); lia|].
  destruct (array_op (request_op (asks reqs chunk n i)) d).1 as [ok data].
  destruct (run_request 0 (request_task (message_seen (asks reqs chunk n i)) :: queue) _ (Z.to_nat chunk) socket fs log ok data fs' eq_refl
    Hserv ltac:(lia) Hrel Eop) as (socket' & Erun & _ & Hin' & _).
  destruct (task_linear master_addr minion_addr reqs used chunk n Hreqs Hmany Hchunk Hn Hdrive _ _ _ _ _ _ _ _ _ Hs Hm Erun)
    as [E1 Hs1].
  destruct (only_minion j (minion_run_task 0) x _ _ Hm Erun) as (x1 & E1s & E1a & Hx & Hm1); [by intros; eapply once_minion_task|].
  rewrite <-E1s, <-E1a in Hs1.
  pose proof (fun Hq => IH _ _ _ Hq Hs1 Hm1) as IH1.
  destruct (IH1 eq_refl) as (y & E2 & m' & Hy & ?); [exists socket'; by rewrite Hin'|].
  exists y, E2, m'. split; [by eapply only_trans|done].
Qed.

(** ** Nothing waits at the minions *)

Definition quiet (x : System * gset (nat * nat)) (j : nat) : Prop :=
  delivered j (length (sent_to_minion j x.1)) x
  /\ forall m, sys_minions x.1 !! j = Some m -> drained m /\ Minion.m_queue m = [].

Lemma quiet_same x y j :
  sys_master y.1 = sys_master x.1 -> x.2 ⊆ y.2 -> sys_minions y.1 !! j = sys_minions x.1 !! j ->
  quiet x j -> quiet y j.
Proof.
  intros Em Ha Ej [Hd Hq]. unfold quiet, sent_to_minion. rewrite Em, Ej. split; [|done].
  intros z Hz. apply Ha. by apply Hd.
Qed.

Lemma quiet_minion k order E x j :
  linear k order E x.2 x.1 -> exists y E', only j x y /\ linear k order E' y.2 y.1 /\ quiet y j.
Proof using All.
  intros Hs. destruct (deliver_all k order E x j _ Hs (le_n _)) as (x1 & E1 & H1 & Hs1 & Hd1).
  destruct (sys_minions x1.1 !! j) as [m|] eqn:Hm.
  2:{ exists x1, E1. do 2 (split; [done|]). split; [|by rewrite Hm].
      unfold sent_to_minion in *. by rewrite (proj1 (proj2 H1)). }
  destruct (inputs_read k order E1 x1 j m Hs1 Hm) as (x2 & E2 & m2 & H2 & Hs2 & Hm2 & Hd2).
  destruct (minion_tasks_run k order E2 x2 j m2 Hs2 Hm2 Hd2) as (x3 & E3 & m3 & H3 & Hs3 & Hm3 & Hd3 & Hq3).
  pose proof (only_trans _ _ _ _ H2 H3) as H23. exists x3, E3. split; [by eapply only_trans|]. split; [done|]. split.
  - unfold sent_to_minion. destruct H23 as (_ & -> & Ha & _). rewrite (proj1 (proj2 H1)).
    intros z Hz. apply Ha. by apply Hd1.
  - intros m'. rewrite Hm3. by intros [= <-].
Qed.

(** The master has no task, and nothing waits at the minions. *)
Definition settled (x : System * gset (nat * nat)) : Prop :=
  Master.m_queue (sys_master x.1) = [] /\ forall j, (j < n)%nat -> quiet x j.

Lemma settle k order E x :
  linear k order E x.2 x.1 ->
  exists y E', run x y /\ linear k order E' y.2 y.1 /\ settled y /\ next_request y.1 = next_request x.1.
Proof using All.
  intros Hs. destruct (tasks_run k order E x Hs) as (x1 & H1 & Hs1 & Hq1 & Hn1).
  assert (Hall : forall b, (b <= n)%nat -> exists y E', run x1 y /\ sys_master y.1 = sys_master x1.1
    /\ linear k order E' y.2 y.1 /\ forall j, (j < b)%nat -> quiet y j).
  { induction b as [|b IH]; intros Hb.
    { exists x1, E. split; [apply rtc_refl|]. do 2 (split; [done|]). intros j Hj. lia. }
    destruct (IH ltac:(lia)) as (y & E1 & Hy & Em & Hlin & Hquiet).
    destruct (quiet_minion k order E1 y b Hlin) as (z & E2 & (Hz & Emz & Ha & Hothers) & Hlinz & Hqz).
    exists z, E2. split; [by etrans|]. split; [congruence|]. split; [done|]. intros j Hj.
    destruct (decide (j = b)) as [->|Hne]; [done|]. apply (quiet_same y); [done|done|by apply Hothers|apply Hquiet; lia]. }
  destruct (Hall n (le_n n)) as (y & E' & Hy & Em & Hlin & Hquiet). exists y, E'.
  split; [by etrans|]. split; [done|]. unfold settled, next_request in *. rewrite Em. by split_and!.
Qed.

(** Then a request that is waited for has been run. *)
Lemma settled_ran k order E x j p i t role :
  linear k order E x.2 x.1 -> settled x -> m_minions (manager (sys_master x.1)) !! j = Some p ->
  m_map p !! Z.of_nat i = Some (t, 0%nat, role) -> exists data, (i, data) ∈ E j.
Proof using All.
  intros Hs [_ Hquiet] Hp Hw. destruct (proxy_link _ _ _ _ _ _ _ _ _ _ _ _ _ Hs Hp) as (m & S0 & I & Q & Hm & Hl).
  destruct (Hquiet j) as [Hdel Hnone].
  { rewrite <-(ln_count Hs). by eapply lookup_lt_Some. }
  destruct (Hnone m Hm) as [(socket & Hpr & Hempty) Hq].
  pose proof Hl as [_ _ Hsent _ _ Hmap (socket' & Hpr' & _ & _ & Hin & _) Hqueue _ Harr _ _].
  rewrite Hpr in Hpr'. injection Hpr' as <-. rewrite Hempty in Hin. symmetry in Hin. apply fmap_nil_inv in Hin as ->.
  rewrite Hq in Hqueue. symmetry in Hqueue. apply fmap_nil_inv in Hqueue as ->.
  destruct (Hmap _ _ _ _ Hw) as (i' & _ & <-%Nat2Z.inj & _ & _ & HS). apply list_elem_of_lookup in HS as [y Hy].
  assert (Hran : i ∈ [] ++ [] ++ (E j).*1).
  { apply Harr. exists y. split; [done|]. apply Hdel. unfold sent_to_minion. rewrite Hp, Hsent, length_fmap.
    by eapply lookup_lt_Some. }
  apply list_elem_of_fmap in Hran as ([i2 data] & -> & ?). by exists data.
Qed.

(** ** The answers are read *)

(** The master never fails to read an answer; after it, nobody waits for it. *)
Lemma wakeup_runs k order E arrived s j p i data rest :
  linear k order E arrived s -> (i < k)%nat -> m_minions (manager (sys_master s)) !! j = Some p ->
  UDPSocket.incoming (MinionProxy.m_socket p) = Some (minion_addr j, packet_of (answer_of (i, data))) :: rest ->
  exists s' map', minion_wakeup j (sys_master s) = (Ok tt, s') /\ Master.m_queue s' = Master.m_queue (sys_master s)
    /\ m_minions (manager s') = <[j := mk_MinionProxy (UDPSocket.received (minion_addr j) rest (MinionProxy.m_socket p)) map']>
         (m_minions (manager (sys_master s)))
    /\ map' ⊆ m_map p /\ map' !! Z.of_nat i = None /\ w_uid (b_world (backend s')) = w_uid (b_world (backend (sys_master s))).
Proof using All.
  intros Hs Hik Hp Ein. destruct (ln_sane Hs) as [replied Hsane].
  destruct (sane_k _ _ _ _ Hsane) as [Hk Hku].
  destruct (req_placed master_addr minion_addr reqs used chunk n Hreqs Hmany Hchunk Hn Hdrive i ltac:(lia)) as (Hi & Hr & Hu).
  assert (Hgood : good_answer (Z.of_nat i) (answer_of (i, data))) by by apply (placed_answer used chunk n).
  pose proof Hgood as (_ & _ & Huid & _).
  pose proof (wakeup_flight j p _ _ rest _ Hp Ein ltac:(by rewrite Huid)) as Hflight. cbv zeta in Hflight. rewrite Huid in Hflight.
  assert (Huids : forall s', minion_wakeup j (sys_master s) = (Ok tt, s') ->
    w_uid (b_world (backend s')) = w_uid (b_world (backend (sys_master s)))).
  { intros s' E1. destruct (minion_wakeup_sane reqs (requests_wf reqs used chunk n Hreqs) k replied j _ s' Hsane E1) as [replied' Hsane'].
    rewrite Hku. apply (sane_k _ _ _ _ Hsane'). }
  destruct (m_map p !! Z.of_nat i) as [[[t idx] role]|] eqn:Ew; cbn [fst snd] in Hflight.
  2:{ rewrite Hflight. eexists _, (m_map p). split; [reflexivity|]. do 4 (split; [done|]). done. }
  destruct (waited_ticket _ _ _ _ _ _ _ _ _ _ _ _ _ _ _ _ _ Hs Hp Ew) as (hc & Et & _).
  pose proof (respond_sends reqs used chunk n Hreqs Hmany Hchunk Hn Hdrive k replied (backend (sys_master s)) t role idx
    (message_seen (answer_of (i, data))) i (req i) hc (mi_backend _ _ _ _ (sn_inv _ _ _ _ Hsane)) Hi Et) as Hrs.
  destruct (spec_step _ _ _ _ hc _) as [hc' out]. destruct Hrs as (b' & Er & _). rewrite Er in Hflight.
  rewrite Hflight. eexists _, _. split; [reflexivity|]. do 2 (split; [done|]). split; [apply delete_subseteq|].
  split; [apply lookup_delete_eq|]. by apply (Huids _ Hflight).
Qed.

(** The master reads answers: the sockets and the tables of the proxies get emptier. *)
Record reads (x y : System * gset (nat * nat)) : Prop := {
  rd_run : run x y;
  rd_minions : sys_minions y.1 = sys_minions x.1;
  rd_arrived : y.2 = x.2;
  rd_queue : Master.m_queue (sys_master y.1) = Master.m_queue (sys_master x.1);
  rd_next : next_request y.1 = next_request x.1;
  rd_proxies : forall j p', m_minions (manager (sys_master y.1)) !! j = Some p' ->
    exists p, m_minions (manager (sys_master x.1)) !! j = Some p /\ m_map p' ⊆ m_map p
      /\ UDPSocket.sent (MinionProxy.m_socket p') = UDPSocket.sent (MinionProxy.m_socket p);
  rd_length : length (m_minions (manager (sys_master y.1))) = length (m_minions (manager (sys_master x.1)));
}.

Lemma reads_refl x : reads x x.
Proof. constructor; try done. intros j p Hp. by exists p. Qed.

Lemma reads_trans x y z : reads x y -> reads y z -> reads x z.
Proof.
  intros [R1 M1 A1 Q1 N1 P1 L1] [R2 M2 A2 Q2 N2 P2 L2]. constructor; try congruence; [by etrans|].
  intros j p2 Hp2. destruct (P2 j p2 Hp2) as (p1 & Hp1 & Hsub & Hsent).
  destruct (P1 j p1 Hp1) as (p & Hp & ? & ?). exists p. split; [done|]. split; [by etrans|congruence].
Qed.

Lemma reads_settled x y : reads x y -> settled x -> settled y.
Proof.
  intros [_ HM HA HQ _ HP HL] [Hq Hquiet]. split; [congruence|]. intros j Hj. destruct (Hquiet j Hj) as [Hd Hm].
  split; [|by rewrite HM]. intros z Hz. rewrite HA. apply Hd. revert Hz. unfold sent_to_minion.
  destruct (m_minions (manager (sys_master y.1)) !! j) as [p'|] eqn:Ep; [|simpl; lia].
  destruct (HP j p' Ep) as (p & -> & _ & ->). done.
Qed.

(** The table of a proxy at minion [j] has nothing for request [i]. *)
Definition forgotten (x : System * gset (nat * nat)) (j i : nat) : Prop :=
  forall p, m_minions (manager (sys_master x.1)) !! j = Some p -> m_map p !! Z.of_nat i = None.

Lemma reads_forgotten x y j i : reads x y -> forgotten x j i -> forgotten y j i.
Proof.
  intros Hr Hx p' Hp'. destruct (rd_proxies _ _ Hr j p' Hp') as (p & Hp & Hsub & _).
  eapply lookup_weaken_None; [by apply Hx|done].
Qed.

Lemma answers_read k order E x j p :
  linear k order E x.2 x.1 -> m_minions (manager (sys_master x.1)) !! j = Some p ->
  exists y order', reads x y /\ linear k order' E y.2 y.1
    /\ forall i data, (i < k)%nat -> Some (minion_addr j, packet_of (answer_of (i, data))) ∈ UDPSocket.incoming (MinionProxy.m_socket p) ->
       forgotten y j i.
Proof using All.
  intros Hs Hp. remember (UDPSocket.incoming (MinionProxy.m_socket p)) as inbox eqn:Ein.
  revert x order p Ein Hs Hp. induction inbox as [|d inbox IH]; intros x order p Ein Hs Hp.
  { exists x, order. split; [apply reads_refl|]. split; [done|]. by intros i data _ ?%not_elem_of_nil. }
  destruct (proxy_link _ _ _ _ _ _ _ _ _ _ _ _ _ Hs Hp) as (m & S0 & I & Q & Hm & Hl).
  pose proof (lk_back Hl) as Hback. rewrite <-Ein in Hback.
  apply Forall_cons in Hback as [([i0 data0] & Ha & ->) _].
  pose proof (ln_ran Hs _ _ _ Ha) as Hi0.
  destruct (wakeup_runs _ _ _ _ _ _ _ _ _ _ Hs Hi0 Hp (eq_sym Ein)) as (s' & map' & E1 & Hq & Hps & Hsub & _ & Hu).
  destruct (wakeup_linear master_addr minion_addr reqs used chunk n Hreqs Hmany Hchunk Hn Hdrive _ _ _ _ _ _ _ Hs E1)
    as [order1 Hs1].
  assert (Hstep : reads x (mk_System s' (sys_minions x.1), x.2)).
  { constructor; try done; cbn [fst sys_master]; [|unfold next_request; cbn [sys_master]; by rewrite Hu| |by rewrite Hps, length_insert].
    - destruct x as [s a]. apply rtc_once. eapply (once_answer _ _ _ j). unfold on_master, zoom.
      cbn [fst] in E1 |- *. by rewrite E1.
    - rewrite Hps. intros j' p'. intros [(<- & <- & _)|[_ Hj]]%list_lookup_insert_Some; [by exists p|by exists p']. }
  pose proof (fun H1 H2 => IH (mk_System s' (sys_minions x.1), x.2) order1
    (mk_MinionProxy (UDPSocket.received (minion_addr j) inbox (MinionProxy.m_socket p)) map') H1 Hs1 H2) as IH1.
  destruct IH1 as (y & order2 & Hy & Hlin & Hall); [done|cbn [fst sys_master]; rewrite Hps;
    apply list_lookup_insert_eq; by eapply lookup_lt_Some|].
  exists y, order2. split; [by eapply reads_trans|]. split; [done|].
  intros i data Hi [Heq|Hin]%elem_of_cons; [|by eapply Hall].
  apply (reads_forgotten _ _ _ _ Hy). rewrite <-Heq in Ein.
  destruct (wakeup_runs _ _ _ _ _ _ _ _ _ _ Hs Hi Hp (eq_sym Ein)) as (s2 & map2 & E2 & _ & Hps2 & _ & Hnone & _).
  rewrite E1 in E2. injection E2 as <-. intros p' Hp'. cbn [fst sys_master] in Hp'. rewrite Hps2 in Hp'.
  rewrite list_lookup_insert_eq in Hp' by by eapply lookup_lt_Some. by injection Hp' as <-.
Qed.

(** The answer of a minion arrives and is read. *)
Lemma answer_arrives_and_read k order E x i role :
  linear k order E x.2 x.1 -> settled x ->
  exists y order', reads x y /\ linear k order' E y.2 y.1 /\ forgotten y (minion_of (seg i) role) i.
Proof using All.
  intros Hs Hsettled. set (j := minion_of (seg i) role).
  destruct (m_minions (manager (sys_master x.1)) !! j) as [p|] eqn:Hp.
  2:{ exists x, order. split; [apply reads_refl|]. split; [done|]. intros p. by rewrite Hp. }
  destruct (m_map p !! Z.of_nat i) as [[[t idx] role']|] eqn:Ew.
  2:{ exists x, order. split; [apply reads_refl|]. split; [done|]. intros p'. rewrite Hp. by intros [= <-]. }
  destruct (proxy_link _ _ _ _ _ _ _ _ _ _ _ _ _ Hs Hp) as (m & S0 & I & Q & Hm & Hl).
  destruct (lk_map Hl _ _ _ _ Ew) as (i' & Hik & <-%Nat2Z.inj & -> & _).
  destruct (settled_ran k order E x j p i t role' Hs Hsettled Hp Ew) as [data Hdata].
  assert (Hin : (master_addr j, packet_of (answer_of (i, data))) ∈ sent_by_minion j x.1).
  { unfold sent_by_minion. rewrite Hm. destruct (lk_socket Hl)
      as (socket & Hpr & _ & _ & _ & Hout). unfold sent_by. rewrite Hpr. cbn [m_socket]. rewrite Hout.
    apply list_elem_of_fmap. by exists (i, data). }
  pose proof (to_master_linear master_addr minion_addr reqs used chunk n Hreqs Hmany Hchunk Hn Hdrive _ _ _ _ _ _ _ Hs Hin) as Hs1.
  set (x1 := (mk_System (deliver j (minion_addr j) (packet_of (answer_of (i, data))) (sys_master x.1)) (sys_minions x.1), x.2)).
  assert (Hstep : reads x x1).
  { constructor; try done; cbn [x1 fst sys_master deliver manager set_minions m_minions].
    - destruct x as [s a]. by apply rtc_once, once_to_master.
    - intros j' p'. rewrite list_lookup_alter. case_decide as Hj; [subst j'|by intros Hp'; exists p'].
      rewrite Hp. intros [= <-]. by exists p.
    - by rewrite length_alter. }
  destruct (answers_read k order E x1 j (mk_MinionProxy (UDPSocket.deliver (minion_addr j)
    (packet_of (answer_of (i, data))) (MinionProxy.m_socket p)) (m_map p)) Hs1) as (y & order' & Hy & Hlin & Hall).
  { cbn [x1 fst sys_master deliver manager set_minions m_minions]. rewrite list_lookup_alter_eq, Hp. done. }
  exists y, order'. split; [by eapply reads_trans|]. split; [done|]. apply (Hall i data Hik).
  cbn [MinionProxy.m_socket UDPSocket.deliver UDPSocket.incoming]. apply elem_of_snoc. by right.
Qed.

Lemma all_read k order E x :
  linear k order E x.2 x.1 -> settled x ->
  exists y order', reads x y /\ linear k order' E y.2 y.1
    /\ forall i role, (i < k)%nat -> forgotten y (minion_of (seg i) role) i.
Proof using All.
  intros Hs Hset.
  assert (Hall : forall b, exists y order', reads x y /\ linear k order' E y.2 y.1
    /\ forall i role, (i < b)%nat -> forgotten y (minion_of (seg i) role) i); [|apply Hall].
  induction b as [|b (y & order1 & Hy & Hlin & Hf)].
  { exists x, order. split; [apply reads_refl|]. split; [done|]. intros i role Hi. lia. }
  destruct (answer_arrives_and_read k order1 E y b PRIMARY Hlin (reads_settled _ _ Hy Hset)) as (y1 & order2 & Hy1 & Hlin1 & Hf1).
  pose proof (reads_trans _ _ _ Hy Hy1) as Hxy1.
  destruct (answer_arrives_and_read k order2 E y1 b BACKUP Hlin1 (reads_settled _ _ Hxy1 Hset)) as (y2 & order3 & Hy2 & Hlin2 & Hf2).
  exists y2, order3. split; [by eapply reads_trans|]. split; [done|]. intros i role Hi.
  destruct (decide (i = b)) as [->|Hne].
  - destruct role; [by eapply reads_forgotten|done].
  - eapply reads_forgotten; [exact Hy2|]. eapply reads_forgotten; [exact Hy1|]. apply Hf. lia.
Qed.

(** Nobody is waited for: every request is answered. *)
Lemma all_answered k order E x :
  linear k order E x.2 x.1 -> settled x ->
  (forall i role, (i < k)%nat -> forgotten x (minion_of (seg i) role) i) -> forall i, (i < k)%nat -> i ∈ order.
Proof using All.
  intros Hs [Hq _] Hf i Hi. destruct (decide (i ∈ order)) as [|Hout]; [done|]. exfalso.
  destruct (ln_open Hs i (conj Hi Hout)) as [Hin|(t & tk & Ht & Hu & Hc & Hroles)].
  { rewrite Hq in Hin. by apply not_elem_of_nil in Hin. }
  pose proof (ln_tickets Hs) as Htick. rewrite Forall_lookup in Htick.
  destruct (Htick t tk Ht) as (i' & hc & _ & -> & _ & Hopen). cbn [ticket_of Ticket.m_uid m_completed] in Hu, Hc.
  apply Nat2Z.inj in Hu as ->. destruct (Hopen Hc) as [_ Hres].
  destruct (ln_sane Hs) as [replied Hsane]. destruct (sane_k _ _ _ _ Hsane) as [Hk _].
  assert (Hans : forall role, answered hc.1 0 role = true).
  { intros role. destruct (role_chunk master_addr minion_addr reqs used chunk n Hreqs Hmany Hchunk Hn Hdrive i role ltac:(lia)) as [_ Hlt].
    destruct (lookup_lt_is_Some_2 (m_minions (manager (sys_master x.1))) (minion_of (seg i) role)) as [p Hp].
    { by rewrite (proj2 (ln_shape Hs)). }
    destruct (Hroles role p Hp) as [Ha|Hw]; [by destruct role|]. specialize (Hf i role Hi p Hp).
    discriminate (eq_trans (eq_sym Hw) Hf). }
  revert Hres. unfold resolved. destruct (op_of (req i)); rewrite !Hans; by rewrite ?orb_true_r.
Qed.

Lemma goes_on k order E x :
  linear k order E x.2 x.1 ->
  exists y order' E', run x y /\ linear k order' E' y.2 y.1 /\ next_request y.1 = next_request x.1
    /\ forall i, (i < k)%nat -> i ∈ order'.
Proof using All.
  intros Hs. destruct (settle k order E x Hs) as (x1 & E1 & H1 & Hs1 & Hset & Hn1).
  destruct (all_read k order E1 x1 Hs1 Hset) as (y & order' & Hy & Hlin & Hf).
  exists y, order', E1. split; [etrans; [exact H1|apply Hy]|]. split; [done|]. split; [rewrite (rd_next _ _ Hy); done|].
  by eapply all_answered; [|eapply reads_settled|].
Qed.

(** A write is answered only when both its minions have run it. *)
Lemma arrived_before_answered k order E x i role :
  linear k order E x.2 x.1 -> i ∈ order -> is_Some (k_data (req i)) ->
  exists y, sent_to_minion (minion_of (seg i) role) x.1 !! y
      = Some (minion_addr (minion_of (seg i) role), packet_of (asks reqs chunk n i))
    /\ (minion_of (seg i) role, y) ∈ x.2.
Proof using All.
  intros Hs Hin Hw. destruct (ln_order Hs) as [_ Hlt]. rewrite Forall_forall in Hlt. specialize (Hlt i Hin).
  destruct (ln_sane Hs) as [replied Hsane]. destruct (sane_k _ _ _ _ Hsane) as [Hk _].
  destruct (role_chunk master_addr minion_addr reqs used chunk n Hreqs Hmany Hchunk Hn Hdrive i role ltac:(lia)) as [_ Hj].
  destruct (lookup_lt_is_Some_2 (m_minions (manager (sys_master x.1))) (minion_of (seg i) role)) as [p Hp].
  { by rewrite (proj2 (ln_shape Hs)). }
  destruct (proxy_link _ _ _ _ _ _ _ _ _ _ _ _ _ Hs Hp) as (m & S0 & I & Q & _ & Hl).
  pose proof (ln_written Hs i role Hin Hw) as Hran.
  destruct (proj1 (lk_arrived Hl i)) as (y & Hy & Ha); [set_solver|]. exists y. split; [|done].
  unfold sent_to_minion. by rewrite Hp, (lk_sent Hl), list_lookup_fmap, Hy.
Qed.
End progress.

(** ** Properties *)

(** C3: no request gets stuck: from every state that the programs can reach, from
    their start, under the conditions of [Linearizable.disk_linearizable] (requests
    inside chunks that share no minion and inside packets, disks that do not fail,
    sends that succeed, a kernel that does not send what conflicts with an unanswered
    request, no request datagram that arrives twice), with datagrams late and out of
    order, tasks half done and requests in flight, the system can go on so that every
    request that was read is answered, and then the replies are those of an array of
    bytes that has run each of them once, in some order.  To go on, the datagrams that
    were sent and have not arrived do arrive: each is sent once, and a request whose
    datagram is lost for good stays unanswered ([lost_request_unanswered]). *)
Theorem requests_answerable `{LinuxNBD} (master_addr minion_addr : nat -> Z) (chunk : Z)
    (proxies : list (MinionProxy closure)) (tcp : TCPClient.t) (master : Master)
    (minions : list Minion) (used : gset nat) (reqs : list kernel_request)
    (s : System) (arrived : gset (nat * nat))
    (Hchunk : 0 < chunk < 2 ^ 32 - 64) (Hn : apart (length proxies) used)
    (Hsize : Z.of_nat (length proxies) * chunk < 2 ^ 64)
    (Hreqs : Forall (placed used chunk (length proxies)) reqs)
    (Hmany : Z.of_nat (length reqs) < 2 ^ 64)
    (Hboot : boot chunk proxies tcp = Ok master)
    (Hproxies : forall i p, proxies !! i = Some p ->
       link minion_addr i p /\ MinionProxy.m_map p = ∅ /\ UDPSocket.sent (MinionProxy.m_socket p) = [])
    (Hstream : TCPClient.available (TCPClient.incoming tcp) = (reqs ≫= encode))
    (Hsent : TCPClient.sent tcp = []) (Hsends : TCPClient.sends_succeed tcp)
    (Hcount : length minions = length proxies)
    (Hminions : forall i m, minions !! i = Some m -> started chunk false m /\ sent_by m = [])
    (Hsteps : once_steps master_addr minion_addr reqs (mk_System master minions, ∅) (s, arrived)) :
  exists s' arrived' order, once_steps master_addr minion_addr reqs (s, arrived) (s', arrived')
    /\ next_request s' = next_request s
    /\ (forall i, (i < next_request s)%nat -> ~ unanswered s' i)
    /\ order ≡ₚ seq 0 (next_request s)
    /\ sent_bytes (sys_master s')
       = drive_replies ((fun i => (req reqs i, true)) <$> order)
           (replicate (length proxies * Z.to_nat chunk) (Some Byte.x00)).
Proof.
  pose proof (start_linear master_addr minion_addr chunk proxies tcp master minions used reqs Hchunk Hsize Hboot
    Hproxies Hstream Hsent Hsends Hcount Hminions) as Hstart.
  destruct (steps_linear master_addr minion_addr reqs used chunk (length proxies) Hreqs Hmany Hchunk Hn Hsize
    0 [] (fun _ => []) (mk_System master minions, ∅) (s, arrived) Hstart Hsteps) as (k & order & E & Hs).
  destruct (goes_on master_addr minion_addr reqs used chunk (length proxies) Hreqs Hmany Hchunk Hn Hsize
    k order E (s, arrived) Hs) as ([s' arrived'] & order' & E' & Hrun & Hlin & Hnext & Hall).
  cbn [fst snd] in *. destruct (ln_sane Hs) as [replied Hsane].
  assert (Hk : next_request s = k) by (unfold next_request; rewrite (proj2 (sane_k _ _ _ _ Hsane)); apply Nat2Z.id).
  destruct (ln_order Hlin) as [Hnd Hlt]. rewrite Forall_forall in Hlt.
  exists s', arrived', order'. rewrite Hk. do 2 (split; [congruence || done|]). split; [|split; [|by eapply ln_sent]].
  - intros i Hi. rewrite (ln_pending Hlin i Hi). intros Hno. by apply Hno, Hall.
  - apply NoDup_Permutation; [done|apply NoDup_seq|]. intros i. rewrite elem_of_seq.
    split; [intros Hin%Hlt; lia|intros [_ Hi]; by apply Hall].
Qed.

(** The proxies send a request once: in every state that can be reached, a write of
    which one of the two datagrams has not arrived is unanswered, and it stays so as
    long as this is the case. *)
Theorem lost_request_unanswered `{LinuxNBD} (master_addr minion_addr : nat -> Z) (chunk : Z)
    (proxies : list (MinionProxy closure)) (tcp : TCPClient.t) (master : Master)
    (minions : list Minion) (used : gset nat) (reqs : list kernel_request)
    (s : System) (arrived : gset (nat * nat)) (i : nat) (role : MirrorRole)
    (Hchunk : 0 < chunk < 2 ^ 32 - 64) (Hn : apart (length proxies) used)
    (Hsize : Z.of_nat (length proxies) * chunk < 2 ^ 64)
    (Hreqs : Forall (placed used chunk (length proxies)) reqs)
    (Hmany : Z.of_nat (length reqs) < 2 ^ 64)
    (Hboot : boot chunk proxies tcp = Ok master)
    (Hproxies : forall i p, proxies !! i = Some p ->
       link minion_addr i p /\ MinionProxy.m_map p = ∅ /\ UDPSocket.sent (MinionProxy.m_socket p) = [])
    (Hstream : TCPClient.available (TCPClient.incoming tcp) = (reqs ≫= encode))
    (Hsent : TCPClient.sent tcp = []) (Hsends : TCPClient.sends_succeed tcp)
    (Hcount : length minions = length proxies)
    (Hminions : forall i m, minions !! i = Some m -> started chunk false m /\ sent_by m = [])
    (Hsteps : once_steps master_addr minion_addr reqs (mk_System master minions, ∅) (s, arrived))
    (Hi : (i < next_request s)%nat) (Hw : is_Some (k_data (req reqs i)))
    (j := minion_of (placed_segment chunk (length proxies) (req reqs i)) role)
    (Hlost : forall y, sent_to_minion j s !! y
       = Some (minion_addr j, packet_of (placed_message chunk (length proxies) (req reqs i) (Z.of_nat i))) ->
       (j, y) ∉ arrived) :
  unanswered s i.
Proof.
  pose proof (start_linear master_addr minion_addr chunk proxies tcp master minions used reqs Hchunk Hsize Hboot
    Hproxies Hstream Hsent Hsends Hcount Hminions) as Hstart.
  destruct (steps_linear master_addr minion_addr reqs used chunk (length proxies) Hreqs Hmany Hchunk Hn Hsize
    0 [] (fun _ => []) (mk_System master minions, ∅) (s, arrived) Hstart Hsteps) as (k & order & E & Hs).
  destruct (ln_sane Hs) as [rep Hsane]. destruct (sane_k reqs k rep _ Hsane) as [_ Hu].
  assert (Hk : (i < k)%nat) by (revert Hi; unfold next_request; cbn [fst] in Hu; rewrite Hu; lia).
  apply (ln_pending Hs i Hk). intros Hin.
  destruct (arrived_before_answered master_addr minion_addr reqs used chunk (length proxies) Hreqs Hmany Hchunk Hn Hsize
    k order E (s, arrived) i role Hs Hin Hw) as (y & Hy & Ha).
  by apply (Hlost y Hy).
Qed.

(** Two writes in flight, of one of which a datagram has arrived. *)
Definition half_way : list move :=
  [ReadRequest; RunTask 0; ReadRequest; RunTask 0] ++ request_arrives 2 0.

Lemma half_way_run :
  exists s0 s arrived, small_start side_requests = Ok s0
    /\ once_steps (small_addr 200) (small_addr 100) side_requests (s0, ∅) (s, arrived)
    /\ sent_bytes (sys_master s) = [] /\ next_request s = 2%nat.
Proof.
  assert (E : (s0 ← small_start side_requests;
    let '(r, (s, _)) := for_each (once_move (small_addr 200) (small_addr 100) side_requests) half_way (s0, ∅) in
    r ;; mret (sent_bytes (sys_master s), next_request s)) = Ok ([], 2%nat)) by (vm_compute; reflexivity).
  destruct (small_start side_requests) as [s0|e| |]; [|done..]. cbn [mbind res_bind] in E.
  destruct (for_each _ half_way _) as [[[]|e| |] [s a]] eqn:Er; [|done..]. injection E as E1 E2.
  exists s0, s, a. split; [done|]. split; [by eapply once_moves_steps|done].
Qed.

Lemma requests_answerable_witness :
  exists s0 s arrived s' arrived' order, small_start side_requests = Ok s0
    /\ once_steps (small_addr 200) (small_addr 100) side_requests (s0, ∅) (s, arrived)
    /\ sent_bytes (sys_master s) = []
    /\ once_steps (small_addr 200) (small_addr 100) side_requests (s, arrived) (s', arrived')
    /\ order ≡ₚ [0; 1]%nat
    /\ sent_bytes (sys_master s')
       = drive_replies ((fun i => (req side_requests i, true)) <$> order) (replicate 24 (Some Byte.x00)).
Proof.
  destruct half_way_run as (s0 & s & arrived & E0 & Hsteps & Hs & Hnext).
  destruct (small_started _ _ E0) as (tcp & master & minions & E & Hboot & Hstream & Hsent & Hsends & Hcount & Hminions & Hproxies).
  subst s0. destruct (requests_answerable (small_addr 200) (small_addr 100) 8 disk_proxies tcp master minions
    {[2%nat]} side_requests s arrived) as (s' & arrived' & order & Hrun & _ & _ & Hord & Hout); try done.
  - apply (single_apart 3 2); lia.
  - repeat constructor; simpl; unfold BUFSIZ; lia || done.
  - rewrite Hnext in Hord. exists (mk_System master minions), s, arrived, s', arrived', order. by split_and!.
Defined.
