(* ===== verification/Programs.v ===== *)
(** * Programs

    The four programs of the repository, with the addresses, ports, files and the
    chunk size that they name: [framework/test/TestFramework.cpp] is the master,
    [TestFirstMinion.cpp], [TestSecondMinion.cpp] and [TestThirdMinion.cpp] are the
    minions. *)

From S2P Require Import Prelude Bytes StripeSplitter Message TaskArgs Factory Sockets Logger.
From S2P Require Import Ticket IMinionProxy MinionProxy NBD NBDProxy World MinionManager Commands.
From S2P Require Import Framework Master Protocol Raid Service FileManager MasterProxy Minion Drive System.

(** In all four programs. *)
Definition chunkSize : Z := 4 * 1024 * 1024.

Section programs.
Context `{LinuxNBD}.

(** What [getaddrinfo] gives for an address (none for a socket that is bound: the
    wildcard address) and a port; the address under which a socket of a host is reached
    that is bound to the wildcard address and a port; the descriptors that [socket]
    gives, and what the disk of a minion has under a name. *)
Variable resolve : option string -> string -> Z.
Variable host_addr : string -> Z -> Z.
Variable socket : nat -> Z.
Variable disk : string -> cells.

Definition new_UDPSocket (fd : Z) (port : string) (ip : option string) : UDPSocket.t :=
  UDPSocket.mk fd (resolve ip port) [] [] [].

Definition new_MinionProxy (fd : Z) (ip port : string) : MinionProxy closure :=
  mk_MinionProxy (new_UDPSocket fd port (Some ip)) ∅.

(** *** The master *)

Definition master_minions : list (MinionProxy closure) :=
  [new_MinionProxy (socket 0) "10.1.0.228" "9090";
   new_MinionProxy (socket 1) "127.0.0.1" "9091";
   new_MinionProxy (socket 2) "127.0.0.1" "9092"].

Definition TestFramework (nbd : TCPClient.t) : res Master := boot chunkSize master_minions nbd.

(** *** The minions: [TestFramework] of each, with the commands that it registers *)

Definition TestFirstMinion (fd : Z) : res (Minion * gmap Z minion_command) :=
  m ← minion_boot (new_UDPSocket fd "9090" None) (disk "./Minion1.dat") chunkSize;
  mret (m, minion_commands).

Definition TestSecondMinion (fd : Z) : res (Minion * gmap Z minion_command) :=
  m ← minion_boot (new_UDPSocket fd "9091" None) (disk "./Minion2.dat") chunkSize;
  mret (m, minion_commands).

Definition TestThirdMinion (fd : Z) : res (Minion * gmap Z minion_command) :=
  m ← minion_boot (new_UDPSocket fd "9092" None) (disk "./Minion3.dat") chunkSize;
  mret (m, minion_commands).

(** The hosts on which the minions run, those that the master names, and the address
    under which a minion is reached: its host and the port that its program has bound. *)
Definition hosts : list string := ["10.1.0.228"; "127.0.0.1"; "127.0.0.1"].

Definition bound (m : Minion) : Z :=
  from_option UDPSocket.m_serveraddr 0 (m_socket (proxy m)).

Definition minion_addr (minions : list Minion) (i : nat) : Z :=
  match hosts !! i, minions !! i with
  | Some host, Some m => host_addr host (bound m)
  | _, _ => 0
  end.

(** A socket that is bound to the wildcard address is reached under the address of its
    host and its port. *)
Hypothesis wildcard : forall host port, host_addr host (resolve None port) = resolve (Some host) port.

(** The master's table agrees with what the minions have bound. *)
Lemma master_minions_linked m1 m2 m3 i p :
  bound m1 = resolve None "9090" -> bound m2 = resolve None "9091" -> bound m3 = resolve None "9092" ->
  master_minions !! i = Some p -> link (minion_addr [m1; m2; m3]) i p /\ MinionProxy.m_map p = ∅.
Proof using wildcard.
  intros B1 B2 B3 Hp. destruct i as [|[|[|i]]]; [injection Hp as <-..|done]; (split; [|done]);
    (split; [done|]); (split; [by apply Forall_nil|]); unfold minion_addr; cbn -[bound];
    rewrite ?B1, ?B2, ?B3; by rewrite wildcard.
Qed.

Lemma TestFramework_starts nbd : exists master, TestFramework nbd = Ok master.
Proof. by eexists. Qed.

Lemma minion_starts fd port file :
  exists m, (m ← minion_boot (new_UDPSocket fd port None) (disk file) chunkSize; mret (m, minion_commands))
    = Ok (m, minion_commands)
    /\ minion_boot (new_UDPSocket fd port None) (disk file) chunkSize = Ok m
    /\ bound m = resolve None port.
Proof.
  destruct (boot_ready (new_UDPSocket fd port None) (disk file) chunkSize) as (m & E & _); [done|done|constructor|].
  exists m. rewrite E. split; [done|]. split; [done|]. revert E. unfold minion_boot.
  destruct (FileManager.Init _ _ _ _) as [[[]|e| |] fs]; try done. by intros [= <-].
Qed.
End programs.

(** ** Property *)

(** C6: the four programs, as they are shipped, start on any disks, and each minion is
    found by the master under the port that its own program binds, when it runs on the
    host that the master names for it; together they serve the requests of the kernel
    that lie inside one chunk [c] of the three (no two chunks can be used together,
    [one_of_three]) and fit into the packets, one after the other over a network that
    delivers, with disks that do not fail, like an array of twelve megabytes of zeros,
    whatever addresses the names stand for; a datagram arrives only at a minion that is
    reached under the address that it was sent to. A socket that is bound to the wildcard
    address is reached under the address of its host and the port. *)
Theorem programs_serve `{LinuxNBD} (resolve : option string -> string -> Z) (host_addr : string -> Z -> Z)
    (wildcard : forall host port, host_addr host (resolve None port) = resolve (Some host) port)
    (socket : nat -> Z)
    (disk : string -> cells) (fds : nat -> Z) (master_addr : nat -> Z) (c : nat) (nbd : TCPClient.t)
    (reqs : list kernel_request) (orders : list MirrorRole) (Hc : (c < 3)%nat)
    (Hreqs : Forall (placed {[c]} chunkSize 3) reqs)
    (Hmany : Z.of_nat (length reqs) < 2 ^ 64) (Horders : length orders = length reqs)
    (Hstream : TCPClient.available (TCPClient.incoming nbd) = (reqs ≫= encode))
    (Hsent : TCPClient.sent nbd = []) (Hsends : TCPClient.sends_succeed nbd) :
  exists master m1 m2 m3 s, TestFramework resolve socket nbd = Ok master
    /\ TestFirstMinion resolve disk (fds 0%nat) = Ok (m1, minion_commands)
    /\ TestSecondMinion resolve disk (fds 1%nat) = Ok (m2, minion_commands)
    /\ TestThirdMinion resolve disk (fds 2%nat) = Ok (m3, minion_commands)
    /\ (forall i p, master_minions resolve socket !! i = Some p ->
          UDPSocket.m_serveraddr (MinionProxy.m_socket p) = minion_addr host_addr [m1; m2; m3] i)
    /\ for_each (serve_request master_addr (minion_addr host_addr [m1; m2; m3])) (zip reqs orders)
         (mk_System master [m1; m2; m3]) = (Ok tt, s)
    /\ sys_steps master_addr (minion_addr host_addr [m1; m2; m3]) (mk_System master [m1; m2; m3]) s
    /\ sent_bytes (sys_master s)
       = drive_replies ((fun r => (r, true)) <$> reqs) (replicate (3 * Z.to_nat chunkSize) (Some Byte.x00)).
Proof.
  destruct (TestFramework_starts resolve socket nbd) as [master Hboot].
  destruct (minion_starts resolve disk (fds 0%nat) "9090" "./Minion1.dat") as (m1 & E1 & B1 & P1).
  destruct (minion_starts resolve disk (fds 1%nat) "9091" "./Minion2.dat") as (m2 & E2 & B2 & P2).
  destruct (minion_starts resolve disk (fds 2%nat) "9092" "./Minion3.dat") as (m3 & E3 & B3 & P3).
  assert (Hapart : apart 3 {[c]}) by (apply single_apart; [lia|exact Hc]).
  destruct (system_serves master_addr (minion_addr host_addr [m1; m2; m3]) chunkSize (master_minions resolve socket)
    nbd master [m1; m2; m3] {[c]} reqs ∅ ltac:(intros ? _; right; apply not_elem_of_empty) ltac:(unfold chunkSize; lia) Hapart ltac:(unfold chunkSize; simpl; lia) Hreqs Hmany Hboot
    (fun i p => master_minions_linked resolve host_addr socket wildcard m1 m2 m3 i p P1 P2 P3) Hstream Hsent Hsends eq_refl) with (orders := orders) as (oks & s & E & Hoks & Es);
    [|exact Horders|].
  - intros [|[|[|i]]] m; [intros [= <-]..|discriminate];
      (eapply booted_started; [|eassumption|..]; [unfold chunkSize; lia|reflexivity|constructor]).
  - rewrite (reliable_reports _ _ _ _ _ Horders Hoks) in Es. exists master, m1, m2, m3, s.
    do 4 (split; [assumption|]). split; [|split; [assumption|by split; [eapply for_each_steps|]]].
    intros i p Hp. by destruct (master_minions_linked resolve host_addr socket wildcard m1 m2 m3 i p P1 P2 P3 Hp) as [(_ & _ & Hl) _].
Qed.

(** A write to the last chunk, and a read that overlaps it. *)
Definition program_requests : list kernel_request :=
  [mk_kernel_request (Some [Some Byte.x61; Some Byte.x62]) sample_handle 8388611 2;
   mk_kernel_request None sample_handle 8388610 4].

Definition program_nbd : TCPClient.t :=
  TCPClient.mk 6 [TCPClient.Data (program_requests ≫= encode)] [] [].

(** Ports as numbers. *)
Definition port_number (port : string) : Z :=
  fold_left (fun n a => 10 * n + (Z.of_nat (Ascii.nat_of_ascii a) - 48)) (String.list_ascii_of_string port) 0.

Definition sample_resolve (ip : option string) (port : string) : Z :=
  port_number port + 65536 * match ip with Some host => 1 + Z.of_nat (String.length host) | None => 0 end.
Definition sample_host_addr (host : string) (b : Z) : Z := b + 65536 * (1 + Z.of_nat (String.length host)).

Lemma programs_serve_witness :
  exists master m1 m2 m3 s, TestFramework sample_resolve Z.of_nat program_nbd = Ok master
    /\ TestFirstMinion sample_resolve (fun _ => []) 3 = Ok (m1, minion_commands)
    /\ TestSecondMinion sample_resolve (fun _ => []) 3 = Ok (m2, minion_commands)
    /\ TestThirdMinion sample_resolve (fun _ => []) 3 = Ok (m3, minion_commands)
    /\ (forall i p, master_minions sample_resolve Z.of_nat !! i = Some p ->
          UDPSocket.m_serveraddr (MinionProxy.m_socket p) = minion_addr sample_host_addr [m1; m2; m3] i)
    /\ for_each (serve_request (fun _ => 200) (minion_addr sample_host_addr [m1; m2; m3]))
         (zip program_requests [BACKUP; PRIMARY]) (mk_System master [m1; m2; m3]) = (Ok tt, s)
    /\ sys_steps (fun _ => 200) (minion_addr sample_host_addr [m1; m2; m3]) (mk_System master [m1; m2; m3]) s
    /\ sent_bytes (sys_master s)
       = drive_replies ((fun r => (r, true)) <$> program_requests) (replicate (3 * Z.to_nat chunkSize) (Some Byte.x00)).
Proof.
  apply (programs_serve sample_resolve sample_host_addr) with (socket := Z.of_nat) (disk := fun _ => [])
    (fds := fun _ => 3) (c := 2%nat); try done.
  - intros host port. unfold sample_host_addr, sample_resolve. lia.
  - lia.
  - repeat constructor; simpl; unfold BUFSIZ, chunkSize; lia || done.
  - constructor.
Defined.
