(* ===== verification/Threads.v ===== *)
(** * Threads

    The running master, thread by thread.  [Master.v] runs a handler in one step.
    Here the threads interleave wherever the code lets them: the thread of the
    framework's reactor reads requests and queues their tasks; the threads of the
    pool take the tasks and run the commands of [Commands.cpp], which ask one
    minion after the other; the thread of [MinionManager]'s reactor reads the
    datagrams of the sockets that [select] has found, and answers, in the two
    critical sections of [MinionProxy::OnMinionFDWakeUp].

    What is left in one step runs under one mutex, or under mutexes that are taken
    one inside the other and released together (proxy, ticket,
    [ResponseManager], [NBDProxy]), or works on objects that no other thread knows
    yet.  A log entry is made in the step that it follows. *)

From S2P Require Import Prelude Bytes StripeSplitter Message TaskArgs Factory Dispatcher Sockets.
From S2P Require Import Logger Ticket IMinionProxy MinionProxy NBD NBDProxy ResponseManager World.
From S2P Require Import MinionManager Commands Framework Master Protocol ThreadPool Shutdown Work.

(** ** The two sections of [OnMinionFDWakeUp] *)

Section sections.
Context {C W : Type} `{HasLog W}.

(** A datagram is received and parsed; the message is local to the thread. *)
Definition wake_receive (factory : gmap Z MESSAGE_TYPE) : prog (MinionProxy C * W) (option AMessage) :=
  packet ← MinionProxy.on_socket (UDPSocket.ReceiveFrom (BUFSIZ - 1));
  let bytes := Z.of_nat (length packet) in
  let buffer := receive_buffer packet in
  if bytes <? 4 * 2 then on_snd (Log "MinionProxy: short UDP packet" WARNING) ;; mret None
  else
    '(msgSize, runner) ← lift (load 4 buffer);
    if u32 bytes <? msgSize then
      on_snd (Log "MinionProxy: UDP packet size mismatch" WARNING) ;; mret None
    else
      '(messageType, runner) ← lift (load 4 runner);
      type ← lift (Create messageType factory);
      '(receivedMessage, _) ← lift (FromBuffer type runner);
      mret (Some receivedMessage).

(** The continuation that waits for the message is run, and forgotten. *)
Definition wake_answer (invoke : C -> AMessage -> prog W unit) (receivedMessage : AMessage)
    : prog (MinionProxy C * W) unit :=
  let uid := GetUID receivedMessage in
  waiting ← gets (fun s => m_map s.1 !! uid);
  match waiting with
  | None => on_snd (Log "MinionProxy: unknown UID response" WARNING)
  | Some onDone =>
      on_snd (invoke onDone receivedMessage) ;;
      on_map (delete uid)
  end.

(** One after the other they are the function. *)
Lemma wake_sections factory invoke (s : MinionProxy C * W) :
  OnMinionFDWakeUp factory invoke s
  = (m ← wake_receive factory;
     match m with Some msg => wake_answer invoke msg | None => mret tt end) s.
Proof.
  unfold OnMinionFDWakeUp, wake_receive, wake_answer, Log. run_prog. cbn [fst snd].
  destruct (MinionProxy.on_socket _ s) as [[packet|e| |] s1]; try done. cbn [fst snd].
  destruct (_ <? 4 * 2); [done|].
  destruct (load 4 (receive_buffer packet)) as [[size r1]|?| |]; try done. cbn [fst snd].
  destruct (_ <? size); [done|].
  destruct (load 4 r1) as [[type r2]|?| |]; try done. cbn [fst snd].
  destruct (Create type factory) as [t|?| |]; try done. cbn [fst snd].
  by destruct (FromBuffer t r2) as [[m r3]|?| |].
Qed.

(** The first section changes the socket and the log only. *)
Lemma wake_receive_frame factory (p : MinionProxy C) (w : W) :
  let '(r, (p', w')) := wake_receive factory (p, w) in
  (exists logs, w' = add_logs logs w)
  /\ p' = mk_MinionProxy (UDPSocket.ReceiveFrom (BUFSIZ - 1) (MinionProxy.m_socket p)).2 (m_map p).
Proof.
  assert (Hlog : forall m sev, exists logs, log_entry m sev w = add_logs logs w)
    by (intros m sev; by exists [(m, sev)]).
  assert (Hsame : exists logs, w = add_logs logs w) by by exists [].
  unfold wake_receive, MinionProxy.on_socket, Log. run_prog. cbn [fst snd].
  destruct (UDPSocket.ReceiveFrom _ _) as [[packet|e| |] socket]; try done. cbn [fst snd].
  destruct (_ <? 4 * 2); [done|].
  destruct (load 4 (receive_buffer packet)) as [[size r1]|?| |]; try done. cbn [fst snd].
  destruct (_ <? size); [done|].
  destruct (load 4 r1) as [[type r2]|?| |]; try done. cbn [fst snd].
  destruct (Create type factory) as [t|?| |]; try done. cbn [fst snd].
  by destruct (FromBuffer t r2) as [[m r3]|?| |].
Qed.
End sections.

(** ** A command, step by step *)

Definition Core : Type := MinionManager (MinionProxy closure) created_callback * Backend.

#[export] Instance Core_log : HasLog Core := fun message sev s => (s.1, log_entry message sev s.2).

(** A thread that runs a command: at its start; inside the loop of
    [MinionManager], with the calls of proxies that are still to be made; in the
    [catch] clause that logs with the prefix. *)
Inductive command_state : Type :=
  | Begin (args : ATaskArgs)
  | Sending (prefix : string) (calls : list (prog Core unit))
  | Caught (prefix : string) (e : exn).

Section command.
Context `{LinuxNBD}.

(** The calls that one iteration makes. *)
Definition read_calls (uid : Z) (ticket : nat) (x : nat * StripeSegment) : list (prog Core unit) :=
  let '(segIdx, seg) := x in
  [minion (primaryMinionIndex seg)
     (add_read uid (localOffset seg) (seg_length seg) (make_closure ticket segIdx PRIMARY));
   minion (backupMinionIndex seg)
     (add_read uid (localOffset seg) (seg_length seg) (make_closure ticket segIdx BACKUP))].

(** The slice is copied before the first call; both calls share it. *)
Definition write_calls (uid : Z) (ticket : nat) (buffer : option cells) (x : nat * StripeSegment)
    : list (prog Core unit) :=
  let '(segIdx, seg) := x in
  let slice := copy_from (drop (Z.to_nat (bufferOffset seg)) <$> buffer) (seg_length seg) in
  [slice ← lift slice; minion (primaryMinionIndex seg)
     (add_write uid (localOffset seg) (seg_length seg) (Some slice) (make_closure ticket segIdx PRIMARY));
   slice ← lift slice; minion (backupMinionIndex seg)
     (add_write uid (localOffset seg) (seg_length seg) (Some slice) (make_closure ticket segIdx BACKUP))].

(** What throws inside the [try] block continues in the [catch] clause. *)
Definition caught (prefix : string) (m : prog Core command_state) : prog Core command_state :=
  try m (fun e => mret (Caught prefix e)).

Definition begin_read (uid : Z) (a : TaskArgs) : prog Core command_state :=
  caught "ReadCommand: "
    ('(ticket, segments) ← start make_ticket ticket_created READ uid (m_offset a) (m_length a);
     mret (Sending "ReadCommand: " (imap pair segments ≫= read_calls uid ticket))).

Definition begin_write (uid : Z) (a : TaskArgs) : prog Core command_state :=
  caught "WriteCommand: "
    ('(ticket, segments) ← start make_ticket ticket_created WRITE uid (m_offset a) (m_length a);
     mret (Sending "WriteCommand: " (imap pair segments ≫= write_calls uid ticket (m_buffer a)))).

(** [FW_TPTask::Run] up to the command: [Create], the [dynamic_cast], and the
    statements before the loop. *)
Definition begin_command (args : ATaskArgs) : prog Core command_state :=
  caught "FW_TPTask: "
    (pCommand ← lift (Create (fdmode_value (GetKey args)) commands);
     match pCommand, args with
     | ReadCommand, NBDReadArgs uid a => begin_read uid a
     | WriteCommand, NBDWriteArgs uid a => begin_write uid a
     | ReadCommand, _ => Log "ReadCommand: invalid task args" ERROR ;; mret (Sending "" [])
     | WriteCommand, _ => Log "WriteCommand: invalid task args" ERROR ;; mret (Sending "" [])
     end).

Definition command_step (c : command_state) : prog Core command_state :=
  match c with
  | Begin args => begin_command args
  | Sending prefix [] => lift Blocked
  | Sending prefix (call :: calls) => caught prefix (call ;; mret (Sending prefix calls))
  | Caught prefix e => Log (prefix +:+ what e) ERROR ;; mret (Sending prefix [])
  end.

Definition finished_command (c : command_state) : bool :=
  match c with Sending _ [] => true | _ => false end.

(** A command that is never interrupted. *)
Fixpoint run_alone (fuel : nat) (c : command_state) : prog Core command_state :=
  match fuel with
  | O => mret c
  | S fuel => if finished_command c then mret c else c' ← command_step c; run_alone fuel c'
  end.
End command.

Section alone.
Context `{LinuxNBD}.

(** The loop of a command, with its [catch] clause. *)
Definition logged (prefix : string) (x : res unit * Core) : res command_state * Core :=
  let '(r, s) := x in
  match r with
  | Ok _ => (Ok (Sending prefix []), s)
  | Throw e => (Ok (Sending prefix []), log_entry (prefix +:+ what e) ERROR s)
  | Undefined => (Undefined, s)
  | Blocked => (Blocked, s)
  end.

Lemma logged_finished prefix x :
  match (logged prefix x).1 with Ok c => finished_command c = true | _ => True end.
Proof. by destruct x as [[[]|e| |] s]. Qed.

Lemma finished_alone fuel prefix (s : Core) :
  run_alone fuel (Sending prefix []) s = (Ok (Sending prefix []), s).
Proof. by destruct fuel. Qed.

Lemma caught_alone fuel prefix e (s : Core) :
  run_alone (S fuel) (Caught prefix e) s
  = (Ok (Sending prefix []), log_entry (prefix +:+ what e) ERROR s).
Proof. cbn. unfold Log, modify, mbind, prog_bind. cbn. by rewrite finished_alone. Qed.

Lemma sending_alone prefix calls fuel (s : Core) :
  (length calls < fuel)%nat ->
  run_alone fuel (Sending prefix calls) s = logged prefix (for_each (fun call => call) calls s).
Proof.
  revert fuel s. induction calls as [|call calls IH]; intros fuel s Hf.
  { by rewrite finished_alone. }
  destruct fuel as [|fuel]; [simpl in Hf; lia|]. cbn [run_alone finished_command for_each command_step].
  unfold caught, try, mbind, prog_bind, mret, prog_ret. destruct (call s) as [[[]|e| |] s1]; try done.
  - apply IH. simpl in Hf. lia.
  - destruct fuel as [|fuel]; [simpl in Hf; lia|]. apply caught_alone.
Qed.

(** The calls of the iterations are the iterations. *)
Lemma for_each_calls {A} (f : A -> prog Core unit) (calls : A -> list (prog Core unit)) l s :
  (forall x s, for_each (fun call => call) (calls x) s = f x s) ->
  for_each (fun call => call) (l ≫= calls) s = for_each f l s.
Proof.
  intros Hf. revert s. induction l as [|x l IH]; intros s; [done|].
  cbn [mbind list_bind for_each]. rewrite for_each_seq. unfold mbind, prog_bind. rewrite Hf.
  destruct (f x s) as [[[]|e| |] s']; [apply IH|done..].
Qed.

Lemma read_calls_eq uid ticket x s :
  for_each (fun call => call) (read_calls uid ticket x) s = read_segment make_closure uid ticket x s.
Proof.
  destruct x as [i seg]. cbn [read_calls for_each read_segment]. run_prog.
  destruct (minion (primaryMinionIndex seg) _ s) as [[[]|e| |] s1]; try done.
  by destruct (minion (backupMinionIndex seg) _ s1) as [[[]|e| |] s2].
Qed.

Lemma write_calls_eq uid ticket buffer x s :
  for_each (fun call => call) (write_calls uid ticket buffer x) s
  = write_segment make_closure uid ticket buffer x s.
Proof.
  destruct x as [i seg]. cbn [write_calls for_each write_segment]. run_prog.
  destruct (copy_from _ _) as [slice|e| |]; try done.
  destruct (minion (primaryMinionIndex seg) _ s) as [[[]|e| |] s1]; try done.
  by destruct (minion (backupMinionIndex seg) _ s1) as [[[]|e| |] s2].
Qed.

(** A command with its loop: enough fuel for one step each, for the start and for
    the [catch] clause. *)
Lemma command_loop_alone prefix op uid off len calls f (s : Core) :
  (forall ticket x s, for_each (fun call => call) (calls ticket x) s = f ticket x s) ->
  exists fuel,
    (c ← caught prefix ('(ticket, segments) ← start make_ticket ticket_created op uid off len;
        mret (Sending prefix (imap pair segments ≫= calls ticket)));
     run_alone fuel c) s
    = logged prefix (('(ticket, segments) ← start make_ticket ticket_created op uid off len;
        for_each (f ticket) (imap pair segments)) s).
Proof.
  intros Hf. unfold caught, try, mbind, prog_bind, mret, prog_ret.
  destruct (start _ _ _ _ _ _ s) as [[[ticket segments]|e| |] s1].
  - exists (S (length (imap pair segments ≫= calls ticket))).
    pose proof (sending_alone prefix (imap pair segments ≫= calls ticket)
      (S (length (imap pair segments ≫= calls ticket))) s1 (Nat.lt_succ_diag_r _)) as Hs.
    rewrite (for_each_calls (f ticket)) in Hs by apply Hf. exact Hs.
  - exists 1%nat. apply caught_alone.
  - by exists O.
  - by exists O.
Qed.

(** The start of a command for arguments of the right class. *)
Lemma begin_command_eq args (s : Core) :
  begin_command args s
  = match args with
    | NBDReadArgs uid a => begin_read uid a s
    | NBDWriteArgs uid a => begin_write uid a s
    | MinionReadArgs _ _ => (Log "ReadCommand: invalid task args" ERROR ;; mret (Sending "" [])) s
    | MinionWriteArgs _ _ => (Log "WriteCommand: invalid task args" ERROR ;; mret (Sending "" [])) s
    end.
Proof.
  unfold begin_command, caught, try. run_prog. rewrite commands_create.
  destruct args as [uid a|uid a|uid a|uid a]; cbn [GetKey]; try done;
    unfold begin_read, begin_write, caught, try; run_prog;
    by destruct (start _ _ _ _ _ _ s) as [[[ticket segs]|e| |] s'].
Qed.

(** What [run_task] does, in these terms. *)
Lemma run_task_logged i args (s : Master) :
  Master.m_queue s !! i = Some args ->
  run_task i s
  = let '(r, (m', b')) := match args with
      | NBDReadArgs uid a => logged "ReadCommand: "
          (MinionManager.AddReadTask make_ticket ticket_created make_closure uid (m_offset a) (m_length a)
             (manager s, backend s))
      | NBDWriteArgs uid a => logged "WriteCommand: "
          (MinionManager.AddWriteTask make_ticket ticket_created make_closure uid (m_offset a) (m_length a)
             (m_buffer a) (manager s, backend s))
      | MinionReadArgs _ _ =>
          (Ok (Sending "" []), log_entry "ReadCommand: invalid task args" ERROR (manager s, backend s))
      | MinionWriteArgs _ _ =>
          (Ok (Sending "" []), log_entry "WriteCommand: invalid task args" ERROR (manager s, backend s))
      end in
    (match r with Ok _ => Ok tt | Throw e => Throw e | Undefined => Undefined | Blocked => Blocked end,
     mk_Master m' b' (delete i (Master.m_queue s))).
Proof.
  intros Hargs. unfold run_task. rewrite Hargs. unfold FW_TPTask_Run. run_prog. rewrite commands_create.
  destruct args as [uid a|uid a|uid a|uid a]; cbn [GetKey run_command]; [| |done|done];
    unfold ReadCommand_Run, WriteCommand_Run, master_AddReadTask, master_AddWriteTask; run_prog;
    rewrite logging_exceptions_eq; unfold on_manager; run_prog; cbn [manager backend Master.m_queue];
    [destruct (MinionManager.AddReadTask _ _ _ _ _ _ _) as [res [m' b']]
    |destruct (MinionManager.AddWriteTask _ _ _ _ _ _ _ _) as [res [m' b']]];
    by destruct res as [[]|e| |].
Qed.
End alone.

(** ** The program *)

(** The thread of [MinionManager]'s reactor: in [select]; at the call for the
    first of the minions that [select] has found; between the sections of that
    call. *)
Inductive receiver : Type :=
  | Selecting
  | Calling (l : list nat)
  | Holding (i : nat) (msg : AMessage) (l : list nat).

(** The objects of the program, and where its threads are: the pool with its
    history ([Work.v]), the commands by the thread that runs them, the task that
    the framework's reactor has created and not queued yet, the receiver. *)
Record Program : Type := mk_Program {
  core : Core;
  pool : history (T := ATaskArgs);
  running_commands : gmap nat command_state;
  reader : option ATaskArgs;
  receiving : receiver;
}.

Section program.
Context `{LinuxNBD}.

Definition on_core {A} (f : prog Core A) : prog Program A :=
  zoom core (fun c p => mk_Program c (pool p) (running_commands p) (reader p) (receiving p)) f.

Definition set_reader (r : option ATaskArgs) : prog Program unit := modify (fun p =>
  mk_Program (core p) (pool p) (running_commands p) r (receiving p)).

Definition set_receiver (r : receiver) : prog Program unit := modify (fun p =>
  mk_Program (core p) (pool p) (running_commands p) (reader p) r).

(** An operation of the pool, with the tasks that it adds and finishes. *)
Definition on_pool (f : prog (ThreadPool ATaskArgs) unit) (new done : list ATaskArgs)
    : prog Program unit := fun p =>
  let '(r, q) := f (hpool (pool p)) in
  (r, mk_Program (core p) (mk_history q (added (pool p) ++ new) (finished (pool p) ++ done))
        (running_commands p) (reader p) (receiving p)).

Definition set_command (tid : nat) (c : option command_state) : prog Program unit := modify (fun p =>
  mk_Program (core p) (pool p)
    (match c with Some c => <[tid := c]> (running_commands p) | None => delete tid (running_commands p) end)
    (reader p) (receiving p)).

(** What a thread does next, or the network. *)
Inductive event : Type :=
  | Read
  | Queue (now : Z)
  | Pop (tid i : nat)
  | RunCommand (tid : nat)
  | Done (tid : nat)
  | Select (l : list nat)
  | Receive
  | Answer
  | Deliver (i : nat) (addr : Z) (datagram : cells).

(** [select] finds these sockets of minions readable. *)
Definition readable (c : Core) (i : nat) : bool :=
  match m_minions c.1 !! i with
  | Some p => negb (bool_decide (UDPSocket.incoming (MinionProxy.m_socket p) = []))
  | None => false
  end.

Definition perform (x : event) : prog Program unit :=
  match x with
  | Read =>
      busy ← gets reader;
      match busy with
      | Some _ => lift Blocked
      | None =>
          args ← on_core (on_snd (on_nbd_rm (NBDProxy.GetTaskArgs task_created)));
          match args with
          | Some _ => set_reader args
          | None => on_core (Log "Framework: failed to get task args" WARNING)
          end
      end
  | Queue now =>
      args ← gets reader;
      match args with
      | Some args => on_pool (AddTask args LOW now) [args] [] ;; set_reader None
      | None => lift Blocked
      end
  | Pop tid i =>
      on_pool (thread_pop tid i) [] [] ;;
      job ← gets (fun p => m_threads (hpool (pool p)) !! tid);
      match job with
      | Some (Running (Work args)) => set_command tid (Some (Begin args))
      | _ => mret tt
      end
  | RunCommand tid =>
      c ← gets (fun p => running_commands p !! tid);
      match c with
      | Some c => c' ← on_core (command_step c); set_command tid (Some c')
      | None => lift Blocked
      end
  | Done tid =>
      c ← gets (fun p => running_commands p !! tid);
      match c with
      | Some (Sending _ []) =>
          job ← gets (fun p => m_threads (hpool (pool p)) !! tid);
          on_pool (thread_done tid) [] (match job with Some t => runs t | None => [] end) ;;
          set_command tid None
      | _ => lift Blocked
      end
  | Select l =>
      r ← gets receiving;
      ready ← gets (fun p => forallb (readable (core p)) l);
      match r with
      | Selecting | Calling [] =>
          if ready && bool_decide (l <> []) && bool_decide (NoDup l)
          then set_receiver (Calling l) else lift Blocked
      | _ => lift Blocked
      end
  | Receive =>
      r ← gets receiving;
      match r with
      | Calling (i :: l) =>
          msg ← on_core (minion (Z.of_nat i) (wake_receive master_factory));
          set_receiver (match msg with Some msg => Holding i msg l | None => Calling l end)
      | _ => lift Blocked
      end
  | Answer =>
      r ← gets receiving;
      match r with
      | Holding i msg l =>
          on_core (minion (Z.of_nat i) (wake_answer respond msg)) ;;
          set_receiver (Calling l)
      | _ => lift Blocked
      end
  | Deliver i addr datagram =>
      on_core (modify (fun c => (set_minions (alter (fun p => mk_MinionProxy
        (UDPSocket.deliver addr datagram (MinionProxy.m_socket p)) (m_map p)) i (m_minions c.1)) c.1, c.2)))
  end.

(** Any thread may be next. *)
Definition tstep (p p' : Program) : Prop := exists x, perform x p = (Ok tt, p').
Definition tsteps : Program -> Program -> Prop := rtc tstep.

(** After [boot], with a pool of [n] threads. *)
Definition start_program (s : Master) (n : nat) : Program :=
  mk_Program (manager s, backend s) (mk_history (new_ThreadPool n) [] []) ∅ None Selecting.
End program.

(** ** What the calls of a command leave alone *)

Section harmless.
Context `{LinuxNBD}.

Definition inbox_of (p : MinionProxy closure) : list (option (Z * cells)) :=
  UDPSocket.incoming (MinionProxy.m_socket p).

(** The state behind the manager changes by log entries only, and nothing is
    taken out of a socket, however the call ends. *)
Definition harmless (call : prog Core unit) : Prop := forall m b,
  let '(_, (m', b')) := call (m, b) in
  (exists logs, b' = add_logs logs b) /\ inbox_of <$> m_minions m' = inbox_of <$> m_minions m.

Lemma SendTo_inbox packet s :
  UDPSocket.incoming (UDPSocket.SendTo packet s).2 = UDPSocket.incoming s.
Proof. unfold UDPSocket.SendTo. by destruct (default _ _). Qed.

Lemma add_read_inbox uid off len c (p : MinionProxy closure) (w : Backend) :
  let '(_, (p', w')) := add_read uid off len c (p, w) in
  (exists logs, w' = add_logs logs w) /\ inbox_of p' = inbox_of p.
Proof.
  pose proof (add_read_frame uid off len c p w) as Hf.
  change (add_read uid off len c (p, w)) with (MinionProxy.AddReadTask uid off len c (p, w)) in *.
  destruct (MinionProxy.AddReadTask uid off len c (p, w)) as [r [p' w']] eqn:E. split; [apply Hf|].
  revert E. unfold MinionProxy.AddReadTask, on_map, MinionProxy.on_socket, Log, inbox_of. run_prog.
  destruct (make_packet _) as [packet|e| |]; cbn [fst snd MinionProxy.m_socket m_map]; [|by intros [= _ <- _]..].
  pose proof (SendTo_inbox packet (MinionProxy.m_socket p)) as Hs.
  by destruct (UDPSocket.SendTo packet _) as [[[]|e| |] s']; intros [= _ <- _].
Qed.

Lemma add_write_inbox uid off len data c (p : MinionProxy closure) (w : Backend) :
  let '(_, (p', w')) := add_write uid off len data c (p, w) in
  (exists logs, w' = add_logs logs w) /\ inbox_of p' = inbox_of p.
Proof.
  pose proof (add_write_frame uid off len data c p w) as Hf.
  change (add_write uid off len data c (p, w)) with (MinionProxy.AddWriteTask uid off len data c (p, w)) in *.
  destruct (MinionProxy.AddWriteTask uid off len data c (p, w)) as [r [p' w']] eqn:E. split; [apply Hf|].
  revert E. unfold MinionProxy.AddWriteTask, on_map, MinionProxy.on_socket, inbox_of. run_prog.
  destruct (make_packet _) as [packet|e| |]; cbn [fst snd MinionProxy.m_socket m_map]; [|by intros [= _ <- _]..].
  pose proof (SendTo_inbox packet (MinionProxy.m_socket p)) as Hs.
  by destruct (UDPSocket.SendTo packet _) as [[[]|e| |] s']; intros [= _ <- _].
Qed.

Lemma minion_harmless i f :
  (forall p w, let '(_, (p', w')) := f (p, w) in
     (exists logs, w' = add_logs logs w) /\ inbox_of p' = inbox_of p) ->
  harmless (minion i f).
Proof.
  intros Hf m b. unfold minion. cbn [fst snd].
  destruct (m_minions m !! Z.to_nat i) as [p|] eqn:Hp; [|by split; [exists []|]].
  specialize (Hf p b). destruct (f (p, b)) as [r [p' b']]. destruct Hf as [Hlogs Hin].
  split; [done|]. cbn [set_minions m_minions]. rewrite list_fmap_insert, Hin.
  apply list_insert_id. by rewrite list_lookup_fmap, Hp.
Qed.

Lemma calls_harmless uid ticket buffer segs :
  Forall harmless (imap pair segs ≫= read_calls uid ticket)
  /\ Forall harmless (imap pair segs ≫= write_calls uid ticket buffer).
Proof.
  split; apply Forall_bind, Forall_forall; intros [i seg] _.
  - repeat constructor; apply minion_harmless; intros p w; apply add_read_inbox.
  - assert (Hlift : forall (r : res cells) f, (forall slice, harmless (f slice)) ->
      harmless (slice ← lift r; f slice)).
    { intros r f Hf m b. destruct r as [slice|e| |]; [apply Hf|by split; [exists []|]..]. }
    repeat constructor; apply Hlift; intros slice; apply minion_harmless; intros p w; apply add_write_inbox.
Qed.
End harmless.

(** ** The invariant *)

Section invariant.
Context `{LinuxNBD} (reqs : list kernel_request).
Hypothesis Hreqs : Forall request_wf reqs.
Hypothesis Hmany : Z.of_nat (length reqs) < 2 ^ 64.

Definition command_inv (k : nat) (c : command_state) : Prop :=
  match c with
  | Begin args => task_inv reqs k args
  | Sending _ calls => Forall harmless calls
  | Caught _ _ => True
  end.

(** The receiver has a datagram for every call that it still has to make. *)
Definition receiver_inv (r : receiver) (c : Core) : Prop :=
  let ok l := NoDup l /\ Forall (fun i => exists d inc, (inbox_of <$> m_minions c.1) !! i = Some (d :: inc)) l in
  match r with
  | Selecting => True
  | Calling l | Holding _ _ l => ok l
  end.

(** The tasks of the first [k] requests. *)
Definition requested (k : nat) : list ATaskArgs :=
  imap (fun i r => task_of (Z.of_nat i) r) (take k reqs).

Record threads_inv (k : nat) (replied : list reply) (p : Program) : Prop := {
  ti_backend : backend_inv reqs k replied (core p).2;
  ti_pool : accounted (pool p);
  ti_added : Forall (task_inv reqs k) (added (pool p));
  ti_commands : map_Forall (fun _ c => command_inv k c) (running_commands p);
  ti_reader : match reader p with Some args => task_inv reqs k args | None => True end;
  ti_receiver : receiver_inv (receiving p) (core p);
  ti_tasks : added (pool p) ++ option_list (reader p) = requested k;
}.

(** How the result of a step of a command continues. *)
Lemma start_inv k replied op uid off len (m : MinionManager (MinionProxy closure) created_callback) b i r :
  backend_inv reqs k replied b -> reqs !! i = Some r -> (i < k)%nat -> uid = Z.of_nat i ->
  op = op_of r -> len = k_len r ->
  let '(_, (m', b')) := start make_ticket ticket_created op uid off len (m, b) in
  m' = m /\ backend_inv reqs k replied b'.
Proof.
  intros Hb Hi Hik Hu Hop Hl.
  apply (start_frame make_ticket ticket_created (backend_inv reqs k replied)); try done.
  - intros segs w Hw. by eapply make_ticket_inv.
  - intros c t w Hw. by apply ticket_created_inv.
Qed.

Lemma command_step_inv k replied c m b :
  backend_inv reqs k replied b -> command_inv k c ->
  let '(r, (m', b')) := command_step c (m, b) in
  backend_inv reqs k replied b' /\ inbox_of <$> m_minions m' = inbox_of <$> m_minions m
  /\ match r with Ok c' => command_inv k c' | _ => True end.
Proof.
  intros Hb Hc. destruct c as [args|prefix [|call calls]|prefix e]; cbn [command_step].
  - destruct Hc as (i & r & Hi & Hik & ->). unfold begin_command, caught, try. run_prog.
    rewrite commands_create. unfold task_of.
    destruct (k_data r) as [data|] eqn:Ed; cbn [GetKey]; unfold begin_read, begin_write, caught, try; run_prog;
      cbn [m_offset m_length m_buffer];
      [pose proof (start_inv k replied WRITE (Z.of_nat i) (k_from r) (k_len r) m b i r Hb Hi Hik eq_refl) as Hs
      |pose proof (start_inv k replied READ (Z.of_nat i) (k_from r) (k_len r) m b i r Hb Hi Hik eq_refl) as Hs];
      unfold op_of in Hs; rewrite Ed in Hs; specialize (Hs eq_refl eq_refl);
      destruct (start _ _ _ _ _ _ (m, b)) as [[[ticket segs]|e| |] [m' b']]; destruct Hs as [-> Hb'];
      (split; [done|]; split; [done|]); try done;
      [exact (proj2 (calls_harmless _ _ _ _))|exact (proj1 (calls_harmless _ _ None _))].
  - done.
  - apply Forall_cons in Hc as [Hcall Hcalls]. unfold caught, try. run_prog.
    specialize (Hcall m b). destruct (call (m, b)) as [r [m' b']].
    destruct Hcall as [[logs ->] Hin].
    destruct r as [[]|e| |]; (split; [by apply backend_inv_logs|done]).
  - unfold Log. run_prog. split; [by apply (backend_inv_logs reqs k replied [(_, ERROR)])|]. split; [done|].
    constructor.
Qed.

(** *** Each event *)

Lemma command_inv_S k c : command_inv k c -> command_inv (S k) c.
Proof. destruct c as [args| |]; [apply task_inv_S|done..]. Qed.

Lemma read_inv k replied (m : MinionManager (MinionProxy closure) created_callback) b args b' :
  backend_inv reqs k replied b -> on_nbd_rm (NBDProxy.GetTaskArgs task_created) b = (Ok args, b') ->
  exists r, reqs !! k = Some r /\ args = Some (task_of (Z.of_nat k) r) /\ backend_inv reqs (S k) replied b'.
Proof using Hreqs Hmany.
  intros Hb E. set (s := mk_Master m b []).
  assert (Hs : master_inv reqs k replied s) by by constructor.
  pose proof (nbd_wakeup_inv reqs Hreqs Hmany k replied s Hs) as Hn.
  assert (Ew : nbd_wakeup s = match args with
    | None => (Ok tt, mk_Master m (log_entry "Framework: failed to get task args" WARNING b') [])
    | Some a => (Ok tt, mk_Master m b' [a])
    end).
  { unfold nbd_wakeup, on_input, on_backend, s. unfold mbind at 1, prog_bind at 1, zoom at 1.
    cbn [backend manager m_queue]. rewrite E. by destruct args. }
  rewrite Ew in Hn. destruct args as [a|]; destruct Hn as (r & Hr & [Hb' _] & _ & _ & Eq & _).
  - exists r. split; [done|]. cbn [m_queue app s] in Eq. by injection Eq as ->.
  - done.
Qed.

Lemma running_added h tid (a : ATaskArgs) :
  accounted h -> m_threads (hpool h) !! tid = Some (Running (Work a)) -> a ∈ added h.
Proof.
  intros [_ _ Ht] Htid. rewrite <-Ht. apply elem_of_app. right. apply elem_of_app. left.
  unfold running. rewrite <-(insert_delete_id _ _ _ Htid).
  rewrite all_runs_insert_None by apply lookup_delete_eq. cbn. apply list_elem_of_here.
Qed.

(** An operation of the pool that adds no task is a step of its history. *)
Lemma on_pool_inv k replied f done p p' :
  threads_inv k replied p -> on_pool f [] done p = (Ok tt, p') ->
  (forall q, f (hpool (pool p)) = (Ok tt, q) ->
     hstep (pool p) (mk_history q (added (pool p)) (finished (pool p) ++ done))) ->
  threads_inv k replied p'.
Proof.
  intros [Hb Hp Ha Hc Hr Hrec Hts] E Hstep. unfold on_pool in E. rewrite app_nil_r in E.
  destruct (f (hpool (pool p))) as [r q] eqn:Ef. injection E as -> <-.
  constructor; cbn [core pool running_commands reader receiving]; try done.
  eapply hstep_accounted; [exact Hp|]. by apply Hstep.
Qed.

Lemma set_command_inv k replied tid c p :
  threads_inv k replied p -> match c with Some c => command_inv k c | None => True end ->
  threads_inv k replied (set_command tid c p).2.
Proof.
  intros [Hb Hp Ha Hc Hr Hrec Hts] Hcmd. constructor; try done. cbn [set_command modify snd running_commands].
  destruct c as [c|]; [by apply map_Forall_insert_2|by apply map_Forall_delete].
Qed.

Lemma perform_Read k replied p p' :
  threads_inv k replied p -> perform Read p = (Ok tt, p') -> exists k' replied', threads_inv k' replied' p'.
Proof using Hreqs Hmany.
  intros [Hb Hp Ha Hc Hr Hrec Hts] (busy & p1 & [= <- <-] & E)%bind_ok_inv.
  destruct (reader p) as [|] eqn:Er; [done|].
  apply bind_ok_inv in E as (args & p1 & E1 & E).
  unfold on_core, on_snd, zoom in E1. cbn [core] in E1.
  destruct (on_nbd_rm _ (core p).2) as [r b'] eqn:Eb. injection E1 as -> <-.
  destruct (read_inv k replied (core p).1 _ _ _ Hb Eb) as (r & Hk & -> & Hb').
  injection E as <-. exists (S k), replied.
  constructor; cbn [core pool running_commands reader receiving snd]; try done.
  - eapply Forall_impl; [exact Ha|apply task_inv_S].
  - eapply map_Forall_impl; [exact Hc|]. intros tid c. apply command_inv_S.
  - exists k, r. split_and!; (done || lia).
  - cbn [option_list] in Hts. rewrite app_nil_r in Hts. rewrite Hts. unfold requested. cbn [option_list].
    rewrite (take_S_r _ _ _ Hk), imap_app, length_take_le by (apply lookup_lt_Some in Hk; lia).
    cbn. by rewrite Nat.add_0_r.
Qed.

Lemma perform_pool k replied p p' x :
  (exists now, x = Queue now) \/ (exists tid i, x = Pop tid i) \/ (exists tid, x = Done tid) ->
  threads_inv k replied p -> perform x p = (Ok tt, p') -> threads_inv k replied p'.
Proof.
  intros Hx Hp E. destruct Hx as [[now ->]|[(tid & i & ->)|[tid ->]]].
  - apply bind_ok_inv in E as (args & p1 & [= <- <-] & E).
    destruct (reader p) as [args|] eqn:Er; [|done].
    injection E as <-. destruct Hp as [Hb Hp Ha Hc Hr Hrec Hts]. rewrite Er in Hr, Hts.
    constructor; cbn [core pool running_commands reader receiving added option_list]; try done.
    + eapply hstep_accounted; [exact Hp|]. rewrite app_nil_r. by eapply (hstep_add args LOW now).
    + apply Forall_app. split; [done|]. by constructor.
    + by rewrite app_nil_r.
  - apply bind_ok_inv in E as ([] & p1 & E1 & E).
    assert (Hp1 : threads_inv k replied p1).
    { eapply on_pool_inv; [exact Hp|exact E1|].
      intros q Eq. rewrite app_nil_r. by eapply (hstep_pop tid i). }
    apply bind_ok_inv in E as (job & p2 & [= <- <-] & E).
    destruct (m_threads (hpool (pool p1)) !! tid) as [[|[a| |]| |]|] eqn:Et; try by injection E as <-.
    injection E as <-. apply (set_command_inv k replied tid (Some (Begin a))); [done|].
    pose proof (ti_added _ _ _ Hp1) as Ha. rewrite Forall_forall in Ha. apply Ha.
    eapply running_added; [apply Hp1|exact Et].
  - apply bind_ok_inv in E as (c & p1 & [= <- <-] & E).
    destruct (running_commands p !! tid) as [[|prefix [|]|]|]; try done.
    apply bind_ok_inv in E as (job & p1 & [= <- <-] & E).
    apply bind_ok_inv in E as ([] & p1 & E1 & E). injection E as <-.
    assert (Hp1 : threads_inv k replied p1).
    { eapply on_pool_inv; [exact Hp|exact E1|]. intros q Eq.
      destruct (m_threads (hpool (pool p)) !! tid) as [t|] eqn:Et; [by eapply hstep_done|].
      unfold thread_done in Eq. by rewrite Et in Eq. }
    by apply (set_command_inv k replied tid None).
Qed.

(** The receiver's datagrams depend on the inboxes only. *)
Lemma receiver_inv_inbox r (c c' : Core) :
  inbox_of <$> m_minions c'.1 = inbox_of <$> m_minions c.1 -> receiver_inv r c -> receiver_inv r c'.
Proof. intros E. destruct r; cbn [receiver_inv]; by rewrite ?E. Qed.

Lemma perform_RunCommand k replied tid p p' :
  threads_inv k replied p -> perform (RunCommand tid) p = (Ok tt, p') -> threads_inv k replied p'.
Proof.
  intros [Hb Hp Ha Hc Hr Hrec Hts] (c & p1 & [= <- <-] & E)%bind_ok_inv.
  destruct (running_commands p !! tid) as [c|] eqn:Et; [|done].
  apply bind_ok_inv in E as (c' & p1 & E1 & E). injection E as <-.
  unfold on_core, zoom in E1. destruct (core p) as [m b] eqn:Ecore.
  pose proof (command_step_inv k replied c m b Hb (Hc tid c Et)) as Hs.
  destruct (command_step c (m, b)) as [r [m' b']]. injection E1 as -> <-.
  destruct Hs as (Hb' & Hin & Hc').
  apply (set_command_inv k replied tid (Some c')); [|done].
  constructor; cbn [core pool running_commands reader receiving snd]; try done.
  by apply (receiver_inv_inbox _ (m, b)).
Qed.

Lemma perform_Select k replied l p p' :
  threads_inv k replied p -> perform (Select l) p = (Ok tt, p') -> threads_inv k replied p'.
Proof.
  intros [Hb Hp Ha Hc Hr Hrec Hts] (r & p1 & [= <- <-] & E)%bind_ok_inv.
  apply bind_ok_inv in E as (ready & p1 & [= <- <-] & E).
  assert (E' : (forallb (readable (core p)) l && bool_decide (l <> []) && bool_decide (NoDup l)) = true
    /\ p' = (set_receiver (Calling l) p).2).
  { destruct (receiving p) as [|[|]|]; try done;
      (destruct (_ && _); [injection E as <-; done|done]). }
  destruct E' as [[[Hready _]%andb_prop Hnd%bool_decide_eq_true]%andb_prop ->].
  constructor; try done. cbn [set_receiver modify snd receiving receiver_inv core]. split; [done|].
  rewrite forallb_forall in Hready. apply Forall_forall. intros i Hi.
  apply list_elem_of_In in Hi. specialize (Hready i Hi). unfold readable in Hready.
  rewrite list_lookup_fmap. destruct (m_minions (core p).1 !! i) as [proxy|]; [|done]. cbn [fmap option_fmap option_map].
  apply negb_true_iff, bool_decide_eq_false in Hready. unfold inbox_of.
  destruct (UDPSocket.incoming (MinionProxy.m_socket proxy)) as [|d inc]; [done|]. by exists d, inc.
Qed.

(** After a call for minion [i] the others have what they had. *)
Lemma receiver_rest i l x (boxes : list (list (option (Z * cells)))) :
  NoDup (i :: l) -> Forall (fun j => exists d inc, boxes !! j = Some (d :: inc)) l ->
  NoDup l /\ Forall (fun j => exists d inc, <[i := x]> boxes !! j = Some (d :: inc)) l.
Proof.
  intros [Hi Hnd]%NoDup_cons Hl. split; [done|]. rewrite Forall_forall in Hl |- *. intros j Hj.
  rewrite list_lookup_insert_ne by (intros ->; done). by apply Hl.
Qed.

Lemma perform_Receive k replied p p' :
  threads_inv k replied p -> perform Receive p = (Ok tt, p') -> threads_inv k replied p'.
Proof.
  intros [Hb Hp Ha Hc Hr Hrec Hts] (r & p1 & [= <- <-] & E)%bind_ok_inv.
  destruct (receiving p) as [|[|i l]|] eqn:Erec; try done.
  apply bind_ok_inv in E as (msg & p1 & E1 & E). injection E as <-.
  unfold on_core, zoom, minion in E1. rewrite Nat2Z.id in E1.
  destruct (m_minions (core p).1 !! i) as [proxy|] eqn:Ei; [|done].
  pose proof (wake_receive_frame master_factory proxy (core p).2) as Hf.
  destruct (wake_receive master_factory (proxy, (core p).2)) as [r [proxy' b']].
  injection E1 as -> <-. destruct Hf as [[logs ->] ->].
  constructor; cbn [set_receiver modify core pool running_commands reader receiving snd]; try done.
  - by apply backend_inv_logs.
  - cbn [receiver_inv] in Hrec. destruct Hrec as [Hnd [_ Hl]%Forall_cons].
    destruct msg; cbn [receiver_inv fst set_minions m_minions];
      rewrite list_fmap_insert; by apply receiver_rest.
Qed.

Lemma perform_Answer k replied p p' :
  threads_inv k replied p -> perform Answer p = (Ok tt, p') -> exists replied', threads_inv k replied' p'.
Proof using Hreqs Hmany.
  intros [Hb Hp Ha Hc Hr Hrec Hts] (r & p1 & [= <- <-] & E)%bind_ok_inv.
  destruct (receiving p) as [|[|i l]|i msg l] eqn:Erec; try done.
  apply bind_ok_inv in E as ([] & p1 & E1 & E). injection E as <-.
  unfold on_core, zoom, minion in E1. rewrite Nat2Z.id in E1.
  destruct (m_minions (core p).1 !! i) as [proxy|] eqn:Ei; [|done].
  assert (Hans : exists replied' proxy' b', wake_answer respond msg (proxy, (core p).2) = (Ok tt, (proxy', b'))
    /\ p1 = mk_Program (set_minions (<[i := proxy']> (m_minions (core p).1)) (core p).1, b')
              (pool p) (running_commands p) (reader p) (receiving p)
    /\ inbox_of proxy' = inbox_of proxy /\ backend_inv reqs k replied' b').
  { revert E1. unfold wake_answer, on_map, Log. run_prog. cbn [fst snd].
    destruct (m_map proxy !! GetUID msg) as [c|]; cbn [fst snd].
    - pose proof (respond_inv reqs Hreqs k replied (core p).2 c msg Hb) as Hresp.
      destruct (respond c msg (core p).2) as [[[]|e| |] b']; try done. cbn [fst snd].
      intros [= <-]. destruct Hresp as [replied' Hb']. by eexists replied', _, b'.
    - intros [= <-]. eexists replied, _, _. split; [done|]. split; [done|]. split; [done|].
      exact (backend_inv_logs reqs k replied [(_, WARNING)] _ Hb). }
  destruct Hans as (replied' & proxy' & b' & _ & -> & Hin & Hb'). exists replied'.
  constructor; cbn [set_receiver modify core pool running_commands reader receiving snd]; try done.
  eapply (receiver_inv_inbox (Calling l) (core p)); [|exact Hrec].
  cbn [fst set_minions m_minions]. rewrite list_fmap_insert, Hin.
  apply list_insert_id. by rewrite list_lookup_fmap, Ei.
Qed.

Lemma perform_Deliver k replied i addr datagram p p' :
  threads_inv k replied p -> perform (Deliver i addr datagram) p = (Ok tt, p') -> threads_inv k replied p'.
Proof.
  intros [Hb Hp Ha Hc Hr Hrec Hts] [= <-]. constructor; try done.
  cbn [core pool running_commands reader receiving]. destruct (core p) as [m b].
  assert (Hgrow : forall j d inc, (inbox_of <$> m_minions m) !! j = Some (d :: inc) ->
    exists d' inc', (inbox_of <$> alter (fun p => mk_MinionProxy
      (UDPSocket.deliver addr datagram (MinionProxy.m_socket p)) (m_map p)) i (m_minions m)) !! j = Some (d' :: inc')).
  { intros j d inc. rewrite !list_lookup_fmap. destruct (decide (i = j)) as [->|Hne].
    - rewrite list_lookup_alter_eq. destruct (m_minions m !! j) as [proxy|]; [|done].
      intros [= Hj]. exists d, (inc ++ [Some (addr, datagram)]).
      unfold inbox_of, UDPSocket.deliver in *. simpl. by rewrite Hj.
    - rewrite list_lookup_alter_ne by done. intros Hj. by exists d, inc. }
  destruct (receiving p) as [|l|j msg l]; [done|..];
    cbn [receiver_inv fst set_minions m_minions] in *; destruct Hrec as [Hnd Hl];
    (split; [done|]); eapply Forall_impl; try exact Hl; intros x (d & inc & Hx); by eapply Hgrow.
Qed.

Lemma tstep_inv k replied p p' :
  threads_inv k replied p -> tstep p p' -> exists k' replied', threads_inv k' replied' p'.
Proof using Hreqs Hmany.
  intros Hp [x E]. destruct x.
  - by eapply perform_Read.
  - exists k, replied. eapply perform_pool; [|done..]. eauto.
  - exists k, replied. eapply perform_pool; [|done..]. eauto.
  - exists k, replied. by eapply perform_RunCommand.
  - exists k, replied. eapply perform_pool; [|done..]. eauto.
  - exists k, replied. by eapply perform_Select.
  - exists k, replied. by eapply perform_Receive.
  - destruct (perform_Answer k replied p p' Hp E) as [replied' Hp']. by exists k, replied'.
  - exists k, replied. by eapply perform_Deliver.
Qed.

Lemma tsteps_inv k replied p p' :
  threads_inv k replied p -> tsteps p p' -> exists k' replied', threads_inv k' replied' p'.
Proof using Hreqs Hmany.
  intros Hp Hs. revert k replied Hp. induction Hs as [|p1 p2 p3 Hs _ IH]; intros k replied Hp; [eauto|].
  destruct (tstep_inv k replied p1 p2 Hp Hs) as (k' & replied' & Hp'). by eapply IH.
Qed.
End invariant.

(** A program on its way, from its start on the stream of the requests [reqs]. *)
Definition running_program `{LinuxNBD} (reqs : list kernel_request) (p : Program) : Prop :=
  exists mbMinion minions tcp s0 n, boot mbMinion minions tcp = Ok s0 /\ tsteps (start_program s0 n) p
    /\ Forall request_wf reqs /\ Z.of_nat (length reqs) < 2 ^ 64
    /\ TCPClient.available (TCPClient.incoming tcp) = (reqs ≫= encode)
    /\ TCPClient.sent tcp = [] /\ TCPClient.sends_succeed tcp.

Lemma running_program_inv `{LinuxNBD} reqs p :
  running_program reqs p -> exists k replied, threads_inv reqs k replied p.
Proof.
  intros (mb & minions & tcp & s0 & n & Hboot & Hsteps & Hreqs & Hmany & Ha & Hs & Hsd).
  eapply tsteps_inv; [done|done| |exact Hsteps].
  destruct (boot_inv reqs mb minions tcp s0 Hboot Ha Hs Hsd) as [Hb _].
  constructor; try done.
  apply new_accounted.
Qed.

(** ** Properties *)

(** C7: what the kernel can rely on, however the threads interleave: when the
    thread of the reactor, the threads of the pool, which may be several and ask
    the minions in turn, and the thread that receives the answers run in any
    order, over any behaviour of the network, the replies are well-formed, at
    most one for each request, as [replies_conform] has it for whole handlers;
    the tasks handed to the pool are those of the requests read, in order, and
    each of them is queued, or running, or finished, once. *)
Theorem threads_conform `{LinuxNBD} (reqs : list kernel_request) (p : Program)
    (Hp : running_program reqs p) :
  exists k replied, (k <= length reqs)%nat
    /\ TCPClient.available (TCPClient.incoming (m_nbd (b_nbd (core p).2))) = (drop k reqs ≫= encode)
    /\ TCPClient.sent (m_nbd (b_nbd (core p).2)) = (replied ≫= reply_bytes reqs)
    /\ Forall (reply_ok reqs) replied /\ NoDup replied.*1.*1
    /\ Forall (fun i => i < k)%nat replied.*1.*1
    /\ added (pool p) ++ option_list (reader p) = requested reqs k
    /\ queued (hpool (pool p)) ++ running (hpool (pool p)) ++ finished (pool p) ≡ₚ added (pool p).
Proof.
  destruct (running_program_inv reqs p Hp) as (k & replied & [Hb Hacc _ _ _ _ Hts]).
  destruct Hb as [Hk _ [Hs _ _ _ Ho] _ _ (Hnd & Hro & Hlt)].
  exists k, replied. split_and!; try done. apply Hacc.
Qed.

(** C18: a command that is not interrupted does in its steps what the command does
    in one: for every task in the queue, a number of steps exists after which the
    thread has ended as [run_task] does, with the same state of the master,
    also when the command throws and the exception is logged. *)
Theorem command_alone `{LinuxNBD} (i : nat) (args : ATaskArgs) (s : Master)
    (Hargs : Master.m_queue s !! i = Some args) :
  exists fuel, let '(r, (m', b')) := run_alone fuel (Begin args) (manager s, backend s) in
    run_task i s = (match r with Ok _ => Ok tt | Throw e => Throw e | Undefined => Undefined | Blocked => Blocked end,
                    mk_Master m' b' (delete i (Master.m_queue s)))
    /\ match r with Ok c => finished_command c = true | _ => True end.
Proof.
  destruct args as [uid a|uid a|uid a|uid a];
    [destruct (command_loop_alone "ReadCommand: " READ uid (m_offset a) (m_length a) (read_calls uid)
       (read_segment make_closure uid) (manager s, backend s) (read_calls_eq uid)) as [fuel E]
    |destruct (command_loop_alone "WriteCommand: " WRITE uid (m_offset a) (m_length a)
       (fun ticket => write_calls uid ticket (m_buffer a)) (fun ticket => write_segment make_closure uid ticket (m_buffer a))
       (manager s, backend s) (fun ticket => write_calls_eq uid ticket (m_buffer a))) as [fuel E]
    |exists 1%nat|exists 1%nat].
  1, 2: exists (S fuel).
  all: rewrite (run_task_logged i _ s Hargs); cbn [run_alone finished_command command_step];
    unfold mbind at 1, prog_bind at 1; rewrite begin_command_eq.
  3, 4: done.
  all: match type of E with _ = logged ?prefix ?x =>
    pose proof (logged_finished prefix x) as Hfin; set (y := logged prefix x) in * end.
  all: match type of E with ?l = _ => change (let '(r, (m', b')) := l in
      (let '(r, (m', b')) := y in (match r with Ok _ => Ok tt | Throw e => Throw e | Undefined => Undefined
         | Blocked => Blocked end, mk_Master m' b' (delete i (Master.m_queue s))))
      = (match r with Ok _ => Ok tt | Throw e => Throw e | Undefined => Undefined | Blocked => Blocked end,
         mk_Master m' b' (delete i (Master.m_queue s)))
      /\ match r with Ok c => finished_command c = true | _ => True end) end;
    rewrite E; by destruct y as [[c|e| |] [m' b']].
Qed.

(** The thread that receives never waits inside of [recvfrom], where it would
    hold the mutex of the proxy: whenever it calls [OnMinionFDWakeUp] for a
    minion that [select] has found, a datagram waits in that socket, however many
    calls for other minions, commands and datagrams came in between. *)
Theorem receiver_never_waits `{LinuxNBD} (reqs : list kernel_request) (p : Program) (i : nat) (l : list nat)
    (Hp : running_program reqs p) (Hi : receiving p = Calling (i :: l)) :
  exists proxy, m_minions (core p).1 !! i = Some proxy
    /\ (UDPSocket.ReceiveFrom (BUFSIZ - 1) (MinionProxy.m_socket proxy)).1 <> Blocked.
Proof.
  destruct (running_program_inv reqs p Hp) as (k & replied & [_ _ _ _ _ Hrec _]).
  rewrite Hi in Hrec. destruct Hrec as [_ [(d & inc & Hd) _]%Forall_cons].
  rewrite list_lookup_fmap in Hd. destruct (m_minions (core p).1 !! i) as [proxy|]; [|done].
  exists proxy. split; [done|]. injection Hd as Hd. unfold inbox_of in Hd.
  unfold UDPSocket.ReceiveFrom. rewrite Hd. by destruct d as [[addr datagram]|].
Qed.

(** A run, event by event. *)
Fixpoint run_events `{LinuxNBD} (l : list event) (p : Program) : res Program :=
  match l with
  | [] => Ok p
  | x :: l => match perform x p with
              | (Ok _, p') => run_events l p'
              | (Throw e, _) => Throw e
              | (Undefined, _) => Undefined
              | (Blocked, _) => Blocked
              end
  end.

Lemma run_events_tsteps `{LinuxNBD} l p p' : run_events l p = Ok p' -> tsteps p p'.
Proof.
  revert p. induction l as [|x l IH]; intros p; cbn [run_events]; [intros [= <-]; apply rtc_refl|].
  destruct (perform x p) as [[[]|e| |] p1] eqn:E; try done. intros Hl.
  eapply rtc_l; [by exists x|by apply IH].
Qed.

(** The two requests of [Protocol.v] are read and queued, two threads take them
    and ask the minions in turn; the answer of the second minion to the read
    arrives while the write still has a call to make. *)
Definition interleaved : list event :=
  [Read; Queue 1; Read; Queue 2; Pop 0 1; Pop 1 0; RunCommand 1; RunCommand 0; RunCommand 1; RunCommand 0;
   RunCommand 1; Deliver 1 9 (packet_of (ReadReceive (MessageReadReceive.make 0 true 3
     (Some [Some Byte.x61; Some Byte.x62; Some Byte.x63])))); Select [1%nat]].

Lemma interleaved_runs :
  exists s0 p, boot 4194304 [sample_proxy 3; sample_proxy 4] sample_tcp = Ok s0
    /\ run_events interleaved (start_program s0 2) = Ok p /\ receiving p = Calling [1%nat]
    /\ running_program [sample_read; sample_write] p.
Proof.
  destruct (boot 4194304 [sample_proxy 3; sample_proxy 4] sample_tcp) as [s0|e| |] eqn:E0;
    try (exfalso; revert E0; vm_compute; discriminate).
  assert (Hrun : match boot 4194304 [sample_proxy 3; sample_proxy 4] sample_tcp with
    | Ok s0 => match run_events interleaved (start_program s0 2) with
               | Ok p => receiving p = Calling [1%nat] | _ => False end
    | _ => False end) by (vm_compute; reflexivity).
  rewrite E0 in Hrun.
  destruct (run_events interleaved (start_program s0 2)) as [p|e| |] eqn:E; try done.
  exists s0, p. split; [done|]. split; [done|]. split; [done|].
  exists 4194304, [sample_proxy 3; sample_proxy 4], sample_tcp, s0, 2%nat. split; [done|].
  split; [by eapply run_events_tsteps|]. split; [repeat constructor; simpl; lia|].
  split; [simpl; lia|]. split; [vm_compute; reflexivity|]. split; [done|constructor].
Qed.

Lemma threads_conform_witness :
  exists p, running_program [sample_read; sample_write] p
    /\ exists k replied, (k <= 2)%nat
    /\ TCPClient.available (TCPClient.incoming (m_nbd (b_nbd (core p).2))) = (drop k [sample_read; sample_write] ≫= encode)
    /\ TCPClient.sent (m_nbd (b_nbd (core p).2)) = (replied ≫= reply_bytes [sample_read; sample_write])
    /\ Forall (reply_ok [sample_read; sample_write]) replied /\ NoDup replied.*1.*1
    /\ Forall (fun i => i < k)%nat replied.*1.*1
    /\ added (pool p) ++ option_list (reader p) = requested [sample_read; sample_write] k
    /\ queued (hpool (pool p)) ++ running (hpool (pool p)) ++ finished (pool p) ≡ₚ added (pool p).
Proof.
  destruct interleaved_runs as (s0 & p & _ & _ & _ & Hp). exists p. split; [exact Hp|].
  exact (threads_conform [sample_read; sample_write] p Hp).
Defined.

Lemma receiver_never_waits_witness :
  exists p proxy, running_program [sample_read; sample_write] p /\ m_minions (core p).1 !! 1%nat = Some proxy
    /\ (UDPSocket.ReceiveFrom (BUFSIZ - 1) (MinionProxy.m_socket proxy)).1 <> Blocked.
Proof.
  destruct interleaved_runs as (s0 & p & _ & _ & Hi & Hp).
  destruct (receiver_never_waits [sample_read; sample_write] p 1 [] Hp Hi) as (proxy & Hproxy & Hr).
  by exists p, proxy.
Defined.

(** The command of [NBDReadArgs] on a master without minions throws, and logs. *)
Lemma command_alone_witness :
  let s := mk_Master (mk_MinionManager 0 0 [] [] ∅ false) (mk_Backend (mk_ResponseManager ∅ ∅)
             (mk_NBDProxy [] ∅ sample_tcp) (mk_World [] 0 [])) [NBDReadArgs 0 (mk_TaskArgs 4 2 None)] in
  exists fuel, let '(r, (m', b')) := run_alone fuel (Begin (NBDReadArgs 0 (mk_TaskArgs 4 2 None)))
      (manager s, backend s) in
    run_task 0 s = (match r with Ok _ => Ok tt | Throw e => Throw e | Undefined => Undefined | Blocked => Blocked end,
                    mk_Master m' b' (delete 0%nat (Master.m_queue s)))
    /\ match r with Ok c => finished_command c = true | _ => True end.
Proof. intros s. apply (command_alone 0 (NBDReadArgs 0 (mk_TaskArgs 4 2 None)) s). reflexivity. Defined.
