(* ===== verification/Locks.v ===== *)
(** * Locks

    Which mutexes the threads of the master and of a minion take, in which order,
    one inside the other: those of the proxies, the tickets, [ResponseManager],
    [NBDProxy], [MasterProxy], [FileManager], of the factories, of the queues of
    pool and logger, and that of the registry of [Handleton], whose [once_flag]s
    make threads wait like a mutex.  The order is the same everywhere, so that the
    threads cannot wait for each other in a circle.  System calls that are made
    under a mutex ([Receive], [SendTo]) return, and who waits for a condition
    variable has given its mutex back. *)

From S2P Require Import Prelude.

(** ** Mutexes and what is done with them *)

(** The classes whose objects the handlers get from the registry: the three
    factories make messages, task arguments and commands. *)
Inductive registered : Set :=
  | TheLogger | TheMessages | TheArguments | TheCommands | ThePool | TheManager | TheFile | TheMaster.

(** [DeletedMutex] is that of the queue of ended threads of the pool. *)
Inductive mutex : Set :=
  | ProxyMutex (i : nat)
  | TicketMutex (t : nat)
  | ResponseMutex
  | NBDMutex
  | MasterMutex
  | FileMutex
  | FactoryMutex (c : registered)
  | OnceFlag (c : registered)
  | HandletonMutex
  | QueueMutex
  | DeletedMutex
  | LogMutex.

#[export] Instance registered_eq_dec : EqDecision registered.
Proof. solve_decision. Defined.
#[export] Instance mutex_eq_dec : EqDecision mutex.
Proof. solve_decision. Defined.

Inductive lock_op : Set := Acquire (m : mutex) | Release (m : mutex).

#[export] Instance lock_op_eq_dec : EqDecision lock_op.
Proof. solve_decision. Defined.

(** A [unique_lock] and its scope. *)
Definition locked (m : mutex) (body : list lock_op) : list lock_op := Acquire m :: body ++ [Release m].

(** How handlers can go: the kernel's request; a datagram; a command, by the
    minions that it asks, the last of which may refuse. *)
Inductive request : Set := ReadRequest | WriteRequest | OtherRequest.

Inductive datagram : Set :=
  | Dropped
  | Unknown
  | Answered (t : nat) (result : option bool).

Inductive course : Set :=
  | Invalid
  | OutOfRange
  | Asked (minions : list nat) (refused : option nat).

(** ** The functions of the programs

    [first] says which calls of [GetInstance] find that the object of the class has
    to be created. *)

Section functions.
Variable first : registered -> bool.

(** Of the constructors only that of the pool takes a mutex: it looks for ended
    threads. *)
Definition constructor_locks (c : registered) : list lock_op :=
  match c with ThePool => locked DeletedMutex [] | _ => [] end.

Definition GetInstance_locks (c : registered) : list lock_op :=
  if first c then locked (OnceFlag c) (locked HandletonMutex (constructor_locks c)) else [].

Definition Log_locks : list lock_op := GetInstance_locks TheLogger ++ locked LogMutex [].

(** The creators that are registered take no mutex. *)
Definition Create_locks (c : registered) : list lock_op :=
  GetInstance_locks c ++ locked (FactoryMutex c) [].

Definition OnNBDResponse_locks : list lock_op := locked NBDMutex Log_locks.

(** A result for a request that is known, or not. *)
Definition OnTicketDone_locks (known : bool) : list lock_op :=
  locked ResponseMutex (Log_locks ++ if known then OnNBDResponse_locks else []).

(** An answer completes its ticket, or does not. *)
Definition OnMirrorResponse_locks (t : nat) (result : option bool) : list lock_op :=
  locked (TicketMutex t) match result with Some known => OnTicketDone_locks known | None => [] end.

Definition OnNewTask_locks : list lock_op := locked ResponseMutex [].

Definition OnTicketCreate_locks : list lock_op := locked ResponseMutex [].

(** Of [MinionProxy]: requests, and the three ways of a datagram. *)
Definition AddReadTask_locks (i : nat) : list lock_op := locked (ProxyMutex i) [] ++ Log_locks.

Definition AddWriteTask_locks (i : nat) : list lock_op := locked (ProxyMutex i) [].

Definition OnMinionFDWakeUp_locks (i : nat) (d : datagram) : list lock_op :=
  match d with
  | Dropped => locked (ProxyMutex i) Log_locks
  | Unknown => locked (ProxyMutex i) [] ++ Create_locks TheMessages ++ locked (ProxyMutex i) Log_locks
  | Answered t result =>
      locked (ProxyMutex i) [] ++ Create_locks TheMessages
      ++ locked (ProxyMutex i) (OnMirrorResponse_locks t result)
  end.

(** [NBDProxy::GetTaskArgs] for a request that becomes a task. *)
Definition GetTaskArgs_locks (write : bool) : list lock_op :=
  locked NBDMutex [] ++ (if write then locked NBDMutex [] else []) ++ Create_locks TheArguments
  ++ locked NBDMutex [] ++ OnNewTask_locks.

(** The lambda of the framework: a task is queued, or the warning logged. *)
Definition queue_locks : list lock_op := GetInstance_locks ThePool ++ locked QueueMutex [].

Definition on_input_locks (r : request) : list lock_op :=
  match r with
  | ReadRequest => GetTaskArgs_locks false ++ queue_locks
  | WriteRequest => GetTaskArgs_locks true ++ queue_locks
  | OtherRequest => locked NBDMutex [] ++ Log_locks ++ Log_locks
  end.

(** A thread of the pool: [Pop], [FW_TPTask::Run] and the command. *)
Definition command_locks (write : bool) (c : course) : list lock_op :=
  locked QueueMutex [] ++ Create_locks TheCommands ++
  match c with
  | Invalid => Log_locks
  | OutOfRange => GetInstance_locks TheManager ++ Log_locks
  | Asked minions refused =>
      GetInstance_locks TheManager ++ OnTicketCreate_locks
      ++ (minions ≫= fun i => if write then AddWriteTask_locks i else AddReadTask_locks i)
      ++ match refused with Some i => locked (ProxyMutex i) [] ++ Log_locks | None => [] end
  end.

(** A minion: [MasterProxy::GetTaskArgs] in the lambda of the framework, and the
    commands. *)
Definition minion_input_locks (dropped : bool) : list lock_op :=
  if dropped then locked MasterMutex Log_locks ++ Log_locks
  else locked MasterMutex [] ++ Create_locks TheMessages ++ Log_locks ++ Create_locks TheArguments ++ queue_locks.

Definition SendResponse_locks : list lock_op := locked MasterMutex [].

Definition minion_command_locks (valid throws : bool) : list lock_op :=
  locked QueueMutex [] ++ Create_locks TheCommands ++
  if valid then
    GetInstance_locks TheFile ++ locked FileMutex [] ++ GetInstance_locks TheMaster ++ SendResponse_locks
    ++ (if throws then Log_locks else [])
  else Log_locks.

(** A plugin that is loaded registers a command. *)
Definition SoMain_locks : list lock_op := GetInstance_locks TheCommands ++ locked (FactoryMutex TheCommands) [].

(** A round of the logger's thread; [IsEmpty] is asked once the logger stops. *)
Definition LoggerRun_locks (stopping : bool) : list lock_op :=
  (if stopping then locked LogMutex [] else []) ++ locked LogMutex [].
End functions.

(** What the threads of the programs do, again and again. *)
Inductive handler : list lock_op -> Prop :=
  | handle_input first r : handler (on_input_locks first r)
  | handle_command first write c : handler (command_locks first write c)
  | handle_datagram first i d : handler (OnMinionFDWakeUp_locks first i d)
  | handle_minion_input first dropped : handler (minion_input_locks first dropped)
  | handle_minion_command first valid throws : handler (minion_command_locks first valid throws)
  | handle_plugin first : handler (SoMain_locks first)
  | handle_log stopping : handler (LoggerRun_locks stopping).

(** ** Threads

    A thread: the mutexes that it holds, the latest first, and what it has still
    to do. *)

Definition thread : Type := list mutex * list lock_op.

Definition free (m : mutex) (s : list thread) : Prop := Forall (fun t => m ∉ t.1) s.

Inductive lstep : list thread -> list thread -> Prop :=
  | lstep_acquire s j held m rest :
      s !! j = Some (held, Acquire m :: rest) -> free m s -> lstep s (<[j := (m :: held, rest)]> s)
  | lstep_release s j held m rest :
      s !! j = Some (m :: held, Release m :: rest) -> lstep s (<[j := (held, rest)]> s).

Definition lsteps : list thread -> list thread -> Prop := rtc lstep.

Definition finished (t : thread) : Prop := t.2 = [].

#[export] Instance finished_dec t : Decision (finished t).
Proof. unfold finished. apply _. Defined.

(** ** The order *)

Definition rank (m : mutex) : nat :=
  match m with
  | ProxyMutex _ => 0
  | TicketMutex _ => 1
  | ResponseMutex => 2
  | NBDMutex | MasterMutex | FileMutex => 3
  | OnceFlag _ => 4
  | HandletonMutex => 5
  | FactoryMutex _ | QueueMutex | DeletedMutex | LogMutex => 6
  end.

(** A thread takes mutexes in the order, and releases the latest first. *)
Fixpoint ordered (held : list mutex) (l : list lock_op) : Prop :=
  match l with
  | [] => held = []
  | Acquire m :: l => Forall (fun h => rank h < rank m)%nat held /\ ordered (m :: held) l
  | Release m :: l => exists held', held = m :: held' /\ ordered held' l
  end.

(** A piece of code that leaves the mutexes that are held as they were. *)
Definition balanced (held : list mutex) (l : list lock_op) : Prop :=
  forall rest, ordered held rest -> ordered held (l ++ rest).

Lemma balanced_nil held : balanced held [].
Proof. by intros rest. Qed.

Lemma balanced_app held l1 l2 : balanced held l1 -> balanced held l2 -> balanced held (l1 ++ l2).
Proof. intros H1 H2 rest Hr. rewrite <-app_assoc. by apply H1, H2. Qed.

Lemma balanced_locked held m body :
  Forall (fun h => rank h < rank m)%nat held -> balanced (m :: held) body -> balanced held (locked m body).
Proof.
  intros Hm Hb rest Hr. unfold locked. cbn [app ordered]. split; [done|].
  rewrite <-app_assoc. apply Hb. cbn [app ordered]. by exists held.
Qed.

Lemma balanced_bind {A} held (f : A -> list lock_op) l :
  (forall x, balanced held (f x)) -> balanced held (l ≫= f).
Proof. intros Hf. induction l as [|x l IH]; [apply balanced_nil|by apply balanced_app]. Qed.

Lemma constructor_balanced held c :
  Forall (fun h => rank h < 6)%nat held -> balanced held (constructor_locks c).
Proof. intros Hh. destruct c; try apply balanced_nil. apply balanced_locked; [done|apply balanced_nil]. Qed.

(** The leaves: the registry, the log, the factories; whoever calls them holds
    mutexes of the objects at most. *)
Lemma GetInstance_balanced first held c :
  Forall (fun h => rank h < 4)%nat held -> balanced held (GetInstance_locks first c).
Proof.
  intros Hh. unfold GetInstance_locks. destruct (first c); [|apply balanced_nil].
  apply balanced_locked; [done|]. apply balanced_locked.
  - constructor; [cbn; lia|]. eapply Forall_impl; [exact Hh|]. cbn. lia.
  - apply constructor_balanced. repeat (constructor; [cbn; lia|]). eapply Forall_impl; [exact Hh|]. cbn. lia.
Qed.

Lemma leaf_balanced m held : rank m = 6%nat -> Forall (fun h => rank h < 4)%nat held -> balanced held (locked m []).
Proof.
  intros Hm Hh. apply balanced_locked; [|apply balanced_nil].
  rewrite Hm. eapply Forall_impl; [exact Hh|]. cbn. lia.
Qed.

Lemma Log_balanced first held : Forall (fun h => rank h < 4)%nat held -> balanced held (Log_locks first).
Proof.
  intros Hh. apply balanced_app; [by apply GetInstance_balanced|by apply leaf_balanced].
Qed.

Lemma Create_balanced first held c : Forall (fun h => rank h < 4)%nat held -> balanced held (Create_locks first c).
Proof.
  intros Hh. apply balanced_app; [by apply GetInstance_balanced|by apply leaf_balanced].
Qed.

(** One rule for each way in which a function is put together. *)
Ltac balance :=
  repeat first
    [ apply balanced_nil
    | apply GetInstance_balanced; by repeat constructor; cbn; lia
    | apply Log_balanced; by repeat constructor; cbn; lia
    | apply Create_balanced; by repeat constructor; cbn; lia
    | apply balanced_bind; intros ?
    | apply balanced_app
    | apply balanced_locked; [by repeat constructor; cbn; lia|]
    | match goal with
      | |- balanced _ (if ?b then _ else _) => destruct b
      | |- balanced _ (match ?x with Some _ => _ | None => _ end) => destruct x
      end ].

Lemma handler_balanced l : handler l -> balanced [] l.
Proof.
  destruct 1 as [first []|first write []|first i []|first dropped|first valid throws|first|stopping];
    unfold on_input_locks, GetTaskArgs_locks, queue_locks, OnNewTask_locks, command_locks, OnTicketCreate_locks,
      AddReadTask_locks, AddWriteTask_locks, OnMinionFDWakeUp_locks, OnMirrorResponse_locks, OnTicketDone_locks,
      OnNBDResponse_locks, minion_input_locks, minion_command_locks, SendResponse_locks, SoMain_locks,
      LoggerRun_locks; balance.
Qed.

(** ** Threads keep the order *)

Definition orderly (s : list thread) : Prop := Forall (fun t => ordered t.1 t.2) s.

(** Threads that run handlers one after the other. *)
Definition start (programs : list (list (list lock_op))) : list thread :=
  (fun hs => ([], concat hs)) <$> programs.

Lemma start_orderly programs : Forall (Forall handler) programs -> orderly (start programs).
Proof.
  intros Hp. apply Forall_fmap. eapply Forall_impl; [exact Hp|]. intros hs Hhs.
  cbn. induction Hhs as [|l hs Hl _ IH]; [done|]. cbn [concat]. by apply (handler_balanced l Hl).
Qed.

Lemma lstep_orderly s s' : orderly s -> lstep s s' -> orderly s'.
Proof.
  unfold orderly. intros Hs Hstep. destruct Hstep as [s j held m rest Hj _|s j held m rest Hj];
    (apply Forall_insert; [done|]); rewrite Forall_lookup in Hs; specialize (Hs j _ Hj); cbn in *.
  - apply Hs.
  - destruct Hs as (held' & [= <-] & Hs). exact Hs.
Qed.

Lemma lsteps_orderly s s' : orderly s -> lsteps s s' -> orderly s'.
Proof. intros Hs Hsteps. induction Hsteps; eauto using lstep_orderly. Qed.

#[local] Instance free_dec m s : Decision (free m s).
Proof. unfold free. apply _. Defined.

(** A mutex that is not free is held by a thread that has not finished. *)
Lemma not_free s m :
  orderly s -> ~ free m s -> exists k held rest, s !! k = Some (held, rest) /\ m ∈ held /\ rest <> [].
Proof.
  intros Hs Hfree. apply not_Forall_Exists in Hfree; [|intros t; apply _].
  apply Exists_exists in Hfree as ([held rest] & Hin & Hm). cbn in Hm.
  apply list_elem_of_lookup in Hin as [k Hk]. exists k, held, rest. split; [done|].
  destruct (decide (m ∈ held)) as [Hm'|]; [|done]. split; [done|]. intros ->.
  unfold orderly in Hs. rewrite Forall_lookup in Hs. specialize (Hs k _ Hk). cbn in Hs. subst held.
  by apply not_elem_of_nil in Hm'.
Qed.

(** Who waits for a mutex waits for a thread that is further on. *)
Lemma progress n s j held rest :
  orderly s -> s !! j = Some (held, rest) -> rest <> [] ->
  match rest with Acquire m :: _ => (6 <= rank m + n)%nat | _ => True end ->
  exists s', lstep s s'.
Proof.
  revert j held rest. induction n as [|n IH]; intros j held rest Hs Hj Hne Hn.
  all: destruct rest as [|[m|m] rest]; [done|..].
  2, 4: unfold orderly in Hs; rewrite Forall_lookup in Hs; specialize (Hs j _ Hj);
    destruct Hs as (held' & Hh & _); cbn in Hh; subst held; eexists; by eapply lstep_release.
  all: destruct (decide (free m s)) as [Hfree|Hfree]; [eexists; by eapply lstep_acquire|].
  all: destruct (not_free s m Hs Hfree) as (k & held2 & rest2 & Hk & Hm & Hne2).
  all: assert (Hord : ordered held2 rest2) by (unfold orderly in Hs; rewrite Forall_lookup in Hs; by apply (Hs k _ Hk)).
  - destruct rest2 as [|[m2|m2] rest2]; [done| |].
    + destruct Hord as [Hr _]. rewrite Forall_forall in Hr. specialize (Hr m Hm).
      assert (Hmax : (rank m2 <= 6)%nat) by (destruct m2; cbn; lia). cbv beta iota in Hn. lia.
    + destruct Hord as (held' & -> & _). eexists. by eapply lstep_release.
  - apply (IH k held2 rest2 Hs Hk Hne2). destruct rest2 as [|[m2|m2] rest2]; [done| |done].
    destruct Hord as [Hr _]. rewrite Forall_forall in Hr. specialize (Hr m Hm). cbv beta iota in Hn. lia.
Qed.

(** What is left to do. *)
Definition work (s : list thread) : nat := sum_list ((fun t => length t.2) <$> s).

Lemma work_insert s j t t' :
  s !! j = Some t -> (work (<[j := t']> s) + length t.2 = work s + length t'.2)%nat.
Proof. apply (sum_insert (fun t => length t.2)). Qed.

Lemma lstep_work s s' : lstep s s' -> S (work s') = work s.
Proof.
  destruct 1 as [s j held m rest Hj _|s j held m rest Hj];
    [pose proof (work_insert s j _ (m :: held, rest) Hj) as H|pose proof (work_insert s j _ (held, rest) Hj) as H];
    cbn in H; lia.
Qed.

(** ** Property *)

(** C17: no deadlock: threads of the programs that run their handlers, any number of
    each, one after the other, for any minions, tickets and outcomes, never wait
    for each other in a circle: in every state that they can reach all of them
    have finished and hold nothing, or one of them can go on; and every run ends
    after as many steps as there are locks to take and to give back. *)
Theorem no_deadlock (programs : list (list (list lock_op))) (s : list thread)
    (Hp : Forall (Forall handler) programs) (Hs : lsteps (start programs) s) :
  (Forall (fun t => t = ([], [])) s \/ exists s', lstep s s')
  /\ forall n s', nsteps lstep n s s' -> (n + work s' = work s)%nat.
Proof.
  pose proof (lsteps_orderly _ s (start_orderly programs Hp) Hs) as Hord. split.
  - destruct (decide (Forall finished s)) as [Hall|Hsome].
    + left. rewrite Forall_lookup in Hall |- *. unfold orderly in Hord. rewrite Forall_lookup in Hord.
      intros j [held rest] Hj. specialize (Hall j _ Hj). specialize (Hord j _ Hj). unfold finished in Hall.
      cbn in Hall. subst rest. cbn in Hord. by subst held.
    + right. apply not_Forall_Exists in Hsome; [|apply _].
      apply Exists_exists in Hsome as ([held rest] & Hin & Hne).
      apply list_elem_of_lookup in Hin as [j Hj]. apply (progress 6 s j held rest Hord Hj Hne).
      destruct rest as [|[m|m] rest]; [done| |done]. lia.
  - intros n s' Hn. clear Hs Hord. induction Hn as [|n s1 s2 s3 Hstep _ IH]; [done|].
    apply lstep_work in Hstep. lia.
Qed.

(** A thread that reads a write request, a thread of the pool with a command for
    two minions, and the thread of the answers with an answer that completes the
    ticket; the latter has begun and holds the mutex of the proxy. *)
Definition sample_programs : list (list (list lock_op)) :=
  [[on_input_locks (fun _ => true) WriteRequest];
   [command_locks (fun _ => false) true (Asked [0; 1]%nat None)];
   [OnMinionFDWakeUp_locks (fun _ => false) 0 (Answered 0 (Some true))]].

Lemma no_deadlock_witness :
  exists s, lsteps (start sample_programs) s /\ s <> start sample_programs
    /\ (Forall (fun t => t = ([], [])) s \/ exists s', lstep s s')
    /\ forall n s', nsteps lstep n s s' -> (n + work s' = work s)%nat.
Proof.
  set (s := <[2%nat := ([ProxyMutex 0], tail (concat [OnMinionFDWakeUp_locks (fun _ => false) 0 (Answered 0 (Some true))]))]>
              (start sample_programs)).
  assert (Hs : lsteps (start sample_programs) s).
  { apply rtc_once. unfold s. eapply lstep_acquire; [reflexivity|].
    unfold start, sample_programs, free. cbn [fmap list_fmap]. repeat constructor; apply not_elem_of_nil. }
  exists s. split; [exact Hs|]. split; [discriminate|].
  apply (no_deadlock sample_programs s); [|exact Hs].
  unfold sample_programs. repeat constructor.
Defined.
