(* ===== verification/Queues.v ===== *)
(** * Queues

    [framework/include/waitable_queue.hpp] from the inside: any number of threads that
    call the functions of a [WaitableQueue] or a [WaitablePQ], over its mutex and its
    condition variable.  The theorems justify what the other files assume: that
    each call is one step on the queue. *)

From S2P Require Import Prelude ThreadPool Shutdown.

(** ** The two queues

    They differ in the element that [Pop] takes. *)

Class Waitable (A : Type) : Type := {
  wq_pop : nat -> prog (list A) A;
  wq_pop_timeout : bool -> nat -> prog (list A) (option A);
}.

Class WaitableLaws (A : Type) (W : Waitable A) : Prop := {
  wq_pop_some q : q <> [] -> exists i x q', wq_pop i q = (Ok x, q');
  wq_pop_length i q x q' : wq_pop i q = (Ok x, q') -> length q = S (length q');
  wq_in_time i q x q' : wq_pop i q = (Ok x, q') -> wq_pop_timeout true i q = (Ok (Some x), q');
  wq_timed_out i q : wq_pop_timeout false i q = (Ok None, q);
}.

Definition fifo (A : Type) : Waitable A :=
  {| wq_pop _ := WaitableQueue.Pop; wq_pop_timeout b _ := WaitableQueue.Pop_timeout b |}.

Definition by_priority {A : Type} (lt : A -> A -> bool) : Waitable A :=
  {| wq_pop := WaitablePQ.Pop lt; wq_pop_timeout := WaitablePQ.Pop_timeout lt |}.

Lemma fifo_laws A : WaitableLaws A (fifo A).
Proof.
  constructor; cbn.
  - intros [|x q] Hq; [done|]. by exists 0%nat, x, q.
  - intros _ [|y q] x q' E; [done|]. by injection E as <- <-.
  - intros _ [|y q] x q' E; [done|]. by injection E as <- <-.
  - by intros _ [|x q].
Qed.

Lemma by_priority_laws {A} (lt : A -> A -> bool) :
  (forall a, lt a a = false) -> (forall a b c, lt a b = true -> lt b c = true -> lt a c = true) ->
  WaitableLaws A (by_priority lt).
Proof.
  intros Hirr Htrans. constructor; cbn.
  - intros q Hq. by apply (top_not_blocked lt).
  - intros i q x q' E. apply Pop_top in E as [Hp _]. by rewrite Hp.
  - intros i q x q' E. unfold WaitablePQ.Pop_timeout. rewrite bool_decide_false; [|by intros ->].
    cbn. run_prog. by rewrite E.
  - done.
Qed.

Section queue.
Context {A : Type} {W : Waitable A} {L : WaitableLaws A W}.

(** ** Threads *)

Inductive call : Type :=
  | CallPush (value : A)
  | CallPop (timed : bool)
  | CallIsEmpty.

Inductive result : Type :=
  | Pushed
  | Popped (output : A)
  | TimedOut
  | WasEmpty (b : bool).

(** Where a thread is: between two calls; in a call, with the mutex, in front of the
    push, of the test of the predicate, of [front] or [top], of [empty], of the end
    of the scope; without the mutex, in front of [notify_one], in the wait, and when
    the wait has ended. [late] tells that the time is over. *)
Inductive point : Type :=
  | Outside
  | Pushing (value : A)
  | Testing (timed late : bool)
  | Taking (timed : bool)
  | Looking
  | Leaving (r : result)
  | Notifying
  | Waiting (timed : bool)
  | Woken (timed late : bool).

Record thread : Type := mk_thread {
  at_point : point;
  todo : list call;
  results : list (call * result);
}.

(** [history] has the calls in the order in which they took effect. *)
Record system : Type := mk_system {
  queue : list A;
  m_mutex : option nat;
  threads : list thread;
  history : list (nat * (call * result));
}.

Definition set_queue (q : list A) (s : system) : system := mk_system q (m_mutex s) (threads s) (history s).
Definition set_thread (tid : nat) (t : thread) (s : system) : system :=
  mk_system (queue s) (m_mutex s) (<[tid := t]> (threads s)) (history s).

Definition goto (tid : nat) (pt : point) : prog system unit := fun s =>
  match threads s !! tid with
  | Some t => (Ok tt, set_thread tid (mk_thread pt (todo t) (results t)) s)
  | None => (Blocked, s)
  end.

Definition lock (tid : nat) : prog system unit := fun s =>
  match m_mutex s with
  | None => (Ok tt, mk_system (queue s) (Some tid) (threads s) (history s))
  | Some _ => (Blocked, s)
  end.

Definition unlock : prog system unit := modify (fun s => mk_system (queue s) None (threads s) (history s)).

(** The call takes effect; it returns. *)
Definition effect (tid : nat) (c : call) (r : result) : prog system unit :=
  modify (fun s => mk_system (queue s) (m_mutex s) (threads s) (history s ++ [(tid, (c, r))])).

Definition return_ (tid : nat) (c : call) (r : result) : prog system unit := fun s =>
  match threads s !! tid with
  | Some t => (Ok tt, set_thread tid (mk_thread Outside (tail (todo t)) (results t ++ [(c, r)])) s)
  | None => (Blocked, s)
  end.

Definition waits (t : thread) : bool := match at_point t with Waiting _ => true | _ => false end.

(** [notify_one]: one of the waiting threads, if there is one. *)
Definition notify_one (waiter : nat) : prog system unit := fun s =>
  if existsb waits (threads s) then
    match threads s !! waiter with
    | Some (mk_thread (Waiting timed) _ _) => goto waiter (Woken timed false) s
    | _ => (Blocked, s)
    end
  else (Ok tt, s).

(** The first step of a call, with the mutex. *)
Definition entry (c : call) : point :=
  match c with
  | CallPush v => Pushing v
  | CallPop timed => Testing timed false
  | CallIsEmpty => Looking
  end.

(** A thread goes on; [i] is the waiter that [notify_one] chooses, or the place of
    the element that is taken. *)
Definition go (tid i : nat) (c : call) (pt : point) : prog system unit :=
  match pt with
  | Outside => lock tid ;; goto tid (entry c)
  | Pushing v =>
      zoom queue set_queue (WaitableQueue.Push v) ;; effect tid c Pushed ;; unlock ;; goto tid Notifying
  | Notifying => notify_one i ;; return_ tid c Pushed
  | Testing timed late =>
      empty ← zoom queue set_queue WaitableQueue.IsEmpty;
      if negb empty : bool then goto tid (Taking timed)
      else if late then effect tid c TimedOut ;; goto tid (Leaving TimedOut)
      else unlock ;; goto tid (Waiting timed)
  | Taking timed =>
      x ← zoom queue set_queue (wq_pop i);
      effect tid c (Popped x) ;; goto tid (Leaving (Popped x))
  | Looking =>
      b ← zoom queue set_queue WaitableQueue.IsEmpty;
      effect tid c (WasEmpty b) ;; goto tid (Leaving (WasEmpty b))
  | Leaving r => unlock ;; return_ tid c r
  | Woken timed late => lock tid ;; goto tid (Testing timed late)
  | Waiting _ => lift Blocked
  end.

(** The time of a wait is over; a wait ends without a reason. *)
Inductive event : Set :=
  | Go (tid i : nat)
  | TimeOut (tid : nat)
  | Spurious (tid : nat).

Definition perform (x : event) : prog system unit := fun s =>
  match x with
  | Go tid i =>
      match threads s !! tid with
      | Some (mk_thread pt (c :: _) _) => go tid i c pt s
      | _ => (Blocked, s)
      end
  | TimeOut tid =>
      match threads s !! tid with
      | Some (mk_thread (Waiting true) _ _) => goto tid (Woken true true) s
      | _ => (Blocked, s)
      end
  | Spurious tid =>
      match threads s !! tid with
      | Some (mk_thread (Waiting timed) _ _) => goto tid (Woken timed false) s
      | _ => (Blocked, s)
      end
  end.

Definition start (programs : list (list call)) : system :=
  mk_system [] None ((fun l => mk_thread Outside l []) <$> programs) [].

(** ** The specification

    The calls, one after the other, as functions of the queue. *)

Definition does (c : call) (r : result) (q q' : list A) : Prop :=
  match c, r with
  | CallPush v, Pushed => WaitableQueue.Push v q = (Ok tt, q')
  | CallPop false, Popped x => exists i, wq_pop i q = (Ok x, q')
  | CallPop true, Popped x => exists i, wq_pop_timeout true i q = (Ok (Some x), q')
  | CallPop true, TimedOut => q = [] /\ exists i, wq_pop_timeout false i q = (Ok None, q')
  | CallIsEmpty, WasEmpty b => WaitableQueue.IsEmpty q = (Ok b, q')
  | _, _ => False
  end.

Inductive sequential : list (nat * (call * result)) -> list A -> Prop :=
  | sequential_nil : sequential [] []
  | sequential_snoc l tid c r q q' :
      sequential l q -> does c r q q' -> sequential (l ++ [(tid, (c, r))]) q'.

(** The calls of one thread. *)
Definition calls_of (tid : nat) (l : list (nat * (call * result))) : list (call * result) :=
  (filter (fun x => x.1 = tid) l).*2.

(** ** Steps

    What a thread does to itself, the queue and the mutex, and the calls that take
    effect. *)

Inductive change (tid : nat) :
    thread -> list A -> option nat -> thread -> list A -> option nat -> list (call * result) -> Prop :=
  | ch_enter c l rs q :
      change tid (mk_thread Outside (c :: l) rs) q None (mk_thread (entry c) (c :: l) rs) q (Some tid) []
  | ch_push v c l rs q m :
      change tid (mk_thread (Pushing v) (c :: l) rs) q m
        (mk_thread Notifying (c :: l) rs) (q ++ [v]) None [(c, Pushed)]
  | ch_notified c l rs q m :
      change tid (mk_thread Notifying (c :: l) rs) q m (mk_thread Outside l (rs ++ [(c, Pushed)])) q m []
  | ch_test_some timed late c l rs q m :
      q <> [] ->
      change tid (mk_thread (Testing timed late) (c :: l) rs) q m (mk_thread (Taking timed) (c :: l) rs) q m []
  | ch_test_late timed c l rs m :
      change tid (mk_thread (Testing timed true) (c :: l) rs) [] m
        (mk_thread (Leaving TimedOut) (c :: l) rs) [] m [(c, TimedOut)]
  | ch_test_wait timed c l rs m :
      change tid (mk_thread (Testing timed false) (c :: l) rs) [] m
        (mk_thread (Waiting timed) (c :: l) rs) [] None []
  | ch_take timed i x c l rs q q' m :
      wq_pop i q = (Ok x, q') ->
      change tid (mk_thread (Taking timed) (c :: l) rs) q m
        (mk_thread (Leaving (Popped x)) (c :: l) rs) q' m [(c, Popped x)]
  | ch_look c l rs q m :
      change tid (mk_thread Looking (c :: l) rs) q m
        (mk_thread (Leaving (WasEmpty (bool_decide (q = [])))) (c :: l) rs) q m
        [(c, WasEmpty (bool_decide (q = [])))]
  | ch_leave r c l rs q m :
      change tid (mk_thread (Leaving r) (c :: l) rs) q m (mk_thread Outside l (rs ++ [(c, r)])) q None []
  | ch_reacquire timed late c l rs q :
      change tid (mk_thread (Woken timed late) (c :: l) rs) q None
        (mk_thread (Testing timed late) (c :: l) rs) q (Some tid) []
  | ch_wake timed l rs q m :
      change tid (mk_thread (Waiting timed) l rs) q m (mk_thread (Woken timed false) l rs) q m []
  | ch_time_out l rs q m :
      change tid (mk_thread (Waiting true) l rs) q m (mk_thread (Woken true true) l rs) q m [].

Definition after (tid : nat) (t : thread) (q : list A) (m : option nat) (new : list (call * result)) (s : system)
    : system :=
  mk_system q m (<[tid := t]> (threads s)) (history s ++ ((fun x => (tid, x)) <$> new)).

(** One thread moves; a thread that notifies moves together with the one it wakes. *)
Definition single (x : event) (s s' : system) : Prop :=
  exists tid t t' q m new, threads s !! tid = Some t /\ change tid t (queue s) (m_mutex s) t' q m new
    /\ s' = after tid t' q m new s
    /\ (at_point t = Notifying -> existsb waits (threads s) = false)
    /\ (waits t = true -> at_point t' = Woken true true \/ x = Spurious tid).

Definition notified (s s' : system) : Prop :=
  exists tid w c l rs t tw, threads s !! tid = Some (mk_thread Notifying (c :: l) rs)
    /\ threads s !! w = Some t /\ waits t = true
    /\ change w t (queue s) (m_mutex s) tw (queue s) (m_mutex s) []
    /\ s' = after tid (mk_thread Outside l (rs ++ [(c, Pushed)])) (queue s) (m_mutex s) []
               (after w tw (queue s) (m_mutex s) [] s).

Lemma single_intro tid i pt c l rs q m ths h t' q' m' new s' :
  ths !! tid = Some (mk_thread pt (c :: l) rs) ->
  change tid (mk_thread pt (c :: l) rs) q m t' q' m' new ->
  (pt = Notifying -> existsb waits ths = false) -> (forall b, pt <> Waiting b) ->
  s' = mk_system q' m' (<[tid := t']> ths) (h ++ ((fun x => (tid, x)) <$> new)) ->
  single (Go tid i) (mk_system q m ths h) s'.
Proof.
  intros Ht Hc Hn Hw ->. exists tid, (mk_thread pt (c :: l) rs), t', q', m', new.
  split; [done|]. split; [exact Hc|]. split; [done|]. split; [done|].
  unfold waits. cbn. destruct pt; try done. by destruct (Hw timed).
Qed.

Ltac run_go := run_prog; cbn [queue m_mutex threads history set_queue set_thread todo results].

Lemma go_cases tid i pt c l rs q m ths h s' :
  ths !! tid = Some (mk_thread pt (c :: l) rs) -> go tid i c pt (mk_system q m ths h) = (Ok tt, s') ->
  single (Go tid i) (mk_system q m ths h) s' \/ notified (mk_system q m ths h) s'.
Proof.
  intros Ht E. pose proof (fun t' q' m' new => single_intro tid i pt c l rs q m ths h t' q' m' new s' Ht) as Hone.
  revert E. unfold go, lock, unlock, goto, effect, return_, notify_one, WaitableQueue.Push, WaitableQueue.IsEmpty.
  destruct pt; run_go.
  - destruct m; [done|]. run_go. rewrite Ht. intros [= <-]. left.
    eapply Hone; [constructor|done|done|by rewrite app_nil_r].
  - rewrite Ht. intros [= <-]. left. by eapply Hone; [constructor|..].
  - case_bool_decide as Hq; cbn [negb].
    + subst q. destruct late; run_go; rewrite Ht; intros [= <-]; left.
      * by eapply Hone; [constructor|..].
      * eapply Hone; [constructor|done|done|by rewrite app_nil_r].
    + run_go. rewrite Ht. intros [= <-]. left.
      eapply Hone; [by constructor|done|done|by rewrite app_nil_r].
  - destruct (wq_pop i q) as [[x|e| |] q'] eqn:Ep; try done. run_go. rewrite Ht. intros [= <-]. left.
    by eapply Hone; [by econstructor|..].
  - rewrite Ht. intros [= <-]. left. by eapply Hone; [constructor|..].
  - rewrite Ht. intros [= <-]. left. eapply Hone; [constructor|done|done|by rewrite app_nil_r].
  - destruct (existsb waits ths) eqn:Ew.
    + destruct (ths !! i) as [[[] lw rw]|] eqn:Ei; try done. unfold goto. cbn [threads]. rewrite Ei. run_go.
      assert (Hne : i <> tid) by (intros ->; congruence).
      rewrite list_lookup_insert_ne by done. rewrite Ht. intros [= <-]. right.
      eexists tid, i, c, l, rs, _, _. split; [exact Ht|]. split; [exact Ei|]. split; [done|].
      split; [constructor|]. unfold after. cbn [queue m_mutex threads history tail fmap list_fmap]. by rewrite !app_nil_r.
    + run_go. rewrite Ht. intros [= <-]. left. eapply Hone; [constructor|done|done|by rewrite app_nil_r].
  - done.
  - destruct m; [done|]. run_go. rewrite Ht. intros [= <-]. left.
    eapply Hone; [constructor|done|done|by rewrite app_nil_r].
Qed.

Lemma perform_moves x s s' : perform x s = (Ok tt, s') -> single x s s' \/ notified s s'.
Proof.
  destruct s as [q m ths h], x as [tid i|tid|tid]; unfold perform; cbn [threads];
    destruct (ths !! tid) as [[pt l rs]|] eqn:Et; try done.
  - destruct l as [|c l]; [done|]. intros E. by eapply go_cases.
  - destruct pt as [| | | | | | |[]|]; try done. unfold goto. cbn [threads]. rewrite Et. intros [= <-]. left.
    exists tid, (mk_thread (Waiting true) l rs), (mk_thread (Woken true true) l rs), q, m, [].
    split; [exact Et|]. split; [constructor|].
    split; [by unfold after; cbn; rewrite app_nil_r|]. split; [done|by left].
  - destruct pt as [| | | | | | |timed|]; try done. unfold goto. cbn [threads]. rewrite Et. intros [= <-]. left.
    exists tid, (mk_thread (Waiting timed) l rs), (mk_thread (Woken timed false) l rs), q, m, [].
    split; [exact Et|]. split; [constructor|].
    split; [by unfold after; cbn; rewrite app_nil_r|]. split; [done|by right].
Qed.

(** ** The invariant *)

Definition holds_lock (pt : point) : bool :=
  match pt with
  | Pushing _ | Testing _ _ | Taking _ | Looking | Leaving _ => true
  | _ => false
  end.

(** A thread in a call is where that call can be. *)
Definition agrees (t : thread) : Prop :=
  match at_point t, todo t with
  | Outside, _ => True
  | Pushing v, CallPush v' :: _ => v = v'
  | Notifying, CallPush _ :: _ => True
  | (Testing timed late | Woken timed late), CallPop timed' :: _ => timed = timed' /\ (late = true -> timed = true)
  | (Taking timed | Waiting timed), CallPop timed' :: _ => timed = timed'
  | Looking, CallIsEmpty :: _ => True
  | Leaving _, _ :: _ => True
  | _, _ => False
  end.

(** The call that took effect and has not returned. *)
Definition pending (t : thread) : list (call * result) :=
  match at_point t, todo t with
  | Notifying, c :: _ => [(c, Pushed)]
  | Leaving r, c :: _ => [(c, r)]
  | _, _ => []
  end.

Record thread_ok (programs : list (list call)) (s : system) (tid : nat) (t : thread) : Prop := {
  to_agrees : agrees t;
  to_lock : holds_lock (at_point t) = true <-> m_mutex s = Some tid;
  to_taking : forall timed, at_point t = Taking timed -> queue s <> [];
  to_program : programs !! tid = Some ((results t).*1 ++ todo t);
  to_history : calls_of tid (history s) = results t ++ pending t;
}.

Definition waiting (t : thread) : nat := if waits t then 1 else 0.

(** Threads that will look at the queue, or wake one that does. *)
Definition active (t : thread) : nat :=
  match at_point t with Testing _ _ | Taking _ | Woken _ _ | Notifying => 1 | _ => 0 end.

Definition total (f : thread -> nat) (s : system) : nat := sum_list (f <$> threads s).

Record queue_inv (programs : list (list call)) (s : system) : Prop := {
  qi_threads : forall tid t, threads s !! tid = Some t -> thread_ok programs s tid t;
  qi_mutex : forall tid, m_mutex s = Some tid -> is_Some (threads s !! tid);
  qi_history : sequential (history s) (queue s);
  qi_wakeup : total waiting s = 0%nat \/ (length (queue s) <= total active s)%nat;
}.

Lemma total_after f tid t t' q m new s :
  threads s !! tid = Some t ->
  (total f (after tid t' q m new s) + f t = total f s + f t')%nat.
Proof. intros Ht. unfold total, after. cbn [threads]. by apply sum_insert. Qed.

Lemma nobody_waits s : existsb waits (threads s) = false -> total waiting s = 0%nat.
Proof.
  unfold total. induction (threads s) as [|t l IH]; [done|]. cbn [existsb]. intros [Ht Hl]%orb_false_iff.
  change (waiting t + sum_list (waiting <$> l) = 0)%nat. unfold waiting at 1. rewrite Ht, IH; done.
Qed.

Lemma calls_of_after tid tid' t q m new s :
  calls_of tid' (history (after tid t q m new s))
  = calls_of tid' (history s) ++ (if decide (tid = tid') then new else []).
Proof.
  unfold calls_of, after. cbn [history]. rewrite filter_app, fmap_app. f_equal.
  case_decide as Hd.
  - subst tid'. induction new as [|x new IH]; [done|]. cbn [fmap list_fmap]. rewrite filter_cons_True by done.
    cbn [fmap list_fmap]. by f_equal.
  - induction new as [|x new IH]; [done|]. cbn [fmap list_fmap]. by rewrite filter_cons_False.
Qed.

(** *** One change *)

Lemma change_sequential tid t q m t' q' m' new h :
  change tid t q m t' q' m' new -> agrees t -> sequential h q -> sequential (h ++ ((fun x => (tid, x)) <$> new)) q'.
Proof.
  intros Hc Ha Hh. destruct Hc; cbn [fmap list_fmap]; rewrite ?app_nil_r; try done;
    eapply sequential_snoc; try exact Hh; unfold agrees in Ha; cbn in Ha; destruct c; try done.
  - by subst v.
  - destruct Ha as [<- Hl]. destruct timed; [|by specialize (Hl eq_refl)]. split; [done|].
    exists 0%nat. apply wq_timed_out.
  - subst timed. destruct timed0; exists i; [by apply wq_in_time|done].
Qed.

(** A thread that does not take the mutex or hold it leaves queue and mutex alone. *)
Lemma change_mutex tid t q m t' q' m' new :
  change tid t q m t' q' m' new ->
  (holds_lock (at_point t) = true <-> m = Some tid) ->
  (holds_lock (at_point t') = true <-> m' = Some tid)
  /\ (m' = m \/ m' = None /\ m = Some tid \/ m' = Some tid /\ m = None)
  /\ (q' = q \/ m = Some tid).
Proof.
  intros Hc Hl. destruct Hc; cbn [at_point holds_lock] in *; try (destruct c); naive_solver.
Qed.

Lemma change_self programs s tid t t' q m new :
  thread_ok programs s tid t -> change tid t (queue s) (m_mutex s) t' q m new ->
  thread_ok programs (after tid t' q m new s) tid t'.
Proof.
  intros [Ha Hl Ht Hp Hh] Hc. destruct (change_mutex _ _ _ _ _ _ _ _ Hc Hl) as (Hl' & _ & _).
  assert (Hcalls := calls_of_after tid tid t' q m new s). rewrite decide_True in Hcalls by done.
  rewrite Hh in Hcalls. constructor; [|exact Hl'| | |rewrite Hcalls].
  - clear -Ha Hc. destruct Hc; unfold agrees in *; cbn in *; try (destruct c); try done;
      try (destruct l as [|[] l]); naive_solver.
  - intros timed E. unfold after. cbn [queue]. destruct Hc; cbn in *; try done. by destruct c.
  - rewrite Hp. destruct Hc; cbn [todo results]; try done; by rewrite fmap_app, <-app_assoc.
  - destruct Hc; try (destruct c); cbn [entry todo results pending at_point]; by rewrite ?app_nil_r.
Qed.

Lemma change_other programs s tid tid' t u t' q m new :
  thread_ok programs s tid t -> change tid t (queue s) (m_mutex s) t' q m new ->
  tid <> tid' -> thread_ok programs s tid' u -> thread_ok programs (after tid t' q m new s) tid' u.
Proof.
  intros [_ Hl _ _ _] Hc Hne [Ha Hl' Ht Hp Hh]. destruct (change_mutex _ _ _ _ _ _ _ _ Hc Hl) as (_ & Hm & Hq).
  constructor; [done| | |done|].
  - unfold after. cbn [m_mutex]. rewrite Hl'. naive_solver.
  - intros timed E. unfold after. cbn [queue]. destruct Hq as [->|Hq]; [by eapply Ht|].
    rewrite E in Hl'. cbn in Hl'. naive_solver.
  - rewrite calls_of_after, decide_False by done. by rewrite app_nil_r.
Qed.

Lemma change_threads programs s tid t t' q m new :
  (forall tid t, threads s !! tid = Some t -> thread_ok programs s tid t) ->
  threads s !! tid = Some t -> change tid t (queue s) (m_mutex s) t' q m new ->
  forall tid' u, threads (after tid t' q m new s) !! tid' = Some u ->
    thread_ok programs (after tid t' q m new s) tid' u.
Proof.
  intros Hall Ht Hc tid' u Hu. pose proof (Hall tid t Ht) as Hok. unfold after in Hu. cbn [threads] in Hu.
  destruct (decide (tid = tid')) as [<-|Hne].
  - rewrite list_lookup_insert_eq in Hu by (by eapply lookup_lt_Some). injection Hu as <-. by eapply change_self.
  - rewrite list_lookup_insert_ne in Hu by done. eapply change_other; eauto.
Qed.

Lemma change_owner s tid t t' q m new :
  (forall tid, m_mutex s = Some tid -> is_Some (threads s !! tid)) ->
  threads s !! tid = Some t -> change tid t (queue s) (m_mutex s) t' q m new ->
  forall tid', m_mutex (after tid t' q m new s) = Some tid' -> is_Some (threads (after tid t' q m new s) !! tid').
Proof.
  intros Hall Ht Hc tid' Hm. unfold after in *. cbn [m_mutex threads] in *.
  assert (is_Some (threads s !! tid')) as [u Hu].
  { destruct Hc; try (by apply Hall); try done; injection Hm as <-; by eexists. }
  apply lookup_lt_is_Some. rewrite length_insert. by eapply lookup_lt_Some.
Qed.

Lemma change_wakeup s tid t t' q m new :
  threads s !! tid = Some t -> change tid t (queue s) (m_mutex s) t' q m new ->
  (at_point t = Notifying -> total waiting s = 0%nat) ->
  total waiting s = 0%nat \/ (length (queue s) <= total active s)%nat ->
  total waiting (after tid t' q m new s) = 0%nat
  \/ (length (queue (after tid t' q m new s)) <= total active (after tid t' q m new s))%nat.
Proof.
  intros Ht Hc Hn Hw. pose proof (total_after waiting tid t t' q m new s Ht) as HW.
  pose proof (total_after active tid t t' q m new s Ht) as HN.
  unfold after at 2. cbn [queue].
  set (W' := total waiting (after _ _ _ _ _ _)) in *. set (N' := total active (after _ _ _ _ _ _)) in *.
  set (W0 := total waiting s) in *. set (N0 := total active s) in *. clearbody W' N' W0 N0.
  set (qs := queue s) in *. clearbody qs. destruct Hc; unfold waiting, waits, active in HW, HN; cbn [at_point] in *;
    try (destruct c); cbn [entry] in *; rewrite ?length_app; cbn [length] in *; try lia.
  all: first [specialize (Hn eq_refl)|match goal with E : wq_pop _ _ = _ |- _ => apply wq_pop_length in E end]; lia.
Qed.

Lemma perform_queue_inv programs x s s' : queue_inv programs s -> perform x s = (Ok tt, s') -> queue_inv programs s'.
Proof.
  intros [Hth Hmu Hh Hw] E. apply perform_moves in E
    as [(tid & t & t' & q & m & new & Ht & Hc & -> & Hn & _)
       |(tid & w & c & l & rs & t & tw & Ht & Hu & Hwt & Hcw & ->)].
  - constructor.
    + by eapply change_threads.
    + by eapply change_owner.
    + eapply change_sequential; [exact Hc|apply (to_agrees _ _ _ _ (Hth tid t Ht))|exact Hh].
    + eapply change_wakeup; [done..| |done]. intros Hnot. by apply nobody_waits, Hn.
  - set (s1 := after w tw (queue s) (m_mutex s) [] s).
    assert (Hne : w <> tid) by (intros ->; rewrite Ht in Hu; by injection Hu as <-).
    assert (Ht1 : threads s1 !! tid = Some (mk_thread Notifying (c :: l) rs))
      by (unfold s1, after; cbn [threads]; by rewrite list_lookup_insert_ne).
    assert (Hc1 : change tid (mk_thread Notifying (c :: l) rs) (queue s1) (m_mutex s1)
      (mk_thread Outside l (rs ++ [(c, Pushed)])) (queue s) (m_mutex s) []) by constructor.
    assert (Hth1 := change_threads programs s w t tw _ _ [] Hth Hu Hcw).
    assert (Hmu1 := change_owner s w t tw _ _ [] Hmu Hu Hcw).
    constructor.
    + by eapply (change_threads programs s1).
    + by eapply (change_owner s1).
    + unfold s1, after. cbn [history queue fmap list_fmap]. by rewrite !app_nil_r.
    + pose proof (total_after waiting tid _ (mk_thread Outside l (rs ++ [(c, Pushed)])) (queue s) (m_mutex s) [] s1 Ht1) as HW1.
      pose proof (total_after active tid _ (mk_thread Outside l (rs ++ [(c, Pushed)])) (queue s) (m_mutex s) [] s1 Ht1) as HN1.
      pose proof (total_after waiting w t tw (queue s) (m_mutex s) [] s Hu) as HW.
      pose proof (total_after active w t tw (queue s) (m_mutex s) [] s Hu) as HN. fold s1 in HW, HN.
      unfold after at 2. cbn [queue].
      set (W2 := total waiting (after _ _ _ _ _ _)) in *. set (N2 := total active (after _ _ _ _ _ _)) in *.
      set (W3 := total waiting s1) in *. set (N3 := total active s1) in *. clearbody W2 N2 W3 N3 s1.
      set (W0 := total waiting s) in *. set (N0 := total active s) in *. clearbody W0 N0.
      destruct Hcw; try done; unfold waiting, waits, active in HW, HN, HW1, HN1; cbn [at_point] in *; lia.
Qed.

(** ** Every schedule ends

    A bound on the steps that a thread has left, if its waits do not end without
    a reason. *)

Definition cost (c : call) : nat :=
  match c with CallPush _ => 5 | CallPop timed => if timed then 7 else 4 | CallIsEmpty => 3 end.

Definition point_left (pt : point) : nat :=
  match pt with
  | Outside => 0
  | Pushing _ => 4
  | Testing timed late => if late then 3 else if timed then 6 else 3
  | Taking _ => 2
  | Looking => 2
  | Leaving _ => 1
  | Notifying => 3
  | Waiting timed => if timed then 5 else 2
  | Woken timed late => if late then 4 else if timed then 7 else 4
  end.

Definition left_over (t : thread) : nat :=
  match at_point t with
  | Outside => sum_list (cost <$> todo t)
  | pt => point_left pt + sum_list (cost <$> tail (todo t))
  end.

Definition spurious (x : event) : nat := match x with Spurious _ => 1 | _ => 0 end.

Lemma change_left tid t q m t' q' m' new :
  change tid t q m t' q' m' new ->
  (left_over t' <= left_over t + 2)%nat
  /\ (waits t = false \/ at_point t' = Woken true true -> (left_over t' + 1 <= left_over t)%nat).
Proof.
  intros Hc. destruct Hc; try (destruct c); unfold left_over, waits;
    cbn [at_point todo tail entry point_left cost fmap list_fmap];
    try change (sum_list (?x :: ?l)) with (x + sum_list l)%nat;
    repeat match goal with |- context [sum_list ?l] => generalize (sum_list l); intros end;
    repeat match goal with b : bool |- _ => destruct b end; split; try lia; intros [?|?]; try done; lia.
Qed.

Lemma perform_left x s s' :
  perform x s = (Ok tt, s') -> (1 + total left_over s' <= total left_over s + 3 * spurious x)%nat.
Proof.
  intros E. apply perform_moves in E
    as [(tid & t & t' & q & m & new & Ht & Hc & -> & _ & Hw)
       |(tid & w & c & l & rs & t & tw & Ht & Hu & Hwt & Hcw & ->)].
  - pose proof (total_after left_over tid t t' q m new s Ht) as HL.
    destruct (change_left _ _ _ _ _ _ _ _ Hc) as [H1 H2]. destruct (waits t) eqn:Ewt.
    + destruct (Hw eq_refl) as [Ht'| ->]; [specialize (H2 (or_intror Ht')); lia|cbn [spurious]; lia].
    + specialize (H2 (or_introl eq_refl)). lia.
  - set (s1 := after w tw (queue s) (m_mutex s) [] s).
    assert (Hne : w <> tid) by (intros ->; rewrite Ht in Hu; by injection Hu as <-).
    assert (Ht1 : threads s1 !! tid = Some (mk_thread Notifying (c :: l) rs))
      by (unfold s1, after; cbn [threads]; by rewrite list_lookup_insert_ne).
    pose proof (total_after left_over tid _ (mk_thread Outside l (rs ++ [(c, Pushed)])) (queue s) (m_mutex s) [] s1 Ht1) as HL1.
    pose proof (total_after left_over w t tw (queue s) (m_mutex s) [] s Hu) as HL. fold s1 in HL.
    destruct (change_left _ _ _ _ _ _ _ _ Hcw) as [H1 _].
    assert (left_over (mk_thread Notifying (c :: l) rs) = (3 + left_over (mk_thread Outside l (rs ++ [(c, Pushed)])))%nat)
      as E3 by done.
    lia.
Qed.

(** ** When no thread can go on *)

(** Nothing can happen, but waits that end without a reason. *)
Definition stuck (s : system) : Prop :=
  forall x s', spurious x = 0%nat -> perform x s <> (Ok tt, s').

Definition can_go (s : system) (pt : point) : Prop :=
  match pt with
  | Outside | Woken _ _ => m_mutex s = None
  | Taking _ => queue s <> []
  | Waiting _ => False
  | _ => True
  end.

Lemma go_possible s tid pt c l rs :
  threads s !! tid = Some (mk_thread pt (c :: l) rs) -> can_go s pt -> exists i s', go tid i c pt s = (Ok tt, s').
Proof.
  destruct s as [q m ths h]. cbn [threads]. intros Ht Hgo.
  unfold go, lock, unlock, goto, effect, return_, WaitableQueue.Push, WaitableQueue.IsEmpty.
  destruct pt; cbn [can_go queue m_mutex] in Hgo; run_go; try (subst m; run_go); try done.
  - rewrite Ht. by exists 0%nat, (set_thread tid (mk_thread (entry c) (c :: l) rs) (mk_system q (Some tid) ths h)).
  - exists 0%nat. rewrite Ht. by eexists.
  - exists 0%nat. case_bool_decide; cbn [negb]; [destruct late|]; run_go; rewrite Ht; by eexists.
  - destruct (wq_pop_some q Hgo) as (i & x & q' & E). exists i. rewrite E. run_go. rewrite Ht. by eexists.
  - exists 0%nat. rewrite Ht. by eexists.
  - exists 0%nat. rewrite Ht. by eexists.
  - unfold notify_one. cbn [threads]. destruct (existsb waits ths) eqn:Ew.
    + apply existsb_exists in Ew as (u & Hu & Hwu). apply list_elem_of_In, list_elem_of_lookup in Hu as [w Hu].
      exists w. rewrite Hu. destruct u as [[] lu ru]; try done. unfold goto. cbn [threads]. rewrite Hu. run_go.
      assert (w <> tid) by (intros ->; congruence).
      rewrite list_lookup_insert_ne by done. rewrite Ht. by eexists.
    + exists 0%nat. cbn [threads]. rewrite Ht. by eexists.
  - exists 0%nat. rewrite Ht. by eexists.
Qed.

Lemma stuck_cannot s tid pt c l rs :
  stuck s -> threads s !! tid = Some (mk_thread pt (c :: l) rs) -> ~ can_go s pt.
Proof.
  intros Hstuck Ht Hgo. destruct (go_possible s tid pt c l rs Ht Hgo) as (i & s' & E).
  apply (Hstuck (Go tid i) s' eq_refl). unfold perform. by rewrite Ht.
Qed.

Lemma stuck_mutex programs s : queue_inv programs s -> stuck s -> m_mutex s = None.
Proof.
  intros [Hth Hmu _ _] Hstuck. destruct (m_mutex s) as [h|] eqn:Em; [exfalso|done].
  destruct (Hmu h eq_refl) as [[pt l rs] Ht]. destruct (Hth h _ Ht) as [Ha Hl Htake _ _].
  apply Hl in Em. unfold agrees in Ha. cbn [at_point todo] in *.
  destruct l as [|c l]; [by destruct pt|]. apply (stuck_cannot s h pt c l rs Hstuck Ht).
  destruct pt; try done. by apply (Htake timed).
Qed.

(** A thread of a stuck system has ended, or it waits in a [Pop] without a timeout. *)
Definition ended (t : thread) : Prop := at_point t = Outside /\ todo t = [].
Definition hangs (t : thread) : Prop := at_point t = Waiting false.

Lemma stuck_ended programs s tid t :
  queue_inv programs s -> stuck s -> threads s !! tid = Some t -> ended t \/ hangs t.
Proof.
  intros Hinv Hstuck Ht. pose proof (stuck_mutex programs s Hinv Hstuck) as Em.
  destruct (qi_threads _ _ Hinv tid t Ht) as [Ha Hl _ _ _]. destruct t as [pt l rs].
  unfold agrees, ended, hangs in *. cbn [at_point todo] in *.
  destruct l as [|c l]; [left; by destruct pt|].
  pose proof (stuck_cannot s tid pt c l rs Hstuck Ht) as Hno. rewrite Em in Hl.
  destruct pt as [| | | | | | |[]|]; cbn [can_go holds_lock] in *; try done; try (by destruct Hl as [Hl _]; specialize (Hl eq_refl)).
  - exfalso. apply (Hstuck (TimeOut tid) (set_thread tid (mk_thread (Woken true true) (c :: l) rs) s) eq_refl).
    unfold perform. rewrite Ht. unfold goto. by rewrite Ht.
  - by right.
Qed.

Lemma stuck_empty programs s tid t :
  queue_inv programs s -> stuck s -> threads s !! tid = Some t -> hangs t -> queue s = [].
Proof.
  intros Hinv Hstuck Ht Hh. destruct (qi_wakeup _ _ Hinv) as [Hw|Hw].
  - exfalso. pose proof (total_after waiting tid t (mk_thread Outside [] []) (queue s) None [] s Ht) as HW.
    assert (waiting t = 1%nat) by (unfold waiting, waits; by rewrite Hh). unfold waiting at 4 in HW. cbn in HW. lia.
  - assert (Hz : total active s = 0%nat); [|apply nil_length_inv; lia].
    unfold total. assert (Hall : forall u, u ∈ threads s -> active u = 0%nat).
    { intros u Hu. apply list_elem_of_lookup in Hu as [i Hi]. unfold active.
      destruct (stuck_ended programs s i u Hinv Hstuck Hi) as [[-> _]| ->]; done. }
    revert Hall. generalize (threads s). clear. intros l Hall. induction l as [|u l IH]; [done|].
    change (active u + sum_list (active <$> l) = 0)%nat. rewrite (Hall u), IH by set_solver. done.
Qed.

(** ** Runs *)

Definition run (l : list event) : prog system unit := for_each perform l.

Definition all_spurious (l : list event) : nat := sum_list (spurious <$> l).

Lemma run_queue_inv programs l s s' :
  queue_inv programs s -> run l s = (Ok tt, s') ->
  queue_inv programs s' /\ (length l + total left_over s' <= total left_over s + 3 * all_spurious l)%nat.
Proof.
  unfold run, all_spurious. revert s. induction l as [|x l IH]; intros s Hinv E; [injection E as <-; split; [done|cbn; lia]|].
  cbn [for_each] in E. apply bind_ok_inv in E as ([] & s1 & E1 & E).
  pose proof (perform_left x s s1 E1) as H1. pose proof (perform_queue_inv programs x s s1 Hinv E1) as Hinv1.
  destruct (IH s1 Hinv1 E) as [Hinv' H2]. split; [done|].
  change (sum_list (spurious <$> x :: l)) with (spurious x + sum_list (spurious <$> l))%nat. cbn [length]. lia.
Qed.

Lemma start_queue_inv programs : queue_inv programs (start programs).
Proof.
  constructor; cbn [start threads m_mutex history queue].
  - intros tid t Ht. rewrite list_lookup_fmap in Ht. apply fmap_Some in Ht as (l & Hl & ->). by constructor.
  - done.
  - constructor.
  - left. unfold total. cbn [start threads]. induction programs as [|l ps IH]; [done|]. exact IH.
Qed.

Lemma start_left programs : total left_over (start programs) = sum_list ((fun l => sum_list (cost <$> l)) <$> programs).
Proof. unfold total. cbn [start threads]. rewrite <-list_fmap_compose. done. Qed.

(** ** Properties *)

(** C25: the queues behave as if every call were one step: in every interleaving of any
    threads, with spurious wakeups and timeouts, the calls that have taken effect
    are in some order a sequential run that ends with the present queue, and each
    thread got from the calls of its program, in their order, the results of that
    run; only its last call may have taken effect and not have returned. *)
Theorem queue_linearizable (programs : list (list call)) (l : list event) (s : system)
    (Hrun : run l (start programs) = (Ok tt, s)) :
  sequential (history s) (queue s)
  /\ forall tid t, threads s !! tid = Some t ->
       programs !! tid = Some ((results t).*1 ++ todo t)
       /\ exists new, calls_of tid (history s) = results t ++ new /\ (length new <= 1)%nat.
Proof.
  destruct (run_queue_inv programs l _ s (start_queue_inv programs) Hrun) as [Hinv _]. split; [apply Hinv|].
  intros tid t Ht. destruct (qi_threads _ _ Hinv tid t Ht) as [_ _ _ Hp Hh]. split; [done|].
  exists (pending t). split; [done|]. unfold pending. destruct (at_point t), (todo t); cbn; lia.
Qed.

(** C26: no wakeup is lost, although [notify_one] is called without the mutex: every
    interleaving ends, after a number of steps that only spurious wakeups can
    raise, and when no thread can go on the threads have ended, or those that have
    not wait in a [Pop] without a timeout while the queue is empty. *)
Theorem no_lost_wakeup (programs : list (list call)) (l : list event) (s : system)
    (Hrun : run l (start programs) = (Ok tt, s)) :
  (length l <= sum_list ((fun p => sum_list (cost <$> p)) <$> programs) + 3 * all_spurious l)%nat
  /\ (stuck s -> Forall (fun t => ended t \/ hangs t) (threads s)
        /\ (Forall ended (threads s) \/ queue s = [])).
Proof.
  destruct (run_queue_inv programs l _ s (start_queue_inv programs) Hrun) as [Hinv Hlen]. rewrite start_left in Hlen.
  split; [lia|]. intros Hstuck.
  assert (Hall : Forall (fun t => ended t \/ hangs t) (threads s)).
  { apply Forall_lookup. intros tid t Ht. by eapply stuck_ended. }
  split; [done|]. destruct (queue s) as [|x q] eqn:Eq; [by right|left].
  apply Forall_lookup. intros tid t Ht. rewrite Forall_lookup in Hall.
  destruct (Hall tid t Ht) as [|Hh]; [done|]. pose proof (stuck_empty programs s tid t Hinv Hstuck Ht Hh). congruence.
Qed.
End queue.

(** The queue of the tasks of a pool. *)
Lemma pool_queue_laws T : WaitableLaws (TPTask T) (by_priority TPTask_lt).
Proof. destruct (TPTask_lt_strict_weak (T := T)) as (Hirr & Htrans & _). by apply by_priority_laws. Qed.

(** A thread waits in [Pop], another pushes and wakes it; the first is woken by
    chance before that, and waits again. *)
Definition sample_programs : list (list (call (A := nat))) := [[CallPop false]; [CallPush 7%nat; CallIsEmpty]].

Definition sample_run : list event :=
  [Go 0 0; Go 0 0; Spurious 0; Go 0 0; Go 0 0; Go 1 0; Go 1 0; Go 1 0; Go 0 0; Go 0 0; Go 0 0; Go 0 0;
   Go 1 0; Go 1 0; Go 1 0].

Lemma queue_linearizable_witness :
  exists s, run (W := fifo nat) sample_run (start sample_programs) = (Ok tt, s)
    /\ sequential (W := fifo nat) (history s) (queue s)
    /\ forall tid t, threads s !! tid = Some t ->
         sample_programs !! tid = Some ((results t).*1 ++ todo t)
         /\ exists new, calls_of tid (history s) = results t ++ new /\ (length new <= 1)%nat.
Proof.
  eexists. split; [vm_compute; reflexivity|].
  apply (queue_linearizable (W := fifo nat) (L := fifo_laws nat) sample_programs sample_run). vm_compute. reflexivity.
Defined.

Lemma no_lost_wakeup_witness :
  exists s, run (W := fifo nat) sample_run (start sample_programs) = (Ok tt, s)
    /\ (length sample_run <= sum_list ((fun p => sum_list (cost <$> p)) <$> sample_programs)
          + 3 * all_spurious sample_run)%nat
    /\ (stuck (W := fifo nat) s -> Forall (fun t => ended t \/ hangs t) (threads s)
          /\ (Forall ended (threads s) \/ queue s = [])).
Proof.
  eexists. split; [vm_compute; reflexivity|].
  apply (no_lost_wakeup (W := fifo nat) (L := fifo_laws nat) sample_programs sample_run). vm_compute. reflexivity.
Defined.
