(* ===== verification/TestLogger.v ===== *)
(** * TestLogger

    [framework/test/test_logger.cpp]: two threads that log, as steps of the threads
    of the program; the lines of the log are in an order that is not fixed. *)

From S2P Require Import Prelude Logger ThreadPool LoggerThread.

(** Two threads log ten messages each, with [DEBUG] and with [ERROR]; [main] joins
    them, and the logger is destroyed at the end of the program. *)

Definition first_text : string := "This is a test, can u handle it?".
Definition second_text : string := "This is a test, u cant handle it".

(** What both threads have still to log, the messages logged, and the logger. *)
Definition logger_test : Type := nat * nat * (list Message * Logger).

Definition logger_test_start : logger_test := (10, 10, ([], new_Logger))%nat.

Section logger.
Context (localtime : Z -> tm).

(** The destructor starts when both threads have been joined. *)
Inductive logger_step : logger_test -> logger_test -> Prop :=
  | ThreadFunc1 now n1 n2 h l l' :
      Log first_text DEBUG now l = (Ok tt, l') ->
      logger_step (S n1, n2, (h, l)) (n1, n2, (h ++ [mk_Message now first_text DEBUG], l'))
  | ThreadFunc2 now n1 n2 h l l' :
      Log second_text ERROR now l = (Ok tt, l') ->
      logger_step (n1, S n2, (h, l)) (n1, n2, (h ++ [mk_Message now second_text ERROR], l'))
  | LoggerThread_step n1 n2 h l l' :
      LoggerRun_step localtime l = (Ok tt, l') -> logger_step (n1, n2, (h, l)) (n1, n2, (h, l'))
  | Logger_destructor now h l l' :
      destructor_step now l = (Ok tt, l') ->
      logger_step (0, 0, (h, l))%nat
        (0, 0, (if decide (m_destructor l' = Pushed) then h ++ [shutdown now] else h, l'))%nat.

Definition texts (t : string) (h : list Message) : nat := length (filter (fun m => text m = t) h).

Lemma texts_app t h1 h2 : texts t (h1 ++ h2) = (texts t h1 + texts t h2)%nat.
Proof. unfold texts. by rewrite filter_app, length_app. Qed.

Lemma texts_one t m : texts t [m] = if decide (text m = t) then 1%nat else 0%nat.
Proof. unfold texts. rewrite filter_cons. by case_decide. Qed.

(** While the threads run the destructor was not called; what was logged are the
    messages of the threads, and the shutdown message behind them. *)
Record logger_inv (s : logger_test) : Prop := {
  li_order : in_order localtime s.2;
  li_first : (texts first_text s.2.1 + s.1.1 = 10)%nat;
  li_second : (texts second_text s.2.1 + s.1.2 = 10)%nat;
  li_shutdown : if decide (m_destructor s.2.2 = NotCalled) then (length s.2.1 + s.1.1 + s.1.2 = 20)%nat
    else s.1 = (0, 0)%nat /\ exists h now, s.2.1 = h ++ [shutdown now] /\ length h = 20%nat;
}.

(** A message of one of the threads. *)
Lemma logger_inv_log n1 n2 n1' n2' h l l' m s :
  logger_inv (n1, n2, (h, l)) -> (n1 = S n1' /\ n2 = n2' /\ text m = first_text
    \/ n1 = n1' /\ n2 = S n2' /\ text m = second_text) ->
  sev m = s -> Log (text m) s (time_created m) l = (Ok tt, l') ->
  logger_inv (n1', n2', (h ++ [m], l')).
Proof.
  intros [Ho H1 H2 Hd] Hm Hsev E. cbn [fst snd] in *. subst s.
  destruct (decide (m_destructor l = NotCalled)) as [Hnot|]; [|destruct Hd as [[= -> ->] _]; naive_solver].
  assert (Hd' : m_destructor l' = NotCalled) by (injection E as <-; done).
  constructor; cbn [fst snd].
  - eapply in_order_step; [exact Ho|]. destruct m as [now text sev]. by apply lstep_log.
  - rewrite texts_app. destruct Hm as [(-> & -> & Ht)|(-> & -> & Ht)];
      rewrite texts_one, Ht; case_decide as Heq; first [discriminate Heq|by destruct Heq|lia].
  - rewrite texts_app. destruct Hm as [(-> & -> & Ht)|(-> & -> & Ht)];
      rewrite texts_one, Ht; case_decide as Heq; first [discriminate Heq|by destruct Heq|lia].
  - rewrite decide_True by done. rewrite length_app. cbn. destruct Hm as [(-> & -> & _)|(-> & -> & _)]; lia.
Qed.

Lemma logger_inv_step s s' : logger_inv s -> logger_step s s' -> logger_inv s'.
Proof.
  intros Hs Hstep. destruct Hstep as [now n1 n2 h l l' E|now n1 n2 h l l' E|n1 n2 h l l' E|now h l l' E].
  - eapply (logger_inv_log _ _ _ _ _ _ _ (mk_Message now first_text DEBUG)); [exact Hs|by left|done|exact E].
  - eapply (logger_inv_log _ _ _ _ _ _ _ (mk_Message now second_text ERROR)); [exact Hs|by right|done|exact E].
  - destruct Hs as [Ho H1 H2 Hd]. cbn [fst snd] in *.
    assert (Hd' : m_destructor l' = m_destructor l).
    { revert E. unfold LoggerRun_step. destruct (m_thread l); try (by intros [= <-]).
      destruct (WaitableQueue.Pop _) as [[]]; try done. by intros [= <-]. }
    constructor; cbn [fst snd]; [|done|done|by rewrite Hd'].
    eapply in_order_step; [exact Ho|]. by apply lstep_worker.
  - destruct Hs as [Ho H1 H2 Hd]. cbn [fst snd] in *.
    assert (Ho' : in_order localtime (if decide (m_destructor l' = Pushed) then h ++ [shutdown now] else h, l'))
      by (eapply in_order_step; [exact Ho|by apply lstep_destructor]).
    unfold destructor_step in E. destruct (m_destructor l) eqn:El; [..|done].
    + injection E as <-. cbn [m_destructor] in *. rewrite decide_True in Ho' |- * by done.
      rewrite decide_True in Hd by done.
      constructor; cbn [fst snd m_destructor]; [done|rewrite texts_app, texts_one; case_decide; [done|lia]|rewrite texts_app, texts_one; case_decide; [done|lia]|].
      rewrite decide_False by done. split; [done|]. exists h, now. split; [done|]. lia.
    + injection E as <-. by constructor.
    + destruct (m_thread l); try done. injection E as <-. by constructor.
Qed.

Lemma logger_inv_steps s s' : logger_inv s -> rtc logger_step s s' -> logger_inv s'.
Proof. intros Hs H. induction H as [|s1 s2 s3 Hstep _ IH]; [done|]. by eapply IH, logger_inv_step. Qed.

Lemma logger_inv_start : logger_inv logger_test_start.
Proof. constructor; [apply new_in_order|done..]. Qed.

(** Everything the threads have to log, one thread after the other. *)
Definition first_message : Message := mk_Message 0 first_text DEBUG.
Definition second_message : Message := mk_Message 0 second_text ERROR.

Lemma logger_logs n1 n2 h q out r w d :
  let more := replicate n1 first_message ++ replicate n2 second_message in
  rtc logger_step (n1, n2, (h, mk_Logger q out r w d)) (0, 0, (h ++ more, mk_Logger (q ++ more) out r w d))%nat.
Proof.
  assert (Hsnoc : forall (l k : list Message) x, l ++ x :: k = (l ++ [x]) ++ k) by (intros; by rewrite <-app_assoc).
  revert h q. induction n1 as [|n1 IH]; intros h q; cbn zeta.
  - cbn [replicate app]. revert h q. induction n2 as [|n2 IH]; intros h q.
    { rewrite !app_nil_r. apply rtc_refl. }
    eapply rtc_l; [by apply (ThreadFunc2 0)|]. cbn [set_queue m_queue s_logger m_running m_thread m_destructor replicate].
    rewrite (Hsnoc h (replicate n2 _)), (Hsnoc q (replicate n2 _)). apply IH.
  - eapply rtc_l; [by apply (ThreadFunc1 0)|]. cbn [set_queue m_queue s_logger m_running m_thread m_destructor replicate app].
    rewrite (Hsnoc h (replicate n1 _ ++ _)), (Hsnoc q (replicate n1 _ ++ _)). apply IH.
Qed.

(** When the flag is cleared the thread writes what is queued, and ends. *)
Lemma logger_drains n1 n2 h q out d :
  rtc logger_step (n1, n2, (h, mk_Logger q out false AtLoop d))
    (n1, n2, (h, mk_Logger [] (out ++ (LogMessageTask localtime <$> q)) false Finished d)).
Proof.
  revert out. induction q as [|m q IH]; intros out.
  - rewrite app_nil_r. apply rtc_once. by apply LoggerThread_step.
  - do 3 (eapply rtc_l; [by apply LoggerThread_step|]). cbn [m_queue s_logger m_running m_thread m_destructor].
    replace (out ++ (LogMessageTask localtime <$> m :: q))
      with ((out ++ [LogMessageTask localtime m]) ++ (LogMessageTask localtime <$> q)) by by rewrite <-app_assoc.
    apply IH.
Qed.

(** The log of the test: if the program ends, the file has one line for each of the
    messages, ten of each thread in the order in which the threads got the queue, and
    the line of the shutdown. *)
Theorem test_logger_log (h : list Message) (l : Logger)
    (Hs : rtc logger_step logger_test_start (0, 0, (h, l))%nat) (Hend : m_destructor l = Joined) :
  exists messages now, s_logger l = LogMessageTask localtime <$> (messages ++ [shutdown now])
    /\ length messages = 20%nat
    /\ texts first_text messages = 10%nat /\ texts second_text messages = 10%nat.
Proof.
  destruct (logger_inv_steps _ _ logger_inv_start Hs) as [Ho H1 H2 Hd]. cbn [fst snd] in *.
  rewrite decide_False in Hd by congruence. destruct Hd as (_ & messages & now & -> & Hlen).
  exists messages, now. destruct Ho as [Hlines _ Hfin Hjoin]. cbn [fst snd] in *.
  specialize (Hjoin Hend). destruct (Hfin Hjoin) as [_ Hq].
  split; [rewrite Hlines; unfold in_hand; by rewrite Hjoin, Hq, app_nil_r|]. split; [done|].
  rewrite texts_app, texts_one in H1, H2. do 2 (case_decide; [done|]). lia.
Qed.
End logger.

(** The first thread logs its messages, then the second; the destructor is called
    before the thread of the logger has written anything. *)
Lemma test_logger_log_witness :
  exists h l, rtc (logger_step epoch) logger_test_start (0, 0, (h, l))%nat /\ m_destructor l = Joined
    /\ exists messages now, s_logger l = LogMessageTask epoch <$> (messages ++ [shutdown now])
    /\ length messages = 20%nat
    /\ texts first_text messages = 10%nat /\ texts second_text messages = 10%nat.
Proof.
  assert (H : exists h l, rtc (logger_step epoch) logger_test_start (0, 0, (h, l))%nat /\ m_destructor l = Joined).
  { eexists _, _. split.
    - etrans; [apply (logger_logs epoch 10 10)|].
      eapply rtc_l; [by apply (Logger_destructor epoch 7)|].
      eapply rtc_l; [by apply (Logger_destructor epoch 7)|].
      eapply rtc_r; [apply logger_drains|]. by apply (Logger_destructor epoch 7).
    - reflexivity. }
  destruct H as (h & l & Hs & Hd). exists h, l. split; [exact Hs|]. split; [exact Hd|].
  exact (test_logger_log epoch h l Hs Hd).
Defined.
