(* ===== verification/TestPool.v ===== *)
(** * TestPool

    The clients of the thread pool in [framework/test/test_thread_pool.cpp] and
    [test_thread_pool_shutdown.cpp]: the calls of their main threads, interleaved
    with the steps of the threads of the pool.  Sleeping and printing are left
    out. *)

From S2P Require Import Prelude ThreadPool Shutdown Work.

(** ** Clients *)

(** A call of the main thread; tasks are known by numbers. [CallGet] is
    [FutureFunction::Get]. *)
Inductive call : Set :=
  | CallAdd (t : nat) (pr : Z)
  | CallGet (t : nat)
  | CallPause
  | CallResume
  | CallSetNumThreads (n : nat).

#[export] Instance call_eq_dec : EqDecision call.
Proof. solve_decision. Defined.

(** The main thread: before these calls; inside [Pause], before these; in the
    destructor of the pool, which joins the threads; at its end. *)
Inductive main_thread : Set :=
  | Calls (l : list call)
  | Acquiring (l : list call)
  | Joining
  | Passed.

#[export] Instance main_thread_eq_dec : EqDecision main_thread.
Proof. solve_decision. Defined.

(** The pool with its history, and the futures whose semaphore is 1. *)
Record pool_test : Type := mk_pool_test {
  main : main_thread;
  work : history (T := nat);
  released : gset nat;
}.

#[export] Instance ended_dec {T} (t : thread T) : Decision (t = Ended).
Proof. destruct t; (by left) || (by right). Defined.
#[export] Instance waiting_dec {T} (t : thread T) : Decision (t = Waiting).
Proof. destruct t; (by left) || (by right). Defined.
#[export] Instance joined_dec {T} (p : ThreadPool T) : Decision (joined p).
Proof. unfold joined. apply _. Defined.

Section client.
(** Which tasks are futures. *)
Context (future : nat -> bool).

(** An operation of the pool, with the tasks that it adds and finishes. *)
Definition on_pool (f : prog (ThreadPool nat) unit) (new done : list nat) : prog pool_test unit := fun s =>
  let '(r, p) := f (hpool (work s)) in
  (r, mk_pool_test (main s) (mk_history p (added (work s) ++ new) (finished (work s) ++ done)) (released s)).

Definition set_main (m : main_thread) : prog pool_test unit :=
  modify (fun s => mk_pool_test m (work s) (released s)).

Definition set_released (f : gset nat -> gset nat) : prog pool_test unit :=
  modify (fun s => mk_pool_test (main s) (work s) (f (released s))).

(** A binary semaphore must not be released when it is 1. *)
Definition release_all (l : list nat) : prog pool_test unit :=
  for_each (fun t =>
    if future t then
      full ← gets (fun s => bool_decide (t ∈ released s));
      if full : bool then lift Undefined else set_released (union {[t]})
    else mret tt) l.

Definition main_step (now : Z) : prog pool_test unit :=
  m ← gets main;
  match m with
  | Calls (CallAdd t pr :: l) => on_pool (AddTask t pr now) [t] [] ;; set_main (Calls l)
  | Calls (CallGet t :: l) =>
      full ← gets (fun s => bool_decide (t ∈ released s));
      if full : bool then set_released (fun r => r ∖ {[t]}) ;; set_main (Calls l) else lift Blocked
  | Calls (CallPause :: l) => on_pool (Pause_begin now) [] [] ;; set_main (Acquiring l)
  | Calls (CallResume :: l) => on_pool Resume [] [] ;; set_main (Calls l)
  | Calls (CallSetNumThreads n :: l) => on_pool (SetNumThreads n now) [] [] ;; set_main (Calls l)
  | Calls [] => on_pool (delete_ThreadPool now) [] [] ;; set_main Joining
  | Acquiring l => on_pool Pause_end [] [] ;; set_main (Calls l)
  | Joining =>
      all ← gets (fun s => bool_decide (joined (hpool (work s))));
      if all : bool then set_main Passed else lift Blocked
  | Passed => lift Blocked
  end.

Inductive event : Set :=
  | Main (now : Z)
  | Pop (tid i : nat)
  | Done (tid : nat)
  | Wake (tid : nat).

Definition perform (x : event) : prog pool_test unit :=
  match x with
  | Main now => main_step now
  | Pop tid i => on_pool (thread_pop tid i) [] []
  | Done tid =>
      t ← gets (fun s => m_threads (hpool (work s)) !! tid);
      let ran := from_option runs [] t in
      on_pool (thread_done tid) [] ran ;; release_all ran
  | Wake tid => on_pool (thread_wake tid) [] []
  end.

Definition pool_step (s s' : pool_test) : Prop := exists x, perform x s = (Ok tt, s').
End client.

(** A pool of [n] threads, and the calls of a test. *)
Definition pool_test_start (n : nat) (l : list call) : pool_test :=
  mk_pool_test (Calls l) (mk_history (new_ThreadPool n) [] []) ∅.

(** ** Clients that add tasks and wait for futures

    Such a client passes in every schedule. *)

Section simple.
Context (future : nat -> bool) (n : nat).
Hypothesis Hn : (0 < n)%nat.

(** After the tasks [seen] were added: a future is added once, and asked for once,
    after that. *)
Fixpoint simple (seen : list nat) (l : list call) : Prop :=
  match l with
  | [] => True
  | CallAdd t pr :: l =>
      (pr = LOW \/ pr = MEDIUM \/ pr = HIGH) /\ (future t = true -> t ∉ seen) /\ simple (seen ++ [t]) l
  | CallGet t :: l => future t = true /\ t ∈ seen /\ CallGet t ∉ l /\ simple seen l
  | _ => False
  end.

#[export] Instance simple_dec seen l : Decision (simple seen l).
Proof. revert seen. induction l as [|[] l IH]; intros seen; cbn [simple]; apply _. Defined.

(** What is left to do: for each task that is to be added one step, and two steps
    of a thread; a step for each future; the destructor, what the threads have to
    do then, the join. *)
Definition calls_left (l : list call) : nat :=
  sum_list ((fun c => match c with CallAdd _ _ => 3 | _ => 1 end)%nat <$> l).

Definition steps_left (s : pool_test) : nat :=
  let p := hpool (work s) in
  match main s with
  | Calls l => calls_left l + (2 * length (m_pq p) + threads_that busy p) + (3 * n + 2)
  | Acquiring _ => 0
  | Joining => work_left p + 1
  | Passed => 0
  end%nat.

(** While calls are left the pool works as ever and no thread waits; after that it
    is ending. A future's semaphore is 1 if it was run and is still asked for. *)
Record simple_inv (s : pool_test) : Prop := {
  si_tasks : accounted (work s);
  si_once : NoDup (filter (fun t => future t = true) (added (work s)));
  si_released : forall t, t ∈ released s -> t ∈ finished (work s);
  si_main :
    match main s with
    | Calls l => psteps (mk_system (new_ThreadPool n) Normal) (mk_system (hpool (work s)) Normal)
        /\ threads_that waits (hpool (work s)) = 0%nat /\ simple (added (work s)) l
        /\ forall t, CallGet t ∈ l -> t ∈ finished (work s) -> t ∈ released s
    | Acquiring _ => False
    | Joining => ending (hpool (work s))
    | Passed => joined (hpool (work s))
    end;
}.

Lemma threads_set {T} P tid old new (p : ThreadPool T) :
  m_threads p !! tid = Some old ->
  (threads_that P (set_thread tid new p) + (if P old then 1 else 0)
   = threads_that P p + (if P new then 1 else 0))%nat.
Proof. intros Hold. destruct (threads_insert P tid old new p Hold) as (r & -> & ->). lia. Qed.

(** A new pool is empty and idle. *)
Lemma new_idle :
  m_pq (new_ThreadPool (T := nat) n) = []
  /\ forall P, P Idle = false -> threads_that P (new_ThreadPool (T := nat) n) = 0%nat.
Proof.
  unfold new_ThreadPool, AddThreadsToPool. cbn [m_deleted_threads].
  set (p0 := mk_ThreadPool [] [] ∅ n 0 0 false).
  assert (Hr : reuse_threads (T := nat) n [] p0 = Ok (p0, n)) by (by destruct n). rewrite Hr. cbn [snd].
  destruct (new_threads_spec n p0) as (Hpq & _ & _ & _ & _ & Hidle);
    [by intros; apply (lookup_empty (M := gmap nat))|by apply map_Forall_empty|].
  split; [by rewrite Hpq|]. intros P HP.
  unfold threads_that. rewrite map_size_empty_iff, map_empty. intros tid.
  apply map_lookup_filter_None_2. right. intros t Ht. rewrite (Hidle tid t Ht). cbn [snd]. by rewrite HP.
Qed.

Lemma new_ranked : ranked (mk_system (new_ThreadPool (T := nat) n) Normal).
Proof. unfold ranked. cbn [pool]. rewrite (proj1 new_idle). constructor. Qed.

(** Without a pause only tasks are queued, and threads are idle or run tasks. *)
Lemma unpaused (p : ThreadPool nat) :
  psteps (mk_system (new_ThreadPool n) Normal) (mk_system p Normal) -> threads_that waits p = 0%nat ->
  Forall (fun x => exists t, m_task x = Work t) (m_pq p)
  /\ map_Forall (fun _ t => t = Idle \/ exists x, t = Running (Work x)) (m_threads p)
  /\ size (m_threads p) = n.
Proof.
  intros Hs Hw. destruct (pausable_steps n _ _ (new_pausable n) Hs) as [[[_ Hsz] _ Hth Hph] _].
  cbn [control pool] in *. destruct Hph as (_ & _ & HQ & HR). split; [|split; [|done]].
  - pose proof (ranked_steps _ _ new_ranked Hs) as Hrank.
    apply Forall_forall. intros x Hx. unfold ranked in Hrank. rewrite Forall_forall in Hrank.
    destruct (Hrank x Hx) as [[_ ?]|Hp]; [done|]. exfalso.
    unfold pause_tasks in HQ. apply nil_length_inv in HQ. apply (not_elem_of_nil x).
    rewrite <-HQ. apply list_elem_of_filter. by unfold pause_task; rewrite Hp.
  - intros tid t Ht. destruct (Hth tid t Ht) as [He Hr].
    pose proof (no_thread waits tid t p Hw Ht). pose proof (no_thread goes_to_wait tid t p HR Ht).
    destruct t as [|[x| |]| |]; naive_solver.
Qed.

(** *** The tasks *)

Lemma on_pool_Ok f new done s s' :
  on_pool f new done s = (Ok tt, s') ->
  exists p', f (hpool (work s)) = (Ok tt, p')
    /\ s' = mk_pool_test (main s) (mk_history p' (added (work s) ++ new) (finished (work s) ++ done)) (released s).
Proof.
  unfold on_pool. destruct (f (hpool (work s))) as [r p']. intros [= -> <-]. by exists p'.
Qed.

Lemma simple_get seen l t : simple seen l -> CallGet t ∈ l -> future t = true /\ simple seen l.
Proof.
  intros Hs Ht. split; [|done]. revert seen Hs. induction l as [|c l IH]; intros seen Hs; [by apply not_elem_of_nil in Ht|].
  apply elem_of_cons in Ht as [<-|Ht]; [by destruct Hs|].
  destruct c; cbn [simple] in Hs; try done; [apply (IH Ht _ (proj2 (proj2 Hs)))|apply (IH Ht _ (proj2 (proj2 (proj2 Hs))))].
Qed.

(** A future that runs was not run before: its semaphore is 0. *)
Lemma running_unreleased s tid x :
  simple_inv s -> m_threads (hpool (work s)) !! tid = Some (Running (Work x)) -> future x = true -> x ∉ released s.
Proof.
  intros [[_ _ Htasks] Honce Hrel _] Ht Hx Hin. apply Hrel in Hin.
  assert (Hr : x ∈ running (hpool (work s))).
  { unfold running. apply list_elem_of_In, in_flat_map. exists (tid, Running (Work x)).
    split; [|by left]. apply list_elem_of_In, elem_of_map_to_list, Ht. }
  rewrite <-Htasks, !filter_app in Honce. apply NoDup_app in Honce as (_ & _ & Honce).
  apply NoDup_app in Honce as (_ & Hdis & _). apply (Hdis x); apply list_elem_of_filter; by split.
Qed.

(** The end of a job. *)
Lemma perform_Done tid t s s' :
  simple_inv s -> m_threads (hpool (work s)) !! tid = Some t -> perform future (Done tid) s = (Ok tt, s') ->
  exists p' r, thread_done tid (hpool (work s)) = (Ok tt, p')
    /\ s' = mk_pool_test (main s) (mk_history p' (added (work s)) (finished (work s) ++ runs t)) r
    /\ (forall y, y ∈ r -> y ∈ finished (work s) ++ runs t)
    /\ (forall y, future y = true -> y ∈ released s \/ y ∈ runs t -> y ∈ r).
Proof.
  intros Hinv Ht E. unfold perform in E. apply bind_ok_inv in E as (o & s0 & E0 & E). injection E0 as <- <-.
  rewrite Ht in E. cbn [from_option] in E. apply bind_ok_inv in E as ([] & s1 & E1 & E).
  apply on_pool_Ok in E1 as (p' & Ed & ->). exists p'. pose proof (si_released s Hinv) as Hrel.
  rewrite app_nil_r in E. destruct t as [|[x| |]| |]; cbn [runs release_all for_each] in *;
    try (injection E as <-; exists (released s); rewrite app_nil_r; split; [done|]; split; [done|];
         split; [exact Hrel|]; intros y _ [?|Hy]; [done|by apply not_elem_of_nil in Hy]).
  revert E. run_prog. cbn [released]. destruct (future x) eqn:Hf.
  - rewrite bool_decide_false by exact (running_unreleased s tid x Hinv Ht Hf). cbn [released main work].
    intros [= <-]. exists ({[x]} ∪ released s). split; [done|]. split; [done|].
    split; intros y; [intros Hy; apply elem_of_app; set_solver|set_solver].
  - intros [= <-]. exists (released s). split; [done|]. split; [done|]. split.
    + intros y Hy. apply elem_of_app. left. by apply Hrel.
    + intros y Hy [Hin|Hin%list_elem_of_singleton]; [done|congruence].
Qed.

(** The tasks stay accounted for. *)
Lemma with_pool_eq (h : history (T := nat)) p' : mk_history p' (added h ++ []) (finished h ++ []) = with_pool p' h.
Proof. by rewrite !app_nil_r. Qed.

(** *** The steps *)

Lemma simple_pop tid i s s' :
  simple_inv s -> perform future (Pop tid i) s = (Ok tt, s') ->
  simple_inv s' /\ (steps_left s' < steps_left s)%nat.
Proof.
  intros Hinv (p' & E & ->)%on_pool_Ok. pose proof Hinv as [Hac Honce Hrel Hmain].
  rewrite with_pool_eq. assert (Hac' : accounted (with_pool p' (work s))) by by eapply pop_accounted.
  pose proof (thread_pop_Ok _ _ _ _ E) as (Hidle & x & q & Hq & _ & Ep).
  assert (Hpq : (length (m_pq p') + 1 = length (m_pq (hpool (work s))))%nat)
    by (rewrite Hq, Ep; cbn; lia).
  destruct (main s) as [l| | |] eqn:Em; [|done| |by specialize (Hmain _ _ Hidle)].
  - destruct Hmain as (Hs & Hw & Hl & Hget). destruct (unpaused _ Hs Hw) as (Htasks & _).
    rewrite Hq in Htasks. apply Forall_cons in Htasks as [[t Ht] _]. rewrite Ht in Ep.
    pose proof (threads_set waits tid _ (Running (Work t)) (set_pq q (hpool (work s))) Hidle) as HW.
    pose proof (threads_set busy tid _ (Running (Work t)) (set_pq q (hpool (work s))) Hidle) as HB.
    rewrite <-Ep in HW, HB. cbn [waits busy] in HW, HB.
    change (threads_that waits (set_pq q (hpool (work s)))) with (threads_that waits (hpool (work s))) in HW.
    change (threads_that busy (set_pq q (hpool (work s)))) with (threads_that busy (hpool (work s))) in HB.
    split; [constructor; cbn [main work released]; [done..|]|].
    + cbn [with_pool hpool added finished]. split; [|split; [lia|done]].
      eapply rtc_r; [exact Hs|]. by eapply pstep_pop.
    + unfold steps_left. cbn [main work with_pool hpool]. rewrite Em. lia.
  - destruct (ending_pop _ _ _ _ Hmain E) as [H1 H2]. split; [by constructor|].
    unfold steps_left. cbn [main work with_pool hpool]. rewrite Em. lia.
Qed.

Lemma simple_done tid s s' :
  simple_inv s -> perform future (Done tid) s = (Ok tt, s') ->
  simple_inv s' /\ (steps_left s' < steps_left s)%nat.
Proof.
  intros Hinv E. destruct (m_threads (hpool (work s)) !! tid) as [t|] eqn:Et.
  2:{ unfold perform in E. apply bind_ok_inv in E as (o & s0 & E0 & E). injection E0 as <- <-.
      apply bind_ok_inv in E as ([] & s1 & E1 & _). apply on_pool_Ok in E1 as (p' & Ed & _).
      unfold thread_done in Ed. by rewrite Et in Ed. }
  destruct (perform_Done tid t s s' Hinv Et E) as (p' & r & Ed & -> & Hr & Hr').
  pose proof Hinv as [Hac Honce Hrel Hmain].
  assert (Hac' : accounted (mk_history p' (added (work s)) (finished (work s) ++ runs t))) by by eapply done_accounted.
  destruct (main s) as [l| | |] eqn:Em; [|done| |].
  - destruct Hmain as (Hs & Hw & Hl & Hget). destruct (unpaused _ Hs Hw) as (_ & Hth & _).
    pose proof (thread_done_pq _ _ _ Ed) as Hpq.
    destruct (Hth tid t Et) as [->|[x ->]]; [unfold thread_done in Ed; by rewrite Et in Ed|].
    assert (Ep : p' = set_thread tid Idle (hpool (work s))) by (unfold thread_done in Ed; rewrite Et in Ed; by injection Ed as <-).
    pose proof (threads_set waits tid _ Idle (hpool (work s)) Et) as HW.
    pose proof (threads_set busy tid _ Idle (hpool (work s)) Et) as HB.
    rewrite <-Ep in HW, HB. cbn [waits busy] in HW, HB.
    split; [constructor; cbn [main work released]; [done..|]|].
    + cbn [hpool added finished]. split; [|split; [lia|split; [done|]]].
      * eapply rtc_r; [exact Hs|]. by eapply pstep_done.
      * intros y Hy [Hf|Hf]%elem_of_app; apply Hr'; try (by eapply simple_get); [left; by apply Hget|by right].
    + unfold steps_left. cbn [main work hpool]. rewrite Em, Hpq. lia.
  - destruct (ending_done _ _ _ Hmain Ed) as [H1 H2]. split; [by constructor|].
    unfold steps_left. cbn [main work hpool]. rewrite Em. lia.
  - unfold thread_done in Ed. rewrite Et in Ed. by rewrite (Hmain _ _ Et) in Ed.
Qed.

Lemma simple_wake tid s s' :
  simple_inv s -> perform future (Wake tid) s = (Ok tt, s') -> False.
Proof.
  intros [_ _ _ Hmain] (p' & E & _)%on_pool_Ok. unfold thread_wake in E.
  destruct (m_threads (hpool (work s)) !! tid) as [[]|] eqn:Et; try done.
  destruct (main s) as [l| | |]; [|done| |by specialize (Hmain _ _ Et)].
  - destruct Hmain as (_ & Hw & _). by pose proof (no_thread waits tid _ _ Hw Et).
  - by destruct (en_threads _ Hmain tid _ Et).
Qed.

Lemma simple_main now s s' :
  simple_inv s -> perform future (Main now) s = (Ok tt, s') ->
  simple_inv s' /\ (steps_left s' < steps_left s)%nat.
Proof.
  intros Hinv E. pose proof Hinv as [Hac Honce Hrel Hmain]. unfold perform, main_step in E.
  apply bind_ok_inv in E as (m & s0 & E0 & E). injection E0 as <- <-.
  destruct (main s) as [[|[t pr|t| | |k] l]|l| |] eqn:Em; try done.
  - apply bind_ok_inv in E as ([] & s1 & (p' & Ed & ->)%on_pool_Ok & [= <-]).
    rewrite with_pool_eq. destruct Hmain as (Hs & Hw & _).
    destruct (delete_ending n (mk_system (hpool (work s)) Normal) p' now) as [He Hsz]; try done.
    { by apply (pausable_steps n _ _ (new_pausable n) Hs). }
    { by eapply ranked_steps; [apply new_ranked|exact Hs]. }
    split; [constructor; cbn [main work released]; try done|].
    + eapply hstep_accounted; [exact Hac|by eapply hstep_delete].
    + unfold steps_left, work_left. cbn [main work with_pool hpool]. rewrite Em.
      pose proof (threads_le busy p'). pose proof (threads_le needs p'). pose proof (threads_le alive p'). lia.
  - apply bind_ok_inv in E as ([] & s1 & (p' & Ed & ->)%on_pool_Ok & [= <-]).
    destruct Hmain as (Hs & Hw & (Hpr & Hnew & Hl) & Hget).
    assert (Hac' : accounted (mk_history p' (added (work s) ++ [t]) (finished (work s)))).
    { eapply hstep_accounted; [exact Hac|by eapply hstep_add]. }
    assert (Hsteps : psteps (mk_system (new_ThreadPool n) Normal) (mk_system p' Normal))
      by (eapply rtc_r; [exact Hs|]; by eapply (pstep_add t pr now)).
    apply AddTask_Ok in Ed as ->. cbn [main work released hpool added finished]. rewrite app_nil_r.
    split; [constructor; cbn [main work released hpool added finished]; [done| |done|]|].
    + rewrite filter_app, filter_cons. case_decide as Hf; [|by rewrite app_nil_r].
      apply NoDup_app. split; [done|]. split; [|apply NoDup_singleton].
      intros y Hy Hyt. rewrite filter_nil in Hyt. apply list_elem_of_singleton in Hyt as ->.
      apply list_elem_of_filter in Hy as [_ Hy]. by apply Hnew.
    + split; [done|]. split; [done|]. split; [done|]. intros y Hy. apply Hget. by apply list_elem_of_further.
    + unfold steps_left. cbn [main work hpool]. rewrite Em. unfold calls_left. cbn [fmap list_fmap sum_list].
      assert (length (m_pq (set_pq (m_pq (hpool (work s)) ++ [mk_TPTask (Work t) pr now]) (hpool (work s))))
        = S (length (m_pq (hpool (work s))))) as -> by (cbn; rewrite length_app; cbn; lia).
      change (threads_that busy (set_pq _ (hpool (work s)))) with (threads_that busy (hpool (work s))).
      unfold sum_list, sum_list_with. cbn. lia.
  - destruct Hmain as (Hs & Hw & (Hf & Hin & Hout & Hl) & Hget). revert E. run_prog.
    case_bool_decide as Ht; [|done]. intros [= <-]. cbn [main work released].
    split; [constructor; cbn [main work released]; [done|done| |]|].
    + intros y Hy. apply Hrel. set_solver.
    + split; [done|]. split; [done|]. split; [done|]. intros y Hy Hfin.
      assert (y <> t) by (intros ->; done).
      assert (y ∈ released s) by (apply Hget; [by apply list_elem_of_further|done]). set_solver.
    + unfold steps_left. cbn [main work]. rewrite Em. unfold calls_left, sum_list, sum_list_with. cbn. lia.
  - by destruct Hmain as (_ & _ & [] & _).
  - by destruct Hmain as (_ & _ & [] & _).
  - by destruct Hmain as (_ & _ & [] & _).
  - revert E. run_prog. case_bool_decide as Hj; [|done]. intros [= <-]. split; [by constructor|].
    unfold steps_left. cbn [main work]. rewrite Em. lia.
Qed.

Lemma simple_step s s' :
  simple_inv s -> pool_step future s s' -> simple_inv s' /\ (steps_left s' < steps_left s)%nat.
Proof.
  intros Hinv [[now|tid i|tid|tid] E]; [by eapply simple_main|by eapply simple_pop|by eapply simple_done|].
  by destruct (simple_wake tid s s' Hinv E).
Qed.

Lemma simple_nsteps k s s' :
  simple_inv s -> nsteps (pool_step future) k s s' ->
  simple_inv s' /\ (k + steps_left s' <= steps_left s)%nat.
Proof.
  intros Hinv Hs. induction Hs as [s|k s1 s2 s3 Hstep _ IH]; [split; [done|lia]|].
  destruct (simple_step _ _ Hinv Hstep) as [H1 Hlt]. destruct (IH H1) as [H2 Hle]. split; [done|lia].
Qed.

Lemma simple_start l : simple [] l -> simple_inv (pool_test_start n l).
Proof.
  intros Hl. constructor; cbn [main work released pool_test_start added finished hpool].
  - apply new_accounted.
  - apply NoDup_nil_2.
  - intros t Ht. by apply not_elem_of_empty in Ht.
  - split; [apply rtc_refl|]. split; [by apply new_idle|]. split; [done|].
    intros t _ Ht. by apply not_elem_of_nil in Ht.
Qed.

(** *** Every event happens or has to wait *)

Lemma on_pool_cases f new done s :
  (exists p', f (hpool (work s)) = (Ok tt, p')) \/ (f (hpool (work s))).1 = Blocked ->
  (exists s', on_pool f new done s = (Ok tt, s')) \/ (on_pool f new done s).1 = Blocked.
Proof.
  unfold on_pool. destruct (f (hpool (work s))) as [r p']. intros [[? [= -> _]]|H]; [left; by eexists|by right].
Qed.

Lemma delete_ThreadPool_Ok now (p : ThreadPool nat) : exists p', delete_ThreadPool now p = (Ok tt, p').
Proof.
  unfold delete_ThreadPool, RemoveThreadsFromPool. run_prog.
  destruct (push_many_list (m_total_threads p) (EndThread (T := nat)) CRITICAL now p) as (l & -> & _). by eexists.
Qed.

Lemma thread_pop_cases tid i (p : ThreadPool nat) :
  (exists p', thread_pop tid i p = (Ok tt, p')) \/ (thread_pop tid i p).1 = Blocked.
Proof.
  unfold thread_pop. destruct (m_threads p !! tid) as [[]|]; try by right.
  unfold WaitablePQ.Pop. destruct (m_pq p !! i) as [x|]; [|by right].
  destruct (WaitablePQ.is_top _ _ _); [left; by eexists|by right].
Qed.

Lemma thread_done_cases tid (p : ThreadPool nat) :
  (exists p', thread_done tid p = (Ok tt, p')) \/ (thread_done tid p).1 = Blocked.
Proof.
  unfold thread_done. destruct (m_threads p !! tid) as [[|[]| |]|]; first [by right|left; by eexists].
Qed.

Lemma thread_wake_cases tid (p : ThreadPool nat) :
  (exists p', thread_wake tid p = (Ok tt, p')) \/ (thread_wake tid p).1 = Blocked.
Proof.
  unfold thread_wake. destruct (m_threads p !! tid) as [[]|]; try by right.
  destruct (m_paused p); [by right|left; by eexists].
Qed.

Lemma perform_cases x s :
  simple_inv s -> (exists s', perform future x s = (Ok tt, s')) \/ (perform future x s).1 = Blocked.
Proof.
  intros Hinv. destruct x as [now|tid i|tid|tid]; cbn [perform].
  - pose proof (si_main s Hinv) as Hmain. unfold main_step. run_prog.
    destruct (main s) as [[|[t pr|t| | |k] l]|l| |] eqn:Em; try (by destruct Hmain as (_ & _ & [] & _)); try done.
    + left. destruct (delete_ThreadPool_Ok now (hpool (work s))) as [p' E].
      eexists. unfold on_pool. run_prog. rewrite E. run_prog. done.
    + left. eexists. reflexivity.
    + run_prog. case_bool_decide; [left; by eexists|by right].
    + run_prog. case_bool_decide; [left; by eexists|by right].
    + by right.
  - apply on_pool_cases, thread_pop_cases.
  - destruct (thread_done_cases tid (hpool (work s))) as [[p' E]|E].
    + left. destruct (m_threads (hpool (work s)) !! tid) as [t|] eqn:Et;
        [|unfold thread_done in E; by rewrite Et in E].
      unfold on_pool. run_prog. rewrite Et, E. run_prog.
      destruct t as [|[y| |]| |]; try (eexists; reflexivity). cbn [from_option runs release_all for_each].
      run_prog. destruct (future y) eqn:Hf; [|by eexists]. cbn [released].
      rewrite bool_decide_false by exact (running_unreleased s tid y Hinv Et Hf). run_prog. by eexists.
    + right. unfold on_pool. run_prog. destruct (thread_done tid (hpool (work s))) as [r p'].
      cbn [fst] in E. by subst r.
  - apply on_pool_cases, thread_wake_cases.
Qed.

(** *** The end *)

Lemma stuck_blocked s x :
  simple_inv s -> (forall s', ~ pool_step future s s') -> (perform future x s).1 = Blocked.
Proof.
  intros Hinv Hnone. destruct (perform_cases x s Hinv) as [[s' E]|]; [|done].
  by destruct (Hnone s'); exists x.
Qed.

Lemma on_pool_blocked f new done s : (on_pool f new done s).1 = Blocked -> (f (hpool (work s))).1 = Blocked.
Proof. unfold on_pool. by destruct (f (hpool (work s))). Qed.

Lemma stuck_threads s :
  simple_inv s -> (forall s', ~ pool_step future s s') -> stuck (hpool (work s)).
Proof.
  intros Hinv Hnone tid i. split.
  - by apply (on_pool_blocked _ [] []), (stuck_blocked s (Pop tid i)).
  - pose proof (stuck_blocked s (Done tid) Hinv Hnone) as Hb. cbn [perform] in Hb.
    destruct (thread_done_cases tid (hpool (work s))) as [[p' E]|]; [exfalso|done].
    apply (Hnone (perform future (Done tid) s).2). exists (Done tid).
    destruct (perform_cases (Done tid) s Hinv) as [[s' ->]|Hbl]; [done|].
    destruct (m_threads (hpool (work s)) !! tid) as [t|] eqn:Et; [|unfold thread_done in E; by rewrite Et in E].
    revert Hbl. cbn [perform]. unfold on_pool. run_prog. rewrite Et, E. run_prog.
    destruct t as [|[y| |]| |]; try done. cbn [from_option runs release_all for_each].
    run_prog. destruct (future y) eqn:Hf; [|done]. cbn [released].
    by rewrite bool_decide_false by exact (running_unreleased s tid y Hinv Et Hf).
Qed.

(** Threads that can do nothing have run every task. *)
Lemma stuck_finished s t :
  simple_inv s -> stuck (hpool (work s)) ->
  psteps (mk_system (new_ThreadPool n) Normal) (mk_system (hpool (work s)) Normal) ->
  threads_that waits (hpool (work s)) = 0%nat -> t ∈ added (work s) -> t ∈ finished (work s).
Proof.
  intros Hinv Hstuck Hs Hw Ht. destruct (unpaused _ Hs Hw) as (_ & Hth & Hsz).
  assert (Hidle : forall tid th, m_threads (hpool (work s)) !! tid = Some th -> th = Idle).
  { intros tid th E. destruct (Hth tid th E) as [->|[x ->]]; [done|].
    destruct (Hstuck tid 0%nat) as [_ Hb]. unfold thread_done in Hb. by rewrite E in Hb. }
  assert (Hq : m_pq (hpool (work s)) = []).
  { destruct (decide (m_pq (hpool (work s)) = [])) as [|Hne]; [done|].
    destruct (Pop_not_blocked _ Hne) as (i & x & q & E).
    destruct (map_choose (m_threads (hpool (work s)))) as (tid & th & Htid).
    { intros He. rewrite He, map_size_empty in Hsz. lia. }
    destruct (Hstuck tid i) as [Hb _]. unfold thread_pop in Hb.
    by rewrite Htid, (Hidle tid th Htid), E in Hb. }
  assert (Hr : running (hpool (work s)) = []).
  { unfold running, all_runs. rewrite (flat_map_nil (fun kv => runs kv.2)); [done|].
    apply Forall_forall. intros [tid th] Hin%elem_of_map_to_list. by rewrite (Hidle tid th Hin). }
  pose proof (ac_tasks _ (si_tasks s Hinv)) as Hac. unfold queued in Hac. rewrite Hq, Hr in Hac.
  by rewrite <-Hac in Ht.
Qed.

Lemma simple_stuck s :
  simple_inv s -> (forall s', ~ pool_step future s s') -> main s = Passed /\ joined (hpool (work s)).
Proof.
  intros Hinv Hnone. pose proof (stuck_threads s Hinv Hnone) as Hstuck.
  pose proof (stuck_blocked s (Main 0) Hinv Hnone) as Hb. pose proof (si_main s Hinv) as Hmain.
  cbn [perform] in Hb. unfold main_step in Hb. revert Hb. run_prog.
  destruct (main s) as [[|[t pr|t| | |k] l]|l| |] eqn:Em; try (by destruct Hmain as (_ & _ & [] & _)); try done.
  - destruct (delete_ThreadPool_Ok 0 (hpool (work s))) as [p' E]. unfold on_pool. by rewrite E.
  - destruct Hmain as (Hs & Hw & (_ & Hin & _) & Hget). run_prog.
    rewrite bool_decide_true; [done|]. apply Hget; [apply list_elem_of_here|].
    by apply stuck_finished.
  - run_prog. rewrite bool_decide_true; [done|]. by apply stuck_joined.
Qed.
End simple.

(** ** The tests that pass *)

Definition nobody : nat -> bool := fun _ => false.
Definition everybody : nat -> bool := fun _ => true.

(** Eight times the same task. *)
Definition test_thread_pool_shutdown : pool_test := pool_test_start 4 (replicate 8 (CallAdd 0 LOW)).

Definition BasicTest : pool_test :=
  pool_test_start 4 (((fun i => CallAdd i LOW) <$> seq 0 8) ++ (CallGet <$> seq 0 8)).

(** C38: a program that adds tasks, waits for futures and destroys the pool passes in
    every schedule: its threads do at most [calls_left l + 3 n + 2] steps, each
    event happens or has to wait, and when no thread can do a step any more, the main thread
    has ended and so have the threads of the pool. *)
Theorem simple_clients_pass (future : nat -> bool) (n k : nat) (l : list call) (s : pool_test)
    (Hn : (0 < n)%nat) (Hl : simple future [] l) (Hs : nsteps (pool_step future) k (pool_test_start n l) s) :
  (k <= calls_left l + 3 * n + 2)%nat
  /\ (forall x, (perform future x s).1 = Ok tt \/ (perform future x s).1 = Blocked)
  /\ ((forall s', ~ pool_step future s s') -> main s = Passed /\ joined (hpool (work s))).
Proof.
  destruct (simple_nsteps future n Hn k _ s (simple_start future n Hn l Hl) Hs) as [Hinv Hk].
  split; [|split; [|by apply (simple_stuck future n Hn)]].
  - unfold steps_left at 2 in Hk. cbn [pool_test_start main work hpool] in Hk.
    destruct (new_idle n Hn) as [Hq Hb]. rewrite Hq, (Hb busy eq_refl) in Hk. cbn [length] in Hk. lia.
  - intros x. destruct (perform_cases future n x s Hinv) as [[s' E]|E]; [left; by rewrite E|by right].
Qed.

(** [BasicTest], after every call has been made and every task has been run. *)
Lemma simple_clients_pass_witness :
  exists s, nsteps (pool_step everybody) 9 BasicTest s
    /\ (9 <= 46)%nat
    /\ (forall x, (perform everybody x s).1 = Ok tt \/ (perform everybody x s).1 = Blocked)
    /\ ((forall s', ~ pool_step everybody s s') -> main s = Passed /\ joined (hpool (work s))).
Proof.
  assert (H : exists s, nsteps (pool_step everybody) 9 BasicTest s).
  { eexists. do 8 (eapply nsteps_l; [exists (Main 1); vm_compute; reflexivity|]).
    eapply nsteps_l; [exists (Pop 2 3); vm_compute; reflexivity|apply nsteps_O]. }
  destruct H as [s Hs]. exists s. split; [exact Hs|].
  refine (simple_clients_pass everybody 4 9 _ s _ _ Hs); [lia|].
  by apply (bool_decide_unpack _); vm_compute.
Defined.

(** ** The other tests

    A schedule in which the threads of the pool are faster than the main thread. *)

Section schedule.
Context (future : nat -> bool).

(** The event of a thread that can do something; [top] is where the top of the
    queue is. *)
Definition thread_event (paused : bool) (top : option nat) (tid : nat) (t : thread nat) : list event :=
  match t with
  | Idle => match top with Some i => [Pop tid i] | None => [] end
  | Running _ => [Done tid]
  | Waiting => if paused then [] else [Wake tid]
  | Ended => []
  end.

Definition next_event (now : Z) (s : pool_test) : event :=
  let p := hpool (work s) in
  let top := fst <$> list_find (fun x => WaitablePQ.is_top TPTask_lt (m_pq p) x = true) (m_pq p) in
  match flat_map (fun kv => thread_event (m_paused p) top kv.1 kv.2) (map_to_list (m_threads p)) with
  | x :: _ => x
  | [] => Main now
  end.

(** [fuel] steps at most; a call of the main thread takes less than 1000 units of time. *)
Fixpoint schedule (fuel : nat) (now : Z) (s : pool_test) : pool_test :=
  match fuel with
  | O => s
  | S fuel =>
      match perform future (next_event now s) s with
      | (Ok tt, s') => schedule fuel (now + 1000) s'
      | _ => s
      end
  end.

Lemma schedule_steps fuel now s : rtc (pool_step future) s (schedule fuel now s).
Proof.
  revert now s. induction fuel as [|fuel IH]; intros now s; cbn [schedule]; [apply rtc_refl|].
  destruct (perform future (next_event now s) s) as [[[]|e| |] s'] eqn:E; try apply rtc_refl.
  eapply rtc_l; [by exists (next_event now s)|apply IH].
Qed.
End schedule.

(** Task 0 is a [FunctionTask], task 1 a [FutureFunction]. *)
Definition evil_future (t : nat) : bool := (t =? 1)%nat.

Definition EvilTest_calls : list call :=
  [CallPause; CallPause; CallPause; CallResume;
   CallSetNumThreads 1; CallPause; CallSetNumThreads 5; CallSetNumThreads 2; CallSetNumThreads 99;
   CallSetNumThreads 4; CallResume; CallResume; CallResume; CallPause; CallPause; CallResume]
  ++ replicate 20 (CallAdd 0 LOW) ++
  [CallPause; CallSetNumThreads 2; CallResume; CallAdd 1 HIGH; CallAdd 1 LOW; CallGet 1;
   CallSetNumThreads 4; CallGet 1]
  ++ replicate 10 (CallAdd 0 LOW) ++
  [CallPause; CallSetNumThreads 0; CallResume; CallSetNumThreads 5; CallSetNumThreads 5; CallPause].

Definition EvilTest : pool_test := pool_test_start 0 EvilTest_calls.

Definition TestPauseResume : pool_test :=
  pool_test_start 4 ([CallPause] ++ replicate 8 (CallAdd 0 LOW) ++ [CallResume]).

Definition TestResize : pool_test :=
  pool_test_start 4 (replicate 20 (CallAdd 0 LOW) ++ [CallSetNumThreads 2] ++ replicate 40 (CallAdd 0 LOW)
    ++ [CallPause; CallSetNumThreads 6; CallResume]).

(** The two tests pass in this schedule, with every task run. *)
Definition passed (s : pool_test) : bool :=
  bool_decide (main s = Passed) && bool_decide (joined (hpool (work s)))
  && bool_decide (finished (work s) = added (work s)).

Lemma other_tests_pass :
  passed (schedule nobody 100 1 TestPauseResume) = true /\ passed (schedule nobody 400 1 TestResize) = true.
Proof. split; by vm_compute. Qed.

(** The main thread waits in [Pause] for threads none of which can release the
    semaphore any more. *)
Definition hangs (l : list call) (s : pool_test) : Prop :=
  main s = Acquiring l /\ m_paused (hpool (work s)) = true
  /\ (m_pause_sem (hpool (work s)) < m_total_threads (hpool (work s)))%nat
  /\ map_Forall (fun _ t => t = Waiting \/ t = Ended) (m_threads (hpool (work s))).

#[export] Instance hangs_dec l s : Decision (hangs l s).
Proof. unfold hangs. apply _. Defined.

Lemma hangs_blocked future x l s : hangs l s -> (perform future x s).1 = Blocked.
Proof.
  intros (Hm & Hp & Hlt & Hth). destruct x as [now|tid i|tid|tid]; cbn [perform].
  - unfold main_step, on_pool, Pause_end. run_prog. rewrite Hm.
    destruct (Nat.leb_spec (m_total_threads (hpool (work s))) (m_pause_sem (hpool (work s)))); [lia|done].
  - unfold on_pool, thread_pop. destruct (m_threads (hpool (work s)) !! tid) as [t|] eqn:Et; [|done].
    by destruct (Hth tid t Et) as [->| ->].
  - unfold on_pool, thread_done. run_prog. destruct (m_threads (hpool (work s)) !! tid) as [t|] eqn:Et; [|done].
    by destruct (Hth tid t Et) as [->| ->].
  - unfold on_pool, thread_wake. destruct (m_threads (hpool (work s)) !! tid) as [t|] eqn:Et; [|done].
    destruct (Hth tid t Et) as [->| ->]; [by rewrite Hp|done].
Qed.

(** What is left of [EvilTest] from line 158 on. *)
Definition EvilTest_rest : list call := drop 15 EvilTest_calls.

(** [EvilTest] may hang: the second of the two calls of [Pause] in lines 156 and 157
    waits for four threads that all wait for [Resume] already. *)
Theorem EvilTest_hangs :
  exists s, rtc (pool_step evil_future) EvilTest s /\ main s = Acquiring EvilTest_rest
    /\ forall x, (perform evil_future x s).1 = Blocked.
Proof.
  exists (schedule evil_future 1000 1 EvilTest). split; [apply schedule_steps|].
  assert (H : hangs EvilTest_rest (schedule evil_future 1000 1 EvilTest))
    by by apply (bool_decide_unpack _); vm_compute.
  split; [apply H|]. intros x. by eapply hangs_blocked.
Qed.
