(* ===== verification/TestQueue.v ===== *)
(** * TestQueue

    [framework/test/test_wq.cpp]: producers and consumers of a [WaitableQueue], over
    the queue of [Queues.v], in every interleaving. The file does not compile, because
    the macro [TEST] is not defined; the threads do not use it, and where [main] does
    the comparison is taken for what its name and its arguments say. *)

From S2P Require Import Prelude ThreadPool Queues.

(** ** The threads

    [iterations] pushes of 1, 2, and so on; as many pops, without a timeout. *)
Definition ProducerThread (iterations : nat) : list (call (A := Z)) :=
  (fun k => CallPush (Z.of_nat k)) <$> seq 1 iterations.

Definition ConsumerBlockingThread (iterations : nat) : list (call (A := Z)) :=
  replicate iterations (CallPop false).

Definition TestOneProducerAndConsumer (iterations : nat) : list (list (call (A := Z))) :=
  [ProducerThread iterations; ConsumerBlockingThread iterations].

Definition TestOneProducerMultipleConsumers (iterations : nat) : list (list (call (A := Z))) :=
  ProducerThread iterations :: replicate iterations (ConsumerBlockingThread 1).

Definition TestMultipleProducersAndConsumers (iterations : nat) : list (list (call (A := Z))) :=
  mjoin (replicate iterations [ProducerThread 1; ConsumerBlockingThread 1]).

(** ** One thread

    [BasicTestsWaitableQueue]: what the comparisons compare; a [Pop] of an empty queue
    ends when its time is over. *)
Definition BasicTestsWaitableQueue : prog (list Z) (list bool) :=
  let Pop_timeout := WaitableQueue.Pop_timeout true in
  WaitableQueue.Push 4 ;;
  empty1 ← WaitableQueue.IsEmpty;
  WaitableQueue.Push 6 ;;
  empty2 ← WaitableQueue.IsEmpty;
  element1 ← Pop_timeout;
  element2 ← Pop_timeout;
  element3 ← Pop_timeout;
  WaitableQueue.Push 5 ;; WaitableQueue.Push 6 ;; WaitableQueue.Push 7 ;;
  element4 ← WaitableQueue.Pop;
  element5 ← WaitableQueue.Pop;
  element6 ← WaitableQueue.Pop;
  empty3 ← WaitableQueue.IsEmpty;
  mret [bool_decide (empty1 = false); bool_decide (empty2 = false); bool_decide (element1 = Some 4);
        bool_decide (element2 = Some 6); bool_decide (element3 = None); bool_decide (element4 = 5);
        bool_decide (element5 = 6); bool_decide (element6 = 7); bool_decide (empty3 = true)].

Lemma BasicTests_pass : BasicTestsWaitableQueue [] = (Ok (replicate 9 true), []).
Proof. reflexivity. Qed.

(** ** What is pushed and popped *)

Section clients.
Context {A : Type} {W : Waitable A} {L : WaitableLaws A W}.

Definition is_push (c : call (A := A)) : nat := match c with CallPush _ => 1 | _ => 0 end.
Definition is_pop (c : call (A := A)) : nat := match c with CallPop _ => 1 | _ => 0 end.

(** The calls of a thread that have not taken effect. *)
Definition ahead (t : thread (A := A)) : list call :=
  match at_point t with Notifying | Leaving _ => tail (todo t) | _ => todo t end.

Definition count (f : call -> nat) (t : thread (A := A)) : nat := sum_list (f <$> ahead t).
Definition count_all (f : call -> nat) (programs : list (list (call (A := A)))) : nat :=
  sum_list ((fun l => sum_list (f <$> l)) <$> programs).

(** A thread that waits for an element has pushed its own, and never gives up. *)
Definition producer_first (l : list (call (A := A))) : Prop :=
  exists values n, l = (CallPush <$> values) ++ replicate n (CallPop false).

Definition blocking (t : thread (A := A)) : Prop := CallPop true ∉ todo t.

Lemma change_balance tid t q m t' q' m' new :
  change (W := W) tid t q m t' q' m' new -> agrees t -> blocking t ->
  blocking t' /\ (length q' + count is_push t' + count is_pop t = length q + count is_push t + count is_pop t')%nat.
Proof.
  intros Hc Ha Hb. destruct Hc; unfold agrees, blocking, count, ahead in *; cbn [at_point todo tail] in *;
    try (destruct c); cbn [entry fmap list_fmap is_push is_pop] in *; try done;
    try change (sum_list (?x :: ?l)) with (x + sum_list l)%nat; rewrite ?length_app; cbn [length];
    (split; [first [done|intros Hin; apply Hb; by right]|]); try lia.
  - exfalso. destruct Ha as [<- Ha]. rewrite (Ha eq_refl) in Hb. apply Hb. by left.
  - match goal with E : wq_pop _ _ = _ |- _ => apply wq_pop_length in E end. lia.
Qed.

(** Elements in the queue and to be pushed, against those to be popped. *)
Record balanced (pushes pops : nat) (s : system) : Prop := {
  ba_blocking : forall tid t, threads s !! tid = Some t -> blocking t;
  ba_count : (length (queue s) + total (count is_push) s + pops = total (count is_pop) s + pushes)%nat;
}.

Lemma balanced_after pushes pops s tid t t' q m new :
  balanced pushes pops s -> threads s !! tid = Some t -> change tid t (queue s) (m_mutex s) t' q m new ->
  agrees t -> balanced pushes pops (after tid t' q m new s).
Proof.
  intros [Hb Hc] Ht Hch Ha. destruct (change_balance _ _ _ _ _ _ _ _ Hch Ha (Hb tid t Ht)) as [Hb' Hq].
  pose proof (total_after (count is_push) tid t t' q m new s Ht).
  pose proof (total_after (count is_pop) tid t t' q m new s Ht).
  constructor; [|unfold after at 1; cbn [queue]; lia].
  intros tid' u. unfold after. cbn [threads]. intros [(<- & <- & _)|[_ Hu]]%list_lookup_insert_Some; [done|by eapply Hb].
Qed.

Lemma perform_balanced programs pushes pops x s s' :
  queue_inv programs s -> balanced pushes pops s -> perform x s = (Ok tt, s') -> balanced pushes pops s'.
Proof.
  intros Hinv Hb E.
  assert (Ha : forall tid t, threads s !! tid = Some t -> agrees t)
    by (intros tid t Ht; apply (qi_threads _ _ Hinv tid t Ht)).
  apply perform_moves in E as [(tid & t & t' & q & m & new & Ht & Hc & -> & _)
    |(tid & w & c & l & rs & t & tw & Ht & Hu & Hwt & Hcw & ->)].
  - eapply balanced_after; eauto.
  - assert (Hne : w <> tid) by (intros ->; rewrite Ht in Hu; by injection Hu as <-).
    eapply balanced_after; [eapply balanced_after; eauto| |constructor|by eapply Ha].
    unfold after. cbn [threads]. by rewrite list_lookup_insert_ne.
Qed.

Lemma run_balanced programs pushes pops l s s' :
  queue_inv programs s -> balanced pushes pops s -> run l s = (Ok tt, s') ->
  queue_inv programs s' /\ balanced pushes pops s'.
Proof.
  unfold run. revert s. induction l as [|x l IH]; intros s Hinv Hb E; [by injection E as <-|].
  cbn [for_each] in E. apply bind_ok_inv in E as ([] & s1 & E1 & E).
  apply (IH s1); [by eapply perform_queue_inv|by eapply perform_balanced|done].
Qed.

Lemma start_balanced programs :
  Forall producer_first programs -> balanced (count_all is_push programs) (count_all is_pop programs) (start programs).
Proof.
  intros Hp. constructor.
  - cbn [start threads]. intros tid t Ht. rewrite list_lookup_fmap in Ht. apply fmap_Some in Ht as (l & Hl & ->).
    rewrite Forall_lookup in Hp. destruct (Hp tid l Hl) as (values & n & ->). unfold blocking. cbn [todo].
    rewrite elem_of_app, list_elem_of_fmap. intros [(v & [=] & _)|[=]%elem_of_replicate_inv].
  - assert (Hf : forall f, total (count f) (start programs) = count_all f programs)
      by (intros f; unfold total, count_all; cbn [start threads]; by rewrite <-list_fmap_compose).
    rewrite !Hf. cbn [start queue length]. lia.
Qed.

(** A suffix of a program that begins with a [Pop] pushes nothing. *)
Lemma pop_no_push l before timed rest :
  producer_first l -> l = before ++ CallPop timed :: rest -> sum_list (is_push <$> rest) = 0%nat.
Proof.
  intros (values & n & ->). revert before. induction values as [|v values IH]; intros before E.
  - cbn in E. assert (Hrest : rest = replicate (length rest) (CallPop false)).
    { apply (f_equal (drop (S (length before)))) in E. rewrite drop_replicate, cons_middle, app_assoc in E.
      rewrite drop_app_length' in E by (rewrite length_app; cbn; lia). rewrite <-E. by rewrite length_replicate. }
    rewrite Hrest. generalize (length rest). intros k. clear. induction k as [|k IH]; [done|exact IH].
  - destruct before as [|b before]; [done|]. injection E as _ E. by eapply IH.
Qed.

(** When no thread can go on, and there are enough pushes, all have ended. *)
Lemma clients_end programs l s :
  Forall producer_first programs -> (count_all is_pop programs <= count_all is_push programs)%nat ->
  run l (start programs) = (Ok tt, s) -> stuck s ->
  Forall ended (threads s)
  /\ (length (queue s) + count_all is_pop programs = count_all is_push programs)%nat.
Proof.
  intros Hp Henough E Hstuck.
  destruct (run_balanced programs _ _ l _ s (start_queue_inv programs) (start_balanced programs Hp) E) as [Hinv [_ Hb]].
  assert (Hall : forall tid t, threads s !! tid = Some t -> ended t \/ hangs t) by (intros; by eapply stuck_ended).
  assert (Hnone : total (count is_push) s = 0%nat).
  { unfold total. apply sum_list_fmap_zero. intros tid t Ht. unfold count, ahead.
    destruct (Hall tid t Ht) as [[-> ->]|Hh]; [done|]. rewrite Hh.
    destruct (qi_threads _ _ Hinv tid t Ht) as [Ha _ _ Hprog _]. unfold agrees in Ha. rewrite Hh in Ha.
    destruct (todo t) as [|c rest] eqn:Et; [done|]. destruct c; try done.
    rewrite Forall_lookup in Hp. exact (pop_no_push _ _ _ _ (Hp tid _ Hprog) eq_refl). }
  assert (Hend : Forall ended (threads s)).
  { apply Forall_lookup. intros tid t Ht. destruct (Hall tid t Ht) as [|Hh]; [done|exfalso].
    pose proof (stuck_empty programs s tid t Hinv Hstuck Ht Hh) as Hq. rewrite Hq in Hb. cbn [length] in Hb.
    pose proof (total_after (count is_pop) tid t (mk_thread Outside [] []) [] None [] s Ht) as Htot.
    assert (Hc : (1 <= count is_pop t)%nat); [|unfold count at 4 in Htot; cbn in Htot; lia].
    unfold count, ahead. rewrite Hh.
    destruct (qi_threads _ _ Hinv tid t Ht) as [Ha _ _ _ _]. unfold agrees in Ha. rewrite Hh in Ha.
    destruct (todo t) as [|[] rest]; try done. cbn. lia. }
  split; [done|]. assert (Hpops : total (count is_pop) s = 0%nat); [|lia].
  unfold total. apply sum_list_fmap_zero. intros tid t Ht. rewrite Forall_lookup in Hend.
  destruct (Hend tid t Ht) as [Hpt Htodo]. unfold count, ahead. by rewrite Hpt, Htodo.
Qed.
End clients.

(** ** The order of the elements *)

Definition pushed_values {A} (h : list (nat * (call (A := A) * result (A := A)))) : list A :=
  omap (fun x => match x.2.1 with CallPush v => Some v | _ => None end) h.

Definition popped_values {A} (h : list (nat * (call (A := A) * result (A := A)))) : list A :=
  omap (fun x => match x.2.2 with Popped v => Some v | _ => None end) h.

Lemma fifo_order {A} (h : list (nat * (call (A := A) * result))) q :
  sequential (W := fifo A) h q -> pushed_values h = popped_values h ++ q.
Proof.
  unfold pushed_values, popped_values.
  induction 1 as [|h tid c r q q' _ IH Hd]; [done|]. rewrite !omap_app, IH.
  destruct c as [v|[]|], r as [|x| |b]; try done; cbn in *.
  - injection Hd as <-. by rewrite app_nil_r, <-app_assoc.
  - destruct Hd as (i & Hd). destruct q as [|y q]; [done|]. injection Hd as -> <-.
    by rewrite app_nil_r, <-app_assoc.
  - destruct Hd as [-> (i & Hd)]. injection Hd as <-. by rewrite !app_nil_r.
  - destruct Hd as (i & Hd). destruct q as [|y q]; [done|]. injection Hd as -> <-.
    by rewrite app_nil_r, <-app_assoc.
  - injection Hd as _ <-. by rewrite !app_nil_r.
Qed.

(** ** The tests *)

Lemma producer_is_first n : producer_first (ProducerThread n).
Proof. exists (Z.of_nat <$> seq 1 n), 0%nat. unfold ProducerThread. by rewrite app_nil_r, <-list_fmap_compose. Qed.

Lemma consumer_is_first n : producer_first (ConsumerBlockingThread n).
Proof. by exists [], n. Qed.

Lemma count_all_app (f : call -> nat) (p1 p2 : list (list (call (A := Z)))) :
  count_all f (p1 ++ p2) = (count_all f p1 + count_all f p2)%nat.
Proof. unfold count_all. by rewrite fmap_app, sum_list_with_app. Qed.

Lemma producer_counts n :
  sum_list (is_push <$> ProducerThread n) = n /\ sum_list (is_pop <$> ProducerThread n) = 0%nat.
Proof.
  unfold ProducerThread. rewrite <-!list_fmap_compose. generalize 1%nat. induction n as [|n IH]; intros k; [done|].
  destruct (IH (S k)) as [H1 H2]. split; [exact (f_equal S H1)|exact H2].
Qed.

Lemma consumer_counts n :
  sum_list (is_push <$> ConsumerBlockingThread n) = 0%nat /\ sum_list (is_pop <$> ConsumerBlockingThread n) = n.
Proof.
  unfold ConsumerBlockingThread. induction n as [|n [H1 H2]]; [done|]. split; [exact H1|exact (f_equal S H2)].
Qed.

(** As many pops as pushes. *)
Definition fair (programs : list (list (call (A := Z)))) : Prop :=
  Forall producer_first programs /\ count_all is_pop programs = count_all is_push programs.

Lemma fair_app p1 p2 : fair p1 -> fair p2 -> fair (p1 ++ p2).
Proof.
  intros [F1 C1] [F2 C2]. split; [by apply Forall_app|]. by rewrite !count_all_app, C1, C2.
Qed.

Lemma one_producer_fair n : fair (TestOneProducerAndConsumer n).
Proof.
  split; [repeat constructor; [apply producer_is_first|apply consumer_is_first]|].
  unfold count_all. cbn. destruct (producer_counts n) as [-> ->], (consumer_counts n) as [-> ->]. lia.
Qed.

Lemma multiple_consumers_fair n : fair (TestOneProducerMultipleConsumers n).
Proof.
  split.
  - constructor; [apply producer_is_first|]. apply Forall_replicate, consumer_is_first.
  - unfold count_all, TestOneProducerMultipleConsumers. cbn [fmap list_fmap].
    change (sum_list (?x :: ?l)) with (x + sum_list l)%nat. destruct (producer_counts n) as [-> ->].
    assert (E : forall k, sum_list ((fun l => sum_list (is_push <$> l)) <$> replicate k (ConsumerBlockingThread 1)) = 0%nat
      /\ sum_list ((fun l => sum_list (is_pop <$> l)) <$> replicate k (ConsumerBlockingThread 1)) = k)
      by (induction k as [|k [E1 E2]]; [done|split; [exact E1|exact (f_equal S E2)]]).
    destruct (E n) as [E1 E2]. unfold list_fmap in *. rewrite E1, E2. lia.
Qed.

Lemma multiple_producers_fair n : fair (TestMultipleProducersAndConsumers n).
Proof.
  induction n as [|n IH]; [split; [constructor|done]|].
  change (fair ([ProducerThread 1; ConsumerBlockingThread 1] ++ TestMultipleProducersAndConsumers n)).
  by apply fair_app; [apply (one_producer_fair 1)|].
Qed.

(** ** Properties *)

(** The threads of all three tests end in every interleaving, for any number of
    iterations: a run has a bounded number of steps but for spurious wakeups, and when
    no thread can go on all have ended, the queue is empty, and the elements were
    popped in the order in which they were pushed. *)
Theorem producers_and_consumers_end (programs : list (list (call (A := Z)))) (l : list event) (s : system)
    (Hfair : fair programs) (Hrun : run (W := fifo Z) l (start programs) = (Ok tt, s)) :
  (length l <= sum_list ((fun p => sum_list (cost <$> p)) <$> programs) + 3 * all_spurious l)%nat
  /\ (stuck (W := fifo Z) s ->
        Forall ended (threads s) /\ queue s = [] /\ popped_values (history s) = pushed_values (history s)).
Proof.
  pose proof (fifo_laws Z) as HL. destruct Hfair as [Hp Hc].
  destruct (run_queue_inv programs l _ s (start_queue_inv programs) Hrun) as [Hinv Hlen]. rewrite start_left in Hlen.
  split; [lia|]. intros Hstuck. destruct (clients_end (W := fifo Z) programs l s Hp ltac:(lia) Hrun Hstuck) as [Hend Hq].
  assert (Hnil : queue s = []) by (apply nil_length_inv; lia). split; [done|]. split; [done|].
  rewrite (fifo_order _ _ (qi_history _ _ Hinv)), Hnil. by rewrite app_nil_r.
Qed.
